(** * pytensor: abstract convolution interface and CumOp dispatch

    A shallow embedding of
      - [pytensor/tensor/conv/abstract_conv.py] (shape arithmetic, padding
        normalisation, the [BaseAbstractConv] operator family and the
        composition layer), and
      - [pytensor/link/numba/dispatch/extra_ops.py] ([numba_funcify_CumOp]),
    together with the properties stated about them.

    Python integers are [Z]; Python's [None] is [option]'s [None]; a raised
    exception is the [Raise] branch of [result]. *)

From Stdlib Require Import ZArith List String Ascii Bool Lia QArith DecimalString.
Import ListNotations.
Open Scope Z_scope.

(** ** Python exceptions and fallible computations *)

(** Exceptions raised by a [raise] statement of the source carry the message
    of the source; the ones raised by the interpreter ([TypeError] of an
    unsupported operation, [ZeroDivisionError], [IndexError], the
    [AssertionError] of an [assert]) carry none. *)
Inductive exn : Type :=
| ValueError (msg : string)
| NotImplementedError (msg : string)
| TypeError
| ZeroDivisionError
| IndexError
| AssertionError.

Inductive result (A : Type) : Type :=
| Ok (a : A)
| Raise (e : exn).
Arguments Ok {A} a.
Arguments Raise {A} e.

Definition bind {A B : Type} (m : result A) (k : A -> result B) : result B :=
  match m with
  | Ok a => k a
  | Raise e => Raise e
  end.

Notation "x <- m ;; k" := (bind m (fun x => k))
  (at level 61, m at next level, right associativity).
Notation "' p <- m ;; k" := (bind m (fun x => match x with p => k end))
  (at level 61, p pattern, m at next level, right associativity).

Definition is_ok {A : Type} (m : result A) : bool :=
  match m with Ok _ => true | Raise _ => false end.

Definition is_value_error {A : Type} (m : result A) : bool :=
  match m with Raise (ValueError _) => true | _ => false end.

(** [for x in xs: ...] collecting one fallible result per element. *)
Fixpoint mapM {A B : Type} (f : A -> result B) (xs : list A) : result (list B) :=
  match xs with
  | [] => Ok []
  | x :: xs' => y <- f x ;; ys <- mapM f xs' ;; Ok (y :: ys)
  end.

(** *** Integer operators *)

(** [a // b] on Python integers: floor division, [ZeroDivisionError] when
    [b] is zero.  [Z.div] rounds towards minus infinity, as Python does. *)
Definition py_floordiv (a b : Z) : result Z :=
  if b =? 0 then Raise ZeroDivisionError else Ok (a / b).

(** [a % b] on Python integers. *)
Definition py_mod (a b : Z) : result Z :=
  if b =? 0 then Raise ZeroDivisionError else Ok (a mod b).

(** A Python number is an [int] or a [float].  A float is represented by the
    rational it stands for; rounding to binary64 is not modelled. *)
Inductive pynum : Type :=
| PyInt (z : Z)
| PyFloat (q : Q).

(** [a / b] on Python integers: true division, always a [float]. *)
Definition py_truediv (a b : Z) : result pynum :=
  if b =? 0 then Raise ZeroDivisionError
  else Ok (PyFloat (Qred (inject_Z a / inject_Z b))).

(** [x + k] for an integer [k]. *)
Definition py_add_int (x : pynum) (k : Z) : pynum :=
  match x with
  | PyInt z => PyInt (z + k)
  | PyFloat q => PyFloat (Qred (q + inject_Z k))
  end.

(** *** Sequences *)

(** [l[i]] for [0 <= i]: [IndexError] out of range. *)
Definition py_nth {A : Type} (l : list A) (i : nat) : result A :=
  match nth_error l i with
  | Some a => Ok a
  | None => Raise IndexError
  end.

(** Normalisation of a slice bound against a length [n] (step 1): negative
    bounds count from the end, and the result is clamped to [0, n]. *)
Definition clamp_bound (n i : Z) : Z :=
  let i' := if i <? 0 then i + n else i in
  Z.max 0 (Z.min n i').

(** [l[start:]] *)
Definition py_slice_from {A : Type} (l : list A) (start : Z) : list A :=
  skipn (Z.to_nat (clamp_bound (Z.of_nat (List.length l)) start)) l.

(** [l[:stop]] *)
Definition py_slice_to {A : Type} (l : list A) (stop : Z) : list A :=
  firstn (Z.to_nat (clamp_bound (Z.of_nat (List.length l)) stop)) l.

(** [l[start:stop]] *)
Definition py_slice {A : Type} (l : list A) (start stop : Z) : list A :=
  let n := Z.of_nat (List.length l) in
  let a := clamp_bound n start in
  let b := clamp_bound n stop in
  firstn (Z.to_nat (b - a)) (skipn (Z.to_nat a) l).

(** [len(l)] *)
Definition len {A : Type} (l : list A) : Z := Z.of_nat (List.length l).

(** [range(n)] as natural numbers, to index with. *)
Definition range (n : Z) : list nat := seq 0 (Z.to_nat n).

(** *** [repr] of integers and tuples, for messages *)

(** The double quote character, for messages that contain it. *)
Definition dq : string := String (ascii_of_nat 34) EmptyString.

Definition repr_int (z : Z) : string := NilZero.string_of_int (Z.to_int z).

Fixpoint join_comma (xs : list string) : string :=
  match xs with
  | [] => EmptyString
  | [x] => x
  | x :: xs' => (x ++ ", " ++ join_comma xs')%string
  end.

Definition repr_tuple_of (xs : list string) : string :=
  match xs with
  | [x] => ("(" ++ x ++ ",)")%string
  | _ => ("(" ++ join_comma xs ++ ")")%string
  end.

Definition repr_int_tuple (t : list Z) : string :=
  repr_tuple_of (map repr_int t).

Definition repr_opt_int (o : option Z) : string :=
  match o with Some z => repr_int z | None => "None"%string end.

(** ** Border modes *)

(** What one axis can be given as border mode: a string, an integer, or a
    tuple of integers (a pair, for asymmetric padding). *)
Inductive axis_mode : Type :=
| AStr (s : string)
| AInt (v : Z)
| ATuple (l : list Z).

(** The [border_mode] argument: a string, an integer, or a tuple with one
    entry per axis. *)
Inductive border_mode_t : Type :=
| BStr (s : string)
| BInt (v : Z)
| BTuple (l : list axis_mode).

Definition axis_mode_eqb (a b : axis_mode) : bool :=
  match a, b with
  | AStr s, AStr t => String.eqb s t
  | AInt v, AInt w => v =? w
  | ATuple l, ATuple m =>
      (List.length l =? List.length m)%nat && forallb (fun p => fst p =? snd p) (combine l m)
  | _, _ => false
  end.

Definition repr_axis_mode (m : axis_mode) : string :=
  match m with
  | AStr s => ("'" ++ s ++ "'")%string
  | AInt v => repr_int v
  | ATuple l => repr_int_tuple l
  end.

Definition repr_border_mode (b : border_mode_t) : string :=
  match b with
  | BStr s => s
  | BInt v => repr_int v
  | BTuple l => repr_tuple_of (map repr_axis_mode l)
  end.

(** ** Shape arithmetic (abstract_conv.py, lines 38-430) *)

(** [get_conv_shape_1axis]. *)
Definition get_conv_shape_1axis (image_shape kernel_shape : option Z)
    (border_mode : option axis_mode) (subsample dilation : option Z)
  : result (option Z) :=
  match image_shape, kernel_shape, border_mode, subsample, dilation with
  | Some image_shape, Some kernel_shape, Some border_mode,
    Some subsample, Some dilation =>
      (* Implicit dilated kernel shape *)
      let dil_kernel_shape := (kernel_shape - 1) * dilation + 1 in
      '(pad_l, pad_r) <-
        match border_mode with
        | AStr s =>
            if String.eqb s "half" then
              Ok (dil_kernel_shape / 2, dil_kernel_shape / 2)
            else if String.eqb s "full" then
              Ok (dil_kernel_shape - 1, dil_kernel_shape - 1)
            else if String.eqb s "valid" then Ok (0, 0)
            else (* pad_l < 0 on a string *) Raise TypeError
        | ATuple [pad_l; pad_r] =>
            if (pad_l <? 0) || (pad_r <? 0)
            then Raise (ValueError "border_mode must be >= 0")
            else Ok (pad_l, pad_r)
        | ATuple _ => (* pad_l, pad_r = border_mode *)
            Raise (ValueError "not enough or too many values to unpack")
        | AInt v =>
            if (v <? 0) || (v <? 0)
            then Raise (ValueError "border_mode must be >= 0")
            else Ok (v, v)
        end ;;
      let out_shp := image_shape - dil_kernel_shape in
      let out_shp := if negb (pad_l =? 0) then out_shp + pad_l else out_shp in
      let out_shp := if negb (pad_r =? 0) then out_shp + pad_r else out_shp in
      out_shp <- (if negb (subsample =? 1)
                  then py_floordiv out_shp subsample
                  else Ok out_shp) ;;
      let out_shp := out_shp + 1 in
      Ok (Some out_shp)
  | _, _, _, _, _ => Ok None
  end.

(** [get_conv_gradweights_shape_1axis]. *)
Definition get_conv_gradweights_shape_1axis (image_shape top_shape : option Z)
    (border_mode : option axis_mode) (subsample dilation : option Z)
  : result (option pynum) :=
  match image_shape, top_shape, border_mode, subsample, dilation with
  | Some image_shape, Some top_shape, Some border_mode,
    Some subsample, Some dilation =>
      if negb (subsample =? 1) || axis_mode_eqb border_mode (AStr "half")
      then Ok None
      else
        kernel_shape <-
          (if axis_mode_eqb border_mode (AStr "full") then
             Ok (top_shape - image_shape)
           else if axis_mode_eqb border_mode (AStr "valid") then
             Ok (image_shape - top_shape)
           else
             '(pad_l, pad_r) <-
               match border_mode with
               | ATuple [pad_l; pad_r] =>
                   if (pad_l <? 0) || (pad_r <? 0)
                   then Raise (ValueError "border_mode must be >= 0")
                   else Ok (pad_l, pad_r)
               | ATuple _ =>
                   Raise (ValueError "not enough or too many values to unpack")
               | AInt v =>
                   if (v <? 0) || (v <? 0)
                   then Raise (ValueError "border_mode must be >= 0")
                   else Ok (v, v)
               | AStr _ => (* pad_l < 0 on a string *) Raise TypeError
               end ;;
             Ok (image_shape + pad_l + pad_r - top_shape)) ;;
        kernel_shape <- (if dilation >? 1
                         then py_truediv kernel_shape dilation
                         else Ok (PyInt kernel_shape)) ;;
        Ok (Some (py_add_int kernel_shape 1))
  | _, _, _, _, _ => Ok None
  end.

(** The border mode handed to the single-axis functions for axis [i]:
    [border_mode[i]] when [border_mode] is a tuple, [border_mode] itself
    otherwise. *)
Definition border_mode_at (border_mode : border_mode_t) (i : nat)
  : result axis_mode :=
  match border_mode with
  | BTuple l => py_nth l i
  | BStr s => Ok (AStr s)
  | BInt v => Ok (AInt v)
  end.

(** [get_conv_output_shape]; [filter_dilation = None] stands for ones. *)
Definition get_conv_output_shape (image_shape kernel_shape : list (option Z))
    (border_mode : border_mode_t) (subsample : list Z)
    (filter_dilation : option (list Z)) : result (list (option Z)) :=
  bsize <- py_nth image_shape 0 ;;
  let imshp := py_slice_from image_shape 2 in
  let convdim := len image_shape - 2 in
  nkern <- py_nth kernel_shape 0 ;;
  let kshp := py_slice_from kernel_shape (- convdim) in
  let filter_dilation :=
    match filter_dilation with
    | None => map (fun _ => 1) subsample
    | Some fd => fd
    end in
  out_shp <- mapM (fun i =>
      im <- py_nth imshp i ;;
      k <- py_nth kshp i ;;
      bm <- border_mode_at border_mode i ;;
      s <- py_nth subsample i ;;
      d <- py_nth filter_dilation i ;;
      get_conv_shape_1axis im k (Some bm) (Some s) (Some d))
    (range (len subsample)) ;;
  Ok (bsize :: nkern :: out_shp).

(** ** Padding normaliser (abstract_conv.py, lines 600-659) *)

(** [min(m) >= 0] for a tuple of integers; [min] of an empty tuple raises. *)
Definition min_nonneg (m : list Z) : result bool :=
  match m with
  | [] => Raise (ValueError "min() arg is an empty sequence")
  | _ => Ok (forallb (fun b => 0 <=? b) m)
  end.

(** [border_mode_to_pad]. *)
Definition border_mode_to_pad (mode : border_mode_t) (convdim : Z)
    (kshp : list Z) : result (list (Z * Z)) :=
  match mode with
  | BTuple l =>
      if negb (len l =? convdim) then
        Raise (ValueError ("invalid border_mode " ++ repr_border_mode mode
                 ++ " which must be a tuple of length " ++ repr_int convdim))
      else
        mapM (fun m =>
          match m with
          | AInt v =>
              if 0 <=? v then Ok (v, v)
              else Raise (ValueError ("invalid border mode "
                     ++ repr_border_mode mode
                     ++ ". The tuple can only contain integers or tuples of length 2"))
          | ATuple t =>
              nonneg <- min_nonneg t ;;
              if nonneg then
                match t with
                | [m0; m1] => Ok (m0, m1)
                | _ => Raise (NotImplementedError
                         ("Asymmetric padding not implemented for "
                            ++ repr_int (len t) ++ "d"))
                end
              else Raise (ValueError ("invalid border mode "
                     ++ repr_border_mode mode
                     ++ ". The tuple can only contain integers or tuples of length 2"))
          | AStr _ =>
              Raise (ValueError ("invalid border mode "
                     ++ repr_border_mode mode
                     ++ ". The tuple can only contain integers or tuples of length 2"))
          end) l
  | BStr s =>
      if String.eqb s "full" then
        mapM (fun i => k <- py_nth kshp i ;; Ok (k - 1, k - 1)) (range convdim)
      else if String.eqb s "half" then
        mapM (fun i => k <- py_nth kshp i ;; Ok (k / 2, k / 2)) (range convdim)
      else if String.eqb s "valid" then
        Ok (repeat (0, 0) (Z.to_nat convdim))
      else
        Raise (ValueError ("invalid border_mode " ++ repr_border_mode mode
                 ++ ", which must be either " ++ dq ++ "valid" ++ dq ++ ", "
                 ++ dq ++ "full" ++ dq ++ ", " ++ dq ++ "half" ++ dq
                 ++ ", an integer or a tuple of length " ++ repr_int convdim))
  | BInt _ =>
      Raise (ValueError ("invalid border_mode " ++ repr_border_mode mode
               ++ ", which must be either " ++ dq ++ "valid" ++ dq ++ ", "
               ++ dq ++ "full" ++ dq ++ ", " ++ dq ++ "half" ++ dq
               ++ ", an integer or a tuple of length " ++ repr_int convdim))
  end.

(** ** The operator parameter block (abstract_conv.py, lines 2049-2241) *)

(** An entry of [imshp] or [kshp] that is not [None]: an integer (or a
    constant holding one), or a variable that is no compile-time constant. *)
Inductive dim : Type :=
| DimInt (z : Z)
| DimSym (name : string).

(** The [__props__] of [BaseAbstractConv]. *)
Record ConvOp : Type := mkConvOp {
  convdim : Z;
  border_mode : border_mode_t;
  subsample : list Z;
  filter_flip : bool;
  imshp : list (option dim);
  kshp : list (option dim);
  filter_dilation : list Z;
  num_groups : Z;
  unshared : bool
}.

(** [get_scalar_constant_value(shp_i, only_process_constants=True)] inside the
    [try] of [__init__]: the [ValueError] of the [except] branch when an entry
    is not a constant. *)
Definition check_constant_shape (what : string) (shp : list (option dim))
  : result unit :=
  _ <- mapM (fun e =>
         match e with
         | None => Ok tt
         | Some (DimInt _) => Ok tt
         | Some (DimSym _) =>
             Raise (ValueError
                      (what ++ " should be None or a tuple of constant int values"))
         end) shp ;;
  Ok tt.

(** The [for mode in border_mode] loop of [__init__], one iteration. *)
Definition normalize_axis_mode (convdim : Z) (whole : border_mode_t)
    (mode : axis_mode) : result axis_mode :=
  let valid :=
    match mode with
    | AInt v => 0 <=? v
    | ATuple t => (len t =? 2) && forallb (fun b => 0 <=? b) t
    | AStr _ => false
    end in
  if negb valid then
    Raise (ValueError ("invalid border mode " ++ repr_border_mode whole
             ++ ". The tuple can only contain integers  or pairs of integers"))
  else
    match mode with
    | ATuple t =>
        if negb (convdim =? 2) then
          Raise (NotImplementedError ("Asymmetric padding not implemented for "
                   ++ repr_int convdim ++ "D"))
        else
          match t with
          | [m0; m1] => if m0 =? m1 then Ok (AInt m0) else Ok mode
          | _ => Ok mode
          end
    | _ => Ok mode
    end.

(** The normalisation of [border_mode] in [__init__] (lines 2154-2200): the
    [isinstance] chain, then the rewriting of an all-zero tuple to
    ["valid"]. *)
Definition normalize_border_mode (convdim : Z) (border_mode : border_mode_t)
  : result border_mode_t :=
  border_mode' <-
    match border_mode with
    | BInt v =>
        if v <? 0 then
          Raise (ValueError ("invalid border_mode " ++ repr_border_mode border_mode
                   ++ ", which must be a non-negative integer"))
        else Ok (BTuple (repeat (AInt v) (Z.to_nat convdim)))
    | BTuple l =>
        if negb (len l =? convdim) then
          Raise (ValueError ("invalid border_mode " ++ repr_border_mode border_mode
                   ++ ", which must be a tuple of length " ++ repr_int convdim))
        else
          new_border_mode <- mapM (normalize_axis_mode convdim border_mode) l ;;
          Ok (BTuple new_border_mode)
    | BStr s =>
        if negb (String.eqb s "valid" || String.eqb s "full" || String.eqb s "half")
        then
          Raise (ValueError ("invalid border_mode " ++ repr_border_mode border_mode
                   ++ ", which must be either " ++ dq ++ "valid" ++ dq ++ ", "
                   ++ dq ++ "full" ++ dq ++ ", " ++ dq ++ "half" ++ dq
                   ++ ", an integer or a tuple of length " ++ repr_int convdim))
        else Ok border_mode
    end ;;
  Ok match border_mode' with
     | BTuple l =>
         if forallb (fun mode => axis_mode_eqb mode (ATuple [0; 0])
                                 || axis_mode_eqb mode (AInt 0)) l
         then BStr "valid" else border_mode'
     | _ => border_mode'
     end.

(** [BaseAbstractConv.__init__]; an argument that defaults to [None] is an
    [option]. *)
Definition BaseAbstractConv_init (convdim : Z)
    (imshp kshp : option (list (option dim))) (border_mode : border_mode_t)
    (subsample : option (list Z)) (filter_flip : bool)
    (filter_dilation : option (list Z)) (num_groups : Z) (unshared : bool)
  : result ConvOp :=
  if negb ((convdim =? 2) || (convdim =? 3)) then
    Raise (ValueError "convolution dimension {} is not supported")
  else
  let subsample :=
    match subsample with
    | None => repeat 1 (Z.to_nat convdim)
    | Some s => s
    end in
  let filter_dilation :=
    match filter_dilation with
    | None => repeat 1 (Z.to_nat convdim)
    | Some d => d
    end in
  border_mode <- normalize_border_mode convdim border_mode ;;
  let imshp :=
    match imshp with
    | Some shp => shp
    | None => repeat None (Z.to_nat (2 + convdim))
    end in
  _ <- check_constant_shape "imshp" imshp ;;
  let kshp :=
    match kshp with
    | Some shp => shp
    | None => repeat None (Z.to_nat (if unshared then 2 + 2 * convdim
                                     else 2 + convdim))
    end in
  _ <- check_constant_shape "kshp" kshp ;;
  if negb (len subsample =? convdim) then
    Raise (ValueError ("subsample must have " ++ repr_int convdim ++ " elements"))
  else if negb (len filter_dilation =? convdim) then
    Raise (ValueError ("filter_dilation must have " ++ repr_int convdim
             ++ " elements"))
  else if num_groups <? 1 then
    Raise (ValueError "num_groups must have value greater than zero")
  else if unshared && negb (convdim =? 2) then
    Raise (NotImplementedError ("Unshared convolution not implemented for "
             ++ repr_int convdim ++ "D"))
  else
    Ok {| convdim := convdim; border_mode := border_mode;
          subsample := subsample; filter_flip := filter_flip;
          imshp := imshp; kshp := kshp; filter_dilation := filter_dilation;
          num_groups := num_groups; unshared := unshared |}.

(** [AbstractConv2d.__init__], [AbstractConv2d_gradInputs.__init__] and
    [AbstractConv2d_gradWeights.__init__]: the base constructor at
    [convdim=2]; the three classes differ by their methods only. *)
Definition AbstractConv2d_init (imshp kshp : option (list (option dim)))
    (border_mode : border_mode_t) (subsample : list Z) (filter_flip : bool)
    (filter_dilation : list Z) (num_groups : Z) (unshared : bool)
  : result ConvOp :=
  BaseAbstractConv_init 2 imshp kshp border_mode (Some subsample) filter_flip
    (Some filter_dilation) num_groups unshared.

(** [AbstractConv3d.__init__] and its two gradient classes: [convdim=3], no
    [unshared] argument. *)
Definition AbstractConv3d_init (imshp kshp : option (list (option dim)))
    (border_mode : border_mode_t) (subsample : list Z) (filter_flip : bool)
    (filter_dilation : list Z) (num_groups : Z) : result ConvOp :=
  BaseAbstractConv_init 3 imshp kshp border_mode (Some subsample) filter_flip
    (Some filter_dilation) num_groups false.

(** ** Composition layer *)

(** [causal_conv1d] (lines 1705-1739), up to the operator it constructs; the
    node that applies the operator to the reshaped tensors belongs to the
    graph framework.  The tensors enter by their [ndim]. *)
Definition causal_conv1d (input_ndim filters_ndim : Z)
    (filter_shape : list (option dim))
    (input_shape : option (list (option dim))) (subsample : Z)
    (filter_flip : bool) (filter_dilation : Z) (num_groups : Z)
    (unshared : bool) : result ConvOp :=
  if negb (input_ndim =? 3) then
    Raise (ValueError "Input should be 3D for causal convolution.")
  else if negb (filters_ndim =? 3) then
    Raise (ValueError "Filters should be 3D for causal convolution")
  else
  input_shape <-
    match input_shape with
    | Some shp =>
        if len shp =? 3 then Ok (Some (shp ++ [Some (DimInt 1)]))
        else Raise AssertionError
    | None => Ok None
    end ;;
  if negb (len filter_shape =? 3) then Raise AssertionError else
  let filter_shape := filter_shape ++ [Some (DimInt 1)] in
  k <- py_nth filter_shape 2 ;;
  match k with
  | None => (* None - 1 *) Raise TypeError
  | Some (DimSym _) =>
      (* a symbolic left_pad is no int: rejected by __init__ *)
      Raise (ValueError "invalid border mode. The tuple can only contain integers  or pairs of integers")
  | Some (DimInt k) =>
      let left_pad := filter_dilation * (k - 1) in
      let subsample := [subsample; 1] in
      let filter_dilation := [filter_dilation; 1] in
      AbstractConv2d_init input_shape (Some filter_shape)
        (BTuple [ATuple [left_pad; 0]; AInt 0]) subsample filter_flip
        filter_dilation num_groups unshared
  end.

(** A fractional ratio: one [(numerator, denominator)] pair, or one pair per
    spatial axis. *)
Inductive frac_ratio_t : Type :=
| FracRatio (numerator denominator : Z)
| FracRatios (row col : Z * Z).

(** What [bilinear_upsampling] goes on to build once its arguments are
    accepted. *)
Inductive upsampling_graph : Type :=
| FracBilinearUpsampling (frac_ratio : frac_ratio_t)
| Upsampling1DKernels (ratio : Z)
| Upsampling2DKernel (ratio : Z).

(** Truth value of an optional integer: [None] and [0] are false. *)
Definition truthy_int (o : option Z) : bool :=
  match o with
  | Some z => negb (z =? 0)
  | None => false
  end.

(** Truth value of an optional fractional ratio: a pair is never empty. *)
Definition truthy_frac (o : option frac_ratio_t) : bool :=
  match o with
  | Some _ => true
  | None => false
  end.

(** [bilinear_upsampling] (lines 1971-2042): the argument checks and the
    choice of the graph to build. *)
Definition bilinear_upsampling (ratio : option Z)
    (frac_ratio : option frac_ratio_t) (use_1D_kernel : bool)
  : result upsampling_graph :=
  if truthy_int ratio && truthy_frac frac_ratio then
    Raise (ValueError "can't use ratio and frac_ratio together")
  else if negb (truthy_int ratio || truthy_frac frac_ratio) then
    Raise (ValueError "No ratio (or frac_ratio) provided")
  else
    match frac_ratio with
    | Some fr =>
        if use_1D_kernel then
          Raise (ValueError "For fractional ratios 1D kernel method not implemented. You may want to pass use_1D_kernel as False")
        else Ok (FracBilinearUpsampling fr)
    | None =>
        match ratio with
        | Some r =>
            if use_1D_kernel then Ok (Upsampling1DKernels r)
            else Ok (Upsampling2DKernel r)
        | None => Raise TypeError
        end
    end.

(** ** Arrays

    A NumPy array is its shape and the element at each multi-index; what
    [item] gives outside of the shape is of no concern.  The elements are
    taken in a commutative ring, to compute exactly. *)

Class Scalar (R : Type) : Type := {
  rzero : R;
  rone : R;
  radd : R -> R -> R;
  rmul : R -> R -> R;
  rsub : R -> R -> R;
  ropp : R -> R;
  scalar_ring : ring_theory rzero rone radd rmul rsub ropp (@eq R)
}.

#[export] Instance Z_Scalar : Scalar Z := {
  rzero := 0; rone := 1; radd := Z.add; rmul := Z.mul; rsub := Z.sub;
  ropp := Z.opp; scalar_ring := Zth
}.

Record ndarray (R : Type) : Type := mk_ndarray {
  shape : list Z;
  item : list Z -> R
}.
Arguments mk_ndarray {R} shape item.
Arguments shape {R} n.
Arguments item {R} n idx.

Definition ndim {R : Type} (a : ndarray R) : Z := len (shape a).

(** [t[i]] on a tuple, for an integer [i] of any sign. *)
Definition py_index {A : Type} (l : list A) (i : Z) : result A :=
  let i' := if i <? 0 then i + len l else i in
  if i' <? 0 then Raise IndexError else py_nth l (Z.to_nat i').

Definition shape_eqb (s t : list Z) : bool :=
  (List.length s =? List.length t)%nat
  && forallb (fun p => fst p =? snd p) (combine s t).

(** [tuple(s) == tuple(t)] for a tuple of integers and one of optional
    integers. *)
Definition list_eqb_opt (s : list Z) (t : list (option Z)) : bool :=
  (List.length s =? List.length t)%nat
  && forallb (fun p => match snd p with
                       | Some n => fst p =? n
                       | None => false
                       end) (combine s t).

(** The product of the sizes. *)
Definition size_of (shp : list Z) : Z := fold_right Z.mul 1 shp.

(** *** Sums *)

Section Sums.
Context {R : Type} `{Scalar R}.

(** The sum of [f 0], ..., [f (n - 1)]. *)
Fixpoint sum_upto (n : nat) (f : Z -> R) : R :=
  match n with
  | O => rzero
  | S k => radd (sum_upto k f) (f (Z.of_nat k))
  end.

Definition sum_range (n : Z) (f : Z -> R) : R := sum_upto (Z.to_nat n) f.

(** The sum of [f] over the multi-indices of a shape. *)
Fixpoint sum_box (shp : list Z) (f : list Z -> R) : R :=
  match shp with
  | [] => f []
  | n :: shp' => sum_range n (fun i => sum_box shp' (fun t => f (i :: t)))
  end.

(** [np.sum(np.multiply(a, b))] for arrays of one shape; also the inner
    product of two arrays. *)
Definition dot (a b : ndarray R) : R :=
  sum_box (shape a) (fun i => rmul (item a i) (item b i)).
End Sums.

(** *** Creation and elementwise operations *)

Section Elementwise.
Context {R : Type} `{Scalar R}.

(** The array of zeros of a shape. *)
Definition zeros_array (shp : list Z) : ndarray R :=
  mk_ndarray shp (fun _ => rzero).

(** [np.zeros(shape)] *)
Definition np_zeros (shp : list Z) : result (ndarray R) :=
  if existsb (fun n => n <? 0) shp
  then Raise (ValueError "negative dimensions are not allowed")
  else Ok (zeros_array shp).

(** [a + b] for arrays of one shape; another shape is not broadcast. *)
Definition np_add (a b : ndarray R) : result (ndarray R) :=
  if shape_eqb (shape a) (shape b)
  then Ok (mk_ndarray (shape a) (fun i => radd (item a i) (item b i)))
  else Raise (ValueError "operands could not be broadcast together").

(** [a * b] for arrays of one shape. *)
Definition np_multiply (a b : ndarray R) : result (ndarray R) :=
  if shape_eqb (shape a) (shape b)
  then Ok (mk_ndarray (shape a) (fun i => rmul (item a i) (item b i)))
  else Raise (ValueError "operands could not be broadcast together").

(** [c * a] for a scalar [c]. *)
Definition np_scale (c : R) (a : ndarray R) : ndarray R :=
  mk_ndarray (shape a) (fun i => rmul c (item a i)).

(** [np.sum(a)] *)
Definition np_sum (a : ndarray R) : R := sum_box (shape a) (item a).
End Elementwise.

(** *** Basic indexing *)

Inductive index : Type :=
| Idx (i : Z)
| Slc (start stop step : option Z)
| Ellipsis.

(** [slice(None)] *)
Definition slice_all : index := Slc None None None.
(** [slice(None, None, step)] *)
Definition slice_step (step : Z) : index := Slc None None (Some step).
(** [slice(start, stop)] *)
Definition slice_range (start stop : Z) : index := Slc (Some start) (Some stop) None.

(** What an index selects on one axis: one position, or the positions
    [start], [start + step], ..., [count] of them. *)
Inductive axis_view : Type :=
| Fixed (i : Z)
| Strided (start step count : Z).

(** [slice.indices(n)]: a bound that is given is taken from the end when
    negative and clamped; one that is not is the end of the axis the step
    walks from, or to. *)
Definition slice_bound (given : option Z) (default lower upper n : Z) : Z :=
  match given with
  | None => default
  | Some b => if b <? 0 then Z.max (b + n) lower else Z.min b upper
  end.

(** The length of [range(start, stop, step)]. *)
Definition slice_count (start stop step : Z) : Z :=
  if step <? 0
  then (if stop <? start then (start - stop - 1) / (- step) + 1 else 0)
  else (if start <? stop then (stop - start - 1) / step + 1 else 0).

Definition slice_view (start stop step : option Z) (n : Z) : result axis_view :=
  let step := match step with Some s => s | None => 1 end in
  if step =? 0 then Raise (ValueError "slice step cannot be zero") else
  let lower := if step <? 0 then -1 else 0 in
  let upper := if step <? 0 then n - 1 else n in
  let start := slice_bound start (if step <? 0 then upper else lower)
                 lower upper n in
  let stop := slice_bound stop (if step <? 0 then lower else upper)
                lower upper n in
  Ok (Strided start step (slice_count start stop step)).

Definition index_view (ix : index) (n : Z) : result axis_view :=
  match ix with
  | Idx i =>
      let i' := if i <? 0 then i + n else i in
      if (i' <? 0) || (n <=? i') then Raise IndexError else Ok (Fixed i')
  | Slc start stop step => slice_view start stop step n
  | Ellipsis => Raise IndexError
  end.

Definition is_ellipsis (ix : index) : bool :=
  match ix with Ellipsis => true | _ => false end.

(** An ellipsis stands for the full slices that complete the index; so do
    the axes that the index does not reach. *)
Fixpoint expand_ellipsis (fill : nat) (ixs : list index) : list index :=
  match ixs with
  | [] => repeat slice_all fill
  | Ellipsis :: rest => repeat slice_all fill ++ rest
  | ix :: rest => ix :: expand_ellipsis fill rest
  end.

Fixpoint axis_views (ixs : list index) (shp : list Z) : result (list axis_view) :=
  match ixs, shp with
  | [], [] => Ok []
  | ix :: ixs', n :: shp' =>
      v <- index_view ix n ;; vs <- axis_views ixs' shp' ;; Ok (v :: vs)
  | _, _ => Raise IndexError
  end.

(** The views of an index expression on an array of shape [shp]. *)
Definition index_views (shp : list Z) (ixs : list index) : result (list axis_view) :=
  let given := List.length (filter (fun ix => negb (is_ellipsis ix)) ixs) in
  if (List.length shp <? given)%nat then Raise IndexError
  else axis_views (expand_ellipsis (List.length shp - given) ixs) shp.

Fixpoint view_shape (vs : list axis_view) : list Z :=
  match vs with
  | [] => []
  | Fixed _ :: vs' => view_shape vs'
  | Strided _ _ count :: vs' => count :: view_shape vs'
  end.

(** The position in the array of the element [j] of the selection. *)
Fixpoint view_index (vs : list axis_view) (j : list Z) : list Z :=
  match vs with
  | [] => []
  | Fixed i :: vs' => i :: view_index vs' j
  | Strided start step _ :: vs' =>
      match j with
      | [] => start :: view_index vs' []
      | jk :: j' => (start + step * jk) :: view_index vs' j'
      end
  end.

(** Is the position [i] of the array in the selection, *)
Fixpoint in_view (vs : list axis_view) (i : list Z) : bool :=
  match vs, i with
  | [], [] => true
  | Fixed k :: vs', ik :: i' => (ik =? k) && in_view vs' i'
  | Strided start step count :: vs', ik :: i' =>
      ((ik - start) mod step =? 0)
      && (0 <=? (ik - start) / step) && ((ik - start) / step <? count)
      && in_view vs' i'
  | _, _ => false
  end.

(** and which element of the selection is it. *)
Fixpoint view_inverse (vs : list axis_view) (i : list Z) : list Z :=
  match vs, i with
  | Fixed _ :: vs', _ :: i' => view_inverse vs' i'
  | Strided start step _ :: vs', ik :: i' =>
      (ik - start) / step :: view_inverse vs' i'
  | _, _ => []
  end.

Section Indexing.
Context {R : Type} `{Scalar R}.

(** The selection of the views [vs] out of [a]. *)
Definition gather (vs : list axis_view) (a : ndarray R) : ndarray R :=
  mk_ndarray (view_shape vs) (fun j => item a (view_index vs j)).

(** [a] with the selection of the views [vs] replaced by [v]. *)
Definition overwrite (a : ndarray R) (vs : list axis_view) (v : ndarray R)
  : ndarray R :=
  mk_ndarray (shape a)
    (fun i => if in_view vs i then item v (view_inverse vs i) else item a i).

(** [a[ixs]] where the result is an array. *)
Definition getitem (a : ndarray R) (ixs : list index) : result (ndarray R) :=
  vs <- index_views (shape a) ixs ;;
  Ok (gather vs a).

(** [a[i0, i1, ...]] with one integer per axis: an element. *)
Definition getscalar (a : ndarray R) (ixs : list Z) : result R :=
  vs <- index_views (shape a) (map Idx ixs) ;;
  match view_shape vs with
  | [] => Ok (item a (view_index vs []))
  | _ => Raise IndexError
  end.

(** [a[ixs] = v] for [v] of the shape of the selection; a value of another
    shape is not broadcast. *)
Definition setitem (a : ndarray R) (ixs : list index) (v : ndarray R)
  : result (ndarray R) :=
  vs <- index_views (shape a) ixs ;;
  if shape_eqb (view_shape vs) (shape v)
  then Ok (overwrite a vs v)
  else Raise (ValueError "could not broadcast input array").

(** [a[i0, i1, ...] = c] for an element [c]. *)
Definition setscalar (a : ndarray R) (ixs : list Z) (c : R)
  : result (ndarray R) :=
  vs <- index_views (shape a) (map Idx ixs) ;;
  match view_shape vs with
  | [] => Ok (mk_ndarray (shape a)
                (fun i => if in_view vs i then c else item a i))
  | _ => Raise IndexError
  end.

(** [a[ixs] += v] *)
Definition iadd_item (a : ndarray R) (ixs : list index) (v : ndarray R)
  : result (ndarray R) :=
  cur <- getitem a ixs ;;
  new <- np_add cur v ;;
  setitem a ixs new.

(** *** Transposition and reshaping *)

(** The position of [p] in [axes]. *)
Fixpoint position_of (p : nat) (axes : list nat) : nat :=
  match axes with
  | [] => O
  | ax :: axes' => if (ax =? p)%nat then O else S (position_of p axes')
  end.

(** [axes] holds each of [0], ..., [n - 1] once. *)
Definition is_permutation (axes : list nat) (n : nat) : bool :=
  (List.length axes =? n)%nat
  && forallb (fun p => existsb (Nat.eqb p) axes) (seq 0 n).

(** [a.transpose(axes)] *)
Definition np_transpose (a : ndarray R) (axes : list nat) : result (ndarray R) :=
  if is_permutation axes (List.length (shape a)) then
    Ok (mk_ndarray
          (map (fun ax => nth ax (shape a) 0) axes)
          (fun j => item a (map (fun p => nth (position_of p axes) j 0)
                                (seq 0 (List.length (shape a))))))
  else Raise (ValueError "axes don't match array").
End Indexing.

(** Row-major position of a multi-index in an array of shape [shp], and
    back. *)
Fixpoint ravel (shp : list Z) (j : list Z) : Z :=
  match shp, j with
  | _ :: shp', jk :: j' => jk * size_of shp' + ravel shp' j'
  | _, _ => 0
  end.

Fixpoint unravel (shp : list Z) (k : Z) : list Z :=
  match shp with
  | [] => []
  | _ :: shp' => k / size_of shp' :: unravel shp' (k mod size_of shp')
  end.

Section Reshape.
Context {R : Type} `{Scalar R}.

(** [a.reshape(newshape)], all sizes given. *)
Definition np_reshape (a : ndarray R) (newshape : list Z) : result (ndarray R) :=
  if existsb (fun n => n <? 0) newshape
     || negb (size_of newshape =? size_of (shape a))
  then Raise (ValueError "cannot reshape array")
  else Ok (mk_ndarray newshape
             (fun j => item a (unravel (shape a) (ravel newshape j)))).
End Reshape.

(** *** Loops *)

(** [for i in range(n): s = body(i, s)], stopping at the first exception. *)
Fixpoint for_upto {S : Type} (n : nat) (body : Z -> S -> result S) (s : S)
  : result S :=
  match n with
  | O => Ok s
  | S k => s' <- for_upto k body s ;; body (Z.of_nat k) s'
  end.

Definition for_range {S : Type} (n : Z) (body : Z -> S -> result S) (s : S)
  : result S :=
  for_upto (Z.to_nat n) body s.

(** [for i in range(lo, hi): s = body(i, s)] *)
Definition for_range_from {S : Type} (lo hi : Z) (body : Z -> S -> result S)
    (s : S) : result S :=
  for_range (hi - lo) (fun i => body (lo + i)) s.

(** The values of an array in row-major order, to look at it. *)
Fixpoint box_indices (shp : list Z) : list (list Z) :=
  match shp with
  | [] => [[]]
  | n :: shp' =>
      flat_map (fun i => map (cons (Z.of_nat i)) (box_indices shp'))
               (seq 0 (Z.to_nat n))
  end.

Definition to_list {R : Type} (a : ndarray R) : list R :=
  map (item a) (box_indices (shape a)).

(** [np.array(values).reshape(shp)] for a flat list of values. *)
Definition of_list {R : Type} (default : R) (shp : list Z) (values : list R)
  : ndarray R :=
  mk_ndarray shp (fun j => nth (Z.to_nat (ravel shp j)) values default).

(** ** CumOp (extra_ops.py, lines 34-97) *)

Inductive cum_mode : Type := CumAdd | CumMul.

Section CumOp.
Context {R : Type} `{Scalar R}.

(** [np.cumsum(x)] and [np.cumprod(x)] without axis: over the raveled
    array. *)
Definition np_cum_flat (op : R -> R -> R) (unit : R) (x : ndarray R)
  : ndarray R :=
  let n := size_of (shape x) in
  let at_flat (k : Z) := item x (unravel (shape x) k) in
  mk_ndarray [n]
    (fun j => match j with
              | [k] => fold_left (fun acc m => op acc (at_flat (Z.of_nat m)))
                         (seq 0 (Z.to_nat (k + 1))) unit
              | _ => unit
              end).

(** The loop [res[0] = x_axis_first[0]; for m in range(1, n):
    res[m] = res[m - 1] op x_axis_first[m]] on a fresh [res]. *)
Definition cum_loop (op : R -> R -> R) (x_axis_first : ndarray R) (n : Z)
  : result (ndarray R) :=
  let res := mk_ndarray (shape x_axis_first) (fun _ => rzero) in
  first <- getitem x_axis_first [Idx 0] ;;
  res <- setitem res [Idx 0] first ;;
  for_range_from 1 n
    (fun m res =>
       prev <- getitem res [Idx (m - 1)] ;;
       cur <- getitem x_axis_first [Idx m] ;;
       new <- (if shape_eqb (shape prev) (shape cur)
               then Ok (mk_ndarray (shape prev)
                          (fun i => op (item prev i) (item cur i)))
               else Raise (ValueError "operands could not be broadcast together")) ;;
       setitem res [Idx m] new)
    res.

(** [numba_funcify_CumOp]: the function [cumop] it returns for an operator
    of the given [axis] and [mode] on a node whose output has [ndim]
    dimensions. *)
Definition numba_funcify_CumOp (axis : option Z) (mode : cum_mode) (ndim : Z)
  : result (ndarray R -> result (ndarray R)) :=
  axes <-
    match axis with
    | Some axis =>
        let axis := if axis <? 0 then ndim + axis else axis in
        if (axis <? 0) || (ndim <=? axis) then
          Raise (ValueError ("Invalid axis " ++ repr_int axis
                   ++ " for array with ndim " ++ repr_int ndim))
        else
          let reaxis_first :=
            Z.to_nat axis
            :: filter (fun i => negb (i =? Z.to_nat axis)%nat) (range ndim) in
          (* np.argsort of a permutation is its inverse *)
          let reaxis_first_inv :=
            map (fun p => position_of p reaxis_first) (range ndim) in
          Ok (Some (axis, reaxis_first, reaxis_first_inv))
    | None => Ok None
    end ;;
  match mode with
  | CumAdd =>
      match axes with
      | Some (axis, reaxis_first, reaxis_first_inv) =>
          if ndim =? 1 then Ok (fun x => Ok (np_cum_flat radd rzero x))
          else
            Ok (fun x =>
              n <- py_index (shape x) axis ;;
              if n <? 2 then Ok x
              else
                x_axis_first <- np_transpose x reaxis_first ;;
                res <- cum_loop radd x_axis_first n ;;
                np_transpose res reaxis_first_inv)
      | None => Ok (fun x => Ok (np_cum_flat radd rzero x))
      end
  | CumMul =>
      match axes with
      | Some (axis, reaxis_first, reaxis_first_inv) =>
          if ndim =? 1 then Ok (fun x => Ok (np_cum_flat rmul rone x))
          else
            Ok (fun x =>
              n <- py_index (shape x) axis ;;
              if n <? 2 then Ok x
              else
                x_axis_first <- np_transpose x reaxis_first ;;
                res <- cum_loop rmul x_axis_first n ;;
                np_transpose res reaxis_first)
      | None => Ok (fun x => Ok (np_cum_flat rmul rone x))
      end
  end.

(** The operator applied: [numba_funcify_CumOp(op, node)(x)]. *)
Definition cumop (axis : option Z) (mode : cum_mode) (x : ndarray R)
  : result (ndarray R) :=
  f <- numba_funcify_CumOp axis mode (ndim x) ;;
  f x.

(** What [np.cumsum(x, axis)] and [np.cumprod(x, axis)] are: element [j] is
    the sum, or the product, of the elements of [x] at [j] with the
    coordinate of the axis running from [0] to its value in [j]. *)
Definition set_nth (j : list Z) (axis : nat) (v : Z) : list Z :=
  firstn axis j ++ v :: skipn (S axis) j.

Definition np_cum_axis (op : R -> R -> R) (x : ndarray R) (axis : nat)
  : ndarray R :=
  mk_ndarray (shape x)
    (fun j =>
       fold_left (fun acc m => op acc (item x (set_nth j axis (Z.of_nat m))))
         (seq 1 (Z.to_nat (nth axis j 0)))
         (item x (set_nth j axis 0))).
End CumOp.

(** ** SciPy's convolutions

    [scipy.signal.convolve] and the [_convolve2d] behind
    [scipy.signal.convolve2d] are no code of pytensor.  They are modelled
    from SciPy's documentation, N-dimensional discrete convolution with zero
    fill, for non-empty arrays and, in valid mode, a first array at least as
    large as the second on every axis: the arrays that the operators hand
    them when the shapes of a convolution are positive.  Anything else is
    reported as a [ValueError]. *)

Definition vadd (a b : list Z) : list Z := map (fun p => fst p + snd p) (combine a b).
Definition vsub (a b : list Z) : list Z := map (fun p => fst p - snd p) (combine a b).

(** Is the multi-index inside of the shape. *)
Definition in_box (shp : list Z) (j : list Z) : bool :=
  (List.length shp =? List.length j)%nat
  && forallb (fun p => (0 <=? snd p) && (snd p <? fst p)) (combine shp j).

Section SciPy.
Context {R : Type} `{Scalar R}.

(** Valid mode: the positions where [in2] lies inside of [in1]. *)
Definition convolve_valid (in1 in2 : ndarray R) : ndarray R :=
  mk_ndarray
    (map (fun p => fst p - snd p + 1) (combine (shape in1) (shape in2)))
    (fun x =>
       sum_box (shape in2)
         (fun m => rmul (item in1 (vsub (vadd x (map (fun n => n - 1)
                                                  (shape in2))) m))
                        (item in2 m))).

(** Full mode: every position where [in2] meets [in1]. *)
Definition convolve_full (in1 in2 : ndarray R) : ndarray R :=
  mk_ndarray
    (map (fun p => fst p + snd p - 1) (combine (shape in1) (shape in2)))
    (fun x =>
       sum_box (shape in2)
         (fun m => if in_box (shape in1) (vsub x m)
                   then rmul (item in1 (vsub x m)) (item in2 m)
                   else rzero)).

Definition scipy_convolve (in1 in2 : ndarray R) (mode : string)
  : result (ndarray R) :=
  if negb (List.length (shape in1) =? List.length (shape in2))%nat
     || existsb (fun n => n <? 1) (shape in1)
     || existsb (fun n => n <? 1) (shape in2)
  then Raise (ValueError "convolve: unsupported arguments")
  else if String.eqb mode "valid" then
    if existsb (fun p => fst p <? snd p) (combine (shape in1) (shape in2))
    then Raise (ValueError "convolve: unsupported arguments")
    else Ok (convolve_valid in1 in2)
  else if String.eqb mode "full" then Ok (convolve_full in1 in2)
  else Raise (ValueError "convolve: unsupported arguments").

(** [_convolve2d(in1, in2, 1, _valfrommode(mode), _bvalfromboundary("fill"), 0)] *)
Definition convolve2d (in1 in2 : ndarray R) (mode : string)
  : result (ndarray R) :=
  if negb (ndim in1 =? 2) || negb (ndim in2 =? 2)
  then Raise (ValueError "convolve2d inputs must both be 2-D arrays")
  else scipy_convolve in1 in2 mode.
End SciPy.

(** ** The reference convolution (abstract_conv.py, lines 2269-2423) *)

(** A [dilation] argument: an integer or a tuple. *)
Inductive dilation_arg : Type :=
| DilInt (d : Z)
| DilTuple (l : list Z).

(** A shape whose entries are all known. *)
Definition known_shape (shp : list (option Z)) : result (list Z) :=
  mapM (fun e => match e with Some n => Ok n | None => Raise TypeError end) shp.

(** [self.num_groups], where an argument of the method bears the same name. *)
Definition self_num_groups (self : ConvOp) : Z := num_groups self.

Section Conv.
Context {R : Type} `{Scalar R}.

(** [BaseAbstractConv.unshared2d] *)
Definition unshared2d (self : ConvOp) (inp kern : ndarray R)
    (out_shape : list Z) (direction : string) : result (ndarray R) :=
  if negb (convdim self =? 2) then
    Raise (NotImplementedError ("Unshared convolution not implemented for "
             ++ repr_int (convdim self) ++ "D"))
  else
  out <- np_zeros out_shape ;;
  if String.eqb direction "forward" then
    rows <- py_nth out_shape 0 ;;
    cols <- py_nth out_shape 1 ;;
    kh <- py_nth (shape kern) 2 ;;
    kw <- py_nth (shape kern) 3 ;;
    for_range rows (fun row out =>
      for_range cols (fun col out =>
        patch <- getitem inp [slice_range row (row + kh);
                              slice_range col (col + kw)] ;;
        k <- getitem kern [Idx row; Idx col; slice_step (-1); slice_step (-1)] ;;
        prod <- np_multiply patch k ;;
        setscalar out [row; col] (np_sum prod)) out) out
  else if String.eqb direction "backprop weights" then
    rows <- py_nth out_shape 0 ;;
    cols <- py_nth out_shape 1 ;;
    kh <- py_nth out_shape 2 ;;
    kw <- py_nth out_shape 3 ;;
    for_range rows (fun row out =>
      for_range cols (fun col out =>
        c <- getscalar kern [row; col] ;;
        patch <- getitem inp [slice_range row (row + kh);
                              slice_range col (col + kw)] ;;
        setitem out [Idx row; Idx col; Ellipsis] (np_scale c patch)) out) out
  else if String.eqb direction "backprop inputs" then
    rows <- py_nth (shape kern) 0 ;;
    cols <- py_nth (shape kern) 1 ;;
    kh <- py_nth (shape kern) 2 ;;
    kw <- py_nth (shape kern) 3 ;;
    for_range rows (fun row out =>
      for_range cols (fun col out =>
        c <- getscalar inp [row; col] ;;
        k <- getitem kern [Idx row; Idx col; slice_step (-1); slice_step (-1)] ;;
        iadd_item out [slice_range row (row + kh); slice_range col (col + kw)]
          (np_scale c k)) out) out
  else
    Raise (ValueError ("unshared2d: invalid value '" ++ direction
             ++ "' for 'direction'")).

(** [BaseAbstractConv.conv] *)
Definition conv (self : ConvOp) (img kern : ndarray R) (mode : string)
    (dilation : dilation_arg) (num_groups : Z) (unshared : bool)
    (direction : string) : result (ndarray R) :=
  if negb (String.eqb mode "valid" || String.eqb mode "full") then
    Raise (ValueError ("invalid mode " ++ mode ++ ", which must be either "
             ++ dq ++ "valid" ++ dq ++ " or " ++ dq ++ "full" ++ dq))
  else
  let dilation :=
    match dilation with
    | DilInt d => repeat d (Z.to_nat (convdim self))
    | DilTuple l => l
    end in
  if negb (len dilation =? convdim self) then
    Raise (ValueError ("invalid dilation " ++ repr_int_tuple dilation
             ++ ", expected " ++ repr_int (convdim self) ++ " values"))
  else
  out_shape <-
    (if unshared && String.eqb direction "backprop weights" then
       if negb (String.eqb mode "valid") then
         Raise (ValueError ("conv mode for unshared backprop wrt weights must be "
                  ++ dq ++ "valid" ++ dq))
       else
         i0 <- py_nth (shape img) 0 ;;
         k0 <- py_nth (shape kern) 0 ;;
         k2 <- py_nth (shape kern) 2 ;;
         k3 <- py_nth (shape kern) 3 ;;
         i2 <- py_nth (shape img) 2 ;;
         i3 <- py_nth (shape img) 3 ;;
         Ok [i0; k0; k2; k3; i2 - k2 + 1; i3 - k3 + 1]
     else
       shp <- get_conv_output_shape (map Some (shape img))
                (map Some (shape kern)) (BStr mode)
                (repeat 1 (Z.to_nat (convdim self))) (Some dilation) ;;
       known_shape shp) ;;
  dil_spatial <- mapM (fun i =>
      k <- py_index (shape kern) (- convdim self + Z.of_nat i) ;;
      d <- py_nth dilation i ;;
      Ok ((k - 1) * d + 1)) (range (convdim self)) ;;
  let dil_kern_shp := py_slice_to (shape kern) (- convdim self) ++ dil_spatial in
  dilated_kern <- np_zeros dil_kern_shp ;;
  dilated_kern <-
    setitem dilated_kern
      (repeat slice_all (Z.to_nat (ndim dilated_kern - convdim self))
         ++ map slice_step dilation)
      kern ;;
  out <- np_zeros out_shape ;;
  img1 <- py_nth (shape img) 1 ;;
  kern0 <- py_nth (shape kern) 0 ;;
  kern1 <- py_nth (shape kern) 1 ;;
  r <- py_mod img1 (self_num_groups self) ;;
  if negb (r =? 0) then
    Raise (ValueError "number of input channels must be divible by num_groups")
  else
  r <- py_mod kern0 (self_num_groups self) ;;
  if negb (r =? 0) then
    Raise (ValueError "number of filters must be divisible by num_groups")
  else
  q <- py_floordiv img1 num_groups ;;
  if negb (q =? kern1) then
    Raise (ValueError "the number of input channels in the kernel should specify the number of channels of 1 group")
  else
  input_channel_offset <- py_floordiv img1 (self_num_groups self) ;;
  output_channel_offset <- py_floordiv kern0 (self_num_groups self) ;;
  batch <- py_nth (shape img) 0 ;;
  if convdim self =? 2 then
    for_range batch (fun b out =>
      for_range (self_num_groups self) (fun g out =>
        for_range output_channel_offset (fun n out =>
          for_range input_channel_offset (fun im0 out =>
            i <- getitem img [Idx b; Idx (g * input_channel_offset + im0);
                              Ellipsis] ;;
            k <- getitem dilated_kern
                   [Idx (g * output_channel_offset + n); Idx im0; Ellipsis] ;;
            c <- (if unshared
                  then unshared2d self i k (py_slice_from out_shape 2) direction
                  else convolve2d i k mode) ;;
            iadd_item out [Idx b; Idx (g * output_channel_offset + n); Ellipsis]
              c) out) out) out) out
  else if convdim self =? 3 then
    if unshared then
      Raise (NotImplementedError "Unshared 3D convolution is not implemented")
    else
      for_range batch (fun b out =>
        for_range (self_num_groups self) (fun g out =>
          for_range output_channel_offset (fun n out =>
            for_range input_channel_offset (fun im0 out =>
              i <- getitem img [Idx b; Idx (g * input_channel_offset + im0);
                                Ellipsis] ;;
              k <- getitem dilated_kern
                     [Idx (g * output_channel_offset + n); Idx im0; Ellipsis] ;;
              c <- scipy_convolve i k mode ;;
              iadd_item out [Idx b; Idx (g * output_channel_offset + n);
                             Ellipsis] c) out) out) out) out
  else
    Raise (NotImplementedError "only 2D and 3D convolution are implemented").
End Conv.

(** ** The three operators on concrete arrays *)

(** The exception of the shape check of [AbstractConv_gradInputs.perform]:
    its message shows the expected shape and the shape of [topgrad]. *)
Definition gradInputs_shape_error (expected_topgrad_shape : list (option Z))
    (topgrad_shape : list Z) : exn :=
  ValueError
    ("invalid input_shape for gradInputs: the given input_shape would produce an output of shape "
       ++ repr_tuple_of (map repr_opt_int expected_topgrad_shape)
       ++ ", but the given topgrad has shape "
       ++ repr_int_tuple topgrad_shape).

Definition pad_is_zero (p : Z * Z) : bool := (fst p =? 0) && (snd p =? 0).

(** [range(a, b)] as natural numbers. *)
Definition range_from (a b : Z) : list nat := seq (Z.to_nat a) (Z.to_nat (b - a)).

Section Perform.
Context {R : Type} `{Scalar R}.

(** [tuple((k.shape[-convdim + i] - 1) * filter_dilation[i] + 1
     for i in range(convdim))] *)
Definition dilated_shape (self : ConvOp) (kshape : list Z) : result (list Z) :=
  mapM (fun i =>
      k <- py_index kshape (- convdim self + Z.of_nat i) ;;
      d <- py_nth (filter_dilation self) i ;;
      Ok ((k - 1) * d + 1)) (range (convdim self)).

(** The block [new_img = np.zeros(...); new_img[...] = img] of
    [AbstractConv.perform] and [AbstractConv_gradWeights.perform]. *)
Definition zero_pad (self : ConvOp) (img : ndarray R) (pad : list (Z * Z))
  : result (ndarray R) :=
  i0 <- py_nth (shape img) 0 ;;
  i1 <- py_nth (shape img) 1 ;;
  spatial <- mapM (fun i =>
      n <- py_nth (shape img) (i + 2) ;;
      p <- py_nth pad i ;;
      Ok (n + fst p + snd p)) (range (convdim self)) ;;
  new_img <- np_zeros (i0 :: i1 :: spatial) ;;
  region <- mapM (fun i =>
      n <- py_nth (shape img) (i + 2) ;;
      p <- py_nth pad i ;;
      Ok (slice_range (fst p) (n + fst p))) (range (convdim self)) ;;
  setitem new_img (slice_all :: slice_all :: region) img.

(** [any(self.subsample[i] > 1 for i in range(self.convdim))] *)
Definition any_subsample (self : ConvOp) : result bool :=
  l <- mapM (fun i => s <- py_nth (subsample self) i ;; Ok (s >? 1))
         (range (convdim self)) ;;
  Ok (existsb (fun b => b) l).

(** [any(self.filter_dilation[i] > 1 for i in range(self.convdim))] *)
Definition any_dilation (self : ConvOp) : result bool :=
  l <- mapM (fun i => s <- py_nth (filter_dilation self) i ;; Ok (s >? 1))
         (range (convdim self)) ;;
  Ok (existsb (fun b => b) l).

(** [tuple(slice(None, None, self.subsample[i]) for i in range(self.convdim))] *)
Definition subsample_slices (self : ConvOp) : result (list index) :=
  mapM (fun i => s <- py_nth (subsample self) i ;; Ok (slice_step s))
    (range (convdim self)).

(** The block [new_topgrad = np.zeros(new_shape); new_topgrad[...] = topgrad]
    of the two gradient operators. *)
Definition expand_topgrad (self : ConvOp) (topgrad : ndarray R)
    (new_spatial : list Z) : result (ndarray R) :=
  t0 <- py_nth (shape topgrad) 0 ;;
  t1 <- py_nth (shape topgrad) 1 ;;
  new_topgrad <- np_zeros (t0 :: t1 :: new_spatial) ;;
  steps <- subsample_slices self ;;
  setitem new_topgrad (slice_all :: slice_all :: steps) topgrad.

(** [AbstractConv.perform] (lines 2497-2602) *)
Definition AbstractConv_perform (self : ConvOp) (img kern : ndarray R)
  : result (ndarray R) :=
  dil_kernshp <- dilated_shape self (shape kern) ;;
  if unshared self && negb (convdim self =? 2) then
    Raise (NotImplementedError ("Unshared convolution not implemented for "
             ++ repr_int (convdim self) ++ "D"))
  else
  let mode := border_mode self in
  pad <- border_mode_to_pad mode (convdim self) dil_kernshp ;;
  '(mode, img) <-
    (if existsb (fun p => negb (pad_is_zero p)) pad then
       new_img <- zero_pad self img pad ;;
       Ok (BStr "valid", new_img)
     else Ok (mode, img)) ;;
  kern <-
    (if negb (filter_flip self) then
       getitem kern
         (repeat slice_all (Z.to_nat (ndim kern - convdim self))
            ++ repeat (slice_step (-1)) (Z.to_nat (convdim self)))
     else Ok kern) ;;
  kern <-
    (if unshared self then
       out_shape <- get_conv_output_shape (map Some (shape img))
                      (map Some (shape kern)) mode (subsample self)
                      (Some (filter_dilation self)) ;;
       if negb (list_eqb_opt (py_slice (shape kern) 1 (1 + convdim self))
                             (py_slice out_shape 2 (2 + convdim self)))
       then
         Raise (ValueError ("Kernel shape "
                  ++ repr_int_tuple (py_slice (shape kern) 1 (1 + convdim self))
                  ++ " does not match computed output size "
                  ++ repr_tuple_of (map repr_opt_int
                                      (py_slice out_shape 2 (2 + convdim self)))))
       else
         sub <- any_subsample self ;;
         kern <-
           (if sub then
              (* Expand regions in kernel to correct for subsampling *)
              out_shape <- get_conv_output_shape (map Some (shape img))
                             (map Some (shape kern)) mode
                             (repeat 1 (Z.to_nat (convdim self)))
                             (Some (filter_dilation self)) ;;
              out_spatial <- known_shape (py_slice out_shape 2 (2 + convdim self)) ;;
              let exp_kern_shp :=
                py_slice_to (shape kern) 1 ++ out_spatial
                  ++ py_slice_from (shape kern) (1 + convdim self) in
              exp_kern <- np_zeros exp_kern_shp ;;
              steps <- subsample_slices self ;;
              setitem exp_kern
                (slice_all :: steps
                   ++ repeat slice_all (Z.to_nat (convdim self + 1)))
                kern
            else Ok kern) ;;
         (* from (nFilters, out_rows, out_cols, nChannels, kH, kW)
            to (nFilters, nChannels, out_rows, out_cols, kH, kW) *)
         let axes_order :=
           O :: Z.to_nat (1 + convdim self)
             :: range_from 1 (1 + convdim self)
             ++ range_from (2 + convdim self) (ndim kern) in
         np_transpose kern axes_order
     else Ok kern) ;;
  conv_out <- conv self img kern "valid" (DilTuple (filter_dilation self))
                (num_groups self) (unshared self) "forward" ;;
  steps <- subsample_slices self ;;
  getitem conv_out (slice_all :: slice_all :: steps).

(** [correct_for_groups] of [AbstractConv_gradWeights.perform] *)
Definition gradWeights_correct_for_groups (self : ConvOp) (mat : ndarray R)
  : result (ndarray R) :=
  m0 <- py_nth (shape mat) 0 ;;
  m1 <- py_nth (shape mat) 1 ;;
  mshp0 <- py_floordiv m0 (num_groups self) ;;
  let mshp1 := m1 * num_groups self in
  mat <- np_reshape mat (num_groups self :: mshp0 :: py_slice_from (shape mat) 1) ;;
  mat <- np_transpose mat (1 :: 0 :: 2 :: range_from 3 (3 + convdim self))%nat ;;
  np_reshape mat (mshp0 :: mshp1 :: py_slice_from (shape mat) (- convdim self)).

(** [AbstractConv_gradWeights.perform] (lines 2834-2960) *)
Definition AbstractConv_gradWeights_perform (self : ConvOp)
    (img topgrad : ndarray R) (shape_ : list Z) : result (ndarray R) :=
  if unshared self && negb (convdim self =? 2) then
    Raise (NotImplementedError ("Unshared convolution not implemented for "
             ++ repr_int (convdim self) ++ "D"))
  else
  dil_shape <- mapM (fun i =>
      k <- py_nth shape_ i ;;
      d <- py_nth (filter_dilation self) i ;;
      Ok ((k - 1) * d + 1)) (range (convdim self)) ;;
  pad <- border_mode_to_pad (border_mode self) (convdim self) dil_shape ;;
  img <- (if existsb (fun p => negb (pad_is_zero p)) pad
          then zero_pad self img pad else Ok img) ;;
  sub <- any_subsample self ;;
  topgrad <-
    (if sub then
       new_spatial <- mapM (fun i =>
           n <- py_nth (shape img) (i + 2) ;;
           d <- py_nth dil_shape i ;;
           Ok (n - d + 1)) (range (convdim self)) ;;
       expand_topgrad self topgrad new_spatial
     else Ok topgrad) ;;
  let axes_order := (1 :: 0 :: range_from 2 (convdim self + 2))%nat in
  topgrad <- np_transpose topgrad axes_order ;;
  img <- np_transpose img axes_order ;;
  img <- (if num_groups self >? 1
          then gradWeights_correct_for_groups self img else Ok img) ;;
  '(kern, kern_axes, flip_kern) <-
    (if unshared self then
       let flip_kern :=
         repeat slice_all (Z.to_nat (2 + convdim self))
           ++ repeat (slice_step (-1)) (Z.to_nat (convdim self)) in
       kern <- conv self img topgrad "valid" (DilInt 1) (num_groups self)
                 true "backprop weights" ;;
       kern <-
         (if sub then
            steps <- subsample_slices self ;;
            getitem kern
              (slice_all :: slice_all :: steps
                 ++ repeat slice_all (Z.to_nat (convdim self)))
          else Ok kern) ;;
       (* from (nChannels, nFilters, out_rows, out_cols, kH, kW)
          to (nFilters, out_rows, out_cols, nChannels, kH, kW) *)
       let kern_axes :=
         (1%nat :: range_from 2 (convdim self + 2))
           ++ O :: range_from (convdim self + 2) (ndim kern) in
       Ok (kern, kern_axes, flip_kern)
     else
       let flip_kern :=
         slice_all :: slice_all
           :: repeat (slice_step (-1)) (Z.to_nat (convdim self)) in
       topgrad <- getitem topgrad flip_kern ;;
       kern <- conv self img topgrad "valid" (DilInt 1) (num_groups self)
                 false "forward" ;;
       let kern_axes := (1 :: 0 :: range_from 2 (convdim self + 2))%nat in
       Ok (kern, kern_axes, flip_kern)) ;;
  kern <- np_transpose kern kern_axes ;;
  dil <- any_dilation self ;;
  kern <-
    (if dil then
       steps <- mapM (fun i => d <- py_nth (filter_dilation self) i ;;
                               Ok (slice_step d)) (range (convdim self)) ;;
       getitem kern
         (repeat slice_all (Z.to_nat (ndim kern - convdim self)) ++ steps)
     else Ok kern) ;;
  if filter_flip self then getitem kern flip_kern else Ok kern.

(** [correct_for_groups] of [AbstractConv_gradInputs.perform] *)
Definition gradInputs_correct_for_groups (self : ConvOp) (mat : ndarray R)
  : result (ndarray R) :=
  m0 <- py_nth (shape mat) 0 ;;
  mc <- py_index (shape mat) (- convdim self - 1) ;;
  mshp0 <- py_floordiv m0 (num_groups self) ;;
  let mshp1 := mc * num_groups self in
  mat <- np_reshape mat (num_groups self :: mshp0 :: py_slice_from (shape mat) 1) ;;
  if unshared self then
    (* for 2D -> (1, 2, 3, 0, 4, 5, 6) *)
    mat <- np_transpose mat
             (range_from 1 (2 + convdim self)
                ++ O :: range_from (2 + convdim self) (ndim mat)) ;;
    np_reshape mat
      (mshp0 :: py_slice (shape mat) 1 (1 + convdim self)
         ++ mshp1 :: py_slice_from (shape mat) (- convdim self))
  else
    mat <- np_transpose mat (1 :: 0 :: 2 :: range_from 3 (3 + convdim self))%nat ;;
    np_reshape mat (mshp0 :: mshp1 :: py_slice_from (shape mat) (- convdim self)).

(** The value of an entry of [imshp] in arithmetic. *)
Definition dim_value (d : dim) : result Z :=
  match d with
  | DimInt z => Ok z
  | DimSym _ => Raise TypeError
  end.

(** The shape check of [AbstractConv_gradInputs.perform] (lines 3220-3236):
    the image shape is taken from [self.imshp] and, where that is [None],
    from the batch size of [topgrad], the channels of [kern] and the
    [shape] input; the forward output shape is computed from it. *)
Definition gradInputs_expected_topgrad_shape (self : ConvOp)
    (kern topgrad : ndarray R) (shape_ : list Z) : result (list (option Z)) :=
  let imshp := imshp self in
  t0 <- py_nth (shape topgrad) 0 ;;
  kc <- py_index (shape kern) (- convdim self - 1) ;;
  spatial <- mapM (fun i => py_nth shape_ i) (range (convdim self)) ;;
  let fallback_imshp := t0 :: kc :: spatial in
  imshp <- mapM (fun i =>
      e <- py_nth imshp i ;;
      match e with
      | None => f <- py_nth fallback_imshp i ;; Ok (Some f)
      | Some d => v <- dim_value d ;; Ok (Some v)
      end) (range (2 + convdim self)) ;;
  get_conv_output_shape imshp (map Some (shape kern)) (border_mode self)
    (subsample self) (Some (filter_dilation self)).

(** [AbstractConv_gradInputs.perform] (lines 3203-3354) *)
Definition AbstractConv_gradInputs_perform (self : ConvOp)
    (kern topgrad : ndarray R) (shape_ : list Z) : result (ndarray R) :=
  if unshared self && negb (convdim self =? 2) then
    Raise (NotImplementedError ("Unshared convolution not implemented for "
             ++ repr_int (convdim self) ++ "D"))
  else
  dil_kernshp <- dilated_shape self (shape kern) ;;
  pad <- border_mode_to_pad (border_mode self) (convdim self) dil_kernshp ;;
  expected_topgrad_shape <-
    gradInputs_expected_topgrad_shape self kern topgrad shape_ ;;
  if negb (list_eqb_opt (shape topgrad) expected_topgrad_shape) then
    Raise (gradInputs_shape_error expected_topgrad_shape (shape topgrad))
  else
  sub <- any_subsample self ;;
  '(topgrad, kern) <-
    (if sub then
       new_spatial <- mapM (fun i =>
           n <- py_nth shape_ i ;;
           p <- py_nth pad i ;;
           d <- py_nth dil_kernshp i ;;
           Ok (n + fst p + snd p - d + 1)) (range (convdim self)) ;;
       topgrad <- expand_topgrad self topgrad new_spatial ;;
       kern <-
         (if unshared self then
            (* Expand regions in kernel to correct for subsampling *)
            let exp_kern_shp :=
              py_slice_to (shape kern) 1 ++ py_slice_from (shape topgrad) 2
                ++ py_slice_from (shape kern) (1 + convdim self) in
            exp_kern <- np_zeros exp_kern_shp ;;
            steps <- subsample_slices self ;;
            setitem exp_kern
              (slice_all :: steps
                 ++ repeat slice_all (Z.to_nat (convdim self + 1)))
              kern
          else Ok kern) ;;
       Ok (topgrad, kern)
     else Ok (topgrad, kern)) ;;
  kern <- gradInputs_correct_for_groups self kern ;;
  img <-
    (if unshared self then
       (* from (nFilters, out_rows, out_cols, nChannels, kH, kW)
          to (nChannels, nFilters, out_rows, out_cols, kH, kW) *)
       let axes_order :=
         Z.to_nat (1 + convdim self) :: O
           :: range_from 1 (1 + convdim self)
           ++ range_from (2 + convdim self) (ndim kern) in
       kern <- np_transpose kern axes_order ;;
       kern <-
         (if negb (filter_flip self) then
            getitem kern
              (repeat slice_all (Z.to_nat (ndim kern - convdim self))
                 ++ repeat (slice_step (-1)) (Z.to_nat (convdim self)))
          else Ok kern) ;;
       conv self topgrad kern "full" (DilTuple (filter_dilation self))
         (num_groups self) true "backprop inputs"
     else
       let axes_order := (1 :: 0 :: range_from 2 (2 + convdim self))%nat in
       kern <- np_transpose kern axes_order ;;
       let flip_filters :=
         slice_all :: slice_all
           :: repeat (slice_step (-1)) (Z.to_nat (convdim self)) in
       topgrad <- (if filter_flip self then getitem topgrad flip_filters
                   else Ok topgrad) ;;
       img <- conv self topgrad kern "full" (DilTuple (filter_dilation self))
                (num_groups self) false "forward" ;;
       if filter_flip self then getitem img flip_filters else Ok img) ;;
  if existsb (fun p => negb (pad_is_zero p)) pad then
    region <- mapM (fun i =>
        n <- py_nth (shape img) (i + 2) ;;
        p <- py_nth pad i ;;
        Ok (slice_range (fst p) (n - snd p))) (range (convdim self)) ;;
    getitem img (slice_all :: slice_all :: region)
  else Ok img.
End Perform.

(** ** Definitions used to state the properties *)

(** A border mode for one axis as the data model has it: one of the three
    named modes, a non-negative integer, or a pair of non-negative
    integers. *)
Definition resolved_axis_mode (m : axis_mode) : bool :=
  match m with
  | AStr s => String.eqb s "valid" || String.eqb s "full" || String.eqb s "half"
  | AInt v => 0 <=? v
  | ATuple [l; r] => (0 <=? l) && (0 <=? r)
  | ATuple _ => false
  end.

(** The pad pair of one axis as the specification resolves it: half gives
    [dil_kernel // 2] on both sides, full [dil_kernel - 1] on both sides,
    valid 0, an integer [v] the pair [(v, v)], a pair itself. *)
Definition spec_pads (m : axis_mode) (dil_kernel : Z) : option (Z * Z) :=
  match m with
  | AStr s =>
      if String.eqb s "half" then Some (dil_kernel / 2, dil_kernel / 2)
      else if String.eqb s "full" then Some (dil_kernel - 1, dil_kernel - 1)
      else if String.eqb s "valid" then Some (0, 0)
      else None
  | AInt v => Some (v, v)
  | ATuple [l; r] => Some (l, r)
  | ATuple _ => None
  end.

(** The result is a non-negative Python integer. *)
Definition returns_nonneg_int (r : result (option pynum)) : Prop :=
  exists n : Z, r = Ok (Some (PyInt n)) /\ 0 <= n.

(** A symmetric pair [(a, a)] rewritten as the scalar [a]. *)
Definition collapse_pair (m : axis_mode) : axis_mode :=
  match m with
  | ATuple [a; b] => if a =? b then AInt a else m
  | _ => m
  end.

(** No entry is a non-constant variable. *)
Definition constant_shape (shp : list (option dim)) : bool :=
  forallb (fun e => match e with Some (DimSym _) => false | _ => true end) shp.

(** The kernel size of one axis that the shape arithmetic yields for a
    dilation of at most one. *)
Definition undilated_kernel_size (m : axis_mode) (image top : Z) : Z :=
  match m with
  | AStr s => if String.eqb s "full" then top - image + 1 else image - top + 1
  | AInt v => image + v + v - top + 1
  | ATuple [l; r] => image + l + r - top + 1
  | ATuple _ => 0
  end.


(** The all-zero test of [__init__]. *)
Definition all_zero (l : list axis_mode) : bool :=
  forallb (fun mode => axis_mode_eqb mode (ATuple [0; 0])
                       || axis_mode_eqb mode (AInt 0)) l.

(** The array [np.arange(1, 13).reshape(2, 3, 2)]. *)
Definition arange_2_3_2 : ndarray Z :=
  of_list 0 [2; 3; 2] [1; 2; 3; 4; 5; 6; 7; 8; 9; 10; 11; 12].

(** The shape and the values, in row-major order, of a result. *)
Definition contents {R : Type} (r : result (ndarray R)) : option (list Z * list R) :=
  match r with
  | Ok a => Some (shape a, to_list a)
  | Raise _ => None
  end.

(** A view stays inside of an axis of size [n]. *)
Definition valid_view (v : axis_view) (n : Z) : Prop :=
  match v with
  | Fixed i => 0 <= i < n
  | Strided start step count =>
      step <> 0 /\ 0 <= count
      /\ forall j, 0 <= j < count -> 0 <= start + step * j < n
  end.

(** *** Arrays, for the statements about the operators *)

Definition zip_with {A B C : Type} (f : A -> B -> C) (a : list A) (b : list B)
  : list C :=
  map (fun p => f (fst p) (snd p)) (combine a b).

(** Two arrays of one shape with the same elements. *)
Definition same_array {R : Type} (a b : ndarray R) : Prop :=
  shape a = shape b
  /\ forall j, in_box (shape a) j = true -> item a j = item b j.

(** The views of the full slices of a shape. *)
Definition full_views (shp : list Z) : list axis_view :=
  map (fun n => Strided 0 1 n) shp.

(** The views of [a[b, c, ...]]. *)
Definition channel_views (b c : Z) (rest : list Z) : list axis_view :=
  Fixed b :: Fixed c :: full_views rest.

Section SpecArrays.
Context {R : Type} `{Scalar R}.

(** Zeros with the selection of the views [vs] set to [v]: what
    [z = np.zeros(shp); z[ixs] = v] leaves in [z]. *)
Definition scatter (shp : list Z) (vs : list axis_view) (v : ndarray R)
  : ndarray R :=
  overwrite (zeros_array shp) vs v.

(** [a[b, c, ...]] *)
Definition channel (a : ndarray R) (b c : Z) : ndarray R :=
  gather (channel_views b c (skipn 2 (shape a))) a.

(** [scipy_convolve] where it is defined. *)
Definition convolve (mode : string) (in1 in2 : ndarray R) : ndarray R :=
  if String.eqb mode "valid" then convolve_valid in1 in2
  else convolve_full in1 in2.

(** The state of an accumulator after [body]: its elements have grown by
    [delta]. *)
Definition adds (shp : list Z) (body : ndarray R -> result (ndarray R))
    (delta : list Z -> R) : Prop :=
  forall s, shape s = shp ->
    exists s', body s = Ok s' /\ shape s' = shp
               /\ forall i, in_box shp i = true ->
                            item s' i = radd (item s i) (delta i).
End SpecArrays.

(** The size of a kernel axis once dilated. *)
Definition dilated_size (k d : Z) : Z := (k - 1) * d + 1.

(** The views of [dilated_kern[:, :, ::d0, ::d1, ...]] for a kernel of shape
    [lead ++ K]. *)
Definition dilation_views (lead K dil : list Z) : list axis_view :=
  full_views lead ++ zip_with (fun k d => Strided 0 d k) K dil.

(** *** Shapes, for the statements about the operators *)

(** The border mode of axis [i]. *)
Definition axis_mode_of (bm : border_mode_t) (i : nat) : axis_mode :=
  match bm with
  | BTuple l => nth i l (AInt 0)
  | BStr s => AStr s
  | BInt v => AInt v
  end.

(** The pad pair of an axis whose dilated kernel has size [dk]. *)
Definition axis_pads (m : axis_mode) (dk : Z) : Z * Z :=
  match spec_pads m dk with
  | Some p => p
  | None => (0, 0)
  end.

(** The output size of an axis: image [n], dilated kernel [dk], border mode
    [m], subsample [s]. *)
Definition conv_out_size (n dk : Z) (m : axis_mode) (s : Z) : Z :=
  (n + fst (axis_pads m dk) + snd (axis_pads m dk) - dk) / s + 1.

(** A border mode as [__init__] stores it for [cd] axes. *)
Definition stored_border_mode (cd : Z) (bm : border_mode_t) : Prop :=
  match bm with
  | BStr s => s = "valid"%string \/ s = "full"%string \/ s = "half"%string
  | BTuple l =>
      len l = cd
      /\ Forall (fun m => resolved_axis_mode m = true
                          /\ forall s, m <> AStr s) l
  | BInt _ => False
  end.

(** The dilated sizes of a kernel. *)
Definition dilated (K dil : list Z) : list Z := zip_with dilated_size K dil.

(** The pads of every axis. *)
Definition pads_of (bm : border_mode_t) (D : list Z) : list (Z * Z) :=
  map (fun i => axis_pads (axis_mode_of bm i) (nth i D 0))
      (seq 0 (List.length D)).

(** The output sizes of every axis. *)
Definition conv_out_sizes (N D : list Z) (bm : border_mode_t) (ss : list Z)
  : list Z :=
  map (fun i => conv_out_size (nth i N 0) (nth i D 0) (axis_mode_of bm i)
                  (nth i ss 1))
      (seq 0 (List.length N)).

(** ** The pieces of the operators, for the statements about the gradients *)

Section OperatorPieces.
Context {R : Type} `{Scalar R}.

(** [dilated_kern] of [BaseAbstractConv.conv]: the kernel, of shape
    [lead ++ K], with zeros between the elements of its last axes. *)
Definition dilate_kernel (lead K dil : list Z) (kern : ndarray R) : ndarray R :=
  overwrite (zeros_array (lead ++ dilated K dil)) (dilation_views lead K dil)
    kern.
End OperatorPieces.

(** The sizes of an image with the pads of each axis. *)
Definition padded (N : list Z) (pads : list (Z * Z)) : list Z :=
  zip_with (fun n p => n + fst p + snd p) N pads.

(** The views of [new_img[:, :, pl0:n0 + pl0, pl1:n1 + pl1]]: the place of
    the image inside of the padded image. *)
Definition pad_views (B C : Z) (N : list Z) (pads : list (Z * Z))
  : list axis_view :=
  Strided 0 1 B :: Strided 0 1 C
    :: zip_with (fun n p => Strided (fst p) 1 n) N pads.

(** The views of [a[:, :, ::s0, ::s1]] that selects [O] elements. *)
Definition sub_views (lead ss O : list Z) : list axis_view :=
  full_views lead ++ zip_with (fun s o => Strided 0 s o) ss O.

(** The views of [a[..., ::-1, ::-1]] on an array of shape [lead ++ K]. *)
Definition flip_views (lead K : list Z) : list axis_view :=
  full_views lead ++ map (fun k => Strided (k - 1) (-1) k) K.

(** The output sizes of a valid convolution, and of a full one. *)
Definition valid_sizes (N D : list Z) : list Z :=
  zip_with (fun n d => n - d + 1) N D.
Definition full_sizes (N D : list Z) : list Z :=
  zip_with (fun n d => n + d - 1) N D.

(** The number of elements that a step [s] selects on each axis. *)
Definition strided_sizes (X ss : list Z) : list Z :=
  zip_with (fun x s => (x - 1) / s + 1) X ss.

(** The position in the padded image that the output position [o] reads
    through the kernel element [k]: the kernel is applied flipped when
    [filter_flip] is set. *)
Fixpoint tap (ff : bool) (ss dil K o k : list Z) {struct ss} : list Z :=
  match ss, dil, K, o, k with
  | s :: ss', d :: dil', n :: K', oi :: o', ki :: k' =>
      (s * oi + d * (if ff then n - 1 - ki else ki))
        :: tap ff ss' dil' K' o' k'
  | _, _, _, _, _ => []
  end.

Section ConvolutionTerms.
Context {R : Type} `{Scalar R}.

(** What a convolution reads of its first array [p], of shape [N], for the
    output position [x] and the position [m] of the second array, of shape
    [D]. *)
Definition conv_read (mode : string) (N D : list Z) (p : list Z -> R)
    (x m : list Z) : R :=
  if String.eqb mode "valid"
  then p (vsub (vadd x (map (fun n => n - 1) D)) m)
  else if in_box N (vsub x m) then p (vsub x m) else rzero.
End ConvolutionTerms.

(** The views of [dilated_kern[::d0, ::d1]] on the last axes. *)
Definition step_views (K dil : list Z) : list axis_view :=
  zip_with (fun k d => Strided 0 d k) K dil.

(** The sizes of the output of a convolution. *)
Definition conv_sizes (mode : string) (N D : list Z) : list Z :=
  if String.eqb mode "valid" then valid_sizes N D else full_sizes N D.

(** *** The sizes that an operator gives to an image and a kernel *)

(** The dilated sizes of a kernel of sizes [K]. *)
Definition op_dilated (self : ConvOp) (K : list Z) : list Z :=
  dilated K (filter_dilation self).

(** The pads of the border mode. *)
Definition op_pads (self : ConvOp) (K : list Z) : list (Z * Z) :=
  pads_of (border_mode self) (op_dilated self K).

(** The sizes of the padded image. *)
Definition op_padded (self : ConvOp) (N K : list Z) : list Z :=
  padded N (op_pads self K).

(** The sizes of the output before it is subsampled, and after. *)
Definition op_full_res (self : ConvOp) (N K : list Z) : list Z :=
  valid_sizes (op_padded self N K) (op_dilated self K).
Definition op_out_sizes (self : ConvOp) (N K : list Z) : list Z :=
  strided_sizes (op_full_res self N K) (subsample self).

(** The parameters of an operator are those of a convolution: what
    [__init__] checks, and steps and dilations of at least one. *)
Definition op_ok (self : ConvOp) : Prop :=
  (convdim self = 2 \/ convdim self = 3)
  /\ stored_border_mode (convdim self) (border_mode self)
  /\ len (subsample self) = convdim self
  /\ len (filter_dilation self) = convdim self
  /\ 1 <= num_groups self
  /\ (unshared self = true -> convdim self = 2)
  /\ Forall (fun s => 1 <= s) (subsample self)
  /\ Forall (fun d => 1 <= d) (filter_dilation self).

(** An image of sizes [N] and a kernel of sizes [K] that the operator can
    be applied to: the dilated kernel fits into the padded image. *)
Definition sizes_ok (self : ConvOp) (N K : list Z) : Prop :=
  len N = convdim self /\ len K = convdim self
  /\ Forall (fun n => 1 <= n) N /\ Forall (fun k => 1 <= k) K
  /\ Forall (fun x => 1 <= x) (op_full_res self N K).

Section OperatorArrays.
Context {R : Type} `{Scalar R}.

(** The image with its pads of zeros. *)
Definition zero_padded (B C : Z) (N : list Z) (pads : list (Z * Z))
    (img : ndarray R) : ndarray R :=
  scatter (B :: C :: padded N pads) (pad_views B C N pads) img.

(** [a[..., ::-1, ::-1]] if [b], and [a] if not. *)
Definition flipped_if (b : bool) (lead K : list Z) (a : ndarray R)
  : ndarray R :=
  if b then gather (flip_views lead K) a else a.

(** An element of the output of the forward operator: the sum over the
    input channels [c] of the group [g] and over the kernel elements [k]. *)
Definition forward_item (self : ConvOp) (c1 oco : Z) (K : list Z)
    (P kern : list Z -> R) (b g n : Z) (o : list Z) : R :=
  sum_range c1 (fun c =>
    sum_box K (fun k =>
      rmul (P (b :: (g * c1 + c)
                 :: tap (filter_flip self) (subsample self)
                      (filter_dilation self) K o k))
           (kern ((g * oco + n) :: c :: k)))).
End OperatorArrays.

Section GradientItems.
Context {R : Type} `{Scalar R}.

(** An element of the gradient with respect to the weights: the sum over
    the batch and over the output positions. *)
Definition weights_item (self : ConvOp) (B c1 oco : Z) (N K : list Z)
    (P dO : list Z -> R) (g n c : Z) (k : list Z) : R :=
  sum_range B (fun b =>
    sum_box (op_out_sizes self N K) (fun o =>
      rmul (P (b :: (g * c1 + c)
                 :: tap (filter_flip self) (subsample self)
                      (filter_dilation self) K o k))
           (dO (b :: (g * oco + n) :: o)))).
End GradientItems.

(** The views of [a[m0:m0 + x0, m1:m1 + x1]]: a window of sizes [X] at the
    position [m]. *)
Definition shift_views (m X : list Z) : list axis_view :=
  zip_with (fun mi x => Strided mi 1 x) m X.

(** A static image shape that agrees with the shape of the image. *)
Definition imshp_matches (imshp : list (option dim)) (shp : list Z) : Prop :=
  Forall2 (fun e n => e = None \/ e = Some (DimInt n)) imshp shp.

Section BilinearForm.
Context {R : Type} `{Scalar R}.

(** The sum that the three operators compute parts of: over the batch, the
    groups, the output and input channels of a group, the output positions
    and the kernel elements, of the product of an element of the output
    gradient, an element of the padded image and an element of the
    kernel. *)
Definition conv_form (self : ConvOp) (B c1 oco : Z) (N K : list Z)
    (dO P kern : list Z -> R) : R :=
  sum_range B (fun b =>
    sum_range (num_groups self) (fun g =>
      sum_range oco (fun n =>
        sum_range c1 (fun c =>
          sum_box (op_out_sizes self N K) (fun o =>
            sum_box K (fun k =>
              rmul (dO (b :: (g * oco + n) :: o))
                (rmul (P (b :: (g * c1 + c)
                            :: tap (filter_flip self) (subsample self)
                                 (filter_dilation self) K o k))
                      (kern ((g * oco + n) :: c :: k))))))))).
End BilinearForm.

Section Overwriting.
Context {R : Type} `{Scalar R}.

(** The state of an array after [body]: the elements at the positions [p]
    have become those of [v]. *)
Definition sets (shp : list Z) (body : ndarray R -> result (ndarray R))
    (p : list Z -> bool) (v : list Z -> R) : Prop :=
  forall s, shape s = shp ->
    exists s', body s = Ok s' /\ shape s' = shp
               /\ forall i, in_box shp i = true ->
                            item s' i = if p i then v i else item s i.
End Overwriting.

(** One of the positions [0], ..., [n - 1] satisfies [q]. *)
Definition any_upto (n : Z) (q : Z -> bool) : bool :=
  existsb (fun k => q (Z.of_nat k)) (seq 0 (Z.to_nat n)).

(** ** Shapes of the gradients (abstract_conv.py, lines 164-512) *)

(** [get_conv_gradinputs_shape_1axis] (lines 369-430). *)
Definition get_conv_gradinputs_shape_1axis (kernel_shape top_shape : option Z)
    (border_mode : option axis_mode) (subsample dilation : option Z)
  : result (option Z) :=
  match kernel_shape, top_shape, border_mode, subsample, dilation with
  | Some kernel_shape, Some top_shape, Some border_mode,
    Some subsample, Some dilation =>
      if negb (subsample =? 1) then Ok None
      else
        (* Implicit dilated kernel shape *)
        let dil_kernel_shape := (kernel_shape - 1) * dilation + 1 in
        '(pad_l, pad_r) <-
          match border_mode with
          | AStr s =>
              if String.eqb s "half" then
                Ok (dil_kernel_shape / 2, dil_kernel_shape / 2)
              else if String.eqb s "full" then
                Ok (dil_kernel_shape - 1, dil_kernel_shape - 1)
              else if String.eqb s "valid" then Ok (0, 0)
              else (* pad_l < 0 on a string *) Raise TypeError
          | ATuple [pad_l; pad_r] =>
              if (pad_l <? 0) || (pad_r <? 0)
              then Raise (ValueError "border_mode must be >= 0")
              else Ok (pad_l, pad_r)
          | ATuple _ => (* pad_l, pad_r = border_mode *)
              Raise (ValueError "not enough or too many values to unpack")
          | AInt v =>
              if (v <? 0) || (v <? 0)
              then Raise (ValueError "border_mode must be >= 0")
              else Ok (v, v)
          end ;;
        let image_shape := top_shape + dil_kernel_shape - 1 in
        let image_shape :=
          if pad_l >? 0 then image_shape - pad_l else image_shape in
        let image_shape :=
          if pad_r >? 0 then image_shape - pad_r else image_shape in
        Ok (Some image_shape)
  | _, _, _, _, _ => Ok None
  end.

(** [get_conv_gradinputs_shape] (lines 299-366); [filter_dilation = None]
    stands for ones.  [nkern * num_groups] on an entry that is [None] is a
    [TypeError]. *)
Definition get_conv_gradinputs_shape (kernel_shape top_shape : list (option Z))
    (border_mode : border_mode_t) (subsample : list Z)
    (filter_dilation : option (list Z)) (num_groups : Z)
  : result (list (option Z)) :=
  bsize <- py_nth top_shape 0 ;;
  let topshp := py_slice_from top_shape 2 in
  let convdim := len top_shape - 2 in
  nkern <- py_nth kernel_shape 1 ;;
  let kshp := py_slice_from kernel_shape (- convdim) in
  let filter_dilation :=
    match filter_dilation with
    | None => map (fun _ => 1) subsample
    | Some fd => fd
    end in
  nkern <- (if num_groups >? 1 then
              match nkern with
              | Some n => Ok (Some (n * num_groups))
              | None => Raise TypeError
              end
            else Ok nkern) ;;
  out_shp <- mapM (fun i =>
      k <- py_nth kshp i ;;
      t <- py_nth topshp i ;;
      bm <- border_mode_at border_mode i ;;
      s <- py_nth subsample i ;;
      d <- py_nth filter_dilation i ;;
      get_conv_gradinputs_shape_1axis k t (Some bm) (Some s) (Some d))
    (range (len subsample)) ;;
  Ok (bsize :: nkern :: out_shp).

(** [get_conv_gradweights_shape] (lines 164-239).  The entries of the
    result are integers, or what the single-axis function returns. *)
Definition get_conv_gradweights_shape (image_shape top_shape : list (option Z))
    (border_mode : border_mode_t) (subsample : list Z)
    (filter_dilation : option (list Z)) (num_groups : Z) (unshared : bool)
  : result (list (option pynum)) :=
  nkern <- py_nth image_shape 1 ;;
  let imshp := py_slice_from image_shape 2 in
  nchan <- py_nth top_shape 1 ;;
  let topshp := py_slice_from top_shape 2 in
  let filter_dilation :=
    match filter_dilation with
    | None => map (fun _ => 1) subsample
    | Some fd => fd
    end in
  nchan <- (if num_groups >? 1 then
              match nchan with
              | Some n => q <- py_floordiv n num_groups ;; Ok (Some q)
              | None => Raise TypeError
              end
            else Ok nchan) ;;
  out_shp <- mapM (fun i =>
      im <- py_nth imshp i ;;
      t <- py_nth topshp i ;;
      bm <- border_mode_at border_mode i ;;
      s <- py_nth subsample i ;;
      d <- py_nth filter_dilation i ;;
      get_conv_gradweights_shape_1axis im t (Some bm) (Some s) (Some d))
    (range (len subsample)) ;;
  let int := option_map PyInt in
  if unshared then
    Ok (int nchan :: map int (py_slice_from top_shape 2) ++ int nkern :: out_shp)
  else Ok (int nchan :: int nkern :: out_shp).

(** [check_dim] of [check_conv_gradinputs_shape]; the entries of the shapes
    are constants or [None]. *)
Definition check_dim (given computed : option Z) : bool :=
  match given, computed with
  | Some g, Some c => g =? c
  | _, _ => true
  end.

(** [all(check_dim(given, computed) for (given, computed) in
    zip(output_shape, computed_output_shape, strict=True))]: [all] stops at
    the first [False]; [zip] raises at the end of the shorter tuple. *)
Fixpoint all_check_dim (output_shape computed : list (option Z)) : result bool :=
  match output_shape, computed with
  | [], [] => Ok true
  | g :: gs, c :: cs =>
      if check_dim g c then all_check_dim gs cs else Ok false
  | _ :: _, [] => Raise (ValueError "zip() argument 2 is shorter than argument 1")
  | [], _ :: _ => Raise (ValueError "zip() argument 2 is longer than argument 1")
  end.

(** [check_conv_gradinputs_shape] (lines 433-511). *)
Definition check_conv_gradinputs_shape
    (image_shape kernel_shape output_shape : list (option Z))
    (border_mode : border_mode_t) (subsample : list Z)
    (filter_dilation : option (list Z)) : result bool :=
  if negb (len image_shape =? len kernel_shape)
     || negb (len image_shape =? len output_shape) then Ok false
  else if negb (len image_shape - 2 =? len subsample) then Ok false
  else if match filter_dilation with
          | Some fd => negb (len image_shape - 2 =? len fd)
          | None => false
          end then Ok false
  else
    (* compute the predicted output shape *)
    computed_output_shape <-
      get_conv_output_shape image_shape kernel_shape border_mode subsample
        filter_dilation ;;
    (* check if the given output shape matches the computed shape *)
    all_check_dim output_shape computed_output_shape.

(** ** Operators and arrays to evaluate on *)

(** A grouped two-dimensional convolution with half padding, a step of 2 on
    the first axis and a dilation of 2 on the second one. *)
Definition example_conv_op : ConvOp :=
  {| convdim := 2; border_mode := BStr "half"; subsample := [2; 1];
     filter_flip := true; imshp := [None; None; None; None];
     kshp := [None; None; None; None]; filter_dilation := [1; 2];
     num_groups := 2; unshared := false |}.

(** [np.arange(1, n + 1).reshape(shp)] and [np.arange(n, 0, -1).reshape(shp)],
    [n] the number of elements. *)
Definition counting_array (shp : list Z) : ndarray Z :=
  of_list 0 shp (map Z.of_nat (seq 1 (Z.to_nat (size_of shp)))).
Definition countdown_array (shp : list Z) : ndarray Z :=
  of_list 0 shp (rev (map Z.of_nat (seq 1 (Z.to_nat (size_of shp))))).

(** ** Other operators of extra_ops.py *)

(** *** Machine integers *)

(** An [int64] result: the integer that the 64 bits of [z] stand for. *)
Definition wrap64 (z : Z) : Z := (z + 2 ^ 63) mod 2 ^ 64 - 2 ^ 63.

(** [a // b] and [a % b] on [int64] arrays: NumPy's integer division,
    which gives 0 for a divisor of 0 and rounds towards minus infinity; the
    remainder has the sign of the divisor. *)
Definition np_floor_divide (a b : Z) : Z :=
  if b =? 0 then 0 else wrap64 (a / b).
Definition np_remainder (a b : Z) : Z :=
  if b =? 0 then 0 else a mod b.

(** [np.cumprod(a)] on an [int64] vector. *)
Fixpoint np_cumprod_from (acc : Z) (a : list Z) : list Z :=
  match a with
  | [] => []
  | x :: a' => wrap64 (acc * x) :: np_cumprod_from (wrap64 (acc * x)) a'
  end.
Definition np_cumprod (a : list Z) : list Z := np_cumprod_from 1 a.

(** [l[start:stop:step]] on a sequence. *)
Definition py_slice_step {A : Type} (l : list A) (start stop step : option Z)
    (default : A) : result (list A) :=
  v <- slice_view start stop step (len l) ;;
  match v with
  | Strided start step count =>
      Ok (map (fun t => nth (Z.to_nat (start + step * Z.of_nat t)) l default)
            (seq 0 (Z.to_nat count)))
  | Fixed _ => Raise IndexError
  end.

(** [x op y] for two vectors: NumPy broadcasts a vector of one element. *)
Definition broadcast_vectors (op : Z -> Z -> Z) (x y : list Z)
  : result (list Z) :=
  match x, y with
  | _, [b] => Ok (map (fun a => op a b) x)
  | [a], _ => Ok (map (fun b => op a b) y)
  | _, _ =>
      if (List.length x =? List.length y)%nat
      then Ok (map (fun p => op (fst p) (snd p)) (combine x y))
      else Raise (ValueError "operands could not be broadcast together")
  end.

(** *** UnravelIndex (extra_ops.py, lines 289-321) *)

(** A vector of integers, or a matrix by its rows. *)
Inductive int_array : Type :=
| Vec (v : list Z)
| Mat (rows : list (list Z)).

(** [numba_funcify_UnravelIndex]: the function [unravelindex] it returns
    for an operator of the given [order] on a node with [n_outputs]
    outputs.  The indices [arr] enter as a vector, and so does [shape]. *)
Definition numba_funcify_UnravelIndex (order : string) (n_outputs : Z)
  : result (list Z -> list Z -> result int_array) :=
  if negb (String.eqb order "C") then
    Raise (NotImplementedError
             "Numba does not support the `order` argument in `numpy.unravel_index`")
  else
    Ok (fun arr shape =>
      (* a = np.ones(len(shape)); a[1:] = shape[:0:-1] *)
      let a := repeat 1 (List.length shape) in
      tail <- py_slice_step shape None (Some 0) (Some (-1)) 0 ;;
      a <- (if (List.length (py_slice_from a 1) =? List.length tail)%nat
            then Ok (py_slice_to a 1 ++ tail)
            else Raise (ValueError "could not broadcast input array")) ;;
      (* a = np.cumprod(a)[::-1] *)
      a <- py_slice_step (np_cumprod a) None None (Some (-1)) 0 ;;
      if n_outputs =? 1 then
        (* maybe_expand_dim is the identity; the transpose of a vector is
           the vector *)
        q <- broadcast_vectors np_floor_divide arr a ;;
        r <- broadcast_vectors np_remainder q shape ;;
        Ok (Vec r)
      else
        (* np.expand_dims(arr, 1) is a column: the quotient has a row for
           each index and a column for each entry of a; the transpose has
           them the other way around *)
        if negb (List.length a =? List.length shape)%nat then
          Raise (ValueError "operands could not be broadcast together")
        else
          Ok (Mat (map (fun p =>
                          map (fun v => np_remainder (np_floor_divide v (fst p))
                                          (snd p)) arr)
                     (combine a shape)))).

(** *** FillDiagonalOffset (extra_ops.py, lines 110-132) *)

Section FillDiagonalOffset.
Context {R : Type} `{Scalar R}.

(** [b[ixs] = val] for an element [val], which is broadcast. *)
Definition fill_item (b : ndarray R) (ixs : list index) (val : R)
  : result (ndarray R) :=
  vs <- index_views (shape b) ixs ;;
  Ok (mk_ndarray (shape b) (fun i => if in_view vs i then val else item b i)).

(** [filldiagonaloffset]: the integers are [int64]. *)
Definition filldiagonaloffset (a : ndarray R) (val : R) (offset : Z)
  : result (ndarray R) :=
  match shape a with
  | [height; width] =>
      let '(start, num_of_step) :=
        if 0 <=? offset then
          (offset, Z.min (Z.min width height) (wrap64 (width - offset)))
        else
          (wrap64 (wrap64 (- offset) * width),
           Z.min (Z.min width height) (wrap64 (height + offset))) in
      let step := wrap64 (width + 1) in
      let end_ := wrap64 (start + wrap64 (step * num_of_step)) in
      b <- np_reshape a [size_of (shape a)] ;;
      b <- fill_item b [Slc (Some start) (Some end_) (Some step)] val ;;
      np_reshape b (shape a)
  | _ => (* height, width = a.shape *)
      Raise (ValueError "not enough or too many values to unpack")
  end.
End FillDiagonalOffset.

(** *** CheckAndRaise (extra_ops.py, lines 358-370) *)

(** [check_and_raise] of an operator with the exception type [error] and
    the message [msg]. *)
Fixpoint check_and_raise {A : Type} (error : string -> exn) (msg : string)
    (x : A) (conditions : list bool) : result A :=
  match conditions with
  | [] => Ok x
  | cond :: rest =>
      if negb cond then Raise (error msg)
      else check_and_raise error msg x rest
  end.

(** *** Statements about them *)

(** The row-major strides of a shape, in elements. *)
Fixpoint c_strides (shape : list Z) : list Z :=
  match shape with
  | [] => []
  | _ :: rest => size_of rest :: c_strides rest
  end.

(** The coordinates of the index at position [j] in the output of
    [unravelindex]. *)
Definition coordinates_at (out : int_array) (j : nat) : list Z :=
  match out with
  | Vec v => [nth j v 0]
  | Mat rows => map (fun row => nth j row 0) rows
  end.

(** ** Bilinear kernels (abstract_conv.py, lines 1745-1809) *)

(** [bilinear_kernel_1D] for an integer ratio.  The elements are floats,
    which the rationals they stand for represent; rounding is not
    modelled. *)
Definition bilinear_kernel_1D (ratio : Z) (normalize : bool)
  : result (list Q) :=
  (* pt.arange(1, ratio + 1) *)
  let half_kern :=
    map (fun i => inject_Z (1 + Z.of_nat i)) (seq 0 (Z.to_nat ratio)) in
  back <- py_slice_step half_kern (Some (-2)) None (Some (-1)) 0%Q ;;
  let kern := half_kern ++ back in
  Ok (if normalize then map (fun x => (x / inject_Z ratio)%Q) kern else kern).

(** The [ratio] argument of [bilinear_kernel_2D]: an integer, or a tuple of
    the vertical and the horizontal ratio. *)
Inductive ratio_arg : Type :=
| RatioInt (ratio : Z)
| RatioPair (ratio0 ratio1 : Z).

(** [bilinear_kernel_2D]: the matrix by its rows; [hkern] is a row and
    [vkern] a column, and their product is broadcast. *)
Definition bilinear_kernel_2D (ratio : ratio_arg) (normalize : bool)
  : result (list (list Q)) :=
  let '(ratio_h, ratio_v) :=
    match ratio with
    | RatioPair ratio0 ratio1 => (ratio1, ratio0)
    | RatioInt ratio => (ratio, ratio)
    end in
  hkern <- bilinear_kernel_1D ratio_h normalize ;;
  vkern <- bilinear_kernel_1D ratio_v normalize ;;
  Ok (map (fun v => map (fun h => (h * v)%Q) hkern) vkern).

(** The sum of the elements of a vector. *)
Definition qsum (l : list Q) : Q := fold_right Qplus 0%Q l.

(** ** Shape inference and operation counts of the operators *)

(** [shp[i] if static[i] is None else static[i] for i in range(n)]: the
    entries of the static shape of the operator where they are known, and
    those of the shape at hand elsewhere. *)
Definition override_shape (static : list (option dim)) (shp : list Z) (n : Z)
  : result (list (option Z)) :=
  mapM (fun i =>
      e <- py_nth static i ;;
      match e with
      | None => f <- py_nth shp i ;; Ok (Some f)
      | Some d => v <- dim_value d ;; Ok (Some v)
      end) (range n).

(** [AbstractConv.infer_shape] (lines 2619-2643); the input shapes enter
    by their values. *)
Definition AbstractConv_infer_shape (self : ConvOp)
    (input_imshp input_kshp : list Z) : result (list (option Z)) :=
  (* replace symbolic shapes with known constant shapes *)
  imshp <- override_shape (imshp self) input_imshp (2 + convdim self) ;;
  kshp <- override_shape (kshp self) input_kshp
            (if unshared self then 2 + 2 * convdim self
             else 2 + convdim self) ;;
  get_conv_output_shape imshp kshp (border_mode self) (subsample self)
    (Some (filter_dilation self)).

(** [AbstractConv_gradWeights.infer_shape] (lines 2965-2999); [shape_] is
    the third input of the node. *)
Definition AbstractConv_gradWeights_infer_shape (self : ConvOp)
    (imshp topshp shape_ : list Z) : result (list (option Z)) :=
  let kshp :=
    match kshp self with
    | [] => repeat None (Z.to_nat (if unshared self then 2 + 2 * convdim self
                                   else 2 + convdim self))
    | _ => kshp self
    end in
  if unshared self then
    t1 <- py_nth topshp 1 ;;
    t2 <- py_nth topshp 2 ;;
    t3 <- py_nth topshp 3 ;;
    i1 <- py_nth imshp 1 ;;
    c <- py_floordiv i1 (num_groups self) ;;
    spatial <- mapM (fun i => py_nth shape_ i) (range (convdim self)) ;;
    override_shape kshp (t1 :: t2 :: t3 :: c :: spatial) (2 + 2 * convdim self)
  else
    t1 <- py_nth topshp 1 ;;
    i1 <- py_nth imshp 1 ;;
    c <- py_floordiv i1 (num_groups self) ;;
    spatial <- mapM (fun i => py_nth shape_ i) (range (convdim self)) ;;
    override_shape kshp (t1 :: c :: spatial) (2 + convdim self).

(** [AbstractConv_gradInputs.infer_shape] (lines 3359-3379). *)
Definition AbstractConv_gradInputs_infer_shape (self : ConvOp)
    (kshp topshp shape_ : list Z) : result (list (option Z)) :=
  let imshp := imshp self in
  t0 <- py_nth topshp 0 ;;
  kc <- py_index kshp (- convdim self - 1) ;;
  let channels := if num_groups self >? 1 then kc * num_groups self else kc in
  spatial <- mapM (fun i => py_nth shape_ i) (range (convdim self)) ;;
  override_shape imshp (t0 :: channels :: spatial) (2 + convdim self).

(** [BaseAbstractConv.flops] (lines 2248-2267); [inputs], [filters] and
    [outputs] are shapes.  The division is a true division, and the result
    a float. *)
Definition flops (self : ConvOp) (inputs filters outputs : list Z)
  : result pynum :=
  if convdim self =? 2 then
    i1 <- py_nth inputs 1 ;;
    f1 <- py_nth filters 1 ;;
    if negb (i1 =? f1 * num_groups self) then Raise AssertionError else
    (* nb mul and add by output pixel *)
    f2 <- py_nth filters 2 ;;
    f3 <- py_nth filters 3 ;;
    let flops := f2 * f3 * 2 in
    (* nb flops by output image *)
    o2 <- py_nth outputs 2 ;;
    o3 <- py_nth outputs 3 ;;
    let flops := flops * (o2 * o3) in
    (* nb patch multiplied *)
    f0 <- py_nth filters 0 ;;
    i0 <- py_nth inputs 0 ;;
    patches <- py_truediv (i1 * f0 * i0) (num_groups self) ;;
    match patches with
    | PyFloat q => Ok (PyFloat (Qred (inject_Z flops * q)))
    | PyInt z => Ok (PyInt (flops * z))
    end
  else
    Raise (NotImplementedError "flops not implemented for convdim={}").

(** ** The axes of [numba_funcify_CumOp] *)

(** [reaxis_first = (axis, *(i for i in range(ndim) if i != axis))] *)
Definition reaxis_first (axis ndim : nat) : list nat :=
  axis :: filter (fun i => negb (i =? axis)%nat) (seq 0 ndim).

(** [reaxis_first_inv = tuple(np.argsort(reaxis_first))] *)
Definition reaxis_first_inv (axis ndim : nat) : list nat :=
  map (fun p => position_of p (reaxis_first axis ndim)) (seq 0 ndim).

(** * Properties *)

(** ** Shape arithmetic *)

Lemma bind_ok {A B : Type} (m : result A) (k : A -> result B) (a : A) :
  m = Ok a -> bind m k = k a.
Proof. intros ->; reflexivity. Qed.

Lemma resolved_axis_mode_pads (m : axis_mode) (dk : Z) :
  resolved_axis_mode m = true -> exists p, spec_pads m dk = Some p.
Proof.
  destruct m as [s | v | [| l [| r [| x t]]]]; simpl; try discriminate; eauto.
  destruct (String.eqb s "half"); eauto.
  destruct (String.eqb s "full"); eauto.
  destruct (String.eqb s "valid"); eauto.
  simpl; discriminate.
Qed.

(** The output size of one axis, for a border mode of the data model and a
    subsample that is not zero. *)
Lemma get_conv_shape_1axis_resolved (i k s d : Z) (m : axis_mode) :
  resolved_axis_mode m = true -> s <> 0 ->
  get_conv_shape_1axis (Some i) (Some k) (Some m) (Some s) (Some d)
  = Ok (Some (conv_out_size i (dilated_size k d) m s)).
Proof.
  intros Hm Hs. unfold get_conv_shape_1axis, conv_out_size, axis_pads,
    dilated_size.
  assert (Hdiv : forall x,
    bind (if negb (s =? 1) then py_floordiv x s else Ok x)
         (fun o => Ok (Some (o + 1))) = Ok (Some (x / s + 1))).
  { intros x. destruct (Z.eqb_spec s 1) as [-> | Hs1]; simpl.
    - now rewrite Z.div_1_r.
    - unfold py_floordiv. destruct (Z.eqb_spec s 0); [contradiction | reflexivity]. }
  assert (Hpad : forall x p, (if negb (p =? 0) then x + p else x) = x + p).
  { intros x p. destruct (Z.eqb_spec p 0) as [-> | _]; simpl; lia. }
  destruct m as [str | v | [| l [| r [| y t]]]]; simpl in Hm;
    try discriminate.
  - simpl. destruct (String.eqb str "half").
    { cbn [bind fst snd]. rewrite !Hpad, Hdiv. do 4 f_equal; lia. }
    destruct (String.eqb str "full").
    { cbn [bind fst snd]. rewrite !Hpad, Hdiv. do 4 f_equal; lia. }
    destruct (String.eqb str "valid"); [| discriminate].
    cbn [bind fst snd]. rewrite Hdiv.
    replace (i + 0 + 0 - ((k - 1) * d + 1)) with (i - ((k - 1) * d + 1)) by lia.
    reflexivity.
  - apply Z.leb_le in Hm. simpl.
    destruct (Z.ltb_spec v 0); [lia |]. cbn [orb bind fst snd].
    rewrite !Hpad, Hdiv. do 4 f_equal; lia.
  - apply andb_true_iff in Hm as [Hl Hr].
    apply Z.leb_le in Hl, Hr. simpl.
    destruct (Z.ltb_spec l 0); [lia |].
    destruct (Z.ltb_spec r 0); [lia |]. cbn [orb bind fst snd].
    rewrite !Hpad, Hdiv. do 4 f_equal; lia.
Qed.

(** C2. The single-axis forward output size is [None] as soon as one input
    is [None]; otherwise, for a border mode of the data model and a non-zero
    subsample, it is
    [(image + pad_l + pad_r - dil_kernel) // subsample + 1] with
    [dil_kernel = (kernel - 1) * dilation + 1] and the pad pair resolved
    from the border mode. *)
Theorem get_conv_shape_1axis_formula :
  forall (image kernel : option Z) (bm : option axis_mode)
         (subsample dilation : option Z),
    (image = None \/ kernel = None \/ bm = None \/ subsample = None
       \/ dilation = None ->
     get_conv_shape_1axis image kernel bm subsample dilation = Ok None)
    /\
    (forall i k m s d pad_l pad_r,
       image = Some i -> kernel = Some k -> bm = Some m ->
       subsample = Some s -> dilation = Some d ->
       resolved_axis_mode m = true -> s <> 0 ->
       spec_pads m ((k - 1) * d + 1) = Some (pad_l, pad_r) ->
       get_conv_shape_1axis image kernel bm subsample dilation
       = Ok (Some ((i + pad_l + pad_r - ((k - 1) * d + 1)) / s + 1))).
Proof.
  intros image kernel bm subsample dilation; split.
  - intros H.
    destruct image, kernel, bm, subsample, dilation; try reflexivity;
      exfalso; decompose [or] H; discriminate.
  - intros i k m s d pl pr -> -> -> -> -> Hm Hs Hp.
    rewrite get_conv_shape_1axis_resolved by assumption.
    unfold conv_out_size, axis_pads, dilated_size. rewrite Hp. reflexivity.
Qed.

Lemma get_conv_shape_1axis_formula_witness :
  get_conv_shape_1axis (Some 10) (Some 3) (Some (AStr "half")) (Some 2) (Some 2)
  = Ok (Some ((10 + 2 + 2 - ((3 - 1) * 2 + 1)) / 2 + 1)).
Proof.
  apply (proj2 (get_conv_shape_1axis_formula (Some 10) (Some 3)
                  (Some (AStr "half")) (Some 2) (Some 2))
           10 3 (AStr "half") 2 2 2 2);
    try reflexivity; discriminate.
Defined.

(** Outside the data model the function raises: a negative explicit padding
    is a [ValueError], a zero subsample a [ZeroDivisionError]. *)
Lemma get_conv_shape_1axis_negative_pad (i k v s d : Z) :
  v < 0 ->
  get_conv_shape_1axis (Some i) (Some k) (Some (AInt v)) (Some s) (Some d)
  = Raise (ValueError "border_mode must be >= 0").
Proof.
  intros Hv. unfold get_conv_shape_1axis.
  destruct (Z.ltb_spec v 0); [reflexivity | lia].
Qed.

Lemma get_conv_shape_1axis_zero_subsample (i k d : Z) :
  get_conv_shape_1axis (Some i) (Some k) (Some (AStr "valid")) (Some 0) (Some d)
  = Raise ZeroDivisionError.
Proof. reflexivity. Qed.

Lemma axis_mode_eqb_str (m : axis_mode) (s : string) :
  axis_mode_eqb m (AStr s) = true <-> m = AStr s.
Proof.
  destruct m as [t | v | l]; simpl; split; try discriminate.
  - intros H. apply String.eqb_eq in H. now subst.
  - intros [= ->]. apply String.eqb_refl.
Qed.

(** For a border mode of the data model that is not half, and a subsample
    of one, the kernel size of one axis is computed and returned. *)
Lemma gradweights_shape_1axis_known (i t d : Z) (m : axis_mode) :
  resolved_axis_mode m = true ->
  m <> AStr "half" ->
  exists v,
    get_conv_gradweights_shape_1axis (Some i) (Some t) (Some m) (Some 1)
      (Some d) = Ok (Some v).
Proof.
  intros Hm Hhalf. unfold get_conv_gradweights_shape_1axis.
  assert (Hd : forall x, exists v,
    bind (if d >? 1 then py_truediv x d else Ok (PyInt x))
         (fun ks => Ok (Some (py_add_int ks 1))) = Ok (Some v)).
  { intros x. destruct (d >? 1) eqn:E; simpl; [| eauto].
    unfold py_truediv. destruct (Z.eqb_spec d 0); [| simpl; eauto].
    apply Z.gtb_lt in E; lia. }
  destruct (axis_mode_eqb m (AStr "half")) eqn:Eh.
  { apply axis_mode_eqb_str in Eh; contradiction. }
  simpl.
  destruct (axis_mode_eqb m (AStr "full")) eqn:Ef; [simpl; apply Hd |].
  destruct (axis_mode_eqb m (AStr "valid")) eqn:Ev; [simpl; apply Hd |].
  destruct m as [s | v | [| l [| r [| y ys]]]]; simpl in Hm; try discriminate.
  - simpl in Eh, Ef, Ev. rewrite Eh, Ef, Ev in Hm. discriminate.
  - apply Z.leb_le in Hm. destruct (Z.ltb_spec v 0); [lia |]. simpl. apply Hd.
  - apply andb_true_iff in Hm as [Hl Hr]. apply Z.leb_le in Hl, Hr.
    destruct (Z.ltb_spec l 0); [lia |].
    destruct (Z.ltb_spec r 0); [lia |]. simpl. apply Hd.
Qed.

(** C5. For a border mode of the data model, the single-axis
    gradient-wrt-weights shape function returns a known value exactly when
    all of its inputs are known, the subsample is 1 and the border mode is not
    half; in every other case it returns [None]. *)
Theorem gradweights_shape_1axis_known_iff :
  forall (image top : option Z) (bm : option axis_mode)
         (subsample dilation : option Z),
    (forall m, bm = Some m -> resolved_axis_mode m = true) ->
    let known :=
      image <> None /\ top <> None /\ bm <> None /\ dilation <> None
      /\ subsample = Some 1 /\ bm <> Some (AStr "half") in
    ((exists v, get_conv_gradweights_shape_1axis image top bm subsample dilation
                = Ok (Some v)) <-> known)
    /\ (~ known ->
        get_conv_gradweights_shape_1axis image top bm subsample dilation
        = Ok None).
Proof.
  intros image top bm subsample dilation Hbm known.
  assert (Hnone : ~ known ->
    get_conv_gradweights_shape_1axis image top bm subsample dilation = Ok None).
  { intros Hk. destruct image as [i |], top as [t |], bm as [m |],
      subsample as [s |], dilation as [d |]; try reflexivity.
    unfold get_conv_gradweights_shape_1axis.
    destruct (Z.eqb_spec s 1) as [-> | Hs]; [| reflexivity].
    destruct (axis_mode_eqb m (AStr "half")) eqn:Eh; [reflexivity |].
    exfalso. apply Hk. unfold known. repeat split; try discriminate.
    intros [= ->]. simpl in Eh. discriminate. }
  split; [split |]; [| | exact Hnone].
  - intros [v Hv].
    destruct image as [i |], top as [t |], bm as [m |],
      subsample as [s |], dilation as [d |]; try discriminate.
    unfold known. unfold get_conv_gradweights_shape_1axis in Hv.
    destruct (Z.eqb_spec s 1) as [-> | Hs]; [| discriminate].
    destruct (axis_mode_eqb m (AStr "half")) eqn:Eh; [discriminate |].
    repeat split; try discriminate.
    intros [= ->]. simpl in Eh. discriminate.
  - intros (Hi & Ht & Hm & Hd & -> & Hh).
    destruct image as [i |], top as [t |], bm as [m |], dilation as [d |];
      try contradiction.
    apply gradweights_shape_1axis_known.
    + now apply Hbm.
    + intros ->. now apply Hh.
Qed.

Lemma gradweights_shape_1axis_known_iff_witness :
  (exists v, get_conv_gradweights_shape_1axis (Some 10) (Some 8)
               (Some (AInt 0)) (Some 1) (Some 1) = Ok (Some v))
  <-> (Some 10 <> None /\ Some 8 <> None /\ Some (AInt 0) <> None
       /\ Some 1 <> None /\ Some 1 = Some 1
       /\ Some (AInt 0) <> Some (AStr "half")).
Proof.
  refine (proj1 (gradweights_shape_1axis_known_iff (Some 10) (Some 8)
                   (Some (AInt 0)) (Some 1) (Some 1) _)).
  intros m [= <-]. reflexivity.
Defined.

(** With a negative explicit padding the function raises instead. *)
Lemma gradweights_shape_1axis_negative_pad (i t v d : Z) :
  v < 0 ->
  get_conv_gradweights_shape_1axis (Some i) (Some t) (Some (AInt v)) (Some 1)
    (Some d) = Raise (ValueError "border_mode must be >= 0").
Proof.
  intros Hv. unfold get_conv_gradweights_shape_1axis. simpl.
  destruct (Z.ltb_spec v 0); [reflexivity | lia].
Qed.

(** C9, as stated, fails: an image of size 3 and a top of size 10 in valid
    mode give the integer -6. *)
Lemma gradweights_shape_1axis_negative :
  ~ returns_nonneg_int
      (get_conv_gradweights_shape_1axis (Some 3) (Some 10)
         (Some (AStr "valid")) (Some 1) (Some 1)).
Proof.
  intros [n [H Hn]]. vm_compute in H. injection H as <-. lia.
Qed.

(** C9, amended. For integer inputs, a subsample of 1, a dilation of at most
    1 and a border mode that is valid, full, a non-negative integer or a
    non-negative pair, the function returns the integer
    [image + pad_l + pad_r - top + 1] ([top - image + 1] in full mode); that
    integer is non-negative exactly when the other size is not more than one
    past it. *)
Theorem gradweights_shape_1axis_integer :
  forall (image top d : Z) (m : axis_mode),
    resolved_axis_mode m = true ->
    m <> AStr "half" ->
    d <= 1 ->
    get_conv_gradweights_shape_1axis (Some image) (Some top) (Some m) (Some 1)
      (Some d) = Ok (Some (PyInt (undilated_kernel_size m image top)))
    /\ (returns_nonneg_int
          (get_conv_gradweights_shape_1axis (Some image) (Some top) (Some m)
             (Some 1) (Some d))
        <-> 0 <= undilated_kernel_size m image top).
Proof.
  intros image top d m Hm Hhalf Hd.
  assert (E : get_conv_gradweights_shape_1axis (Some image) (Some top) (Some m)
                (Some 1) (Some d)
              = Ok (Some (PyInt (undilated_kernel_size m image top)))).
  { unfold get_conv_gradweights_shape_1axis.
    assert (Hgt : (d >? 1) = false) by (rewrite Z.gtb_ltb; apply Z.ltb_ge; lia).
    destruct (axis_mode_eqb m (AStr "half")) eqn:Eh.
    { apply axis_mode_eqb_str in Eh; contradiction. }
    simpl.
    destruct m as [s | v | [| l [| r [| y ys]]]]; simpl in Hm; try discriminate.
    - simpl in Eh |- *. rewrite Eh in Hm.
      destruct (String.eqb s "full") eqn:Ef; simpl.
      + rewrite Hgt. reflexivity.
      + destruct (String.eqb s "valid"); [| discriminate]. simpl.
        rewrite Hgt. reflexivity.
    - apply Z.leb_le in Hm. simpl.
      destruct (Z.ltb_spec v 0); [lia |]. simpl. rewrite Hgt. reflexivity.
    - apply andb_true_iff in Hm as [Hl Hr]. apply Z.leb_le in Hl, Hr. simpl.
      destruct (Z.ltb_spec l 0); [lia |].
      destruct (Z.ltb_spec r 0); [lia |]. simpl. rewrite Hgt. reflexivity. }
  split; [exact E |].
  rewrite E. unfold returns_nonneg_int. split.
  - intros [n [[= <-] Hn]]. exact Hn.
  - intros Hn. eauto.
Qed.

Lemma gradweights_shape_1axis_integer_witness :
  get_conv_gradweights_shape_1axis (Some 10) (Some 8) (Some (AInt 0)) (Some 1)
    (Some 1) = Ok (Some (PyInt (undilated_kernel_size (AInt 0) 10 8))).
Proof.
  apply (proj1 (gradweights_shape_1axis_integer 10 8 1 (AInt 0) eq_refl
                  ltac:(discriminate) ltac:(lia))).
Defined.

(** With a dilation above 1 the quotient is taken by true division: the
    value returned is a float, whole or not. *)
Lemma gradweights_shape_1axis_dilated_float :
  get_conv_gradweights_shape_1axis (Some 10) (Some 6) (Some (AStr "valid"))
    (Some 1) (Some 2) = Ok (Some (PyFloat (3 # 1)))
  /\ get_conv_gradweights_shape_1axis (Some 10) (Some 7) (Some (AStr "valid"))
       (Some 1) (Some 2) = Ok (Some (PyFloat (5 # 2))).
Proof. split; reflexivity. Qed.

(** ** Operator construction *)

Lemma mapM_inv {A B : Type} (f : A -> result B) (l : list A) (l' : list B) :
  mapM f l = Ok l' -> Forall2 (fun x y => f x = Ok y) l l'.
Proof.
  revert l'. induction l as [| x l IH]; intros l' H; simpl in H.
  - injection H as <-. constructor.
  - destruct (f x) as [y |] eqn:Ex; [| discriminate]. simpl in H.
    destruct (mapM f l) as [ys |] eqn:El; [| discriminate]. simpl in H.
    injection H as <-. constructor; auto.
Qed.


Lemma len_cons {A : Type} (x : A) (l : list A) : len (x :: l) = len l + 1.
Proof. unfold len. simpl List.length. lia. Qed.

Lemma len_nonneg {A : Type} (l : list A) : 0 <= len l.
Proof. unfold len. lia. Qed.

Lemma len_map {A B : Type} (f : A -> B) (l : list A) : len (map f l) = len l.
Proof. unfold len. now rewrite length_map. Qed.

(** One iteration of the normalisation loop: what it accepts and what it
    yields. *)
Lemma normalize_axis_mode_inv (cd : Z) (w : border_mode_t) (m m' : axis_mode) :
  normalize_axis_mode cd w m = Ok m' ->
  m' = collapse_pair m
  /\ ((exists v, m = AInt v /\ 0 <= v)
      \/ (exists a b, m = ATuple [a; b] /\ 0 <= a /\ 0 <= b /\ cd = 2)).
Proof.
  unfold normalize_axis_mode.
  destruct m as [s | v | t].
  - discriminate.
  - destruct (Z.leb_spec 0 v); simpl; [| discriminate].
    intros [= <-]. split; [reflexivity |]. left; eauto.
  - destruct t as [| a [| b [| c t]]]; try discriminate.
    + unfold forallb.
      destruct (Z.leb_spec 0 a), (Z.leb_spec 0 b); simpl; try discriminate.
      destruct (Z.eqb_spec cd 2); simpl; [| discriminate].
      intros Hres. split.
      * simpl. destruct (a =? b); congruence.
      * right. exists a, b. auto.
    + rewrite !len_cons.
      destruct (Z.eqb_spec (len t + 1 + 1 + 1) 2) as [E |]; simpl;
        [| discriminate].
      pose proof (len_nonneg t). lia.
Qed.

Lemma normalize_axis_mode_int (cd : Z) (w : border_mode_t) (v : Z) :
  0 <= v -> normalize_axis_mode cd w (AInt v) = Ok (AInt v).
Proof.
  intros Hv. unfold normalize_axis_mode.
  destruct (Z.leb_spec 0 v); [reflexivity | lia].
Qed.

Lemma normalize_axis_mode_pair (w : border_mode_t) (a b : Z) :
  0 <= a -> 0 <= b ->
  normalize_axis_mode 2 w (ATuple [a; b]) = Ok (collapse_pair (ATuple [a; b])).
Proof.
  intros Ha Hb. unfold normalize_axis_mode, forallb.
  destruct (Z.leb_spec 0 a), (Z.leb_spec 0 b); try lia. simpl.
  destruct (a =? b); reflexivity.
Qed.

(** The loop is idempotent, and does not tell a symmetric pair from its
    scalar. *)
Lemma normalize_axis_mode_stable (cd : Z) (w w' : border_mode_t)
    (m m' : axis_mode) :
  normalize_axis_mode cd w m = Ok m' ->
  normalize_axis_mode cd w' m' = Ok m'
  /\ normalize_axis_mode cd w' (collapse_pair m) = Ok m'.
Proof.
  intros H. apply normalize_axis_mode_inv in H as [-> H].
  destruct H as [(v & -> & Hv) | (a & b & -> & Ha & Hb & ->)].
  - simpl. split; now apply normalize_axis_mode_int.
  - simpl. destruct (Z.eqb_spec a b) as [-> | Hab].
    + split; now apply normalize_axis_mode_int.
    + pose proof (normalize_axis_mode_pair w' a b Ha Hb) as E.
      simpl in E. destruct (Z.eqb_spec a b); [contradiction |]. now split.
Qed.


Lemma normalize_axis_modes_stable (cd : Z) (w w' : border_mode_t)
    (l l' : list axis_mode) :
  mapM (normalize_axis_mode cd w) l = Ok l' ->
  l' = map collapse_pair l
  /\ mapM (normalize_axis_mode cd w') l' = Ok l'
  /\ mapM (normalize_axis_mode cd w') (map collapse_pair l) = Ok l'.
Proof.
  intros H. apply mapM_inv in H.
  induction H as [| m m' l l' Hm _ (IH1 & IH2 & IH3)].
  - repeat split.
  - pose proof (normalize_axis_mode_inv _ _ _ _ Hm) as [E _].
    destruct (normalize_axis_mode_stable cd w w' m m' Hm) as [S1 S2].
    repeat split.
    + simpl. congruence.
    + simpl. now rewrite S1, IH2.
    + simpl. now rewrite S2, IH3.
Qed.






Lemma mapM_normalize_repeat (cd : Z) (w : border_mode_t) (v : Z) (n : nat) :
  0 <= v ->
  mapM (normalize_axis_mode cd w) (repeat (AInt v) n) = Ok (repeat (AInt v) n).
Proof.
  intros Hv. induction n as [| n IH]; simpl; [reflexivity |].
  now rewrite normalize_axis_mode_int, IH.
Qed.

Lemma len_repeat {A : Type} (x : A) (n : nat) : len (repeat x n) = Z.of_nat n.
Proof. unfold len. now rewrite repeat_length. Qed.

(** What the normalisation accepts, and what it stores. *)
Lemma normalize_border_mode_inv (cd : Z) (bm s : border_mode_t) :
  normalize_border_mode cd bm = Ok s ->
  (exists str, bm = BStr str /\ s = bm
     /\ (str = "valid" \/ str = "full" \/ str = "half")%string)
  \/ (exists l, len l = cd
        /\ (bm = BTuple l
            \/ exists v, bm = BInt v /\ 0 <= v
                         /\ l = repeat (AInt v) (Z.to_nat cd))
        /\ mapM (normalize_axis_mode cd bm) l = Ok (map collapse_pair l)
        /\ s = if all_zero (map collapse_pair l) then BStr "valid"
               else BTuple (map collapse_pair l))
  \/ (exists v, bm = BInt v /\ 0 <= v /\ cd < 0 /\ s = BStr "valid").
Proof.
  unfold normalize_border_mode. destruct bm as [str | v | l].
  - destruct (String.eqb_spec str "valid") as [-> | Hv]; simpl.
    { intros [= <-]. left. eauto 6. }
    destruct (String.eqb_spec str "full") as [-> | Hf]; simpl.
    { intros [= <-]. left. eauto 6. }
    destruct (String.eqb_spec str "half") as [-> | Hh]; simpl; [| discriminate].
    intros [= <-]. left. eauto 7.
  - destruct (Z.ltb_spec v 0) as [| Hv]; [discriminate |]. simpl.
    intros [= <-]. fold (all_zero (repeat (AInt v) (Z.to_nat cd))).
    destruct (Z.le_gt_cases 0 cd) as [Hcd | Hcd].
    + right; left. exists (repeat (AInt v) (Z.to_nat cd)).
      assert (E : map collapse_pair (repeat (AInt v) (Z.to_nat cd))
                  = repeat (AInt v) (Z.to_nat cd)).
      { induction (Z.to_nat cd); simpl; congruence. }
      rewrite E. repeat split.
      * rewrite len_repeat. lia.
      * right. eauto.
      * now apply mapM_normalize_repeat.
    + right; right. exists v. repeat split; auto.
      replace (Z.to_nat cd) with 0%nat by lia. reflexivity.
  - destruct (Z.eqb_spec (len l) cd) as [El |]; simpl; [| discriminate].
    destruct (mapM (normalize_axis_mode cd (BTuple l)) l) as [l' |] eqn:Em;
      [| discriminate].
    simpl. intros [= <-]. fold (all_zero l').
    destruct (normalize_axis_modes_stable cd _ (BTuple l) l l' Em) as (-> & _ & _).
    right; left. exists l. repeat split; auto.
Qed.







(** ** Composition layer *)

Lemma check_constant_shape_ok (what : string) (shp : list (option dim)) :
  constant_shape shp = true -> check_constant_shape what shp = Ok tt.
Proof.
  intros H. unfold check_constant_shape.
  assert (E : mapM (fun e : option dim =>
                match e with
                | None => Ok tt
                | Some (DimInt _) => Ok tt
                | Some (DimSym _) =>
                    Raise (ValueError
                      (what ++ " should be None or a tuple of constant int values"))
                end) shp = Ok (map (fun _ => tt) shp)).
  { induction shp as [| e shp IH]; [reflexivity |].
    simpl in H. apply andb_true_iff in H as [He Hs].
    cbn [mapM]. rewrite (IH Hs).
    destruct e as [[z | n] |]; try discriminate; reflexivity. }
  now rewrite E.
Qed.




(** The example of the specification: dilation 2 and kernel length 3 give a
    left pad of 4, and an input of length 10 an output of length 10. *)
Lemma causal_conv1d_example :
  exists op,
    causal_conv1d 3 3 [Some (DimInt 1); Some (DimInt 1); Some (DimInt 3)] None
      1 true 2 1 false = Ok op
    /\ border_mode op = BTuple [ATuple [4; 0]; AInt 0]
    /\ get_conv_output_shape [Some 1; Some 1; Some 10; Some 1]
         [Some 1; Some 1; Some 3; Some 1] (border_mode op) (subsample op)
         (Some (filter_dilation op))
       = Ok [Some 1; Some 1; Some 10; Some 1].
Proof. eexists. repeat split. Qed.




(** With exactly one of them the arguments are accepted, and the kernel
    flag selects the graph. *)
Lemma bilinear_upsampling_accepts (r : Z) (fr : frac_ratio_t) :
  r <> 0 ->
  bilinear_upsampling (Some r) None true = Ok (Upsampling1DKernels r)
  /\ bilinear_upsampling (Some r) None false = Ok (Upsampling2DKernel r)
  /\ bilinear_upsampling None (Some fr) false = Ok (FracBilinearUpsampling fr).
Proof.
  intros Hr. unfold bilinear_upsampling. simpl.
  destruct (Z.eqb_spec r 0); [contradiction |]. auto.
Qed.

(** A ratio of zero counts as no ratio. *)
Lemma bilinear_upsampling_zero_ratio (fr : frac_ratio_t) :
  bilinear_upsampling (Some 0) (Some fr) false = Ok (FracBilinearUpsampling fr).
Proof. reflexivity. Qed.

(** ** CumOp *)

(** On [np.arange(1, 13).reshape(2, 3, 2)] and the last axis, the loop of the
    add branch computes [np.cumsum]. *)
Lemma cumop_add_axis2 :
  contents (cumop (Some 2) CumAdd arange_2_3_2)
  = Some (shape (np_cum_axis Z.add arange_2_3_2 2),
          to_list (np_cum_axis Z.add arange_2_3_2 2)).
Proof. vm_compute. reflexivity. Qed.

(** C3 fails there for the prod branch: it transposes the result with
    [reaxis_first = (2, 0, 1)] again, not with its inverse [(1, 2, 0)], and
    returns an array of shape [(3, 2, 2)] whose values are not those of
    [np.cumprod(x, 2)], of shape [(2, 3, 2)]. *)
Theorem cumop_prod_axis2_wrong :
  contents (cumop (Some 2) CumMul arange_2_3_2)
  = Some ([3; 2; 2], [1; 7; 2; 56; 3; 9; 12; 90; 5; 11; 30; 132])
  /\ shape (np_cum_axis Z.mul arange_2_3_2 2) = [2; 3; 2]
  /\ to_list (np_cum_axis Z.mul arange_2_3_2 2)
     = [1; 2; 3; 12; 5; 30; 7; 56; 9; 90; 11; 132].
Proof. vm_compute. repeat split. Qed.

(** On the axes 0 and 1 of a rank 3 array the permutation is its own
    inverse, and the prod branch agrees with [np.cumprod]. *)
Lemma cumop_prod_axis01 :
  contents (cumop (Some 0) CumMul arange_2_3_2)
  = Some (shape (np_cum_axis Z.mul arange_2_3_2 0),
          to_list (np_cum_axis Z.mul arange_2_3_2 0))
  /\ contents (cumop (Some 1) CumMul arange_2_3_2)
     = Some (shape (np_cum_axis Z.mul arange_2_3_2 1),
             to_list (np_cum_axis Z.mul arange_2_3_2 1)).
Proof. vm_compute. split; reflexivity. Qed.

(** ** Finite sums *)

Section SumLemmas.
Context {R : Type} `{Scalar R}.

Add Ring scalar_ring_tac : scalar_ring.

Local Infix "+r" := radd (at level 50, left associativity).
Local Infix "*r" := rmul (at level 40, left associativity).

Lemma sum_upto_ext (n : nat) (f g : Z -> R) :
  (forall i, 0 <= i < Z.of_nat n -> f i = g i) ->
  sum_upto n f = sum_upto n g.
Proof.
  induction n as [| n IH]; intros E; simpl; [reflexivity |].
  rewrite IH, E; [reflexivity | lia |]. intros i Hi. apply E. lia.
Qed.

Lemma sum_range_ext (n : Z) (f g : Z -> R) :
  (forall i, 0 <= i < n -> f i = g i) -> sum_range n f = sum_range n g.
Proof. intros E. apply sum_upto_ext. intros i Hi. apply E. lia. Qed.

Lemma sum_range_nonpos (n : Z) (f : Z -> R) : n <= 0 -> sum_range n f = rzero.
Proof.
  intros Hn. unfold sum_range. replace (Z.to_nat n) with O by lia. reflexivity.
Qed.

Lemma sum_range_succ (n : Z) (f : Z -> R) :
  0 <= n -> sum_range (n + 1) f = sum_range n f +r f n.
Proof.
  intros Hn. unfold sum_range.
  replace (Z.to_nat (n + 1)) with (S (Z.to_nat n)) by lia.
  simpl. now rewrite Z2Nat.id.
Qed.

Lemma sum_upto_zero (n : nat) : sum_upto n (fun _ => rzero) = rzero.
Proof. induction n as [| n IH]; simpl; [reflexivity |]. rewrite IH. ring. Qed.

Lemma sum_range_zero (n : Z) : sum_range n (fun _ => rzero) = rzero.
Proof. apply sum_upto_zero. Qed.

Lemma sum_upto_add (n : nat) (f g : Z -> R) :
  sum_upto n (fun i => f i +r g i) = sum_upto n f +r sum_upto n g.
Proof. induction n as [| n IH]; simpl; [ring |]. rewrite IH. ring. Qed.

Lemma sum_range_add (n : Z) (f g : Z -> R) :
  sum_range n (fun i => f i +r g i) = sum_range n f +r sum_range n g.
Proof. apply sum_upto_add. Qed.

Lemma sum_upto_scale (n : nat) (c : R) (f : Z -> R) :
  sum_upto n (fun i => c *r f i) = c *r sum_upto n f.
Proof. induction n as [| n IH]; simpl; [ring |]. rewrite IH. ring. Qed.

Lemma sum_range_scale (n : Z) (c : R) (f : Z -> R) :
  sum_range n (fun i => c *r f i) = c *r sum_range n f.
Proof. apply sum_upto_scale. Qed.

Lemma sum_range_scale_r (n : Z) (c : R) (f : Z -> R) :
  sum_range n (fun i => f i *r c) = sum_range n f *r c.
Proof.
  rewrite (sum_range_ext n _ (fun i => c *r f i)) by (intros; ring).
  rewrite sum_range_scale. ring.
Qed.

Lemma sum_upto_swap (n m : nat) (f : Z -> Z -> R) :
  sum_upto n (fun i => sum_upto m (fun j => f i j))
  = sum_upto m (fun j => sum_upto n (fun i => f i j)).
Proof.
  induction n as [| n IH]; simpl.
  - now rewrite sum_upto_zero.
  - now rewrite IH, sum_upto_add.
Qed.

Lemma sum_range_swap (n m : Z) (f : Z -> Z -> R) :
  sum_range n (fun i => sum_range m (fun j => f i j))
  = sum_range m (fun j => sum_range n (fun i => f i j)).
Proof. apply sum_upto_swap. Qed.

(** A sum whose terms vanish except one. *)
Lemma sum_range_single (n a : Z) (f : Z -> R) :
  0 <= a < n ->
  sum_range n (fun i => if i =? a then f i else rzero) = f a.
Proof.
  intros Ha. unfold sum_range.
  assert (G : forall k : nat,
    sum_upto k (fun i => if i =? a then f i else rzero)
    = if a <? Z.of_nat k then f a else rzero).
  { induction k as [| k IH]; simpl sum_upto.
    - destruct (Z.ltb_spec a (Z.of_nat 0)); [lia | reflexivity].
    - rewrite IH.
      destruct (Z.ltb_spec a (Z.of_nat k)), (Z.eqb_spec (Z.of_nat k) a),
        (Z.ltb_spec a (Z.of_nat (S k))); try lia; subst; ring. }
  rewrite G. destruct (Z.ltb_spec a (Z.of_nat (Z.to_nat n))); [reflexivity | lia].
Qed.

Lemma sum_range_none (n : Z) (f : Z -> R) :
  (forall i, 0 <= i < n -> f i = rzero) -> sum_range n f = rzero.
Proof.
  intros E. rewrite (sum_range_ext n f (fun _ => rzero)) by exact E.
  apply sum_range_zero.
Qed.

(** *** Sums over boxes *)

Lemma in_box_nil : in_box [] [] = true.
Proof. reflexivity. Qed.

Lemma in_box_cons (n : Z) (shp : list Z) (i : Z) (j : list Z) :
  in_box (n :: shp) (i :: j) = (0 <=? i) && (i <? n) && in_box shp j.
Proof.
  unfold in_box. simpl.
  destruct (List.length shp =? List.length j)%nat; simpl.
  - reflexivity.
  - now rewrite andb_false_r.
Qed.

Lemma in_box_length (shp j : list Z) :
  in_box shp j = true -> List.length j = List.length shp.
Proof.
  unfold in_box. intros E. apply andb_true_iff in E as [E _].
  apply Nat.eqb_eq in E. congruence.
Qed.

Lemma sum_box_ext (shp : list Z) (f g : list Z -> R) :
  (forall j, in_box shp j = true -> f j = g j) ->
  sum_box shp f = sum_box shp g.
Proof.
  revert f g. induction shp as [| n shp IH]; intros f g E; simpl.
  - now apply E.
  - apply sum_range_ext. intros i Hi. apply IH. intros j Hj.
    apply E. rewrite in_box_cons, Hj.
    destruct (Z.leb_spec 0 i), (Z.ltb_spec i n); try lia; reflexivity.
Qed.

Lemma sum_box_zero (shp : list Z) : sum_box shp (fun _ => rzero) = rzero.
Proof.
  induction shp as [| n shp IH]; simpl; [reflexivity |].
  rewrite (sum_range_ext _ _ (fun _ => rzero)) by (intros; apply IH).
  apply sum_range_zero.
Qed.

Lemma sum_box_add (shp : list Z) (f g : list Z -> R) :
  sum_box shp (fun j => f j +r g j) = sum_box shp f +r sum_box shp g.
Proof.
  revert f g. induction shp as [| n shp IH]; intros f g; simpl; [reflexivity |].
  rewrite <- sum_range_add. apply sum_range_ext. intros i _. apply IH.
Qed.

Lemma sum_box_scale (shp : list Z) (c : R) (f : list Z -> R) :
  sum_box shp (fun j => c *r f j) = c *r sum_box shp f.
Proof.
  revert f. induction shp as [| n shp IH]; intros f; simpl; [reflexivity |].
  rewrite <- sum_range_scale. apply sum_range_ext. intros i _. apply IH.
Qed.

Lemma sum_box_scale_r (shp : list Z) (c : R) (f : list Z -> R) :
  sum_box shp (fun j => f j *r c) = sum_box shp f *r c.
Proof.
  rewrite (sum_box_ext shp _ (fun j => c *r f j)) by (intros; ring).
  rewrite sum_box_scale. ring.
Qed.

Lemma sum_box_range_swap (shp : list Z) (n : Z) (f : list Z -> Z -> R) :
  sum_box shp (fun j => sum_range n (fun i => f j i))
  = sum_range n (fun i => sum_box shp (fun j => f j i)).
Proof.
  revert f. induction shp as [| m shp IH]; intros f; simpl; [reflexivity |].
  rewrite sum_range_swap. apply sum_range_ext. intros i _.
  rewrite <- IH. reflexivity.
Qed.

Lemma sum_box_swap (s t : list Z) (f : list Z -> list Z -> R) :
  sum_box s (fun i => sum_box t (fun j => f i j))
  = sum_box t (fun j => sum_box s (fun i => f i j)).
Proof.
  revert f. induction s as [| n s IH]; intros f; simpl; [reflexivity |].
  rewrite sum_box_range_swap. apply sum_range_ext. intros i _.
  apply IH.
Qed.

Lemma sum_box_none (shp : list Z) (f : list Z -> R) :
  (forall j, in_box shp j = true -> f j = rzero) -> sum_box shp f = rzero.
Proof.
  intros E. rewrite (sum_box_ext shp f (fun _ => rzero)) by exact E.
  apply sum_box_zero.
Qed.

Lemma sum_box_app (s t : list Z) (f : list Z -> R) :
  sum_box (s ++ t) f = sum_box s (fun i => sum_box t (fun j => f (i ++ j))).
Proof.
  revert f. induction s as [| n s IH]; intros f; simpl; [reflexivity |].
  apply sum_range_ext. intros i _. apply IH.
Qed.
End SumLemmas.

(** ** Index expressions and the views they select *)

Lemma slice_bound_range (given : option Z) (default lower upper n : Z) :
  lower <= 0 -> n - 1 <= upper -> lower <= upper ->
  lower <= default <= upper ->
  lower <= slice_bound given default lower upper n <= upper.
Proof.
  intros H1 H2 H3 H4. unfold slice_bound.
  destruct given as [b |]; [| exact H4].
  destruct (Z.ltb_spec b 0); lia.
Qed.

Lemma slice_count_valid (start stop step n : Z) :
  step <> 0 ->
  (0 < step -> 0 <= start /\ stop <= n) ->
  (step < 0 -> start <= n - 1 /\ -1 <= stop) ->
  0 <= slice_count start stop step
  /\ forall j, 0 <= j < slice_count start stop step ->
               0 <= start + step * j < n.
Proof.
  intros Hsp Hpos Hneg. unfold slice_count.
  destruct (Z.ltb_spec step 0) as [Hs | Hs].
  - destruct (Hneg Hs) as [Hst Hsto].
    destruct (Z.ltb_spec stop start) as [Hlt | Hge]; [| split; lia].
    pose proof (Z.div_pos (start - stop - 1) (- step) ltac:(lia) ltac:(lia)).
    split; [lia |]. intros j Hj.
    assert (j <= (start - stop - 1) / (- step)) by lia.
    assert ((- step) * j <= start - stop - 1).
    { etransitivity; [| apply (Z.mul_div_le (start - stop - 1) (- step)); lia].
      apply Z.mul_le_mono_nonneg_l; lia. }
    nia.
  - destruct (Hpos ltac:(lia)) as [Hst Hsto].
    destruct (Z.ltb_spec start stop) as [Hlt | Hge]; [| split; lia].
    pose proof (Z.div_pos (stop - start - 1) step ltac:(lia) ltac:(lia)).
    split; [lia |]. intros j Hj.
    assert (j <= (stop - start - 1) / step) by lia.
    assert (step * j <= stop - start - 1).
    { etransitivity; [| apply (Z.mul_div_le (stop - start - 1) step); lia].
      apply Z.mul_le_mono_nonneg_l; lia. }
    nia.
Qed.

(** Whatever the slice, the positions it selects are inside of the axis. *)
Lemma slice_view_valid (start stop step : option Z) (n : Z) (v : axis_view) :
  0 <= n -> slice_view start stop step n = Ok v -> valid_view v n.
Proof.
  intros Hn. unfold slice_view.
  set (sp := match step with Some s => s | None => 1 end).
  destruct (Z.eqb_spec sp 0) as [| Hsp]; [discriminate |].
  intros [= <-]. unfold valid_view.
  split; [exact Hsp |].
  apply slice_count_valid; [exact Hsp | |]; intros Hs.
  - destruct (Z.ltb_spec sp 0); [lia |].
    split; apply slice_bound_range; lia.
  - destruct (Z.ltb_spec sp 0); [| lia].
    split; apply slice_bound_range; lia.
Qed.

Lemma slice_view_all (n : Z) :
  0 <= n -> slice_view None None None n = Ok (Strided 0 1 n).
Proof.
  intros Hn. unfold slice_view, slice_count. simpl.
  destruct (Z.ltb_spec 0 n).
  - do 2 f_equal. rewrite Z.div_1_r. lia.
  - do 2 f_equal. lia.
Qed.

Lemma slice_view_step (s n : Z) :
  0 < s -> 0 <= n ->
  slice_view None None (Some s) n
  = Ok (Strided 0 s (if 0 <? n then (n - 1) / s + 1 else 0)).
Proof.
  intros Hs Hn. unfold slice_view, slice_count, slice_bound.
  destruct (Z.eqb_spec s 0); [lia |].
  destruct (Z.ltb_spec s 0); [lia |].
  destruct (Z.ltb_spec 0 n); [| reflexivity].
  do 4 f_equal. lia.
Qed.

Lemma slice_view_flip (n : Z) :
  0 <= n -> slice_view None None (Some (-1)) n = Ok (Strided (n - 1) (-1) n).
Proof.
  intros Hn. unfold slice_view, slice_count. simpl.
  destruct (Z.ltb_spec (-1) (n - 1)).
  - do 2 f_equal. rewrite Z.div_1_r. lia.
  - do 2 f_equal. lia.
Qed.

Lemma slice_view_range (a b n : Z) :
  0 <= a <= b -> b <= n ->
  slice_view (Some a) (Some b) None n = Ok (Strided a 1 (b - a)).
Proof.
  intros Ha Hb. unfold slice_view, slice_count, slice_bound. simpl.
  destruct (Z.ltb_spec a 0); [lia |].
  destruct (Z.ltb_spec b 0); [lia |].
  rewrite !Z.min_l by lia.
  destruct (Z.ltb_spec a b).
  - do 2 f_equal. rewrite Z.div_1_r. lia.
  - do 2 f_equal. lia.
Qed.

(** An index expression without ellipsis that names every axis. *)
Lemma index_views_full (shp : list Z) (ixs : list index) :
  forallb (fun ix => negb (is_ellipsis ix)) ixs = true ->
  List.length ixs = List.length shp ->
  index_views shp ixs = axis_views ixs shp.
Proof.
  intros Hne Hlen. unfold index_views.
  assert (E : filter (fun ix => negb (is_ellipsis ix)) ixs = ixs).
  { clear Hlen. induction ixs as [| ix ixs IH]; [reflexivity |].
    simpl in Hne |- *. apply andb_true_iff in Hne as [H1 H2].
    rewrite H1. f_equal. auto. }
  rewrite E, Hlen, Nat.ltb_irrefl, Nat.sub_diag.
  f_equal. clear -Hne.
  induction ixs as [| ix ixs IH]; [reflexivity |].
  simpl in Hne. apply andb_true_iff in Hne as [H1 H2].
  destruct ix; try discriminate; simpl; now rewrite IH.
Qed.

Lemma axis_views_all (shp : list Z) :
  Forall (fun n => 0 <= n) shp ->
  axis_views (repeat slice_all (List.length shp)) shp
  = Ok (map (fun n => Strided 0 1 n) shp).
Proof.
  induction 1 as [| n shp Hn _ IH]; [reflexivity |].
  cbn [List.length repeat axis_views].
  change (index_view slice_all n) with (slice_view None None None n).
  rewrite slice_view_all by exact Hn. cbn [bind]. now rewrite IH.
Qed.

Lemma axis_views_app (ixs1 ixs2 : list index) (shp1 shp2 : list Z)
    (vs1 vs2 : list axis_view) :
  axis_views ixs1 shp1 = Ok vs1 ->
  axis_views ixs2 shp2 = Ok vs2 ->
  axis_views (ixs1 ++ ixs2) (shp1 ++ shp2) = Ok (vs1 ++ vs2).
Proof.
  revert shp1 vs1. induction ixs1 as [| ix ixs1 IH]; intros shp1 vs1 H1 H2.
  - destruct shp1; [| discriminate]. injection H1 as <-. exact H2.
  - destruct shp1 as [| n shp1]; [discriminate |]. simpl in H1 |- *.
    destruct (index_view ix n) as [v |]; [| discriminate]. simpl in H1 |- *.
    destruct (axis_views ixs1 shp1) as [vs |] eqn:E; [| discriminate].
    injection H1 as <-. simpl. now rewrite (IH _ _ E H2).
Qed.

Lemma index_view_idx (i n : Z) :
  0 <= i < n -> index_view (Idx i) n = Ok (Fixed i).
Proof.
  intros Hi. unfold index_view.
  assert (E1 : (i <? 0) = false) by (apply Z.ltb_ge; lia).
  assert (E2 : (n <=? i) = false) by (apply Z.leb_gt; lia).
  rewrite E1. cbv zeta. rewrite E1, E2. reflexivity.
Qed.

(** [a[b, c, ...]] on an array of at least two axes. *)
Lemma index_views_channel (n0 n1 b c : Z) (rest : list Z) :
  0 <= b < n0 -> 0 <= c < n1 -> Forall (fun n => 0 <= n) rest ->
  index_views (n0 :: n1 :: rest) [Idx b; Idx c; Ellipsis]
  = Ok (Fixed b :: Fixed c :: map (fun n => Strided 0 1 n) rest).
Proof.
  intros Hb Hc Hrest. unfold index_views.
  cbn [filter is_ellipsis negb List.length Nat.ltb Nat.leb Nat.sub
       expand_ellipsis axis_views].
  rewrite !index_view_idx by assumption. cbn [bind].
  rewrite Nat.sub_0_r, app_nil_r, axis_views_all by exact Hrest. reflexivity.
Qed.

Lemma axis_views_valid (ixs : list index) (shp : list Z) (vs : list axis_view) :
  Forall (fun n => 0 <= n) shp ->
  axis_views ixs shp = Ok vs -> Forall2 valid_view vs shp.
Proof.
  intros Hshp. revert ixs vs.
  induction Hshp as [| n shp Hn _ IH]; intros ixs vs E.
  - destruct ixs; [| discriminate]. injection E as <-. constructor.
  - destruct ixs as [| ix ixs]; [discriminate |]. simpl in E.
    destruct (index_view ix n) as [v |] eqn:Ev; [| discriminate]. simpl in E.
    destruct (axis_views ixs shp) as [vs' |] eqn:Evs; [| discriminate].
    injection E as <-. constructor; [| eapply IH; eauto].
    destruct ix as [i | a b c |]; simpl in Ev.
    + destruct (_ || _) eqn:Eb; [discriminate |]. injection Ev as <-.
      apply orb_false_iff in Eb as [E1 E2]. simpl.
      apply Z.ltb_ge in E1. apply Z.leb_gt in E2. lia.
    + eapply slice_view_valid; eauto.
    + discriminate.
Qed.

(** Every index expression that is accepted selects valid views. *)
Lemma index_views_valid (shp : list Z) (ixs : list index) (vs : list axis_view) :
  Forall (fun n => 0 <= n) shp ->
  index_views shp ixs = Ok vs -> Forall2 valid_view vs shp.
Proof.
  intros Hshp. unfold index_views.
  destruct (_ <? _)%nat; [discriminate |].
  now apply axis_views_valid.
Qed.

Lemma strided_member (st sp cnt i : Z) :
  sp <> 0 ->
  ((i - st) mod sp =? 0) && (0 <=? (i - st) / sp) && ((i - st) / sp <? cnt)
  = true
  <-> exists j, 0 <= j < cnt /\ i = st + sp * j.
Proof.
  intros Hsp. rewrite !andb_true_iff, Z.eqb_eq, Z.leb_le, Z.ltb_lt. split.
  - intros [[Hm Hq] Hc]. exists ((i - st) / sp). split; [lia |].
    pose proof (Z.div_mod (i - st) sp Hsp). lia.
  - intros [j [Hj ->]].
    replace (st + sp * j - st) with (j * sp) by ring.
    rewrite Z.mod_mul, Z.div_mul by exact Hsp. lia.
Qed.

Lemma strided_quotient (st sp j : Z) : sp <> 0 -> (st + sp * j - st) / sp = j.
Proof.
  intros Hsp. replace (st + sp * j - st) with (j * sp) by ring.
  now apply Z.div_mul.
Qed.

Section ViewSums.
Context {R : Type} `{Scalar R}.

Add Ring scalar_ring_views : scalar_ring.

Lemma sum_range_strided (n st sp cnt : Z) (g : Z -> Z -> R) :
  valid_view (Strided st sp cnt) n ->
  sum_range n
    (fun i => if ((i - st) mod sp =? 0) && (0 <=? (i - st) / sp)
                 && ((i - st) / sp <? cnt)
              then g i ((i - st) / sp) else rzero)
  = sum_range cnt (fun j => g (st + sp * j) j).
Proof.
  intros (Hsp & Hcnt & Hin).
  transitivity (sum_range cnt (fun j =>
                  sum_range n (fun i => if i =? st + sp * j then g i j
                                        else rzero))).
  2:{ apply sum_range_ext. intros j Hj.
      now rewrite (sum_range_single n (st + sp * j) (fun i => g i j))
        by (apply Hin; exact Hj). }
  rewrite sum_range_swap. apply sum_range_ext. intros i Hi.
  destruct (((i - st) mod sp =? 0) && (0 <=? (i - st) / sp)
            && ((i - st) / sp <? cnt)) eqn:E.
  - apply strided_member in E as [j [Hj ->]]; [| exact Hsp].
    rewrite strided_quotient by exact Hsp.
    rewrite (sum_range_ext cnt _ (fun j' => if j' =? j then g (st + sp * j) j'
                                             else rzero)).
    + now rewrite sum_range_single by exact Hj.
    + intros j' Hj'.
      destruct (Z.eqb_spec (st + sp * j) (st + sp * j')) as [E' | E'],
        (Z.eqb_spec j' j) as [E'' | E'']; try reflexivity.
      * exfalso. apply E''. nia.
      * subst. contradiction.
  - symmetry. apply sum_range_none. intros j Hj.
    destruct (Z.eqb_spec i (st + sp * j)) as [-> |]; [| reflexivity].
    exfalso. apply not_true_iff_false in E. apply E.
    apply strided_member; eauto.
Qed.

(** Summing over the selection of an index expression is summing over the
    array, the positions outside of the selection counting for nothing. *)
Lemma sum_box_view (vs : list axis_view) (shp : list Z)
    (h : list Z -> list Z -> R) :
  Forall2 valid_view vs shp ->
  sum_box shp (fun i => if in_view vs i then h i (view_inverse vs i)
                        else rzero)
  = sum_box (view_shape vs) (fun j => h (view_index vs j) j).
Proof.
  intros Hv. revert h.
  induction Hv as [| v n vs shp Hvn _ IH]; intros h; [reflexivity |].
  destruct v as [k | st sp cnt].
  - cbn [sum_box view_shape].
    rewrite (sum_range_ext n _
               (fun i => if i =? k
                         then sum_box shp
                                (fun t => if in_view vs t
                                          then h (i :: t) (view_inverse vs t)
                                          else rzero)
                         else rzero)).
    + rewrite sum_range_single by exact Hvn.
      rewrite (IH (fun t j => h (k :: t) j)). reflexivity.
    + intros i _. cbn [in_view view_inverse].
      destruct (i =? k); [reflexivity |]. apply sum_box_zero.
  - cbn [sum_box view_shape].
    pose (G := fun i' j' : Z =>
                 sum_box shp
                   (fun t => if in_view vs t
                             then h (i' :: t) (j' :: view_inverse vs t)
                             else rzero)).
    rewrite (sum_range_ext n _
               (fun i => if ((i - st) mod sp =? 0) && (0 <=? (i - st) / sp)
                            && ((i - st) / sp <? cnt)
                         then G i ((i - st) / sp)
                         else rzero)).
    + rewrite (sum_range_strided n st sp cnt G Hvn).
      apply sum_range_ext. intros j _. unfold G.
      rewrite (IH (fun t j' => h ((st + sp * j) :: t) (j :: j'))).
      reflexivity.
    + intros i _. cbn [in_view view_inverse]. unfold G.
      destruct (((i - st) mod sp =? 0) && (0 <=? (i - st) / sp)
                && ((i - st) / sp <? cnt)); [reflexivity |].
      apply sum_box_zero.
Qed.
End ViewSums.

Lemma view_index_in_box (vs : list axis_view) (shp j : list Z) :
  Forall2 valid_view vs shp ->
  in_box (view_shape vs) j = true ->
  in_box shp (view_index vs j) = true
  /\ in_view vs (view_index vs j) = true
  /\ view_inverse vs (view_index vs j) = j.
Proof.
  intros Hv. revert j.
  induction Hv as [| v n vs shp Hvn _ IH]; intros j Hj.
  - destruct j; [auto | discriminate].
  - destruct v as [k | st sp cnt].
    + cbn [view_shape view_index in_view view_inverse] in *.
      destruct (IH j Hj) as (I1 & I2 & I3).
      rewrite in_box_cons, I1, I2, I3, Z.eqb_refl.
      unfold valid_view in Hvn.
      destruct (Z.leb_spec 0 k), (Z.ltb_spec k n); try lia.
      repeat split; reflexivity.
    + cbn [view_shape] in Hj. destruct j as [| jk j]; [discriminate |].
      rewrite in_box_cons in Hj.
      apply andb_true_iff in Hj as [Hjk Hj].
      apply andb_true_iff in Hjk as [H1 H2].
      apply Z.leb_le in H1. apply Z.ltb_lt in H2.
      destruct Hvn as (Hsp & Hcnt & Hin).
      destruct (IH j Hj) as (I1 & I2 & I3).
      cbn [view_index in_view view_inverse].
      rewrite in_box_cons, I1, I2, I3.
      pose proof (Hin jk ltac:(lia)).
      assert (M : ((st + sp * jk - st) mod sp =? 0)
                  && (0 <=? (st + sp * jk - st) / sp)
                  && ((st + sp * jk - st) / sp <? cnt) = true).
      { apply strided_member; eauto. }
      rewrite M, strided_quotient by exact Hsp.
      destruct (Z.leb_spec 0 (st + sp * jk)), (Z.ltb_spec (st + sp * jk) n);
        try lia.
      repeat split; reflexivity.
Qed.

Lemma view_inverse_in_box (vs : list axis_view) (shp i : list Z) :
  Forall2 valid_view vs shp ->
  in_box shp i = true -> in_view vs i = true ->
  in_box (view_shape vs) (view_inverse vs i) = true
  /\ view_index vs (view_inverse vs i) = i.
Proof.
  intros Hv. revert i.
  induction Hv as [| v n vs shp Hvn _ IH]; intros i Hi Hin.
  - destruct i; [auto | discriminate].
  - destruct i as [| ik i]; [discriminate |].
    rewrite in_box_cons in Hi. apply andb_true_iff in Hi as [_ Hi].
    destruct v as [k | st sp cnt]; cbn [in_view view_inverse view_shape view_index] in *.
    + apply andb_true_iff in Hin as [Ek Hin]. apply Z.eqb_eq in Ek. subst.
      destruct (IH i Hi Hin) as [I1 I2]. now rewrite I2.
    + apply andb_true_iff in Hin as [M Hin].
      destruct Hvn as (Hsp & Hcnt & Hb).
      apply strided_member in M as [j [Hj ->]]; [| exact Hsp].
      rewrite strided_quotient by exact Hsp.
      destruct (IH i Hi Hin) as [I1 I2].
      rewrite in_box_cons, I1, I2.
      destruct (Z.leb_spec 0 j), (Z.ltb_spec j cnt); try lia.
      split; reflexivity.
Qed.

(** ** Tuples and loops *)

Lemma py_nth_ok {A : Type} (l : list A) (i : nat) (d : A) :
  (i < List.length l)%nat -> py_nth l i = Ok (nth i l d).
Proof.
  intros Hi. unfold py_nth.
  destruct (nth_error l i) as [a |] eqn:E.
  - now rewrite (nth_error_nth _ _ d E).
  - apply nth_error_None in E. lia.
Qed.

Lemma py_index_suffix {A : Type} (pre suf : list A) (i : nat) (d : A) :
  (i < List.length suf)%nat ->
  py_index (pre ++ suf) (- Z.of_nat (List.length suf) + Z.of_nat i)
  = Ok (nth i suf d).
Proof.
  intros Hi. unfold py_index, len. rewrite length_app.
  destruct (Z.ltb_spec (- Z.of_nat (List.length suf) + Z.of_nat i) 0); [| lia].
  destruct (Z.ltb_spec (- Z.of_nat (List.length suf) + Z.of_nat i
                        + Z.of_nat (List.length pre + List.length suf)) 0);
    [lia |].
  replace (Z.to_nat _) with (List.length pre + i)%nat by lia.
  rewrite (py_nth_ok _ _ d) by (rewrite length_app; lia).
  now rewrite app_nth2_plus.
Qed.

Lemma py_slice_from_suffix {A : Type} (pre suf : list A) :
  (0 < List.length suf)%nat ->
  py_slice_from (pre ++ suf) (- Z.of_nat (List.length suf)) = suf.
Proof.
  intros Hs. unfold py_slice_from, clamp_bound. rewrite length_app.
  destruct (Z.ltb_spec (- Z.of_nat (List.length suf)) 0); [| lia].
  replace (Z.to_nat _) with (List.length pre) by lia.
  now rewrite skipn_app, skipn_all, Nat.sub_diag.
Qed.

Lemma py_slice_to_suffix {A : Type} (pre suf : list A) :
  (0 < List.length suf)%nat ->
  py_slice_to (pre ++ suf) (- Z.of_nat (List.length suf)) = pre.
Proof.
  intros Hs. unfold py_slice_to, clamp_bound. rewrite length_app.
  destruct (Z.ltb_spec (- Z.of_nat (List.length suf)) 0); [| lia].
  replace (Z.to_nat _) with (List.length pre) by lia.
  now rewrite firstn_app, firstn_all, Nat.sub_diag, app_nil_r.
Qed.

Lemma py_slice_from_2 {A : Type} (a b : A) (rest : list A) :
  py_slice_from (a :: b :: rest) 2 = rest.
Proof.
  unfold py_slice_from, clamp_bound.
  change (2 <? 0) with false. cbv iota.
  replace (Z.to_nat _) with 2%nat by (simpl List.length; lia). reflexivity.
Qed.

Lemma mapM_seq_ok {A : Type} (f : nat -> result A) (g : nat -> A) (a n : nat) :
  (forall i, (a <= i < a + n)%nat -> f i = Ok (g i)) ->
  mapM f (seq a n) = Ok (map g (seq a n)).
Proof.
  revert a. induction n as [| n IH]; intros a E; [reflexivity |].
  simpl. rewrite E by lia. simpl. rewrite IH; [reflexivity |].
  intros i Hi. apply E. lia.
Qed.

Lemma mapM_range_ok {A : Type} (f : nat -> result A) (g : nat -> A) (n : nat) :
  (forall i, (i < n)%nat -> f i = Ok (g i)) ->
  mapM f (range (Z.of_nat n)) = Ok (map g (seq 0 n)).
Proof.
  intros E. unfold range. rewrite Nat2Z.id. apply mapM_seq_ok.
  intros i Hi. apply E. lia.
Qed.

Lemma zip_with_length {A B C : Type} (f : A -> B -> C) (a : list A) (b : list B) :
  List.length a = List.length b ->
  List.length (zip_with f a b) = List.length a.
Proof.
  intros E. unfold zip_with. rewrite length_map, length_combine. lia.
Qed.

Lemma zip_with_nth {A B C : Type} (f : A -> B -> C) (a : list A) (b : list B)
    (i : nat) (da : A) (db : B) (dc : C) :
  (i < List.length a)%nat -> List.length a = List.length b ->
  nth i (zip_with f a b) dc = f (nth i a da) (nth i b db).
Proof.
  intros Hi E. unfold zip_with.
  rewrite (nth_indep _ dc (f da db))
    by (rewrite length_map, length_combine; lia).
  change (f da db) with ((fun p => f (fst p) (snd p)) (da, db)).
  rewrite map_nth, combine_nth by exact E. reflexivity.
Qed.

(** A list built axis by axis is the zip of the lists it is built from. *)
Lemma map_seq_zip_with {A B C : Type} (f : A -> B -> C) (a : list A)
    (b : list B) (da : A) (db : B) :
  List.length a = List.length b ->
  map (fun i => f (nth i a da) (nth i b db)) (seq 0 (List.length a))
  = zip_with f a b.
Proof.
  revert b. induction a as [| x a IH]; intros b E.
  - reflexivity.
  - destruct b as [| y b]; [discriminate |]. simpl in E.
    simpl. unfold zip_with. simpl. f_equal.
    rewrite <- seq_shift, map_map. apply IH. lia.
Qed.

Lemma map_seq_nth {A B : Type} (f : A -> B) (a : list A) (da : A) :
  map (fun i => f (nth i a da)) (seq 0 (List.length a)) = map f a.
Proof.
  induction a as [| x a IH]; [reflexivity |].
  simpl. f_equal. rewrite <- seq_shift, map_map. exact IH.
Qed.

Lemma shape_eqb_refl (s : list Z) : shape_eqb s s = true.
Proof.
  unfold shape_eqb. rewrite Nat.eqb_refl. simpl.
  induction s as [| n s IH]; [reflexivity |].
  simpl. now rewrite Z.eqb_refl.
Qed.

Lemma shape_eqb_eq (s t : list Z) : shape_eqb s t = true -> s = t.
Proof.
  unfold shape_eqb. intros E. apply andb_true_iff in E as [E1 E2].
  apply Nat.eqb_eq in E1. revert t E1 E2.
  induction s as [| n s IH]; intros [| m t] E1 E2; try discriminate.
  - reflexivity.
  - simpl in E2. apply andb_true_iff in E2 as [E2 E3].
    apply Z.eqb_eq in E2. f_equal; [exact E2 |]. apply IH; [| exact E3].
    simpl in E1. lia.
Qed.

Lemma list_eqb_opt_some (s : list Z) : list_eqb_opt s (map Some s) = true.
Proof.
  unfold list_eqb_opt. rewrite length_map, Nat.eqb_refl. simpl.
  induction s as [| n s IH]; [reflexivity |].
  simpl. now rewrite Z.eqb_refl.
Qed.

Lemma list_eqb_opt_eq (s : list Z) (t : list (option Z)) :
  list_eqb_opt s t = true -> t = map Some s.
Proof.
  unfold list_eqb_opt. intros E. apply andb_true_iff in E as [E1 E2].
  apply Nat.eqb_eq in E1. revert t E1 E2.
  induction s as [| n s IH]; intros [| m t] E1 E2; try discriminate.
  - reflexivity.
  - simpl in E2. apply andb_true_iff in E2 as [E2 E3].
    destruct m as [m |]; [| discriminate].
    apply Z.eqb_eq in E2. subst. simpl. f_equal.
    apply IH; [| exact E3]. simpl in E1. lia.
Qed.

Lemma np_zeros_ok {R : Type} `{Scalar R} (shp : list Z) :
  Forall (fun n => 0 <= n) shp -> np_zeros shp = Ok (zeros_array shp).
Proof.
  intros Hs. unfold np_zeros.
  assert (E : existsb (fun n => n <? 0) shp = false).
  { induction Hs as [| n shp Hn _ IH]; [reflexivity |].
    simpl. rewrite IH. destruct (Z.ltb_spec n 0); [lia | reflexivity]. }
  now rewrite E.
Qed.

Lemma known_shape_some (s : list Z) : known_shape (map Some s) = Ok s.
Proof.
  unfold known_shape. induction s as [| n s IH]; [reflexivity |].
  simpl. now rewrite IH.
Qed.

(** *** Loops that accumulate *)

Section Loops.
Context {R : Type} `{Scalar R}.

Add Ring scalar_ring_loops : scalar_ring.

Lemma adds_for_range (shp : list Z) (n : Z)
    (body : Z -> ndarray R -> result (ndarray R))
    (delta : Z -> list Z -> R) :
  (forall k, 0 <= k < n -> adds shp (body k) (delta k)) ->
  adds shp (for_range n body) (fun i => sum_range n (fun k => delta k i)).
Proof.
  intros Hbody s Hs. unfold for_range, sum_range.
  assert (G : forall m : nat, Z.of_nat m <= Z.max 0 n ->
    exists s', for_upto m body s = Ok s' /\ shape s' = shp
               /\ forall i, in_box shp i = true ->
                   item s' i = radd (item s i)
                                 (sum_upto m (fun k => delta k i))).
  { induction m as [| m IH]; intros Hm.
    - exists s. repeat split; auto. intros i _. simpl. ring.
    - destruct IH as (s1 & E1 & S1 & I1); [lia |].
      destruct (Hbody (Z.of_nat m) ltac:(lia) s1 S1) as (s2 & E2 & S2 & I2).
      exists s2. simpl. rewrite E1. simpl. repeat split; auto.
      intros i Hi. rewrite I2, I1 by exact Hi. ring. }
  apply G. lia.
Qed.

Lemma adds_ext (shp : list Z) (body : ndarray R -> result (ndarray R))
    (delta delta' : list Z -> R) :
  (forall i, in_box shp i = true -> delta i = delta' i) ->
  adds shp body delta -> adds shp body delta'.
Proof.
  intros E Hb s Hs. destruct (Hb s Hs) as (s' & E1 & S1 & I1).
  exists s'. repeat split; auto. intros i Hi. rewrite I1, E by exact Hi.
  reflexivity.
Qed.

(** [out[ixs] += v] *)
Lemma adds_iadd_item (shp : list Z) (ixs : list index) (vs : list axis_view)
    (v : ndarray R) :
  Forall (fun n => 0 <= n) shp ->
  index_views shp ixs = Ok vs ->
  shape v = view_shape vs ->
  adds shp (fun s => iadd_item s ixs v)
    (fun i => if in_view vs i then item v (view_inverse vs i) else rzero).
Proof.
  intros Hshp Hvs Hv s Hs.
  pose proof (index_views_valid _ _ _ Hshp Hvs) as Hvalid.
  unfold iadd_item, getitem, np_add, setitem. rewrite Hs, Hvs. cbn [bind].
  cbn [gather shape]. rewrite Hv, shape_eqb_refl. cbn [bind shape].
  rewrite shape_eqb_refl.
  eexists. split; [reflexivity |]. split; [exact Hs |].
  intros i Hi. cbn [overwrite item gather].
  destruct (in_view vs i) eqn:E; [| ring].
  destruct (view_inverse_in_box vs shp i Hvalid Hi E) as [_ E'].
  now rewrite E'.
Qed.
End Loops.

(** ** Shapes of the operators *)

Lemma check_constant_shape_inv (what : string) (shp : list (option dim)) :
  check_constant_shape what shp = Ok tt -> constant_shape shp = true.
Proof.
  unfold check_constant_shape.
  destruct (mapM _ shp) as [l |] eqn:E; [| discriminate]. intros _.
  apply mapM_inv in E. induction E as [| e y shp l He _ IH]; [reflexivity |].
  simpl. rewrite IH. destruct e as [[z | n] |]; try discriminate; reflexivity.
Qed.

(** What a successful construction establishes. *)
Lemma BaseAbstractConv_init_inv (cd : Z) (i k : option (list (option dim)))
    (bm : border_mode_t) (ss : option (list Z)) (ff : bool)
    (fd : option (list Z)) (ng : Z) (us : bool) (op : ConvOp) :
  BaseAbstractConv_init cd i k bm ss ff fd ng us = Ok op ->
  convdim op = cd /\ (cd = 2 \/ cd = 3)
  /\ stored_border_mode cd (border_mode op)
  /\ len (subsample op) = cd /\ len (filter_dilation op) = cd
  /\ 1 <= num_groups op /\ (unshared op = true -> cd = 2)
  /\ constant_shape (imshp op) = true.
Proof.
  unfold BaseAbstractConv_init.
  destruct ((cd =? 2) || (cd =? 3)) eqn:Ecd; [| discriminate]. cbn [negb].
  destruct (normalize_border_mode cd bm) as [s |] eqn:En; [| discriminate].
  cbn [bind].
  destruct (check_constant_shape "imshp" _) as [[] |] eqn:Ei; [| discriminate].
  cbn [bind].
  destruct (check_constant_shape "kshp" _) as [[] |] eqn:Ek; [| discriminate].
  cbn [bind].
  destruct (Z.eqb_spec (len match ss with
                            | Some s0 => s0
                            | None => repeat 1 (Z.to_nat cd)
                            end) cd) as [Es |]; [| discriminate].
  cbn [negb].
  destruct (Z.eqb_spec (len match fd with
                            | Some d => d
                            | None => repeat 1 (Z.to_nat cd)
                            end) cd) as [Ed |]; [| discriminate].
  cbn [negb].
  destruct (Z.ltb_spec ng 1) as [| Hng]; [discriminate |].
  destruct (us && negb (cd =? 2)) eqn:Eus; [discriminate |].
  intros [= <-]. cbn [convdim border_mode subsample filter_dilation
                      num_groups unshared imshp] in *.
  assert (Hcd : cd = 2 \/ cd = 3).
  { apply orb_true_iff in Ecd as [E | E]; apply Z.eqb_eq in E; auto. }
  repeat split; auto.
  - destruct (normalize_border_mode_inv cd bm s En)
      as [(str & -> & -> & Hstr)
         | [(l & El & Hl & Em & ->) | (v & -> & Hv & Hneg & ->)]].
    + exact Hstr.
    + destruct (all_zero (map collapse_pair l)); [simpl; auto |].
      simpl. split; [now rewrite len_map |].
      apply mapM_inv in Em. clear -Em.
      induction Em as [| m m' l0 l0' Hm _ IH]; constructor; auto.
      destruct (normalize_axis_mode_inv _ _ _ _ Hm) as [-> Hc].
      destruct Hc as [(v & -> & Hv) | (a & b & -> & Ha & Hb & _)].
      * simpl. split; [now apply Z.leb_le | discriminate].
      * simpl. destruct (Z.eqb_spec a b).
        -- simpl. split; [now apply Z.leb_le | discriminate].
        -- simpl. split; [| discriminate].
           apply andb_true_iff; split; now apply Z.leb_le.
    + simpl. auto.
  - intros ->. simpl in Eus. destruct (Z.eqb_spec cd 2); [auto | discriminate].
  - now apply check_constant_shape_inv in Ei.
Qed.

Lemma stored_border_mode_resolved (cd : Z) (bm : border_mode_t) (i : nat) :
  stored_border_mode cd bm -> (Z.of_nat i < cd) ->
  resolved_axis_mode (axis_mode_of bm i) = true
  /\ border_mode_at bm i = Ok (axis_mode_of bm i).
Proof.
  intros Hs Hi. destruct bm as [s | v | l]; simpl in Hs.
  - simpl. split; [| reflexivity].
    destruct Hs as [-> | [-> | ->]]; reflexivity.
  - contradiction.
  - destruct Hs as [Hl Hall]. unfold len in Hl. simpl.
    rewrite (py_nth_ok _ _ (AInt 0)) by lia. split; [| reflexivity].
    rewrite Forall_forall in Hall. apply Hall. apply nth_In. lia.
Qed.

(** The pads of a stored border mode. *)
Lemma border_mode_to_pad_ok (cd : Z) (bm : border_mode_t) (D : list Z) :
  stored_border_mode cd bm -> len D = cd ->
  border_mode_to_pad bm cd D = Ok (pads_of bm D).
Proof.
  intros Hs Hd. unfold pads_of. unfold len in Hd.
  destruct bm as [s | v | l]; simpl in Hs.
  - unfold border_mode_to_pad.
    destruct Hs as [-> | [-> | ->]]; cbn [String.eqb Ascii.eqb Bool.eqb andb].
    + rewrite <- Hd, Nat2Z.id. f_equal. clear Hd. generalize 0%nat.
      induction (List.length D) as [| n IH]; intros a; [reflexivity |].
      simpl. f_equal. apply IH.
    + rewrite <- Hd. apply mapM_range_ok. intros i Hi.
      now rewrite (py_nth_ok _ _ 0) by exact Hi.
    + rewrite <- Hd. apply mapM_range_ok. intros i Hi.
      now rewrite (py_nth_ok _ _ 0) by exact Hi.
  - contradiction.
  - destruct Hs as [Hl Hall]. unfold border_mode_to_pad.
    destruct (Z.eqb_spec (len l) cd); [| contradiction]. cbn [negb].
    assert (E : List.length D = List.length l) by (unfold len in Hl; lia).
    rewrite E. cbn [axis_mode_of].
    assert (G : forall w,
      mapM (fun m : axis_mode =>
        match m with
        | AStr _ => Raise (ValueError ("invalid border mode " ++ w
             ++ ". The tuple can only contain integers or tuples of length 2"))
        | AInt v =>
            if 0 <=? v then Ok (v, v)
            else Raise (ValueError ("invalid border mode " ++ w
             ++ ". The tuple can only contain integers or tuples of length 2"))
        | ATuple t =>
            nonneg <- min_nonneg t ;;
            if nonneg then
              match t with
              | [m0; m1] => Ok (m0, m1)
              | _ => Raise (NotImplementedError
                       ("Asymmetric padding not implemented for "
                          ++ repr_int (len t) ++ "d"))
              end
            else Raise (ValueError ("invalid border mode " ++ w
             ++ ". The tuple can only contain integers or tuples of length 2"))
        end) l
      = Ok (map (fun m => axis_pads m 0) l)).
    { intros w. clear -Hall.
      induction Hall as [| m l0 [Hm Hns] _ IH]; [reflexivity |].
      cbn [mapM map]. rewrite IH.
      destruct m as [s | v | [| a [| b [| c t]]]]; simpl in Hm;
        try discriminate.
      - exfalso. now apply (Hns s).
      - rewrite Hm. reflexivity.
      - apply andb_true_iff in Hm as [Ha Hb]. simpl. rewrite Ha, Hb.
        reflexivity. }
    rewrite G. f_equal.
    rewrite <- (map_seq_nth (fun m => axis_pads m 0) l (AInt 0)).
    apply map_ext_in. intros i Hi. apply in_seq in Hi.
    assert (Hn : In (nth i l (AInt 0)) l) by (apply nth_In; lia).
    rewrite Forall_forall in Hall. destruct (Hall _ Hn) as [_ Hns].
    destruct (nth i l (AInt 0)) as [s | v | t]; try reflexivity.
    exfalso. now apply (Hns s).
Qed.

Lemma dilated_nth (K dil : list Z) (i : nat) :
  (i < List.length K)%nat -> List.length K = List.length dil ->
  nth i (dilated K dil) 0 = dilated_size (nth i K 0) (nth i dil 0).
Proof. intros Hi E. unfold dilated. now apply zip_with_nth. Qed.

Lemma dilated_length (K dil : list Z) :
  List.length K = List.length dil -> List.length (dilated K dil) = List.length K.
Proof. apply zip_with_length. Qed.

(** [dil_kernshp] of the three [perform] methods. *)
Lemma dilated_shape_ok (self : ConvOp) (pre K : list Z) :
  convdim self = len K -> len (filter_dilation self) = len K ->
  dilated_shape self (pre ++ K) = Ok (dilated K (filter_dilation self)).
Proof.
  intros Hcd Hfd. unfold dilated_shape, len in *. rewrite Hcd.
  assert (E : List.length K = List.length (filter_dilation self)) by lia.
  rewrite (mapM_range_ok _ (fun i => dilated_size (nth i K 0)
                                       (nth i (filter_dilation self) 0))).
  - now rewrite map_seq_zip_with by exact E.
  - intros i Hi. rewrite (py_index_suffix _ _ _ 0) by exact Hi. cbn [bind].
    rewrite (py_nth_ok _ _ 0) by lia. reflexivity.
Qed.

Lemma conv_out_sizes_length (N D : list Z) (bm : border_mode_t) (ss : list Z) :
  List.length (conv_out_sizes N D bm ss) = List.length N.
Proof. unfold conv_out_sizes. now rewrite length_map, length_seq. Qed.

(** The output shape of a convolution whose shapes are known. *)
Lemma get_conv_output_shape_ok (b c f : Z) (N krest K ss fd : list Z)
    (bm : border_mode_t) :
  (0 < List.length N)%nat ->
  List.length K = List.length N -> List.length ss = List.length N ->
  List.length fd = List.length N ->
  stored_border_mode (len N) bm ->
  Forall (fun s => s <> 0) ss ->
  get_conv_output_shape (map Some (b :: c :: N))
    (map Some (f :: krest ++ K)) bm ss (Some fd)
  = Ok (map Some (b :: f :: conv_out_sizes N (dilated K fd) bm ss)).
Proof.
  intros Hpos HK Hss Hfd Hbm Hnz. unfold get_conv_output_shape.
  cbn [map py_nth nth_error bind]. rewrite py_slice_from_2.
  assert (Ecd : len (Some b :: Some c :: map Some N) - 2
                = Z.of_nat (List.length (map Some K))).
  { unfold len. cbn [List.length]. rewrite !length_map. lia. }
  rewrite Ecd.
  change (Some f :: map Some (krest ++ K))
    with (map Some (f :: krest ++ K)).
  change (f :: krest ++ K) with ((f :: krest) ++ K).
  rewrite map_app, py_slice_from_suffix by (rewrite length_map; lia).
  unfold len at 1. rewrite Hss.
  rewrite (mapM_range_ok _
             (fun i => Some (conv_out_size (nth i N 0)
                               (dilated_size (nth i K 0) (nth i fd 0))
                               (axis_mode_of bm i) (nth i ss 1)))).
  - cbn [bind map]. do 3 f_equal. unfold conv_out_sizes.
    rewrite map_map. apply map_ext_in. intros i Hi. apply in_seq in Hi.
    now rewrite dilated_nth by lia.
  - intros i Hi.
    rewrite (py_nth_ok _ _ None) by (rewrite length_map; lia). cbn [bind].
    rewrite (py_nth_ok (map Some K) _ None) by (rewrite length_map; lia).
    cbn [bind].
    destruct (stored_border_mode_resolved (len N) bm i Hbm
                ltac:(unfold len; lia)) as [Hres ->].
    cbn [bind].
    rewrite (py_nth_ok _ _ 1) by lia. cbn [bind].
    rewrite (py_nth_ok _ _ 0) by lia. cbn [bind].
    rewrite (nth_indep (map Some N) None (Some 0))
      by (rewrite length_map; lia).
    rewrite (nth_indep (map Some K) None (Some 0))
      by (rewrite length_map; lia).
    rewrite !(map_nth Some).
    apply get_conv_shape_1axis_resolved; [exact Hres |].
    rewrite Forall_forall in Hnz. apply Hnz, nth_In. lia.
Qed.

(** ** The shape check of the gradient with respect to the inputs *)

Lemma list_split_suffix {A : Type} (l : list A) (n : nat) :
  (n <= List.length l)%nat ->
  exists pre suf, l = pre ++ suf /\ List.length suf = n.
Proof.
  intros Hn. exists (firstn (List.length l - n) l), (skipn (List.length l - n) l).
  split; [now rewrite firstn_skipn |]. rewrite length_skipn. lia.
Qed.

Lemma map_nth_seq_id {A : Type} (l : list A) (d : A) :
  map (fun i => nth i l d) (seq 0 (List.length l)) = l.
Proof.
  rewrite (map_seq_nth (fun x => x) l d). apply map_id.
Qed.

Section GradInputsCheck.
Context {R : Type} `{Scalar R}.

(** For an operator that was constructed, with subsamples that are not zero,
    and inputs of the ranks that [make_node] asks for: the image shape that
    the check takes, and the forward output shape computed from it. *)
Lemma gradInputs_expected_topgrad_shape_ok (cd : Z)
    (i0 k0 : option (list (option dim))) (bm : border_mode_t)
    (ss : option (list Z)) (ff : bool) (fd : option (list Z)) (ng : Z)
    (us : bool) (op : ConvOp) (kern topgrad : ndarray R) (shape_ : list Z) :
  BaseAbstractConv_init cd i0 k0 bm ss ff fd ng us = Ok op ->
  Forall (fun s => s <> 0) (subsample op) ->
  len (imshp op) = 2 + cd ->
  ndim topgrad = 2 + cd ->
  1 + cd <= ndim kern ->
  len shape_ = cd ->
  exists t0 kc candidate expected,
    py_nth (shape topgrad) 0 = Ok t0
    /\ py_index (shape kern) (- cd - 1) = Ok kc
    /\ len candidate = 2 + cd
    /\ (forall i, (i < List.length candidate)%nat ->
          match nth i (imshp op) None with
          | None => nth i candidate 0 = nth i (t0 :: kc :: shape_) 0
          | Some d => d = DimInt (nth i candidate 0)
          end)
    /\ gradInputs_expected_topgrad_shape op kern topgrad shape_
       = get_conv_output_shape (map Some candidate) (map Some (shape kern))
           (border_mode op) (subsample op) (Some (filter_dilation op))
    /\ get_conv_output_shape (map Some candidate) (map Some (shape kern))
         (border_mode op) (subsample op) (Some (filter_dilation op))
       = Ok expected
    /\ exists pre K pad,
         shape kern = pre ++ K /\ len K = cd
         /\ dilated_shape op (shape kern) = Ok (dilated K (filter_dilation op))
         /\ border_mode_to_pad (border_mode op) (convdim op)
              (dilated K (filter_dilation op)) = Ok pad.
Proof.
  intros Hinit Hnz Himshp Htop Hkern Hshape.
  destruct (BaseAbstractConv_init_inv _ _ _ _ _ _ _ _ _ _ Hinit)
    as (Ecd & Hcd & Hbm & Hss & Hfd & Hng & Hus & Hconst).
  unfold ndim, len in *.
  set (n := Z.to_nat cd).
  assert (En : cd = Z.of_nat n) by (unfold n; lia).
  assert (Hn : (0 < n)%nat) by lia.
  (* the shape of the kernel *)
  destruct (list_split_suffix (shape kern) (S n) ltac:(lia))
    as (pre' & suf & Ekern & Hsuf).
  destruct suf as [| kc K]; [discriminate |].
  assert (HK : List.length K = n) by (cbn [List.length] in Hsuf; lia).
  assert (Epre : exists f krest, pre' ++ [kc] = f :: krest).
  { destruct pre' as [| f p]; simpl; eauto. }
  destruct Epre as (f & krest & Epre).
  assert (Ekern' : shape kern = (f :: krest) ++ K).
  { rewrite Ekern, <- Epre, <- app_assoc. reflexivity. }
  (* the shape of the top gradient *)
  destruct (shape topgrad) as [| t0 [| t1 T]] eqn:Et.
  1,2: cbn [List.length] in Htop; lia.
  assert (HT : List.length T = n) by (cbn [List.length] in Htop; lia).
  set (fallback := t0 :: kc :: shape_).
  set (val := fun i : nat =>
                match nth i (imshp op) None with
                | Some (DimInt z) => z
                | _ => nth i fallback 0
                end).
  set (candidate := map val (seq 0 (2 + n))).
  assert (Ekc : py_index (shape kern) (- cd - 1) = Ok kc).
  { rewrite Ekern, En.
    replace (- Z.of_nat n - 1) with
      (- Z.of_nat (List.length (kc :: K)) + Z.of_nat 0)
      by (simpl List.length; lia).
    rewrite (py_index_suffix _ _ _ 0) by (simpl; lia). reflexivity. }
  assert (Ecand : gradInputs_expected_topgrad_shape op kern topgrad shape_
                  = get_conv_output_shape (map Some candidate)
                      (map Some (shape kern)) (border_mode op)
                      (subsample op) (Some (filter_dilation op))).
  { unfold gradInputs_expected_topgrad_shape. rewrite Et.
    cbn [py_nth nth_error bind].
    rewrite Ecd, Ekc. cbn [bind]. rewrite En.
    rewrite (mapM_range_ok _ (fun i => nth i shape_ 0))
      by (intros i Hi; apply py_nth_ok; lia).
    cbn [bind].
    assert (Esp : map (fun i => nth i shape_ 0) (seq 0 n) = shape_).
    { replace n with (List.length shape_) by lia. apply map_nth_seq_id. }
    rewrite Esp. fold fallback.
    replace (2 + Z.of_nat n) with (Z.of_nat (2 + n)) by lia.
    rewrite (mapM_range_ok _ (fun i => Some (val i))).
    2:{ intros i Hi. rewrite (py_nth_ok _ _ None) by lia. cbn [bind].
        unfold val.
        assert (In (nth i (imshp op) None) (imshp op)) by (apply nth_In; lia).
        destruct (nth i (imshp op) None) as [[z | nm] |] eqn:Ei.
        - reflexivity.
        - exfalso. unfold constant_shape in Hconst.
          rewrite forallb_forall in Hconst.
          specialize (Hconst _ H0). discriminate.
        - rewrite (py_nth_ok _ _ 0); [reflexivity |].
          unfold fallback. simpl List.length. lia. }
    cbn [bind]. unfold candidate. now rewrite map_map. }
  assert (Eout : get_conv_output_shape (map Some candidate)
                   (map Some (shape kern)) (border_mode op) (subsample op)
                   (Some (filter_dilation op))
                 = Ok (map Some (val 0%nat :: f
                          :: conv_out_sizes
                               (map (fun i => val (2 + i)%nat) (seq 0 n))
                               (dilated K (filter_dilation op))
                               (border_mode op) (subsample op)))).
  { assert (Ecl : candidate
                  = val 0%nat :: val 1%nat
                      :: map (fun i => val (2 + i)%nat) (seq 0 n)).
    { unfold candidate. cbn [Nat.add seq map].
      now rewrite <- seq_shift, map_map, <- seq_shift, map_map. }
    rewrite Ecl, Ekern'.
    change (f :: krest) with ([f] ++ krest). rewrite <- app_assoc.
    change ([f] ++ krest ++ K) with (f :: krest ++ K).
    apply get_conv_output_shape_ok;
      rewrite ?length_map, ?length_seq; try lia; [| exact Hnz].
    unfold len. rewrite length_map, length_seq, <- En. exact Hbm. }
  exists t0, kc, candidate. eexists.
  split; [reflexivity |]. split; [exact Ekc |].
  split; [unfold candidate; rewrite length_map, length_seq; lia |].
  split.
  { intros i Hi. unfold candidate in Hi |- *.
    rewrite length_map, length_seq in Hi.
    rewrite (nth_indep _ 0 (val 0%nat))
      by (rewrite length_map, length_seq; exact Hi).
    rewrite map_nth, seq_nth by exact Hi. cbn [Nat.add].
    unfold val, fallback.
    assert (Hin : In (nth i (imshp op) None) (imshp op))
      by (apply nth_In; lia).
    destruct (nth i (imshp op) None) as [[z | nm] |] eqn:Ei.
    - reflexivity.
    - exfalso. unfold constant_shape in Hconst.
      rewrite forallb_forall in Hconst.
      specialize (Hconst _ Hin). discriminate.
    - reflexivity. }
  split; [exact Ecand |]. split; [exact Eout |].
  exists (f :: krest), K.
  assert (Hfd' : len (filter_dilation op) = len K) by (unfold len; lia).
  assert (Hcd' : convdim op = len K) by (unfold len; lia).
  eexists. repeat split.
  - exact Ekern'.
  - lia.
  - rewrite Ekern'. now apply dilated_shape_ok.
  - rewrite Ecd. apply border_mode_to_pad_ok; [exact Hbm |].
    unfold len. rewrite dilated_length; lia.
Qed.

(** C6. An execution of the gradient with respect to the inputs takes as
    image shape the entries of [self.imshp] and, where one is [None], the
    batch size of the top gradient, the channels [kern.shape[-convdim - 1]]
    of the kernel and the [shape] input; it computes the forward output
    shape of this image shape, the shape of the kernel and the parameters
    of the operator with [get_conv_output_shape].  When that shape differs
    from the shape of the top gradient a [ValueError] is raised whose
    message shows both, and an image gradient is only returned when the two
    are the same. *)
Theorem gradInputs_perform_checks_topgrad_shape :
  forall (cd : Z) (i0 k0 : option (list (option dim))) (bm : border_mode_t)
         (ss : option (list Z)) (ff : bool) (fd : option (list Z)) (ng : Z)
         (us : bool) (op : ConvOp) (kern topgrad : ndarray R)
         (shape_ : list Z),
    BaseAbstractConv_init cd i0 k0 bm ss ff fd ng us = Ok op ->
    Forall (fun s => s <> 0) (subsample op) ->
    len (imshp op) = 2 + cd ->
    ndim topgrad = 2 + cd ->
    1 + cd <= ndim kern ->
    len shape_ = cd ->
    exists t0 kc candidate expected,
      py_nth (shape topgrad) 0 = Ok t0
      /\ py_index (shape kern) (- cd - 1) = Ok kc
      /\ len candidate = 2 + cd
      /\ (forall i, (i < List.length candidate)%nat ->
            match nth i (imshp op) None with
            | None => nth i candidate 0 = nth i (t0 :: kc :: shape_) 0
            | Some d => d = DimInt (nth i candidate 0)
            end)
      /\ get_conv_output_shape (map Some candidate) (map Some (shape kern))
           (border_mode op) (subsample op) (Some (filter_dilation op))
         = Ok expected
      /\ (expected <> map Some (shape topgrad) ->
          AbstractConv_gradInputs_perform op kern topgrad shape_
          = Raise (gradInputs_shape_error expected (shape topgrad)))
      /\ (forall img,
            AbstractConv_gradInputs_perform op kern topgrad shape_ = Ok img ->
            expected = map Some (shape topgrad)).
Proof.
  intros cd i0 k0 bm ss ff fd ng us op kern topgrad shape_
         Hinit Hnz Himshp Htop Hkern Hshape.
  destruct (gradInputs_expected_topgrad_shape_ok _ _ _ _ _ _ _ _ _ _ _ _ _
              Hinit Hnz Himshp Htop Hkern Hshape)
    as (t0 & kc & candidate & expected & Et0 & Ekc & Hlen & Hcand & Ecand
        & Eout & pre & K & pad & Ekern & HK & Edil & Epad).
  destruct (BaseAbstractConv_init_inv _ _ _ _ _ _ _ _ _ _ Hinit)
    as (Ecd & Hcd & _ & _ & _ & _ & Hus & _).
  exists t0, kc, candidate, expected.
  split; [exact Et0 |]. split; [exact Ekc |]. split; [exact Hlen |].
  split; [exact Hcand |]. split; [exact Eout |].
  assert (Eexp : gradInputs_expected_topgrad_shape op kern topgrad shape_
                 = Ok expected) by (now rewrite Ecand).
  assert (Eus : unshared op && negb (convdim op =? 2) = false).
  { destruct (unshared op); [| reflexivity].
    rewrite Ecd, (Hus eq_refl). reflexivity. }
  assert (Eperform : forall r,
    AbstractConv_gradInputs_perform op kern topgrad shape_ = r ->
    list_eqb_opt (shape topgrad) expected = false ->
    r = Raise (gradInputs_shape_error expected (shape topgrad))).
  { intros r <- Hne. unfold AbstractConv_gradInputs_perform.
    rewrite Eus, Edil. cbn [bind]. rewrite Epad. cbn [bind].
    rewrite Eexp. cbn [bind]. rewrite Hne. reflexivity. }
  split.
  - intros Hne. apply Eperform; [reflexivity |].
    destruct (list_eqb_opt (shape topgrad) expected) eqn:E; [| reflexivity].
    apply list_eqb_opt_eq in E. contradiction.
  - intros img Himg.
    destruct (list_eqb_opt (shape topgrad) expected) eqn:E.
    + now apply list_eqb_opt_eq in E.
    + pose proof (Eperform _ Himg eq_refl). discriminate.
Qed.
End GradInputsCheck.

Lemma gradInputs_perform_checks_topgrad_shape_witness :
  get_conv_output_shape (map Some [1; 1; 3; 3]) (map Some [1; 1; 2; 2])
    (BStr "valid") [1; 1] (Some [1; 1])
  = Ok [Some 1; Some 1; Some 2; Some 2]
  /\ AbstractConv_gradInputs_perform
       {| convdim := 2; border_mode := BStr "valid"; subsample := [1; 1];
          filter_flip := true; imshp := [None; None; None; None];
          kshp := [None; None; None; None]; filter_dilation := [1; 1];
          num_groups := 1; unshared := false |}
       (zeros_array (R := Z) [1; 1; 2; 2])
       (zeros_array (R := Z) [1; 1; 5; 5]) [3; 3]
     = Raise (gradInputs_shape_error [Some 1; Some 1; Some 2; Some 2]
                [1; 1; 5; 5]).
Proof.
  split; [reflexivity |].
  destruct (gradInputs_perform_checks_topgrad_shape (R := Z) 2 None None
              (BStr "valid") None true None 1 false
              {| convdim := 2; border_mode := BStr "valid";
                 subsample := [1; 1]; filter_flip := true;
                 imshp := [None; None; None; None];
                 kshp := [None; None; None; None]; filter_dilation := [1; 1];
                 num_groups := 1; unshared := false |}
              (zeros_array (R := Z) [1; 1; 2; 2])
              (zeros_array (R := Z) [1; 1; 5; 5]) [3; 3]
              eq_refl
              ltac:(repeat constructor; discriminate)
              eq_refl eq_refl ltac:(vm_compute; discriminate) eq_refl)
    as (t0 & kc & candidate & expected & Et0 & Ekc & Hlen & Hcand & Eout
        & Hraise & _).
  injection Et0 as <-. injection Ekc as <-.
  assert (Ec : candidate = [1; 1; 3; 3]).
  { unfold len in Hlen.
    destruct candidate as [| c0 [| c1 [| c2 [| c3 [| c4 l]]]]];
      cbn [List.length] in Hlen; try lia.
    pose proof (Hcand 0%nat ltac:(cbn; lia)) as H0.
    pose proof (Hcand 1%nat ltac:(cbn; lia)) as H1.
    pose proof (Hcand 2%nat ltac:(cbn; lia)) as H2.
    pose proof (Hcand 3%nat ltac:(cbn; lia)) as H3.
    cbn in H0, H1, H2, H3. congruence. }
  subst candidate.
  assert (Ee : expected = [Some 1; Some 1; Some 2; Some 2]).
  { vm_compute in Eout. now injection Eout as <-. }
  subst expected. apply Hraise. discriminate.
Defined.

(** The message of the exception for a kernel of shape (1, 1, 2, 2), an
    image shape (3, 3) and a top gradient of shape (1, 1, 5, 5). *)
Lemma gradInputs_perform_mismatch_example :
  AbstractConv_gradInputs_perform
    {| convdim := 2; border_mode := BStr "valid"; subsample := [1; 1];
       filter_flip := true; imshp := [None; None; None; None];
       kshp := [None; None; None; None]; filter_dilation := [1; 1];
       num_groups := 1; unshared := false |}
    (zeros_array (R := Z) [1; 1; 2; 2]) (zeros_array (R := Z) [1; 1; 5; 5])
    [3; 3]
  = Raise (ValueError "invalid input_shape for gradInputs: the given input_shape would produce an output of shape (1, 1, 2, 2), but the given topgrad has shape (1, 1, 5, 5)").
Proof. vm_compute. reflexivity. Qed.

(** ** Where the channel counts are checked against [num_groups] *)

Lemma bind_inv {A B : Type} (m : result A) (k : A -> result B) (b : B) :
  bind m k = Ok b -> exists a, m = Ok a /\ k a = Ok b.
Proof. destruct m as [a | e]; [eauto | discriminate]. Qed.

Ltac inv_bind H :=
  match type of H with
  | bind ?m _ = Ok _ =>
      let E := fresh "E" in
      destruct m eqn:E; [cbn [bind] in H | discriminate H]
  | (if ?c then _ else _) = Ok _ =>
      let E := fresh "E" in
      destruct c eqn:E; try discriminate H
  end.

Lemma py_nth_inv {A : Type} (l : list A) (i : nat) (x d : A) :
  py_nth l i = Ok x -> nth i l d = x.
Proof.
  unfold py_nth. destruct (nth_error l i) as [a |] eqn:E; [| discriminate].
  intros [= <-]. now apply nth_error_nth.
Qed.

Lemma expand_ellipsis_slices (fill : nat) (ixs : list index) :
  Forall (fun ix => is_ellipsis ix = false) ixs ->
  expand_ellipsis fill ixs = ixs ++ repeat slice_all fill.
Proof.
  induction 1 as [| ix ixs Hix _ IH]; [reflexivity |].
  simpl. destruct ix; try discriminate; now rewrite IH.
Qed.

Lemma axis_views_slices_shape (ixs : list index) (shp : list Z)
    (vs : list axis_view) :
  Forall (fun ix => ix = slice_all \/ ix = slice_step (-1)) ixs ->
  Forall (fun n => 0 <= n) shp ->
  axis_views ixs shp = Ok vs -> view_shape vs = shp.
Proof.
  intros Hixs. revert shp vs.
  induction Hixs as [| ix ixs Hix _ IH]; intros shp vs Hshp Hvs.
  - destruct shp; [| discriminate]. injection Hvs as <-. reflexivity.
  - destruct shp as [| n shp]; [discriminate |]. inversion Hshp; subst.
    cbn [axis_views] in Hvs.
    assert (Hv : exists st sp, index_view ix n = Ok (Strided st sp n)).
    { destruct Hix as [-> | ->]; unfold slice_all, slice_step, index_view.
      - rewrite slice_view_all by assumption. eauto.
      - rewrite slice_view_flip by assumption. eauto. }
    destruct Hv as (st & sp & Hv). rewrite Hv in Hvs. cbn [bind] in Hvs.
    destruct (axis_views ixs shp) as [vs' |] eqn:E; [| discriminate].
    injection Hvs as <-. simpl. f_equal. now apply IH.
Qed.

Section GroupsCheck.
Context {R : Type} `{Scalar R}.

Lemma np_zeros_shape (shp : list Z) (a : ndarray R) :
  np_zeros shp = Ok a -> shape a = shp.
Proof.
  unfold np_zeros. destruct (existsb _ shp); [discriminate |].
  intros [= <-]. reflexivity.
Qed.

Lemma setitem_shape (a v a' : ndarray R) (ixs : list index) :
  setitem a ixs v = Ok a' -> shape a' = shape a.
Proof.
  unfold setitem. intros Hs. inv_bind Hs. inv_bind Hs.
  injection Hs as <-. reflexivity.
Qed.

Lemma getitem_slices_shape (a a' : ndarray R) (ixs : list index) :
  Forall (fun ix => ix = slice_all \/ ix = slice_step (-1)) ixs ->
  Forall (fun n => 0 <= n) (shape a) ->
  getitem a ixs = Ok a' -> shape a' = shape a.
Proof.
  intros Hixs Hshp Hg. unfold getitem in Hg. inv_bind Hg.
  injection Hg as <-. simpl. unfold index_views in E.
  destruct (_ <? _)%nat; [discriminate |].
  rewrite expand_ellipsis_slices in E.
  - apply axis_views_slices_shape in E; [assumption | | assumption].
    apply Forall_app. split; [assumption |].
    apply Forall_forall. intros ix Hin. apply repeat_spec in Hin. now left.
  - eapply Forall_impl; [| exact Hixs]. now intros ix [-> | ->].
Qed.

Lemma np_transpose_shape (a a' : ndarray R) (axes : list nat) :
  np_transpose a axes = Ok a' ->
  shape a' = map (fun ax => nth ax (shape a) 0) axes.
Proof.
  unfold np_transpose. destruct (is_permutation _ _); [| discriminate].
  intros [= <-]. reflexivity.
Qed.

Lemma zero_pad_shape (self : ConvOp) (img img' : ndarray R) (pad : list (Z * Z)) :
  zero_pad self img pad = Ok img' ->
  nth 1 (shape img') 0 = nth 1 (shape img) 0.
Proof.
  unfold zero_pad. intros Hz. do 5 inv_bind Hz.
  apply setitem_shape in Hz. apply np_zeros_shape in E2.
  rewrite Hz, E2. simpl. symmetry. now apply py_nth_inv.
Qed.

(** [BaseAbstractConv.conv] returns only for channel counts that
    [self.num_groups] divides. *)
Lemma conv_checks_groups (self : ConvOp) (img kern out : ndarray R)
    (mode : string) (dilation : dilation_arg) (ng : Z) (us : bool)
    (direction : string) :
  conv self img kern mode dilation ng us direction = Ok out ->
  nth 1 (shape img) 0 mod num_groups self = 0
  /\ nth 0 (shape kern) 0 mod num_groups self = 0.
Proof.
  unfold conv. intros Hc. cbv zeta in Hc.
  inv_bind Hc. inv_bind Hc. do 8 inv_bind Hc.
  inv_bind Hc. inv_bind Hc. inv_bind Hc.
  unfold py_mod, self_num_groups in *.
  destruct (num_groups self =? 0); [discriminate |].
  match goal with
  | H1 : py_nth (shape img) 1 = Ok ?c, H2 : py_nth (shape kern) 0 = Ok ?f |- _ =>
      rewrite (py_nth_inv _ _ c 0 H1), (py_nth_inv _ _ f 0 H2)
  end.
  repeat match goal with
  | H : Ok _ = Ok _ |- _ => injection H as <-
  end.
  cbn [bind] in Hc. inv_bind Hc.
  split; apply Z.eqb_eq; apply negb_false_iff; assumption.
Qed.
End GroupsCheck.

Lemma py_slice_to_1 {A : Type} (x : A) (l : list A) :
  py_slice_to (x :: l) 1 = [x].
Proof.
  unfold py_slice_to, clamp_bound. cbn [List.length].
  replace (Z.to_nat _) with 1%nat; [reflexivity |].
  destruct (Z.ltb_spec 1 0); lia.
Qed.

Section PerformGroups.
Context {R : Type} `{Scalar R}.

Lemma dilated_shape_nonempty (self : ConvOp) (kshape D : list Z) :
  0 < convdim self -> dilated_shape self kshape = Ok D -> kshape <> [].
Proof.
  intros Hcd HD ->. unfold dilated_shape, range in HD.
  destruct (Z.to_nat (convdim self)) as [| n] eqn:En; [lia |].
  simpl in HD. unfold py_index, len in HD. simpl List.length in HD.
  destruct (Z.ltb_spec (- convdim self + 0) 0); [| lia].
  destruct (Z.ltb_spec (- convdim self + 0 + Z.of_nat 0) 0);
    [discriminate HD | lia].
Qed.

Lemma AbstractConv_perform_checks_groups (self : ConvOp)
    (img kern out : ndarray R) :
  0 < convdim self ->
  Forall (fun n => 0 <= n) (shape kern) ->
  AbstractConv_perform self img kern = Ok out ->
  nth 1 (shape img) 0 mod num_groups self = 0
  /\ nth 0 (shape kern) 0 mod num_groups self = 0.
Proof.
  intros Hcd Hk Hp. unfold AbstractConv_perform in Hp. cbv zeta in Hp.
  inv_bind Hp. inv_bind Hp. inv_bind Hp. inv_bind Hp.
  destruct a1 as [mode img'].
  assert (Himg : nth 1 (shape img') 0 = nth 1 (shape img) 0).
  { destruct (existsb _ a0).
    - inv_bind E2. injection E2 as <- <-. eapply zero_pad_shape; eauto.
    - injection E2 as <- <-. reflexivity. }
  inv_bind Hp.
  assert (Hk1 : shape a1 = shape kern).
  { destruct (negb (filter_flip self)).
    - eapply getitem_slices_shape; [| exact Hk | exact E3].
      apply Forall_app; split; apply Forall_forall; intros ? Hin;
        apply repeat_spec in Hin; auto.
    - injection E3 as <-. reflexivity. }
  inv_bind Hp.
  assert (Hk2 : nth 0 (shape a2) 0 = nth 0 (shape kern) 0).
  { destruct (unshared self).
    - do 4 inv_bind E4. apply np_transpose_shape in E4. rewrite E4.
      cbn [map]. cbn [nth]. 
      destruct a4.
      + do 4 inv_bind E8. apply setitem_shape in E8. apply np_zeros_shape in E11.
        rewrite E8, E11, Hk1.
        pose proof (dilated_shape_nonempty _ _ _ Hcd E) as Hne.
        destruct (shape kern) as [| k0 rest]; [congruence |].
        now rewrite py_slice_to_1.
      + injection E8 as <-. now rewrite Hk1.
    - injection E4 as <-. now rewrite Hk1. }
  inv_bind Hp. apply conv_checks_groups in E5. now rewrite Himg, Hk2 in E5.
Qed.
End PerformGroups.

(** Construction takes static shapes whose channel counts [num_groups]
    does not divide: an image shape of 3 channels and a kernel shape of 4
    filters with [num_groups = 2] give an operator; the exception comes
    when it is executed, from [BaseAbstractConv.conv]. *)
Lemma init_accepts_indivisible_channels :
  exists op,
    AbstractConv2d_init
      (Some [Some (DimInt 1); Some (DimInt 3); Some (DimInt 5); Some (DimInt 5)])
      (Some [Some (DimInt 4); Some (DimInt 1); Some (DimInt 3); Some (DimInt 3)])
      (BStr "valid") [1; 1] true [1; 1] 2 false = Ok op
    /\ 3 mod num_groups op <> 0
    /\ AbstractConv_perform op (zeros_array (R := Z) [1; 3; 5; 5])
         (zeros_array (R := Z) [4; 1; 3; 3])
       = Raise (ValueError "number of input channels must be divible by num_groups").
Proof.
  eexists. split; [reflexivity |]. split; [discriminate |].
  vm_compute. reflexivity.
Qed.

Section GroupsTheorem.
Context {R : Type} `{Scalar R}.

(** C4 (amended): the construction of an operator does not look at the
    channel counts of the static shapes: when [BaseAbstractConv.__init__]
    accepts its arguments with some constant shapes, it accepts them with
    any other constant shapes and stores these, whether or not [num_groups]
    divides their channel counts (of [num_groups] it checks only that it is
    at least 1).  The divisibility is checked when the operator is
    executed: [AbstractConv.perform] returns an output only if [num_groups]
    divides the number of channels of the image and the number of filters
    of the kernel. *)
Theorem num_groups_divisibility_checked_at_execution :
  forall (cd : Z) (imshp0 kshp0 : list (option dim)) (bm : border_mode_t)
         (ss : option (list Z)) (ff : bool) (fd : option (list Z)) (ng : Z)
         (us : bool) (op : ConvOp),
    BaseAbstractConv_init cd (Some imshp0) (Some kshp0) bm ss ff fd ng us
    = Ok op ->
    1 <= ng
    /\ (forall imshp' kshp' : list (option dim),
          constant_shape imshp' = true -> constant_shape kshp' = true ->
          BaseAbstractConv_init cd (Some imshp') (Some kshp') bm ss ff fd ng us
          = Ok {| convdim := convdim op; border_mode := border_mode op;
                  subsample := subsample op; filter_flip := filter_flip op;
                  imshp := imshp'; kshp := kshp';
                  filter_dilation := filter_dilation op;
                  num_groups := num_groups op; unshared := unshared op |})
    /\ (forall img kern out : ndarray R,
          Forall (fun n => 0 <= n) (shape kern) ->
          AbstractConv_perform op img kern = Ok out ->
          nth 1 (shape img) 0 mod ng = 0 /\ nth 0 (shape kern) 0 mod ng = 0).
Proof.
  intros cd imshp0 kshp0 bm ss ff fd ng us op Hinit.
  pose proof Hinit as Hinv. apply BaseAbstractConv_init_inv in Hinv.
  assert (Hng : num_groups op = ng /\ convdim op = cd /\ 1 <= ng).
  { unfold BaseAbstractConv_init in Hinit.
    repeat inv_bind Hinit.
    injection Hinit as <-. cbn. split; [reflexivity |]. split; [reflexivity |].
    destruct (Z.ltb_spec ng 1); [discriminate | lia]. }
  destruct Hng as (Hng & Hcd & Hge).
  split; [exact Hge |]. split.
  - intros imshp' kshp' Hi Hk.
    unfold BaseAbstractConv_init in *.
    destruct (negb _); [discriminate |].
    destruct (normalize_border_mode cd bm); [| discriminate].
    cbn [bind] in *.
    rewrite (check_constant_shape_ok _ _ Hi), (check_constant_shape_ok _ _ Hk).
    do 2 (inv_bind Hinit).
    cbn [bind].
    repeat inv_bind Hinit.
    injection Hinit as <-. reflexivity.
  - intros img kern out Hk Hp. rewrite <- Hng.
    apply (AbstractConv_perform_checks_groups op img kern out); try assumption.
    rewrite Hcd. destruct Hinv as (_ & Hcd' & _). lia.
Qed.
End GroupsTheorem.

Lemma num_groups_divisibility_checked_at_execution_witness :
  1 <= 2
  /\ (forall imshp' kshp' : list (option dim),
        constant_shape imshp' = true -> constant_shape kshp' = true ->
        BaseAbstractConv_init 2 (Some imshp') (Some kshp') (BStr "valid")
          None true None 2 false
        = Ok {| convdim := 2; border_mode := BStr "valid";
                subsample := [1; 1]; filter_flip := true;
                imshp := imshp'; kshp := kshp';
                filter_dilation := [1; 1];
                num_groups := 2; unshared := false |})
  /\ (forall img kern out : ndarray Z,
        Forall (fun n => 0 <= n) (shape kern) ->
        AbstractConv_perform
          {| convdim := 2; border_mode := BStr "valid";
             subsample := [1; 1]; filter_flip := true;
             imshp := [Some (DimInt 1); Some (DimInt 3); Some (DimInt 5);
                       Some (DimInt 5)];
             kshp := [Some (DimInt 4); Some (DimInt 1); Some (DimInt 3);
                      Some (DimInt 3)];
             filter_dilation := [1; 1];
             num_groups := 2; unshared := false |} img kern = Ok out ->
        nth 1 (shape img) 0 mod 2 = 0 /\ nth 0 (shape kern) 0 mod 2 = 0).
Proof.
  apply (num_groups_divisibility_checked_at_execution (R := Z) 2
           [Some (DimInt 1); Some (DimInt 3); Some (DimInt 5); Some (DimInt 5)]
           [Some (DimInt 4); Some (DimInt 1); Some (DimInt 3); Some (DimInt 3)]
           (BStr "valid") None true None 2 false
           {| convdim := 2; border_mode := BStr "valid";
              subsample := [1; 1]; filter_flip := true;
              imshp := [Some (DimInt 1); Some (DimInt 3); Some (DimInt 5);
                        Some (DimInt 5)];
              kshp := [Some (DimInt 4); Some (DimInt 1); Some (DimInt 3);
                       Some (DimInt 3)];
              filter_dilation := [1; 1];
              num_groups := 2; unshared := false |}).
  reflexivity.
Defined.

(** ** The loops of [BaseAbstractConv.conv] *)

Lemma in_view_full (shp x : list Z) :
  in_box shp x = true -> in_view (full_views shp) x = true.
Proof.
  revert x. induction shp as [| n shp IH]; intros x Hx.
  - destruct x; [reflexivity | discriminate].
  - destruct x as [| xk x]; [discriminate |].
    rewrite in_box_cons in Hx. apply andb_true_iff in Hx as [Hk Hx].
    apply andb_true_iff in Hk as [H1 H2].
    apply Z.leb_le in H1. apply Z.ltb_lt in H2.
    cbn [full_views map in_view]. fold (full_views shp).
    rewrite (IH x Hx), Z.sub_0_r, Z.mod_1_r, Z.div_1_r.
    destruct (Z.leb_spec 0 xk), (Z.ltb_spec xk n); try lia; reflexivity.
Qed.

Lemma view_inverse_full (shp x : list Z) :
  List.length x = List.length shp -> view_inverse (full_views shp) x = x.
Proof.
  revert x. induction shp as [| n shp IH]; intros x Hx.
  - destruct x; [reflexivity | discriminate].
  - destruct x as [| xk x]; [discriminate |].
    cbn [full_views map view_inverse]. fold (full_views shp).
    rewrite IH by (simpl in Hx; lia). now rewrite Z.sub_0_r, Z.div_1_r.
Qed.

Lemma view_index_full (shp x : list Z) :
  List.length x = List.length shp -> view_index (full_views shp) x = x.
Proof.
  revert x. induction shp as [| n shp IH]; intros x Hx.
  - destruct x; [reflexivity | discriminate].
  - destruct x as [| xk x]; [discriminate |].
    cbn [full_views map view_index]. fold (full_views shp).
    rewrite IH by (simpl in Hx; lia). f_equal. lia.
Qed.

Lemma view_shape_full (shp : list Z) : view_shape (full_views shp) = shp.
Proof.
  induction shp as [| n shp IH]; [reflexivity |].
  cbn [full_views map view_shape]. fold (full_views shp). now rewrite IH.
Qed.

Lemma view_shape_app (vs ws : list axis_view) :
  view_shape (vs ++ ws) = view_shape vs ++ view_shape ws.
Proof.
  induction vs as [| v vs IH]; [reflexivity |].
  destruct v; cbn [app view_shape]; now rewrite IH.
Qed.

Lemma dilated_size_quotient (k d : Z) :
  1 <= k -> 1 <= d ->
  (if 0 <? dilated_size k d then (dilated_size k d - 1) / d + 1 else 0) = k.
Proof.
  intros Hk Hd. unfold dilated_size.
  destruct (Z.ltb_spec 0 ((k - 1) * d + 1)); [| nia].
  replace ((k - 1) * d + 1 - 1) with ((k - 1) * d) by ring.
  rewrite Z.div_mul by lia. lia.
Qed.

Lemma dilated_size_pos (k d : Z) : 1 <= k -> 1 <= d -> 1 <= dilated_size k d.
Proof. intros Hk Hd. unfold dilated_size. nia. Qed.

Lemma dilated_pos (K dil : list Z) :
  Forall (fun k => 1 <= k) K -> Forall (fun d => 1 <= d) dil ->
  Forall (fun n => 1 <= n) (dilated K dil).
Proof.
  intros HK. revert dil. induction HK as [| k K Hk _ IH]; intros dil Hd.
  - constructor.
  - destruct Hd as [| d dil Hd1 Hd]; [constructor |].
    unfold dilated, zip_with. cbn [combine map fst snd].
    constructor; [now apply dilated_size_pos |]. now apply IH.
Qed.

Lemma Forall_pos_nonneg (l : list Z) :
  Forall (fun n => 1 <= n) l -> Forall (fun n => 0 <= n) l.
Proof. apply Forall_impl. intros; lia. Qed.

(** The views of [dilated_kern[..., ::d0, ::d1]]. *)
Lemma axis_views_steps (K dil : list Z) :
  Forall (fun k => 1 <= k) K -> Forall (fun d => 1 <= d) dil ->
  List.length K = List.length dil ->
  axis_views (map slice_step dil) (dilated K dil)
  = Ok (zip_with (fun k d => Strided 0 d k) K dil).
Proof.
  intros HK. revert dil. induction HK as [| k K Hk _ IH]; intros dil Hd Hlen.
  - destruct dil; [reflexivity | discriminate].
  - destruct Hd as [| d dil Hd1 Hd]; [discriminate |].
    unfold dilated, zip_with. cbn [combine map fst snd axis_views].
    change (index_view (slice_step d) (dilated_size k d))
      with (slice_view None None (Some d) (dilated_size k d)).
    rewrite slice_view_step
      by (try lia; pose proof (dilated_size_pos k d Hk Hd1); lia).
    rewrite dilated_size_quotient by assumption. cbn [bind].
    fold (zip_with dilated_size K dil). fold (dilated K dil).
    rewrite IH by (simpl in Hlen; auto; lia). reflexivity.
Qed.

Lemma view_shape_zip_strided (K dil : list Z) :
  List.length K = List.length dil ->
  view_shape (zip_with (fun k d => Strided 0 d k) K dil) = K.
Proof.
  revert dil. induction K as [| k K IH]; intros dil Hlen.
  - reflexivity.
  - destruct dil as [| d dil]; [discriminate |].
    unfold zip_with. cbn [combine map fst snd view_shape]. f_equal.
    apply IH. simpl in Hlen. lia.
Qed.

Lemma forallb_no_ellipsis_slices (n : nat) (dil : list Z) :
  forallb (fun ix => negb (is_ellipsis ix))
    (repeat slice_all n ++ map slice_step dil) = true.
Proof.
  rewrite forallb_app. apply andb_true_iff. split.
  - induction n as [| n IH]; [reflexivity | exact IH].
  - induction dil as [| d dil IH]; [reflexivity | exact IH].
Qed.

Lemma index_views_dilation (lead K dil : list Z) :
  Forall (fun n => 0 <= n) lead ->
  Forall (fun k => 1 <= k) K -> Forall (fun d => 1 <= d) dil ->
  List.length K = List.length dil ->
  index_views (lead ++ dilated K dil)
    (repeat slice_all (List.length lead) ++ map slice_step dil)
  = Ok (dilation_views lead K dil).
Proof.
  intros Hlead HK Hd Hlen.
  rewrite index_views_full.
  - apply axis_views_app.
    + now apply axis_views_all.
    + now apply axis_views_steps.
  - apply forallb_no_ellipsis_slices.
  - rewrite !length_app, repeat_length, length_map, dilated_length; lia.
Qed.

Lemma view_shape_dilation (lead K dil : list Z) :
  List.length K = List.length dil ->
  view_shape (dilation_views lead K dil) = lead ++ K.
Proof.
  intros Hlen. unfold dilation_views.
  now rewrite view_shape_app, view_shape_full, view_shape_zip_strided.
Qed.

Section ConvLoops.
Context {R : Type} `{Scalar R}.

Add Ring scalar_ring_conv : scalar_ring.

Lemma sum_range_if (n : Z) (p : bool) (f : Z -> R) :
  sum_range n (fun k => if p then f k else rzero)
  = if p then sum_range n f else rzero.
Proof. destruct p; [reflexivity | apply sum_range_zero]. Qed.

(** The block [dilated_kern = np.zeros(...); dilated_kern[...] = kern]. *)
Lemma dilated_kern_ok (cd : Z) (lead K dil : list Z) (kern : ndarray R) :
  shape kern = lead ++ K -> len K = cd -> len dil = cd ->
  Forall (fun n => 0 <= n) lead ->
  Forall (fun k => 1 <= k) K -> Forall (fun d => 1 <= d) dil ->
  setitem (zeros_array (lead ++ dilated K dil))
    (repeat slice_all
       (Z.to_nat (ndim (zeros_array (R := R) (lead ++ dilated K dil)) - cd))
       ++ map slice_step dil) kern
  = Ok (dilate_kernel lead K dil kern).
Proof.
  intros Hk HK Hdil Hlead HK1 Hd1. unfold len in *.
  assert (Hlen : List.length K = List.length dil) by lia.
  unfold setitem, ndim, len. cbn [shape zeros_array].
  rewrite length_app, dilated_length by exact Hlen.
  replace (Z.to_nat _) with (List.length lead) by lia.
  rewrite index_views_dilation by assumption. cbn [bind].
  rewrite view_shape_dilation, Hk, shape_eqb_refl by exact Hlen.
  reflexivity.
Qed.

Lemma getitem_channel (a : ndarray R) (n0 n1 b c : Z) (rest : list Z) :
  shape a = n0 :: n1 :: rest ->
  0 <= b < n0 -> 0 <= c < n1 -> Forall (fun n => 0 <= n) rest ->
  getitem a [Idx b; Idx c; Ellipsis] = Ok (channel a b c).
Proof.
  intros Ha Hb Hc Hrest. unfold getitem, channel. rewrite Ha.
  rewrite index_views_channel by assumption. reflexivity.
Qed.

Lemma in_view_channel (b c b0 c0 : Z) (rest x : list Z) :
  in_box rest x = true ->
  in_view (channel_views b c rest) (b0 :: c0 :: x) = (b0 =? b) && (c0 =? c).
Proof.
  intros Hx. unfold channel_views. cbn [in_view].
  rewrite in_view_full by exact Hx. now rewrite !andb_true_r.
Qed.

Lemma view_inverse_channel (b c b0 c0 : Z) (rest x : list Z) :
  in_box rest x = true ->
  view_inverse (channel_views b c rest) (b0 :: c0 :: x) = x.
Proof.
  intros Hx. unfold channel_views. cbn [view_inverse].
  apply view_inverse_full. now apply in_box_length.
Qed.

Lemma adds_four_loops (shp : list Z) (n1 n2 n3 n4 : Z)
    (body : Z -> Z -> Z -> Z -> ndarray R -> result (ndarray R))
    (delta : Z -> Z -> Z -> Z -> list Z -> R) :
  (forall a b c d,
      0 <= a < n1 -> 0 <= b < n2 -> 0 <= c < n3 -> 0 <= d < n4 ->
      adds shp (body a b c d) (delta a b c d)) ->
  adds shp
    (for_range n1 (fun a out =>
       for_range n2 (fun b out =>
         for_range n3 (fun c out =>
           for_range n4 (fun d out => body a b c d out) out) out) out))
    (fun i =>
       sum_range n1 (fun a =>
         sum_range n2 (fun b =>
           sum_range n3 (fun c =>
             sum_range n4 (fun d => delta a b c d i))))).
Proof.
  intros Hb.
  apply (adds_for_range shp n1 _
           (fun a i => sum_range n2 (fun b => sum_range n3 (fun c =>
                         sum_range n4 (fun d => delta a b c d i))))).
  intros a Ha.
  apply (adds_for_range shp n2 _
           (fun b i => sum_range n3 (fun c =>
                         sum_range n4 (fun d => delta a b c d i)))).
  intros b Hb'.
  apply (adds_for_range shp n3 _
           (fun c i => sum_range n4 (fun d => delta a b c d i))).
  intros c Hc.
  apply (adds_for_range shp n4 _ (fun d i => delta a b c d i)).
  intros d Hd. now apply Hb.
Qed.

Lemma group_index_inj (oco g n g0 n0 : Z) :
  0 <= n < oco -> 0 <= n0 < oco ->
  g * oco + n = g0 * oco + n0 -> g = g0 /\ n = n0.
Proof.
  intros Hn Hn0 E.
  assert (Eg : g = g0).
  { assert (E1 : (g * oco + n) / oco = g)
      by (rewrite Z.div_add_l, Z.div_small by lia; lia).
    assert (E2 : (g0 * oco + n0) / oco = g0)
      by (rewrite Z.div_add_l, Z.div_small by lia; lia).
    congruence. }
  split; [exact Eg |]. subst g0. lia.
Qed.

(** Of the contributions to an output channel, those of the other batch
    items and output channels are none. *)
Lemma channel_sum_collapse (B G oco c1 b0 g0 n0 : Z) (rest x : list Z)
    (fs : Z -> Z -> Z -> Z -> list Z -> R) :
  0 <= b0 < B -> 0 <= g0 < G -> 0 <= n0 < oco -> in_box rest x = true ->
  sum_range B (fun b =>
    sum_range G (fun g =>
      sum_range oco (fun n =>
        sum_range c1 (fun c =>
          if in_view (channel_views b (g * oco + n) rest)
               (b0 :: (g0 * oco + n0) :: x)
          then fs b g n c
                 (view_inverse (channel_views b (g * oco + n) rest)
                    (b0 :: (g0 * oco + n0) :: x))
          else rzero))))
  = sum_range c1 (fun c => fs b0 g0 n0 c x).
Proof.
  intros Hb Hg Hn Hx.
  rewrite (sum_range_ext B _
             (fun b => if b =? b0
                       then sum_range G (fun g =>
                              if g =? g0
                              then sum_range oco (fun n =>
                                     if n =? n0
                                     then sum_range c1 (fun c => fs b g n c x)
                                     else rzero)
                              else rzero)
                       else rzero)).
  - rewrite sum_range_single by exact Hb.
    rewrite sum_range_single by exact Hg.
    now rewrite sum_range_single by exact Hn.
  - intros b Hb'.
    destruct (Z.eqb_spec b b0) as [-> | Nb].
    + apply sum_range_ext. intros g Hg'.
      destruct (Z.eqb_spec g g0) as [-> | Ng].
      * apply sum_range_ext. intros n Hn'.
        destruct (Z.eqb_spec n n0) as [-> | Nn].
        -- apply sum_range_ext. intros c _.
           rewrite in_view_channel, view_inverse_channel by exact Hx.
           now rewrite !Z.eqb_refl.
        -- apply sum_range_none. intros c _.
           rewrite in_view_channel by exact Hx.
           destruct (Z.eqb_spec (g0 * oco + n0) (g0 * oco + n));
             [lia | now rewrite andb_false_r].
      * apply sum_range_none. intros n Hn'. apply sum_range_none. intros c _.
        rewrite in_view_channel by exact Hx.
        destruct (Z.eqb_spec (g0 * oco + n0) (g * oco + n)) as [E | _];
          [| now rewrite andb_false_r].
        apply group_index_inj in E; [| assumption | assumption]. lia.
    + apply sum_range_none. intros g _. apply sum_range_none. intros n _.
      apply sum_range_none. intros c _.
      rewrite in_view_channel by exact Hx.
      destruct (Z.eqb_spec b0 b); [lia | reflexivity].
Qed.

Lemma dil_spatial_ok (cd : Z) (pre K dil : list Z) :
  cd = len K -> len dil = len K ->
  mapM (fun i =>
      k <- py_index (pre ++ K) (- cd + Z.of_nat i) ;;
      d <- py_nth dil i ;;
      Ok ((k - 1) * d + 1)) (range cd)
  = Ok (dilated K dil).
Proof.
  intros Hcd Hdil.
  exact (dilated_shape_ok
           {| convdim := cd; border_mode := BStr EmptyString; subsample := [];
              filter_flip := true; imshp := []; kshp := [];
              filter_dilation := dil; num_groups := 1; unshared := false |}
           pre K Hcd Hdil).
Qed.

(** The result of [conv]: each output channel is the sum, over the input
    channels of its group, of what the convolution of one pair of channels
    gives.  The convolution of a pair is taken as [fs] gives it. *)
Lemma conv_spec (self : ConvOp) (img kern : ndarray R) (mode : string)
    (dil : list Z) (us : bool) (direction : string)
    (B C F c1 G oco : Z) (N lead K rest : list Z)
    (fs : Z -> Z -> Z -> Z -> list Z -> R) :
  convdim self = 2 \/ convdim self = 3 ->
  (us = true -> convdim self = 2) ->
  mode = "valid"%string \/ mode = "full"%string ->
  len dil = convdim self -> len K = convdim self ->
  shape img = B :: C :: N -> shape kern = F :: c1 :: lead ++ K ->
  Forall (fun n => 0 <= n) N ->
  Forall (fun n => 0 <= n) lead ->
  Forall (fun k => 1 <= k) K -> Forall (fun d => 1 <= d) dil ->
  num_groups self = G -> 1 <= G -> C = G * c1 -> F = G * oco ->
  0 <= B -> 0 <= c1 -> 0 <= oco ->
  (if us && String.eqb direction "backprop weights" then
     if negb (String.eqb mode "valid") then
       Raise (ValueError ("conv mode for unshared backprop wrt weights must be "
                ++ dq ++ "valid" ++ dq))
     else
       i0 <- py_nth (shape img) 0 ;;
       k0 <- py_nth (shape kern) 0 ;;
       k2 <- py_nth (shape kern) 2 ;;
       k3 <- py_nth (shape kern) 3 ;;
       i2 <- py_nth (shape img) 2 ;;
       i3 <- py_nth (shape img) 3 ;;
       Ok [i0; k0; k2; k3; i2 - k2 + 1; i3 - k3 + 1]
   else
     shp <- get_conv_output_shape (map Some (shape img))
              (map Some (shape kern)) (BStr mode)
              (repeat 1 (Z.to_nat (convdim self))) (Some dil) ;;
     known_shape shp) = Ok (B :: F :: rest) ->
  Forall (fun n => 0 <= n) rest ->
  (forall b g n c,
      0 <= b < B -> 0 <= g < G -> 0 <= n < oco -> 0 <= c < c1 ->
      exists r,
        (if convdim self =? 2 then
           if us
           then unshared2d self (channel img b (g * c1 + c))
                  (channel (dilate_kernel (F :: c1 :: lead) K dil kern)
                     (g * oco + n) c) rest direction
           else convolve2d (channel img b (g * c1 + c))
                  (channel (dilate_kernel (F :: c1 :: lead) K dil kern)
                     (g * oco + n) c) mode
         else scipy_convolve (channel img b (g * c1 + c))
                (channel (dilate_kernel (F :: c1 :: lead) K dil kern)
                   (g * oco + n) c) mode) = Ok r
        /\ shape r = rest
        /\ forall x, in_box rest x = true -> item r x = fs b g n c x) ->
  exists Y,
    conv self img kern mode (DilTuple dil) G us direction = Ok Y
    /\ shape Y = B :: F :: rest
    /\ forall b g n x,
         0 <= b < B -> 0 <= g < G -> 0 <= n < oco -> in_box rest x = true ->
         item Y (b :: (g * oco + n) :: x)
         = sum_range c1 (fun c => fs b g n c x).
Proof.
  intros Hcd Hus Hmode Hdil HK Hi Hk HN Hlead HK1 Hd1 HG HG1 HC HF HB Hc1 Hoco
    Hout Hrest Hslice.
  unfold conv. cbv beta iota zeta.
  assert (Em : negb (String.eqb mode "valid" || String.eqb mode "full") = false)
    by (destruct Hmode as [-> | ->]; reflexivity).
  rewrite Em, Hdil, Z.eqb_refl. cbn [negb].
  rewrite Hout. cbn [bind].
  rewrite Hk, Hi.
  change (F :: c1 :: lead ++ K) with ((F :: c1 :: lead) ++ K).
  rewrite (dil_spatial_ok (convdim self) (F :: c1 :: lead) K dil)
    by (rewrite ?Hdil; auto).
  cbn [bind].
  assert (HKlen : (0 < List.length K)%nat) by (unfold len in HK; lia).
  replace (- convdim self) with (- Z.of_nat (List.length K))
    by (unfold len in HK; lia).
  rewrite py_slice_to_suffix by exact HKlen.
  assert (Hlead' : Forall (fun n => 0 <= n) (F :: c1 :: lead))
    by (repeat constructor; try assumption; nia).
  rewrite np_zeros_ok
    by (apply Forall_app; split;
        [exact Hlead' | apply Forall_pos_nonneg, dilated_pos; assumption]).
  cbn [bind].
  replace (Z.of_nat (List.length K)) with (convdim self)
    by (unfold len in HK; lia).
  rewrite (dilated_kern_ok (convdim self) (F :: c1 :: lead) K dil kern)
    by assumption.
  cbn [bind].
  assert (Hosh : Forall (fun n => 0 <= n) (B :: F :: rest))
    by (repeat constructor; try assumption; nia).
  rewrite np_zeros_ok by exact Hosh.
  cbn [bind app py_nth nth_error].
  unfold py_mod, py_floordiv, self_num_groups. rewrite HG.
  destruct (Z.eqb_spec G 0) as [? | _]; [lia |]. cbn [bind].
  assert (E1 : C mod G = 0) by (subst C; rewrite Z.mul_comm; apply Z.mod_mul; lia).
  assert (E2 : F mod G = 0) by (subst F; rewrite Z.mul_comm; apply Z.mod_mul; lia).
  assert (E3 : C / G = c1) by (subst C; rewrite Z.mul_comm; apply Z.div_mul; lia).
  assert (E4 : F / G = oco) by (subst F; rewrite Z.mul_comm; apply Z.div_mul; lia).
  rewrite E1, E2, E3, E4, Z.eqb_refl. cbn [negb Z.eqb].
  set (dk := dilate_kernel (F :: c1 :: lead) K dil kern) in *.
  set (shp := B :: F :: rest) in *.
  assert (Hdk : shape dk = F :: c1 :: lead ++ dilated K dil) by reflexivity.
  pose (delta := fun b g n c (i : list Z) =>
                   if in_view (channel_views b (g * oco + n) rest) i
                   then fs b g n c
                          (view_inverse (channel_views b (g * oco + n) rest) i)
                   else rzero).
  assert (Hbody : forall b g n c,
             0 <= b < B -> 0 <= g < G -> 0 <= n < oco -> 0 <= c < c1 ->
             adds shp
               (fun out =>
                  i <- getitem img [Idx b; Idx (g * c1 + c); Ellipsis] ;;
                  k <- getitem dk [Idx (g * oco + n); Idx c; Ellipsis] ;;
                  r <- (if convdim self =? 2 then
                          if us then unshared2d self i k rest direction
                          else convolve2d i k mode
                        else scipy_convolve i k mode) ;;
                  iadd_item out [Idx b; Idx (g * oco + n); Ellipsis] r)
               (delta b g n c)).
  { intros b g n c Hb Hg Hn Hc s Hs.
    rewrite (getitem_channel img B C b (g * c1 + c) N)
      by (try assumption; nia).
    assert (HlD : Forall (fun n => 0 <= n) (lead ++ dilated K dil)).
    { apply Forall_app; split;
        [assumption | apply Forall_pos_nonneg, dilated_pos; assumption]. }
    rewrite (getitem_channel dk F c1 (g * oco + n) c (lead ++ dilated K dil))
      by (try assumption; nia).
    cbn [bind].
    destruct (Hslice b g n c Hb Hg Hn Hc) as (r & Er & Sr & Ir).
    rewrite Er. cbn [bind].
    assert (Hvs : index_views shp [Idx b; Idx (g * oco + n); Ellipsis]
                  = Ok (channel_views b (g * oco + n) rest)).
    { unfold shp. apply index_views_channel; try assumption; nia. }
    assert (Hsv : shape r = view_shape (channel_views b (g * oco + n) rest)).
    { unfold channel_views. cbn [view_shape]. now rewrite view_shape_full. }
    destruct (adds_iadd_item shp _ _ r Hosh Hvs Hsv s Hs)
      as (s' & E' & S' & I').
    exists s'. split; [exact E' |]. split; [exact S' |].
    intros i Hi'. rewrite (I' i Hi'). unfold delta.
    destruct (in_view (channel_views b (g * oco + n) rest) i) eqn:Ein;
      [| reflexivity].
    f_equal. apply Ir.
    pose proof (index_views_valid _ _ _ Hosh Hvs) as Hvalid.
    destruct (view_inverse_in_box _ _ _ Hvalid Hi' Ein) as [Hbox _].
    unfold channel_views in Hbox. cbn [view_shape] in Hbox.
    now rewrite view_shape_full in Hbox. }
  rewrite Z.eqb_refl. cbn [negb].
  pose proof (adds_four_loops shp B G oco c1 _ _ Hbody (zeros_array shp)
                eq_refl) as (Y & EY & SY & IY).
  assert (Hitems : forall b g n x,
             0 <= b < B -> 0 <= g < G -> 0 <= n < oco -> in_box rest x = true ->
             item Y (b :: (g * oco + n) :: x)
             = sum_range c1 (fun c => fs b g n c x)).
  { intros b g n x Hb Hg Hn Hx. rewrite IY.
    - unfold delta. rewrite channel_sum_collapse by assumption.
      cbn [zeros_array item]. ring.
    - unfold shp. rewrite !in_box_cons, Hx.
      destruct (Z.leb_spec 0 b), (Z.ltb_spec b B),
        (Z.leb_spec 0 (g * oco + n)), (Z.ltb_spec (g * oco + n) F);
        try reflexivity; nia. }
  exists Y. split; [| split; [exact SY | exact Hitems]].
  unfold shp at 1 2. rewrite py_slice_from_2.
  destruct Hcd as [E | E]; rewrite E in *.
  - exact EY.
  - destruct us; [specialize (Hus eq_refl); lia |]. exact EY.
Qed.
End ConvLoops.

(** *** Sizes *)

Lemma nth_repeat_same {A : Type} (x : A) (n i : nat) : nth i (repeat x n) x = x.
Proof.
  revert i. induction n as [| n IH]; intros [| i]; simpl; auto.
Qed.

Lemma conv_out_sizes_valid (N D : list Z) (n : nat) :
  List.length N = List.length D ->
  conv_out_sizes N D (BStr "valid") (repeat 1 n) = valid_sizes N D.
Proof.
  intros Hlen. unfold conv_out_sizes, valid_sizes.
  rewrite <- (map_seq_zip_with _ N D 0 0) by exact Hlen.
  apply map_ext. intros i. rewrite nth_repeat_same.
  unfold conv_out_size, axis_pads. cbn.
  rewrite Z.div_1_r. lia.
Qed.

Lemma conv_out_sizes_full (N D : list Z) (n : nat) :
  List.length N = List.length D ->
  conv_out_sizes N D (BStr "full") (repeat 1 n) = full_sizes N D.
Proof.
  intros Hlen. unfold conv_out_sizes, full_sizes.
  rewrite <- (map_seq_zip_with _ N D 0 0) by exact Hlen.
  apply map_ext. intros i. rewrite nth_repeat_same.
  unfold conv_out_size, axis_pads. cbn.
  rewrite Z.div_1_r. lia.
Qed.

Lemma nth_map_seq {A : Type} (f : nat -> A) (n i : nat) (d : A) :
  (i < n)%nat -> nth i (map f (seq 0 n)) d = f i.
Proof.
  intros Hi. rewrite (nth_indep _ d (f 0%nat)) by (now rewrite length_map, length_seq).
  rewrite map_nth, seq_nth by exact Hi. reflexivity.
Qed.

Lemma conv_out_sizes_pads (N D ss : list Z) (bm : border_mode_t) :
  List.length N = List.length D -> List.length ss = List.length D ->
  conv_out_sizes N D bm ss
  = strided_sizes (valid_sizes (padded N (pads_of bm D)) D) ss.
Proof.
  intros HN Hss.
  assert (Hp : List.length (pads_of bm D) = List.length D)
    by (unfold pads_of; now rewrite length_map, length_seq).
  assert (L1 : List.length (padded N (pads_of bm D)) = List.length N)
    by (apply zip_with_length; lia).
  assert (L2 : List.length (valid_sizes (padded N (pads_of bm D)) D)
               = List.length N)
    by (unfold valid_sizes; rewrite zip_with_length; lia).
  unfold conv_out_sizes, strided_sizes.
  apply nth_ext with (d := 0) (d' := 0).
  - rewrite length_map, length_seq, zip_with_length; lia.
  - intros i Hi. rewrite length_map, length_seq in Hi.
    rewrite nth_map_seq by exact Hi.
    rewrite (zip_with_nth _ _ _ _ 0 1) by lia.
    unfold valid_sizes. rewrite (zip_with_nth _ _ _ _ 0 0) by lia.
    unfold padded. rewrite (zip_with_nth _ _ _ _ 0 (0, 0)) by lia.
    unfold conv_out_size, pads_of.
    rewrite nth_map_seq by lia.
    f_equal. f_equal. lia.
Qed.

(** ** Convolutions with one kernel for all positions *)

Lemma existsb_lt1_false (l : list Z) :
  Forall (fun n => 1 <= n) l -> existsb (fun n => n <? 1) l = false.
Proof.
  induction 1 as [| n l Hn _ IH]; [reflexivity |].
  simpl. rewrite IH. destruct (Z.ltb_spec n 1); [lia | reflexivity].
Qed.

Lemma existsb_fits_false (N D : list Z) :
  Forall (fun n => 1 <= n) (valid_sizes N D) ->
  List.length N = List.length D ->
  existsb (fun p => fst p <? snd p) (combine N D) = false.
Proof.
  revert D. induction N as [| n N IH]; intros D Hv Hlen.
  - reflexivity.
  - destruct D as [| d D]; [discriminate |].
    unfold valid_sizes, zip_with in Hv. cbn [combine map fst snd] in Hv.
    inversion Hv as [| ? ? Hn Hrest]; subst.
    cbn [combine existsb fst snd]. rewrite IH; [| exact Hrest | simpl in Hlen; lia].
    destruct (Z.ltb_spec n d); [lia | reflexivity].
Qed.

Lemma vsub_length (a b : list Z) :
  List.length a = List.length b -> List.length (vsub a b) = List.length a.
Proof. intros E. unfold vsub. rewrite length_map, length_combine. lia. Qed.

Lemma vadd_length (a b : list Z) :
  List.length a = List.length b -> List.length (vadd a b) = List.length a.
Proof. intros E. unfold vadd. rewrite length_map, length_combine. lia. Qed.

Section ConvShared.
Context {R : Type} `{Scalar R}.

Add Ring scalar_ring_shared : scalar_ring.

Lemma scipy_convolve_ok (in1 in2 : ndarray R) (mode : string) :
  mode = "valid"%string \/ mode = "full"%string ->
  List.length (shape in1) = List.length (shape in2) ->
  Forall (fun n => 1 <= n) (shape in1) ->
  Forall (fun n => 1 <= n) (shape in2) ->
  (mode = "valid"%string ->
   Forall (fun n => 1 <= n) (valid_sizes (shape in1) (shape in2))) ->
  scipy_convolve in1 in2 mode = Ok (convolve mode in1 in2).
Proof.
  intros Hmode Hlen H1 H2 Hfit. unfold scipy_convolve, convolve.
  rewrite Hlen, Nat.eqb_refl, !existsb_lt1_false by assumption.
  cbn [negb orb].
  destruct Hmode as [-> | ->].
  - rewrite String.eqb_refl.
    rewrite existsb_fits_false; [reflexivity | now apply Hfit | exact Hlen].
  - reflexivity.
Qed.

Lemma shape_channel (a : ndarray R) (n0 n1 b c : Z) (rest : list Z) :
  shape a = n0 :: n1 :: rest -> shape (channel a b c) = rest.
Proof.
  intros Ha. unfold channel. rewrite Ha. cbn [skipn gather shape].
  unfold channel_views. cbn [view_shape]. apply view_shape_full.
Qed.

Lemma item_channel (a : ndarray R) (n0 n1 b c : Z) (rest x : list Z) :
  shape a = n0 :: n1 :: rest -> List.length x = List.length rest ->
  item (channel a b c) x = item a (b :: c :: x).
Proof.
  intros Ha Hx. unfold channel. rewrite Ha. cbn [skipn gather item].
  unfold channel_views. cbn [view_index]. now rewrite view_index_full.
Qed.

Lemma shape_convolve (mode : string) (in1 in2 : ndarray R) :
  shape (convolve mode in1 in2)
  = if String.eqb mode "valid" then valid_sizes (shape in1) (shape in2)
    else full_sizes (shape in1) (shape in2).
Proof. unfold convolve. destruct (String.eqb mode "valid"); reflexivity. Qed.

Lemma item_convolve (mode : string) (in1 in2 : ndarray R) (x : list Z) :
  item (convolve mode in1 in2) x
  = sum_box (shape in2)
      (fun m => rmul (conv_read mode (shape in1) (shape in2) (item in1) x m)
                     (item in2 m)).
Proof.
  unfold convolve, conv_read. destruct (String.eqb mode "valid").
  - reflexivity.
  - cbn [convolve_full item]. apply sum_box_ext. intros m _.
    destruct (in_box (shape in1) (vsub x m)); ring.
Qed.

Lemma conv_read_ext (mode : string) (N D x m : list Z) (p q : list Z -> R) :
  (forall j, List.length j = List.length x -> p j = q j) ->
  List.length m = List.length x -> List.length D = List.length x ->
  conv_read mode N D p x m = conv_read mode N D q x m.
Proof.
  intros E Hm HD. unfold conv_read.
  destruct (String.eqb mode "valid").
  - apply E. rewrite vsub_length; rewrite vadd_length;
      rewrite ?length_map; lia.
  - destruct (in_box N (vsub x m)); [| reflexivity].
    apply E. rewrite vsub_length; lia.
Qed.

Lemma in_view_unit_cons (n i : Z) (vs : list axis_view) (r : list Z) :
  0 <= i < n -> in_view (Strided 0 1 n :: vs) (i :: r) = in_view vs r.
Proof.
  intros Hi. cbn [in_view]. rewrite Z.sub_0_r, Z.mod_1_r, Z.div_1_r.
  destruct (Z.leb_spec 0 i), (Z.ltb_spec i n); try lia. reflexivity.
Qed.

Lemma view_inverse_unit_cons (n i : Z) (vs : list axis_view) (r : list Z) :
  view_inverse (Strided 0 1 n :: vs) (i :: r) = i :: view_inverse vs r.
Proof. cbn [view_inverse]. now rewrite Z.sub_0_r, Z.div_1_r. Qed.

Lemma view_index_unit_cons (n i : Z) (vs : list axis_view) (r : list Z) :
  view_index (Strided 0 1 n :: vs) (i :: r) = i :: view_index vs r.
Proof. cbn [view_index]. f_equal. lia. Qed.

Lemma step_views_valid (K dil : list Z) :
  Forall (fun k => 1 <= k) K -> Forall (fun d => 1 <= d) dil ->
  List.length K = List.length dil ->
  Forall2 valid_view (step_views K dil) (dilated K dil).
Proof.
  intros HK Hd Hlen.
  apply (axis_views_valid (map slice_step dil)).
  - apply Forall_pos_nonneg, dilated_pos; assumption.
  - now apply axis_views_steps.
Qed.

(** An element of the dilated kernel. *)
Lemma item_dilate_kernel (F c1 f c : Z) (K dil m : list Z) (kern : ndarray R) :
  0 <= f < F -> 0 <= c < c1 ->
  item (dilate_kernel [F; c1] K dil kern) (f :: c :: m)
  = if in_view (step_views K dil) m
    then item kern (f :: c :: view_inverse (step_views K dil) m)
    else rzero.
Proof.
  intros Hf Hc. unfold dilate_kernel, dilation_views.
  cbn [overwrite item full_views map app zeros_array].
  fold (step_views K dil).
  rewrite !in_view_unit_cons, !view_inverse_unit_cons by assumption.
  reflexivity.
Qed.

(** One pair of channels: the sum over the dilated kernel is a sum over the
    kernel. *)
Lemma item_convolve_channels (mode : string) (img kern : ndarray R)
    (B C F c1 b ch f c : Z) (N K dil x : list Z) :
  shape img = B :: C :: N -> shape kern = F :: c1 :: K ->
  0 <= f < F -> 0 <= c < c1 ->
  List.length K = List.length N -> List.length K = List.length dil ->
  Forall (fun k => 1 <= k) K -> Forall (fun d => 1 <= d) dil ->
  List.length x = List.length N ->
  item (convolve mode (channel img b ch)
          (channel (dilate_kernel [F; c1] K dil kern) f c)) x
  = sum_box K (fun k =>
      rmul (conv_read mode N (dilated K dil)
              (fun p => item img (b :: ch :: p)) x
              (view_index (step_views K dil) k))
           (item kern (f :: c :: k))).
Proof.
  intros Hi Hk Hf Hc HKN HKd HK1 Hd1 Hx.
  assert (Hdk : shape (dilate_kernel [F; c1] K dil kern)
                = F :: c1 :: dilated K dil) by reflexivity.
  rewrite item_convolve.
  rewrite (shape_channel _ _ _ _ _ _ Hdk), (shape_channel _ _ _ _ _ _ Hi).
  pose proof (step_views_valid K dil HK1 Hd1 HKd) as Hvalid.
  assert (Hvs : view_shape (step_views K dil) = K)
    by (now apply view_shape_zip_strided).
  rewrite <- Hvs at 2.
  rewrite <- (sum_box_view (step_views K dil) (dilated K dil)
                (fun m k => rmul (conv_read mode N (dilated K dil)
                                    (fun p => item img (b :: ch :: p)) x m)
                                 (item kern (f :: c :: k))) Hvalid).
  apply sum_box_ext. intros m Hm.
  rewrite (item_channel _ _ _ _ _ _ m Hdk)
    by (now apply in_box_length).
  rewrite item_dilate_kernel by assumption.
  assert (HmN : List.length m = List.length N).
  { apply in_box_length in Hm. rewrite dilated_length in Hm by exact HKd. lia. }
  rewrite (conv_read_ext mode N (dilated K dil) x m
             (item (channel img b ch)) (fun p => item img (b :: ch :: p))).
  - destruct (in_view (step_views K dil) m); ring.
  - intros j Hj. apply (item_channel _ _ _ _ _ _ j Hi). lia.
  - lia.
  - rewrite dilated_length by exact HKd. lia.
Qed.

Lemma stored_border_mode_str (cd : Z) (mode : string) :
  mode = "valid"%string \/ mode = "full"%string ->
  stored_border_mode cd (BStr mode).
Proof. intros [-> | ->]; simpl; auto. Qed.

Lemma conv_sizes_nonneg (mode : string) (N D : list Z) :
  Forall (fun n => 1 <= n) N -> Forall (fun n => 1 <= n) D ->
  (mode = "valid"%string -> Forall (fun n => 1 <= n) (valid_sizes N D)) ->
  Forall (fun n => 1 <= n) (conv_sizes mode N D).
Proof.
  intros HN HD Hfit. unfold conv_sizes.
  destruct (String.eqb_spec mode "valid") as [E | _]; [now apply Hfit |].
  clear Hfit. revert D HD. induction HN as [| n N Hn _ IH]; intros D HD.
  - constructor.
  - destruct HD as [| d D Hd HD]; [constructor |].
    unfold full_sizes, zip_with. cbn [combine map fst snd].
    constructor; [lia |]. now apply IH.
Qed.

(** [conv] with one kernel for all positions. *)
Lemma conv_shared_spec (self : ConvOp) (img kern : ndarray R) (mode : string)
    (dil : list Z) (direction : string) (B c1 G oco : Z) (N K : list Z) :
  convdim self = 2 \/ convdim self = 3 ->
  mode = "valid"%string \/ mode = "full"%string ->
  len dil = convdim self -> len K = convdim self -> len N = convdim self ->
  shape img = B :: G * c1 :: N -> shape kern = G * oco :: c1 :: K ->
  Forall (fun n => 1 <= n) N ->
  Forall (fun k => 1 <= k) K -> Forall (fun d => 1 <= d) dil ->
  num_groups self = G -> 1 <= G -> 0 <= B -> 0 <= c1 -> 0 <= oco ->
  (mode = "valid"%string ->
   Forall (fun n => 1 <= n) (valid_sizes N (dilated K dil))) ->
  exists Y,
    conv self img kern mode (DilTuple dil) G false direction = Ok Y
    /\ shape Y = B :: G * oco :: conv_sizes mode N (dilated K dil)
    /\ forall b g n x,
         0 <= b < B -> 0 <= g < G -> 0 <= n < oco ->
         in_box (conv_sizes mode N (dilated K dil)) x = true ->
         item Y (b :: (g * oco + n) :: x)
         = sum_range c1 (fun c =>
             sum_box K (fun k =>
               rmul (conv_read mode N (dilated K dil)
                       (fun p => item img (b :: (g * c1 + c) :: p)) x
                       (view_index (step_views K dil) k))
                    (item kern ((g * oco + n) :: c :: k)))).
Proof.
  intros Hcd Hmode Hdil HK HN Hi Hk HN1 HK1 Hd1 HG HG1 HB Hc1 Hoco Hfit.
  unfold len in *.
  assert (HD1 : Forall (fun n => 1 <= n) (dilated K dil))
    by (now apply dilated_pos).
  assert (HDlen : List.length (dilated K dil) = List.length K)
    by (apply dilated_length; lia).
  pose proof (conv_sizes_nonneg mode N (dilated K dil) HN1 HD1 Hfit) as Hrest.
  assert (Hsizes : conv_out_sizes N (dilated K dil) (BStr mode)
                     (repeat 1 (Z.to_nat (convdim self)))
                   = conv_sizes mode N (dilated K dil)).
  { unfold conv_sizes. destruct Hmode as [-> | ->].
    - apply conv_out_sizes_valid. lia.
    - apply conv_out_sizes_full. lia. }
  destruct (conv_spec self img kern mode dil false direction
              B (G * c1) (G * oco) c1 G oco N [] K
              (conv_sizes mode N (dilated K dil))
              (fun b g n c x =>
                 item (convolve mode (channel img b (g * c1 + c))
                         (channel (dilate_kernel [G * oco; c1] K dil kern)
                            (g * oco + n) c)) x))
    as (Y & EY & SY & IY); try assumption; try reflexivity;
    try (unfold len; lia); try discriminate;
    try (now apply Forall_pos_nonneg); try constructor.
  - cbn [andb]. rewrite Hi, Hk.
    change (G * oco :: c1 :: K) with (G * oco :: [c1] ++ K).
    rewrite get_conv_output_shape_ok;
      try (rewrite ?repeat_length; lia);
      [| apply stored_border_mode_str; exact Hmode
       | apply Forall_forall; intros s Hs; apply repeat_spec in Hs; lia].
    cbn [bind]. rewrite known_shape_some, Hsizes. reflexivity.
  - intros b g n c Hb Hg Hn Hc. eexists. split; [| split].
    + assert (E : (if convdim self =? 2
                   then convolve2d (channel img b (g * c1 + c))
                          (channel (dilate_kernel [G * oco; c1] K dil kern)
                             (g * oco + n) c) mode
                   else scipy_convolve (channel img b (g * c1 + c))
                          (channel (dilate_kernel [G * oco; c1] K dil kern)
                             (g * oco + n) c) mode)
                  = Ok (convolve mode (channel img b (g * c1 + c))
                          (channel (dilate_kernel [G * oco; c1] K dil kern)
                             (g * oco + n) c))).
      { assert (Hs1 : shape (channel img b (g * c1 + c)) = N)
          by (eapply shape_channel; eauto).
        assert (Hs2 : shape (channel (dilate_kernel [G * oco; c1] K dil kern)
                               (g * oco + n) c) = dilated K dil)
          by (eapply shape_channel; reflexivity).
        assert (Esc : scipy_convolve (channel img b (g * c1 + c))
                        (channel (dilate_kernel [G * oco; c1] K dil kern)
                           (g * oco + n) c) mode
                      = Ok (convolve mode (channel img b (g * c1 + c))
                              (channel (dilate_kernel [G * oco; c1] K dil kern)
                                 (g * oco + n) c))).
        { apply scipy_convolve_ok; rewrite ?Hs1, ?Hs2; try assumption; lia. }
        destruct (Z.eqb_spec (convdim self) 2) as [E2 | _]; [| exact Esc].
        unfold convolve2d, ndim, len. rewrite Hs1, Hs2, HDlen.
        replace (Z.of_nat (List.length N)) with 2 by lia.
        replace (Z.of_nat (List.length K)) with 2 by lia.
        exact Esc. }
      exact E.
    + rewrite shape_convolve.
      erewrite shape_channel by eauto.
      erewrite shape_channel by reflexivity. reflexivity.
    + reflexivity.
  - exists Y. split; [exact EY |]. split; [exact SY |].
    intros b g n x Hb Hg Hn Hx. rewrite IY by assumption.
    apply sum_range_ext. intros c Hc.
    apply (item_convolve_channels mode img kern B (G * c1) (G * oco) c1);
      try assumption; try lia; try nia.
    apply in_box_length in Hx. rewrite Hx. unfold conv_sizes.
    destruct (String.eqb mode "valid");
      [unfold valid_sizes | unfold full_sizes]; rewrite zip_with_length; lia.
Qed.
End ConvShared.

(** ** The blocks of the three [perform] methods *)

Lemma py_nth_skip2 {A : Type} (a b : A) (l : list A) (i : nat) :
  py_nth (a :: b :: l) (i + 2) = py_nth l i.
Proof. unfold py_nth. now rewrite Nat.add_comm. Qed.

Lemma forallb_no_ellipsis_map {A : Type} (f : A -> index) (l : list A) :
  (forall x, is_ellipsis (f x) = false) ->
  forallb (fun ix => negb (is_ellipsis ix)) (map f l) = true.
Proof.
  intros E. induction l as [| x l IH]; [reflexivity |].
  simpl. now rewrite E, IH.
Qed.

Lemma forallb_no_ellipsis_repeat (ix : index) (n : nat) :
  is_ellipsis ix = false ->
  forallb (fun ix => negb (is_ellipsis ix)) (repeat ix n) = true.
Proof.
  intros E. induction n as [| n IH]; [reflexivity |].
  simpl. now rewrite E, IH.
Qed.

Lemma padded_length (N : list Z) (pads : list (Z * Z)) :
  List.length N = List.length pads -> List.length (padded N pads) = List.length N.
Proof. apply zip_with_length. Qed.

(** The views of [new_img[:, :, pl0:n0 + pl0, ...]] on the padded axes. *)
Lemma axis_views_regions (N : list Z) (pads : list (Z * Z)) :
  Forall (fun n => 0 <= n) N ->
  Forall (fun p => 0 <= fst p /\ 0 <= snd p) pads ->
  List.length N = List.length pads ->
  axis_views (zip_with (fun n p => slice_range (fst p) (n + fst p)) N pads)
    (padded N pads)
  = Ok (zip_with (fun n p => Strided (fst p) 1 n) N pads).
Proof.
  intros HN. revert pads. induction HN as [| n N Hn _ IH]; intros pads Hp Hlen.
  - destruct pads; [reflexivity | discriminate].
  - destruct Hp as [| p pads [Hp1 Hp2] Hp]; [discriminate |].
    unfold padded, zip_with. cbn [combine map fst snd axis_views].
    change (index_view (slice_range (fst p) (n + fst p)) (n + fst p + snd p))
      with (slice_view (Some (fst p)) (Some (n + fst p)) None
              (n + fst p + snd p)).
    rewrite slice_view_range by lia.
    replace (n + fst p - fst p) with n by lia. cbn [bind].
    fold (zip_with (fun n p => slice_range (fst p) (n + fst p)) N pads).
    fold (zip_with (fun n p => n + fst p + snd p) N pads).
    fold (padded N pads).
    rewrite IH by (simpl in Hlen; auto; lia). reflexivity.
Qed.

Lemma view_shape_zip_count {A : Type} (N : list Z) (l : list A)
    (st sp : A -> Z) :
  List.length N = List.length l ->
  view_shape (zip_with (fun n p => Strided (st p) (sp p) n) N l) = N.
Proof.
  revert l. induction N as [| n N IH]; intros l Hlen; [reflexivity |].
  destruct l as [| p l]; [discriminate |].
  unfold zip_with. cbn [combine map fst snd view_shape]. f_equal.
  apply IH. simpl in Hlen. lia.
Qed.

Lemma padded_nonneg (N : list Z) (pads : list (Z * Z)) :
  Forall (fun n => 0 <= n) N ->
  Forall (fun p => 0 <= fst p /\ 0 <= snd p) pads ->
  Forall (fun n => 0 <= n) (padded N pads).
Proof.
  intros HN. revert pads. induction HN as [| n N Hn _ IH]; intros pads Hp.
  - constructor.
  - destruct Hp as [| p pads [Hp1 Hp2] Hp]; [constructor |].
    unfold padded, zip_with. cbn [combine map fst snd].
    constructor; [lia |]. now apply IH.
Qed.

(** The views of [a[..., ::s0, ::s1]]. *)
Lemma axis_views_strides (ss X : list Z) :
  Forall (fun s => 1 <= s) ss -> Forall (fun x => 1 <= x) X ->
  List.length ss = List.length X ->
  axis_views (map slice_step ss) X
  = Ok (zip_with (fun s o => Strided 0 s o) ss (strided_sizes X ss)).
Proof.
  intros Hs. revert X. induction Hs as [| s ss Hs1 _ IH]; intros X HX Hlen.
  - destruct X; [reflexivity | discriminate].
  - destruct HX as [| x X Hx HX]; [discriminate |].
    unfold strided_sizes, zip_with. cbn [combine map fst snd axis_views].
    change (index_view (slice_step s) x)
      with (slice_view None None (Some s) x).
    rewrite slice_view_step by lia.
    destruct (Z.ltb_spec 0 x); [| lia]. cbn [bind].
    fold (zip_with (fun x s => (x - 1) / s + 1) X ss).
    fold (strided_sizes X ss).
    fold (zip_with (fun s o => Strided 0 s o) ss (strided_sizes X ss)).
    rewrite IH by (simpl in Hlen; auto; lia). reflexivity.
Qed.

Lemma strided_sizes_length (X ss : list Z) :
  List.length X = List.length ss ->
  List.length (strided_sizes X ss) = List.length X.
Proof. apply zip_with_length. Qed.

Lemma view_shape_zip_strides (ss O : list Z) :
  List.length ss = List.length O ->
  view_shape (zip_with (fun s o => Strided 0 s o) ss O) = O.
Proof.
  revert O. induction ss as [| s ss IH]; intros O Hlen.
  - destruct O; [reflexivity | discriminate].
  - destruct O as [| o O]; [discriminate |].
    unfold zip_with. cbn [combine map fst snd view_shape]. f_equal.
    apply IH. simpl in Hlen. lia.
Qed.

Lemma view_shape_sub (lead ss O : list Z) :
  List.length ss = List.length O ->
  view_shape (sub_views lead ss O) = lead ++ O.
Proof.
  intros Hlen. unfold sub_views.
  now rewrite view_shape_app, view_shape_full, view_shape_zip_strides.
Qed.

Lemma strided_sizes_pos (X ss : list Z) :
  Forall (fun x => 1 <= x) X -> Forall (fun s => 1 <= s) ss ->
  Forall (fun o => 1 <= o) (strided_sizes X ss).
Proof.
  intros HX. revert ss. induction HX as [| x X Hx _ IH]; intros ss Hs.
  - constructor.
  - destruct Hs as [| s ss Hs1 Hs]; [constructor |].
    unfold strided_sizes, zip_with. cbn [combine map fst snd].
    constructor; [| now apply IH].
    pose proof (Z.div_pos (x - 1) s). lia.
Qed.

(** The views of [a[..., ::-1, ::-1]]. *)
Lemma axis_views_flips (K : list Z) :
  Forall (fun k => 0 <= k) K ->
  axis_views (repeat (slice_step (-1)) (List.length K)) K
  = Ok (map (fun k => Strided (k - 1) (-1) k) K).
Proof.
  induction 1 as [| k K Hk _ IH]; [reflexivity |].
  cbn [List.length repeat axis_views map].
  change (index_view (slice_step (-1)) k)
    with (slice_view None None (Some (-1)) k).
  rewrite slice_view_flip by exact Hk. cbn [bind]. now rewrite IH.
Qed.

Lemma view_shape_flips (K : list Z) :
  view_shape (map (fun k => Strided (k - 1) (-1) k) K) = K.
Proof.
  induction K as [| k K IH]; [reflexivity |].
  cbn [map view_shape]. now rewrite IH.
Qed.

Lemma view_shape_flip (lead K : list Z) :
  view_shape (flip_views lead K) = lead ++ K.
Proof.
  unfold flip_views. now rewrite view_shape_app, view_shape_full, view_shape_flips.
Qed.

Lemma index_views_slices (lead tail : list Z) (ixs : list index)
    (vs : list axis_view) :
  Forall (fun n => 0 <= n) lead ->
  forallb (fun ix => negb (is_ellipsis ix)) ixs = true ->
  List.length ixs = List.length tail ->
  axis_views ixs tail = Ok vs ->
  index_views (lead ++ tail) (repeat slice_all (List.length lead) ++ ixs)
  = Ok (full_views lead ++ vs).
Proof.
  intros Hlead Hne Hlen Hvs. rewrite index_views_full.
  - apply axis_views_app; [now apply axis_views_all | exact Hvs].
  - rewrite forallb_app, Hne, andb_true_r.
    now apply forallb_no_ellipsis_repeat.
  - rewrite !length_app, repeat_length. lia.
Qed.

Lemma none_above_one (l : list Z) :
  existsb (fun b => b) (map (fun s => s >? 1) l) = false ->
  Forall (fun s => s <= 1) l.
Proof.
  induction l as [| s l IH]; intros E; [constructor |].
  cbn [map existsb] in E. apply orb_false_iff in E as [E1 E2].
  constructor; [| now apply IH].
  rewrite Z.gtb_ltb in E1. now apply Z.ltb_ge in E1.
Qed.

Lemma padded_pos (N : list Z) (pads : list (Z * Z)) :
  Forall (fun n => 1 <= n) N ->
  Forall (fun p => 0 <= fst p /\ 0 <= snd p) pads ->
  Forall (fun n => 1 <= n) (padded N pads).
Proof.
  intros HN. revert pads. induction HN as [| n N Hn _ IH]; intros pads Hp.
  - constructor.
  - destruct Hp as [| p pads [Hp1 Hp2] Hp]; [constructor |].
    unfold padded, zip_with. cbn [combine map fst snd].
    constructor; [lia |]. now apply IH.
Qed.

Section Blocks.
Context {R : Type} `{Scalar R}.

(** The block that pads the image with zeros. *)
Lemma zero_pad_ok (self : ConvOp) (img : ndarray R) (B C : Z) (N : list Z)
    (pads : list (Z * Z)) :
  shape img = B :: C :: N ->
  len N = convdim self -> len pads = convdim self ->
  0 <= B -> 0 <= C -> Forall (fun n => 0 <= n) N ->
  Forall (fun p => 0 <= fst p /\ 0 <= snd p) pads ->
  zero_pad self img pads
  = Ok (scatter (B :: C :: padded N pads) (pad_views B C N pads) img).
Proof.
  intros Hi HN Hp HB HC HN0 Hp0. unfold len in *.
  assert (Hlen : List.length N = List.length pads) by lia.
  unfold zero_pad. rewrite Hi. cbn [py_nth nth_error bind].
  rewrite <- HN.
  rewrite (mapM_range_ok _
             (fun i => (fun n p => n + fst p + snd p)
                         (nth i N 0) (nth i pads (0, 0)))).
  2:{ intros i Hi'. rewrite py_nth_skip2, (py_nth_ok _ _ 0) by exact Hi'.
      cbn [bind]. rewrite (py_nth_ok _ _ (0, 0)) by lia. reflexivity. }
  rewrite (map_seq_zip_with (fun n p => n + fst p + snd p) N pads 0 (0, 0))
    by exact Hlen.
  fold (padded N pads). cbn [bind].
  rewrite np_zeros_ok
    by (repeat constructor; try assumption; now apply padded_nonneg).
  cbn [bind].
  rewrite (mapM_range_ok _
             (fun i => (fun n p => slice_range (fst p) (n + fst p))
                         (nth i N 0) (nth i pads (0, 0)))).
  2:{ intros i Hi'. rewrite py_nth_skip2, (py_nth_ok _ _ 0) by exact Hi'.
      cbn [bind]. rewrite (py_nth_ok _ _ (0, 0)) by lia. reflexivity. }
  rewrite (map_seq_zip_with (fun n p => slice_range (fst p) (n + fst p))
             N pads 0 (0, 0)) by exact Hlen.
  cbn [bind]. unfold setitem. cbn [zeros_array shape].
  rewrite index_views_full.
  2:{ cbn [forallb is_ellipsis slice_all negb andb].
      apply forallb_no_ellipsis_map. intros [x p]. reflexivity. }
  2:{ cbn [List.length]. rewrite padded_length, zip_with_length by exact Hlen.
      reflexivity. }
  cbn [axis_views].
  change (index_view slice_all B) with (slice_view None None None B).
  change (index_view slice_all C) with (slice_view None None None C).
  rewrite !slice_view_all by assumption. cbn [bind].
  rewrite axis_views_regions by assumption. cbn [bind].
  fold (pad_views B C N pads).
  assert (Hvs : view_shape (pad_views B C N pads) = B :: C :: N).
  { unfold pad_views. cbn [view_shape]. do 2 f_equal.
    now apply (view_shape_zip_count N pads fst (fun _ => 1)). }
  rewrite Hvs, Hi, shape_eqb_refl. reflexivity.
Qed.

Lemma subsample_slices_ok (self : ConvOp) :
  len (subsample self) = convdim self ->
  subsample_slices self = Ok (map slice_step (subsample self)).
Proof.
  intros Hss. unfold subsample_slices. rewrite <- Hss. unfold len.
  rewrite (mapM_range_ok _ (fun i => slice_step (nth i (subsample self) 0))).
  - now rewrite map_seq_nth.
  - intros i Hi. now rewrite (py_nth_ok _ _ 0) by exact Hi.
Qed.

Lemma any_subsample_ok (self : ConvOp) :
  len (subsample self) = convdim self ->
  exists b, any_subsample self = Ok b
            /\ (b = false -> Forall (fun s => s <= 1) (subsample self)).
Proof.
  intros Hss. unfold any_subsample. rewrite <- Hss. unfold len.
  rewrite (mapM_range_ok _ (fun i => nth i (subsample self) 0 >? 1)).
  2:{ intros i Hi. now rewrite (py_nth_ok _ _ 0) by exact Hi. }
  rewrite (map_seq_nth (fun s => s >? 1)). cbn [bind].
  eexists. split; [reflexivity |]. apply none_above_one.
Qed.

Lemma any_dilation_ok (self : ConvOp) :
  len (filter_dilation self) = convdim self ->
  exists b, any_dilation self = Ok b
            /\ (b = false -> Forall (fun s => s <= 1) (filter_dilation self)).
Proof.
  intros Hss. unfold any_dilation. rewrite <- Hss. unfold len.
  rewrite (mapM_range_ok _ (fun i => nth i (filter_dilation self) 0 >? 1)).
  2:{ intros i Hi. now rewrite (py_nth_ok _ _ 0) by exact Hi. }
  rewrite (map_seq_nth (fun s => s >? 1)). cbn [bind].
  eexists. split; [reflexivity |]. apply none_above_one.
Qed.

(** [a[:, :, ::s0, ::s1]] *)
Lemma getitem_strides (a : ndarray R) (lead X ss : list Z) :
  shape a = lead ++ X ->
  Forall (fun n => 0 <= n) lead ->
  Forall (fun s => 1 <= s) ss -> Forall (fun x => 1 <= x) X ->
  List.length ss = List.length X ->
  getitem a (repeat slice_all (List.length lead) ++ map slice_step ss)
  = Ok (gather (sub_views lead ss (strided_sizes X ss)) a).
Proof.
  intros Ha Hlead Hs HX Hlen. unfold getitem. rewrite Ha.
  rewrite (index_views_slices lead X (map slice_step ss)
             (zip_with (fun s o => Strided 0 s o) ss (strided_sizes X ss)));
    try assumption.
  - reflexivity.
  - now apply forallb_no_ellipsis_map.
  - now rewrite length_map.
  - now apply axis_views_strides.
Qed.

(** [z = np.zeros(lead ++ X); z[:, :, ::s0, ::s1] = v] *)
Lemma setitem_strides (v : ndarray R) (lead X ss : list Z) :
  shape v = lead ++ strided_sizes X ss ->
  Forall (fun n => 0 <= n) lead ->
  Forall (fun s => 1 <= s) ss -> Forall (fun x => 1 <= x) X ->
  List.length ss = List.length X ->
  setitem (zeros_array (lead ++ X))
    (repeat slice_all (List.length lead) ++ map slice_step ss) v
  = Ok (scatter (lead ++ X) (sub_views lead ss (strided_sizes X ss)) v).
Proof.
  intros Hv Hlead Hs HX Hlen. unfold setitem. cbn [zeros_array shape].
  rewrite (index_views_slices lead X (map slice_step ss)
             (zip_with (fun s o => Strided 0 s o) ss (strided_sizes X ss)));
    try assumption.
  - cbn [bind]. fold (sub_views lead ss (strided_sizes X ss)).
    rewrite view_shape_sub, Hv, shape_eqb_refl; [reflexivity |].
    rewrite strided_sizes_length; lia.
  - now apply forallb_no_ellipsis_map.
  - now rewrite length_map.
  - now apply axis_views_strides.
Qed.

(** [a[..., ::-1, ::-1]] *)
Lemma getitem_flip (a : ndarray R) (lead K : list Z) :
  shape a = lead ++ K ->
  Forall (fun n => 0 <= n) lead -> Forall (fun k => 0 <= k) K ->
  getitem a (repeat slice_all (List.length lead)
               ++ repeat (slice_step (-1)) (List.length K))
  = Ok (gather (flip_views lead K) a).
Proof.
  intros Ha Hlead HK. unfold getitem. rewrite Ha.
  rewrite (index_views_slices lead K _
             (map (fun k => Strided (k - 1) (-1) k) K)); try assumption.
  - reflexivity.
  - now apply forallb_no_ellipsis_repeat.
  - now rewrite repeat_length.
  - now apply axis_views_flips.
Qed.
End Blocks.

(** ** One axis *)

Lemma div_minus_one (a : Z) : a / (-1) = - a.
Proof. symmetry. apply (Z.div_unique_exact a (-1) (- a)); lia. Qed.

Lemma mod_minus_one (a : Z) : a mod (-1) = 0.
Proof.
  pose proof (Z.div_mod a (-1) ltac:(lia)) as E.
  rewrite div_minus_one in E. lia.
Qed.

(** The position that output position [o] reads through kernel element [k]
    stays inside of the padded image. *)
Lemma tap_in_range (ff : bool) (s d n k np o ki : Z) :
  1 <= s -> 1 <= d -> 1 <= k -> 1 <= np - dilated_size k d + 1 ->
  0 <= o < (np - dilated_size k d + 1 - 1) / s + 1 -> 0 <= ki < k ->
  0 <= s * o + d * (if ff then k - 1 - ki else ki) < np.
Proof.
  intros Hs Hd Hk Hfit Ho Hki. unfold dilated_size in *.
  assert (E : s * ((np - ((k - 1) * d + 1) + 1 - 1) / s)
              <= np - ((k - 1) * d + 1) + 1 - 1)
    by (apply Z.mul_div_le; lia).
  destruct ff; nia.
Qed.

Ltac list_lengths :=
  repeat (cbn [List.length] in *;
          match goal with
          | H : List.length ?l = S _ |- _ =>
              is_var l; destruct l; [discriminate H |];
              cbn [List.length] in H; apply Nat.succ_inj in H
          | H : List.length ?l = O |- _ =>
              is_var l; destruct l; [clear H | discriminate H]
          | H : S _ = List.length ?l |- _ => symmetry in H
          | H : O = List.length ?l |- _ => symmetry in H
          | H : S _ = S _ |- _ => apply Nat.succ_inj in H
          | H : O = O |- _ => clear H
          end).

Lemma cons_eq {A : Type} (a b : A) (l l' : list A) :
  a = b -> l = l' -> a :: l = b :: l'.
Proof. congruence. Qed.

Ltac forall_facts :=
  repeat match goal with
  | H : Forall _ (_ :: _) |- _ =>
      let H1 := fresh "Hx" in
      apply Forall_cons_iff in H; destruct H as [H1 H]; cbv beta in H1
  | H : Forall _ [] |- _ => clear H
  end.

Ltac box_facts :=
  repeat match goal with
  | H : in_box (_ :: _) (_ :: _) = true |- _ =>
      let H1 := fresh "Hb" in
      rewrite in_box_cons in H; apply andb_true_iff in H as [H1 H];
      apply andb_true_iff in H1 as [? ?]
  | H : in_box [] [] = true |- _ => clear H
  | H : (_ <=? _) = true |- _ => apply Z.leb_le in H
  | H : (_ <? _) = true |- _ => apply Z.ltb_lt in H
  end.

Lemma in_box_intro (n : Z) (shp : list Z) (i : Z) (j : list Z) :
  0 <= i < n -> in_box shp j = true -> in_box (n :: shp) (i :: j) = true.
Proof.
  intros Hi Hj. rewrite in_box_cons, Hj.
  destruct (Z.leb_spec 0 i), (Z.ltb_spec i n); try lia; reflexivity.
Qed.

Lemma flip_member (k i : Z) :
  0 <= i < k ->
  ((i - (k - 1)) mod (-1) =? 0) && (0 <=? (i - (k - 1)) / (-1))
  && ((i - (k - 1)) / (-1) <? k) = true.
Proof.
  intros Hi. rewrite mod_minus_one, div_minus_one.
  destruct (Z.leb_spec 0 (- (i - (k - 1)))), (Z.ltb_spec (- (i - (k - 1))) k);
    try lia; reflexivity.
Qed.

Lemma in_view_flips (K k : list Z) :
  in_box K k = true -> in_view (map (fun n => Strided (n - 1) (-1) n) K) k = true.
Proof.
  revert k. induction K as [| n K IH]; intros k Hk.
  - destruct k; [reflexivity | discriminate].
  - destruct k as [| ki k]; [discriminate |].
    rewrite in_box_cons in Hk. apply andb_true_iff in Hk as [H1 H2].
    apply andb_true_iff in H1 as [Ha Hb].
    apply Z.leb_le in Ha. apply Z.ltb_lt in Hb.
    cbn [map in_view]. rewrite flip_member by lia. now apply IH.
Qed.

(** What the forward operator reads, axis by axis. *)
Lemma read_tap (ff : bool) (ss dil K Np o k : list Z) :
  List.length K = 2%nat \/ List.length K = 3%nat ->
  List.length ss = List.length K -> List.length dil = List.length K ->
  List.length Np = List.length K ->
  Forall (fun s => 1 <= s) ss -> Forall (fun d => 1 <= d) dil ->
  Forall (fun n => 1 <= n) K ->
  Forall (fun x => 1 <= x) (valid_sizes Np (dilated K dil)) ->
  in_box (strided_sizes (valid_sizes Np (dilated K dil)) ss) o = true ->
  in_box K k = true ->
  vsub (vadd (view_index
                (zip_with (fun s o => Strided 0 s o) ss
                   (strided_sizes (valid_sizes Np (dilated K dil)) ss)) o)
          (map (fun n => n - 1) (dilated K dil)))
    (view_index (step_views K dil)
       (if ff then k
        else view_inverse (map (fun n => Strided (n - 1) (-1) n) K) k))
  = tap ff ss dil K o k
  /\ in_box Np (tap ff ss dil K o k) = true.
Proof.
  intros Hcd Hss Hdil HNp Hs1 Hd1 HK1 Hfit Ho Hk.
  pose proof (in_box_length _ _ Ho) as Lo.
  pose proof (in_box_length _ _ Hk) as Lk.
  rewrite strided_sizes_length in Lo
    by (unfold valid_sizes; rewrite zip_with_length;
        rewrite ?dilated_length; lia).
  unfold valid_sizes in Lo. rewrite zip_with_length in Lo
    by (rewrite ?dilated_length; lia).
  destruct Hcd as [E | E]; rewrite E in *; list_lengths;
    unfold valid_sizes, strided_sizes, dilated, step_views, zip_with in *;
    cbn [combine map fst snd] in *; forall_facts; box_facts;
    (split;
     [ destruct ff;
       cbn [view_index view_inverse vsub vadd combine map fst snd tap];
       repeat (apply cons_eq;
               [rewrite ?div_minus_one; unfold dilated_size; ring |]);
       reflexivity
     | cbn [tap];
       repeat (apply in_box_intro; [apply tap_in_range; (assumption || lia) |]);
       reflexivity ]).
Qed.

(** What the gradient with respect to the weights reads, axis by axis. *)
Lemma weights_tap (ff : bool) (ss dil K Np o k : list Z) (n : nat) :
  List.length K = 2%nat \/ List.length K = 3%nat ->
  List.length ss = List.length K -> List.length dil = List.length K ->
  List.length Np = List.length K -> n = List.length K ->
  in_box (strided_sizes (valid_sizes Np (dilated K dil)) ss) o = true ->
  in_box K k = true ->
  vsub (vadd (view_index (step_views K dil)
                (if ff
                 then view_index (map (fun n => Strided (n - 1) (-1) n) K) k
                 else k))
          (map (fun n => n - 1)
             (dilated (valid_sizes Np (dilated K dil)) (repeat 1 n))))
    (view_index (step_views (valid_sizes Np (dilated K dil)) (repeat 1 n))
       (view_inverse
          (map (fun n => Strided (n - 1) (-1) n)
             (valid_sizes Np (dilated K dil)))
          (view_index
             (zip_with (fun s o => Strided 0 s o) ss
                (strided_sizes (valid_sizes Np (dilated K dil)) ss)) o)))
  = tap ff ss dil K o k.
Proof.
  intros Hcd Hss Hdil HNp Hn Ho Hk.
  pose proof (in_box_length _ _ Ho) as Lo.
  pose proof (in_box_length _ _ Hk) as Lk.
  rewrite strided_sizes_length in Lo
    by (unfold valid_sizes; rewrite zip_with_length;
        rewrite ?dilated_length; lia).
  unfold valid_sizes in Lo. rewrite zip_with_length in Lo
    by (rewrite ?dilated_length; lia).
  clear Ho Hk. subst n.
  destruct Hcd as [E | E]; rewrite E in *; list_lengths;
    unfold valid_sizes, strided_sizes, dilated, step_views, zip_with in *;
    cbn [combine map fst snd repeat] in *;
    destruct ff;
    cbn [view_index view_inverse vsub vadd combine map fst snd tap];
    repeat (apply cons_eq;
            [rewrite ?div_minus_one; unfold dilated_size; ring |]);
    reflexivity.
Qed.

(** A window of an axis. *)
Lemma in_view_shift (m X y : list Z) :
  List.length m = List.length X -> List.length y = List.length X ->
  in_view (shift_views m X) y = in_box X (vsub y m)
  /\ view_inverse (shift_views m X) y = vsub y m.
Proof.
  revert m y. induction X as [| x X IH]; intros m y Hm Hy.
  - destruct m; [| discriminate]. destruct y; [| discriminate].
    split; reflexivity.
  - destruct m as [| mi m]; [discriminate |].
    destruct y as [| yi y]; [discriminate |].
    destruct (IH m y ltac:(simpl in Hm; lia) ltac:(simpl in Hy; lia))
      as [I1 I2].
    unfold shift_views, zip_with, vsub in *.
    cbn [combine map fst snd in_view view_inverse].
    rewrite I1, I2, Z.mod_1_r, Z.div_1_r.
    split; [| reflexivity].
    change (map (fun p : Z * Z => fst p - snd p) (combine y m))
      with (vsub y m).
    change ((yi - mi) :: vsub y m) with (vsub (yi :: y) (mi :: m)) at 1.
    unfold vsub at 2. cbn [combine map fst snd].
    rewrite in_box_cons. cbn [Z.eqb andb]. reflexivity.
Qed.

Lemma full_of_valid_sizes (Np D : list Z) :
  List.length Np = List.length D ->
  full_sizes (valid_sizes Np D) D = Np.
Proof.
  revert D. induction Np as [| a Np IH]; intros D Hlen.
  - destruct D; [reflexivity | discriminate].
  - destruct D as [| d D]; [discriminate |].
    unfold full_sizes, valid_sizes, zip_with in *.
    cbn [combine map fst snd]. f_equal; [lia |].
    apply IH. simpl in Hlen. lia.
Qed.

(** The windows of the padded image that a kernel element reads. *)
Lemma shift_views_valid (ss dil K Np k : list Z) :
  List.length K = 2%nat \/ List.length K = 3%nat ->
  List.length dil = List.length K -> List.length Np = List.length K ->
  Forall (fun d => 1 <= d) dil -> Forall (fun n => 1 <= n) K ->
  Forall (fun x => 1 <= x) (valid_sizes Np (dilated K dil)) ->
  in_box K k = true ->
  Forall2 valid_view
    (shift_views (view_index (step_views K dil) k)
       (valid_sizes Np (dilated K dil))) Np.
Proof.
  intros Hcd Hdil HNp Hd1 HK1 Hfit Hk.
  pose proof (in_box_length _ _ Hk) as Lk.
  destruct Hcd as [E | E]; rewrite E in *; list_lengths;
    unfold shift_views, valid_sizes, dilated, step_views, zip_with in *;
    cbn [combine map fst snd view_index] in *; forall_facts; box_facts;
    repeat (constructor;
            [unfold valid_view, dilated_size in *;
             split; [lia |]; split; [lia |]; intros j Hj; nia |]);
    constructor.
Qed.

(** What the gradient with respect to the inputs reads, axis by axis. *)
Lemma inputs_tap (ff : bool) (ss dil K Np o k : list Z) :
  List.length K = 2%nat \/ List.length K = 3%nat ->
  List.length ss = List.length K -> List.length dil = List.length K ->
  List.length Np = List.length K ->
  in_box (strided_sizes (valid_sizes Np (dilated K dil)) ss) o = true ->
  in_box K k = true ->
  (fun y => if ff
            then view_inverse (map (fun n => Strided (n - 1) (-1) n) Np) y
            else y)
    (view_index
       (shift_views (view_index (step_views K dil) k)
          (valid_sizes Np (dilated K dil)))
       ((fun x => if ff
                  then view_inverse
                         (map (fun n => Strided (n - 1) (-1) n)
                            (valid_sizes Np (dilated K dil))) x
                  else x)
          (view_index
             (zip_with (fun s o => Strided 0 s o) ss
                (strided_sizes (valid_sizes Np (dilated K dil)) ss)) o)))
  = tap ff ss dil K o k.
Proof.
  intros Hcd Hss Hdil HNp Ho Hk.
  pose proof (in_box_length _ _ Ho) as Lo.
  pose proof (in_box_length _ _ Hk) as Lk.
  rewrite strided_sizes_length in Lo
    by (unfold valid_sizes; rewrite zip_with_length;
        rewrite ?dilated_length; lia).
  unfold valid_sizes in Lo. rewrite zip_with_length in Lo
    by (rewrite ?dilated_length; lia).
  clear Ho Hk. cbv beta.
  destruct Hcd as [E | E]; rewrite E in *; list_lengths;
    unfold shift_views, valid_sizes, strided_sizes, dilated, step_views,
      zip_with in *;
    cbn [combine map fst snd repeat] in *;
    destruct ff;
    cbn [view_index view_inverse vsub vadd combine map fst snd tap];
    repeat (apply cons_eq;
            [rewrite ?div_minus_one; unfold dilated_size; ring |]);
    reflexivity.
Qed.

(** ** The forward operator *)

Lemma pads_of_length (bm : border_mode_t) (D : list Z) :
  List.length (pads_of bm D) = List.length D.
Proof. unfold pads_of. now rewrite length_map, length_seq. Qed.

Lemma axis_pads_nonneg (m : axis_mode) (dk : Z) :
  resolved_axis_mode m = true -> 1 <= dk ->
  0 <= fst (axis_pads m dk) /\ 0 <= snd (axis_pads m dk).
Proof.
  intros Hm Hdk. unfold axis_pads, spec_pads.
  destruct m as [s | v | [| a [| b [| c t]]]]; simpl in Hm; try discriminate.
  - destruct (String.eqb s "half").
    + cbn [fst snd]. pose proof (Z.div_pos dk 2). lia.
    + destruct (String.eqb s "full"); [cbn [fst snd]; lia |].
      destruct (String.eqb s "valid"); cbn [fst snd]; lia.
  - cbn [fst snd]. apply Z.leb_le in Hm. lia.
  - apply andb_true_iff in Hm as [Ha Hb].
    apply Z.leb_le in Ha. apply Z.leb_le in Hb. cbn [fst snd]. lia.
Qed.

Lemma pads_of_nonneg (cd : Z) (bm : border_mode_t) (D : list Z) :
  stored_border_mode cd bm -> len D = cd ->
  Forall (fun d => 1 <= d) D ->
  Forall (fun p => 0 <= fst p /\ 0 <= snd p) (pads_of bm D).
Proof.
  intros Hbm HD HD1. unfold pads_of. apply Forall_forall. intros p Hp.
  apply in_map_iff in Hp as (i & <- & Hi). apply in_seq in Hi.
  apply axis_pads_nonneg.
  - apply (stored_border_mode_resolved cd bm i Hbm). unfold len in HD. lia.
  - rewrite Forall_forall in HD1. apply HD1, nth_In. lia.
Qed.

Lemma padded_no_pads (N : list Z) (pads : list (Z * Z)) :
  existsb (fun p => negb (pad_is_zero p)) pads = false ->
  List.length N = List.length pads ->
  padded N pads = N
  /\ zip_with (fun n p => Strided (fst p) 1 n) N pads = full_views N.
Proof.
  revert pads. induction N as [| n N IH]; intros pads E Hlen.
  - split; reflexivity.
  - destruct pads as [| [pl pr] pads]; [discriminate |].
    cbn [existsb] in E. apply orb_false_iff in E as [E1 E2].
    apply negb_false_iff in E1. unfold pad_is_zero in E1. cbn [fst snd] in E1.
    apply andb_true_iff in E1 as [El Er].
    apply Z.eqb_eq in El. apply Z.eqb_eq in Er. subst.
    destruct (IH pads E2 ltac:(simpl in Hlen; lia)) as [I1 I2].
    unfold padded, zip_with in *. cbn [combine map fst snd full_views].
    rewrite I1, I2. split; [f_equal; lia | reflexivity].
Qed.

Section Forward.
Context {R : Type} `{Scalar R}.

Add Ring scalar_ring_forward : scalar_ring.

Lemma item_scatter (shp : list Z) (vs : list axis_view) (v : ndarray R)
    (i : list Z) :
  item (scatter shp vs v) i
  = if in_view vs i then item v (view_inverse vs i) else rzero.
Proof. reflexivity. Qed.

(** The block of [perform] that pads the image. *)
Lemma pad_block_ok (self : ConvOp) (img : ndarray R) (mode : border_mode_t)
    (B C : Z) (N : list Z) (pads : list (Z * Z)) :
  shape img = B :: C :: N ->
  len N = convdim self -> len pads = convdim self ->
  0 <= B -> 0 <= C -> Forall (fun n => 0 <= n) N ->
  Forall (fun p => 0 <= fst p /\ 0 <= snd p) pads ->
  exists P mode',
    (if existsb (fun p => negb (pad_is_zero p)) pads
     then new_img <- zero_pad self img pads ;; Ok (BStr "valid", new_img)
     else Ok (mode, img)) = Ok (mode', P)
    /\ (if existsb (fun p => negb (pad_is_zero p)) pads
        then zero_pad self img pads else Ok img) = Ok P
    /\ shape P = B :: C :: padded N pads
    /\ (forall i, in_box (B :: C :: padded N pads) i = true ->
                  item P i = item (zero_padded B C N pads img) i)
    /\ mode' = (if existsb (fun p => negb (pad_is_zero p)) pads
                then BStr "valid" else mode).
Proof.
  intros Hi HN Hp HB HC HN0 Hp0.
  destruct (existsb (fun p => negb (pad_is_zero p)) pads) eqn:E.
  - rewrite (zero_pad_ok self img B C N pads) by assumption. cbn [bind].
    eexists. eexists. repeat split; reflexivity.
  - exists img, mode.
    destruct (padded_no_pads N pads E ltac:(unfold len in *; lia)) as [E1 E2].
    rewrite E1. repeat split; try reflexivity; try assumption.
    intros i Hbox. unfold zero_padded. rewrite item_scatter.
    unfold pad_views. rewrite E2.
    change (Strided 0 1 B :: Strided 0 1 C :: full_views N)
      with (full_views (B :: C :: N)).
    rewrite in_view_full, view_inverse_full by
        (try assumption; now apply in_box_length).
    reflexivity.
Qed.

(** The block that flips the kernel when [filter_flip] is not set. *)
Lemma flip_block_ok (cd : Z) (b : bool) (kern : ndarray R) (lead K : list Z) :
  shape kern = lead ++ K -> len K = cd ->
  Forall (fun n => 0 <= n) lead -> Forall (fun k => 0 <= k) K ->
  (if b
   then getitem kern
          (repeat slice_all (Z.to_nat (ndim kern - cd))
             ++ repeat (slice_step (-1)) (Z.to_nat cd))
   else Ok kern) = Ok (flipped_if b lead K kern).
Proof.
  intros Hk HK Hlead HK0. unfold flipped_if. destruct b; [| reflexivity].
  unfold ndim, len in *. rewrite Hk, length_app.
  replace (Z.to_nat _) with (List.length lead) by lia.
  replace (Z.to_nat cd) with (List.length K) by lia.
  now apply getitem_flip.
Qed.

Lemma shape_flipped_if (b : bool) (lead K : list Z) (a : ndarray R) :
  shape a = lead ++ K -> shape (flipped_if b lead K a) = lead ++ K.
Proof.
  intros Ha. unfold flipped_if. destruct b; [| exact Ha].
  cbn [gather shape]. apply view_shape_flip.
Qed.

(** [AbstractConv.perform] with one kernel for all positions. *)
Lemma perform_shared_ok (self : ConvOp) (img kern : ndarray R)
    (B c1 oco : Z) (N K : list Z) :
  op_ok self -> unshared self = false -> sizes_ok self N K ->
  0 <= B -> 0 <= c1 -> 0 <= oco ->
  shape img = B :: num_groups self * c1 :: N ->
  shape kern = num_groups self * oco :: c1 :: K ->
  exists out,
    AbstractConv_perform self img kern = Ok out
    /\ shape out = B :: num_groups self * oco :: op_out_sizes self N K
    /\ forall b g n o,
         0 <= b < B -> 0 <= g < num_groups self -> 0 <= n < oco ->
         in_box (op_out_sizes self N K) o = true ->
         item out (b :: (g * oco + n) :: o)
         = forward_item self c1 oco K
             (item (zero_padded B (num_groups self * c1) N (op_pads self K)
                      img))
             (item kern) b g n o.
Proof.
  intros (Hcd & Hbm & Hss & Hfd & HG & _ & Hss1 & Hfd1) Hus
    (HN & HK & HN1 & HK1 & Hfit) HB Hc1 Hoco Hi Hk.
  set (G := num_groups self) in *.
  set (D := op_dilated self K) in *.
  set (pads := op_pads self K) in *.
  set (Np := op_padded self N K) in *.
  set (X := op_full_res self N K) in *.
  assert (LK : List.length K = Z.to_nat (convdim self)) by (unfold len in HK; lia).
  assert (LN : List.length N = List.length K) by (unfold len in *; lia).
  assert (Lss : List.length (subsample self) = List.length K)
    by (unfold len in *; lia).
  assert (Lfd : List.length (filter_dilation self) = List.length K)
    by (unfold len in *; lia).
  assert (LD : List.length D = List.length K)
    by (apply dilated_length; lia).
  assert (HD1 : Forall (fun d => 1 <= d) D) by (now apply dilated_pos).
  assert (Lp : List.length pads = List.length K)
    by (unfold pads, op_pads; rewrite pads_of_length; exact LD).
  assert (Hp0 : Forall (fun p => 0 <= fst p /\ 0 <= snd p) pads).
  { apply (pads_of_nonneg (convdim self)); try assumption.
    unfold len in *. change (op_dilated self K) with D. lia. }
  assert (LNp : List.length Np = List.length K)
    by (unfold Np, op_padded; rewrite padded_length; fold pads; lia).
  assert (LX : List.length X = List.length K)
    by (unfold X, op_full_res, valid_sizes; rewrite zip_with_length;
        fold Np D; lia).
  assert (HNp1 : Forall (fun n => 0 <= n) Np).
  { apply padded_nonneg; [now apply Forall_pos_nonneg | exact Hp0]. }
  unfold AbstractConv_perform.
  rewrite Hk. change (G * oco :: c1 :: K) with ([G * oco; c1] ++ K).
  rewrite dilated_shape_ok by (unfold len in *; lia).
  cbn [bind]. rewrite Hus. cbn [andb]. cbv zeta.
  assert (HlenD : len (dilated K (filter_dilation self)) = convdim self).
  { unfold len in *. rewrite dilated_length; lia. }
  rewrite (border_mode_to_pad_ok (convdim self)) by assumption.
  cbn [bind].
  change (dilated K (filter_dilation self)) with D.
  change (pads_of (border_mode self) D) with pads.
  destruct (pad_block_ok self img (border_mode self) B (G * c1) N pads)
    as (P & mode' & E1 & _ & SP & IP & _);
    try assumption; try (unfold len in *; lia); try nia;
    try (now apply Forall_pos_nonneg).
  rewrite E1. cbn [bind].
  rewrite (flip_block_ok (convdim self) (negb (filter_flip self)) kern
             [G * oco; c1] K)
    by (try assumption; try (now apply Forall_pos_nonneg);
        repeat constructor; nia).
  cbn [bind].
  set (Kf := flipped_if (negb (filter_flip self)) [G * oco; c1] K kern).
  assert (HNpos : Forall (fun n => 1 <= n) Np) by (now apply padded_pos).
  assert (SKf : shape Kf = G * oco :: c1 :: K)
    by (unfold Kf; now rewrite shape_flipped_if).
  assert (Hfit' : "valid"%string = "valid"%string ->
                  Forall (fun n => 1 <= n)
                    (valid_sizes Np (dilated K (filter_dilation self))))
    by (intros _; exact Hfit).
  destruct (conv_shared_spec self P Kf "valid" (filter_dilation self)
              "forward" B c1 G oco Np K)
    as (Y & EY & SY & IY); try assumption; try reflexivity;
    try (unfold len in *; lia); auto.
  fold G. rewrite EY. cbn [bind].
  rewrite subsample_slices_ok by exact Hss. cbn [bind].
  change (conv_sizes "valid" Np (dilated K (filter_dilation self)))
    with X in *.
  pose proof (getitem_strides Y [B; G * oco] X (subsample self) SY) as Eg.
  cbn [List.length repeat app] in Eg.
  rewrite Eg; try assumption; try lia; [| repeat constructor; nia].
  eexists. split; [reflexivity |]. split.
  - cbn [gather shape]. rewrite view_shape_sub; [reflexivity |].
    rewrite strided_sizes_length; lia.
  - intros b g n o Hb Hg Hn Ho. cbn [gather item].
    unfold sub_views. cbn [full_views map app].
    rewrite !view_index_unit_cons.
    assert (Hvalid : Forall2 valid_view
                       (zip_with (fun s o => Strided 0 s o) (subsample self)
                          (strided_sizes X (subsample self))) X).
    { apply (axis_views_valid (map slice_step (subsample self))).
      - now apply Forall_pos_nonneg.
      - apply axis_views_strides; try assumption. lia. }
    assert (Ho' : in_box (view_shape
                            (zip_with (fun s o => Strided 0 s o)
                               (subsample self)
                               (strided_sizes X (subsample self)))) o = true).
    { rewrite view_shape_zip_strides; [exact Ho |].
      rewrite strided_sizes_length; lia. }
    destruct (view_index_in_box _ _ _ Hvalid Ho') as (Hx & _ & _).
    rewrite IY by assumption.
    unfold forward_item. apply sum_range_ext. intros c Hc.
    assert (Hcd' : List.length K = 2%nat \/ List.length K = 3%nat)
      by (destruct Hcd as [E | E]; rewrite E in LK; [left | right]; exact LK).
    assert (Hread : forall (ff : bool) k, in_box K k = true ->
               conv_read "valid" Np (dilated K (filter_dilation self))
                 (fun p => item P (b :: (g * c1 + c) :: p))
                 (view_index
                    (zip_with (fun s o => Strided 0 s o) (subsample self)
                       (strided_sizes X (subsample self))) o)
                 (view_index (step_views K (filter_dilation self))
                    (if ff then k
                     else view_inverse
                            (map (fun n => Strided (n - 1) (-1) n) K) k))
               = item (zero_padded B (G * c1) N pads img)
                   (b :: (g * c1 + c)
                      :: tap ff (subsample self) (filter_dilation self) K o k)).
    { intros ff k Hk'.
      destruct (read_tap ff (subsample self) (filter_dilation self) K Np o k)
        as [Et Hin]; try assumption.
      unfold conv_read. cbn [String.eqb Ascii.eqb Bool.eqb].
      change (valid_sizes Np (dilated K (filter_dilation self))) with X in Et.
      rewrite Et.
      apply IP. apply in_box_intro; [lia |].
      apply in_box_intro; [nia | exact Hin]. }
    unfold Kf, flipped_if. destruct (filter_flip self) eqn:Eff; cbn [negb].
    + apply sum_box_ext. intros k Hk'. now rewrite (Hread true k Hk').
    + cbn [gather item]. unfold flip_views. cbn [full_views map app].
      pose (h := fun i j : list Z =>
              rmul (conv_read "valid" Np (dilated K (filter_dilation self))
                      (fun p => item P (b :: (g * c1 + c) :: p))
                      (view_index
                         (zip_with (fun s o => Strided 0 s o)
                            (subsample self)
                            (strided_sizes X (subsample self))) o)
                      (view_index (step_views K (filter_dilation self)) j))
                   (item kern ((g * oco + n) :: c :: i))).
      assert (Hvf : Forall2 valid_view
                      (map (fun n => Strided (n - 1) (-1) n) K) K).
      { apply (axis_views_valid (repeat (slice_step (-1)) (List.length K))).
        - now apply Forall_pos_nonneg.
        - apply axis_views_flips. now apply Forall_pos_nonneg. }
      pose proof (sum_box_view _ _ h Hvf) as Esv.
      rewrite view_shape_flips in Esv.
      rewrite (sum_box_ext K _
                 (fun k => h (view_index
                                (map (fun n => Strided (n - 1) (-1) n) K) k) k))
        by (intros k _; unfold h; now rewrite !view_index_unit_cons).
      etransitivity; [symmetry; exact Esv |].
      apply sum_box_ext. intros k Hk'.
      rewrite in_view_flips by exact Hk'. unfold h.
      now rewrite (Hread false k Hk').
Qed.
End Forward.

(** ** Reshaping and transposition *)

Lemma size_of_pos (shp : list Z) :
  Forall (fun n => 1 <= n) shp -> 1 <= size_of shp.
Proof.
  induction 1 as [| n shp Hn _ IH]; simpl; [lia | nia].
Qed.

Lemma in_box_pos (shp j : list Z) :
  in_box shp j = true -> Forall (fun n => 1 <= n) shp.
Proof.
  revert j. induction shp as [| n shp IH]; intros j Hj; [constructor |].
  destruct j as [| jk j]; [discriminate |].
  rewrite in_box_cons in Hj. apply andb_true_iff in Hj as [H1 H2].
  apply andb_true_iff in H1 as [Ha Hb].
  apply Z.leb_le in Ha. apply Z.ltb_lt in Hb.
  constructor; [lia | eauto].
Qed.

Lemma ravel_range (shp j : list Z) :
  in_box shp j = true -> 0 <= ravel shp j < size_of shp.
Proof.
  revert j. induction shp as [| n shp IH]; intros j Hj.
  - destruct j; simpl; lia.
  - destruct j as [| jk j]; [discriminate |].
    rewrite in_box_cons in Hj. apply andb_true_iff in Hj as [H1 H2].
    apply andb_true_iff in H1 as [Ha Hb].
    apply Z.leb_le in Ha. apply Z.ltb_lt in Hb.
    specialize (IH j H2). cbn [ravel size_of fold_right].
    fold (size_of shp). nia.
Qed.

(** A multi-index is the one of its row-major position. *)
Lemma unravel_ravel (shp j : list Z) :
  in_box shp j = true -> unravel shp (ravel shp j) = j.
Proof.
  revert j. induction shp as [| n shp IH]; intros j Hj.
  - destruct j; [reflexivity | discriminate].
  - destruct j as [| jk j]; [discriminate |].
    pose proof Hj as Hj'.
    rewrite in_box_cons in Hj. apply andb_true_iff in Hj as [H1 H2].
    pose proof (ravel_range shp j H2) as Hr.
    cbn [ravel unravel].
    assert (E1 : (jk * size_of shp + ravel shp j) / size_of shp = jk)
      by (rewrite Z.div_add_l, Z.div_small by lia; lia).
    assert (E2 : (jk * size_of shp + ravel shp j) mod size_of shp
                 = ravel shp j)
      by (rewrite (Z.add_comm (jk * size_of shp)), Z.mod_add, Z.mod_small
            by lia; reflexivity).
    rewrite E1, E2, IH by exact H2. reflexivity.
Qed.

(** Two multi-indices with one row-major position. *)
Lemma unravel_ravel_eq (shp shp' j j' : list Z) :
  in_box shp j = true -> ravel shp' j' = ravel shp j ->
  unravel shp (ravel shp' j') = j.
Proof. intros Hj ->. now apply unravel_ravel. Qed.

Lemma range_from_seq (a b : Z) (n : nat) :
  0 <= a -> b - a = Z.of_nat n -> range_from a b = seq (Z.to_nat a) n.
Proof. intros Ha E. unfold range_from. f_equal. lia. Qed.

Section Transposition.
Context {R : Type} `{Scalar R}.

(** [a.transpose(1, 0, 2, 3, ...)] *)
Lemma transpose_swap_ok (a : ndarray R) (n0 n1 : Z) (rest : list Z) :
  shape a = n0 :: n1 :: rest ->
  (2 <= List.length rest <= 4)%nat ->
  exists t,
    np_transpose a (1 :: 0 :: seq 2 (List.length rest))%nat = Ok t
    /\ shape t = n1 :: n0 :: rest
    /\ forall i0 i1 r, List.length r = List.length rest ->
         item t (i1 :: i0 :: r) = item a (i0 :: i1 :: r).
Proof.
  intros Ha Hlen. unfold np_transpose. rewrite Ha.
  destruct rest as [| r1 [| r2 [| r3 [| r4 [| r5 rest]]]]];
    cbn [List.length] in Hlen; try lia;
    (eexists; split; [reflexivity |]; split; [reflexivity |];
     intros i0 i1 r Hr; list_lengths; reflexivity).
Qed.
End Transposition.

Lemma py_slice_from_1 {A : Type} (x : A) (l : list A) :
  py_slice_from (x :: l) 1 = l.
Proof.
  unfold py_slice_from, clamp_bound. cbn [List.length].
  replace (Z.to_nat _) with 1%nat; [reflexivity |].
  destruct (Z.ltb_spec 1 0); lia.
Qed.

Lemma existsb_neg_false (l : list Z) :
  Forall (fun n => 0 <= n) l -> existsb (fun n => n <? 0) l = false.
Proof.
  induction 1 as [| n l Hn _ IH]; [reflexivity |].
  simpl. rewrite IH. destruct (Z.ltb_spec n 0); [lia | reflexivity].
Qed.

Section Groups.
Context {R : Type} `{Scalar R}.

Lemma np_reshape_ok (a : ndarray R) (newshape : list Z) :
  Forall (fun n => 0 <= n) newshape ->
  size_of newshape = size_of (shape a) ->
  np_reshape a newshape
  = Ok (mk_ndarray newshape
          (fun j => item a (unravel (shape a) (ravel newshape j)))).
Proof.
  intros Hn Hs. unfold np_reshape.
  rewrite existsb_neg_false, Hs, Z.eqb_refl by exact Hn. reflexivity.
Qed.

(** [correct_for_groups] of the gradient with respect to the weights: the
    channels of the groups, which come first, are moved to the second
    axis. *)
Lemma gradWeights_correct_for_groups_ok (self : ConvOp) (mat : ndarray R)
    (c1 B : Z) (Np : list Z) :
  convdim self = 2 \/ convdim self = 3 ->
  len Np = convdim self ->
  shape mat = num_groups self * c1 :: B :: Np ->
  1 <= num_groups self -> 0 <= c1 -> 0 <= B ->
  Forall (fun n => 0 <= n) Np ->
  exists r,
    gradWeights_correct_for_groups self mat = Ok r
    /\ shape r = c1 :: B * num_groups self :: Np
    /\ forall c g b p,
         0 <= c < c1 -> 0 <= g < num_groups self -> 0 <= b < B ->
         in_box Np p = true ->
         item r (c :: (g * B + b) :: p) = item mat ((g * c1 + c) :: b :: p).
Proof.
  intros Hcd HNp Hm HG Hc1 HB HNp0.
  set (G := num_groups self) in *.
  unfold gradWeights_correct_for_groups. fold G.
  rewrite Hm. cbn [py_nth nth_error bind]. unfold py_floordiv.
  destruct (Z.eqb_spec G 0) as [? | _]; [lia |]. cbn [bind].
  replace (G * c1 / G) with c1
    by (rewrite Z.mul_comm, Z.div_mul; lia).
  rewrite py_slice_from_1.
  rewrite np_reshape_ok;
    [| repeat constructor; try assumption; lia
     | rewrite Hm; cbn [size_of fold_right]; ring].
  cbn [bind].
  set (a1 := mk_ndarray (G :: c1 :: B :: Np) _).
  assert (Hrange : (1 :: 0 :: 2 :: range_from 3 (3 + convdim self))%nat
                   = (1 :: 0 :: seq 2 (List.length (B :: Np)))%nat).
  { cbn [List.length seq]. do 3 f_equal.
    apply range_from_seq; unfold len in HNp; lia. }
  rewrite Hrange.
  destruct (transpose_swap_ok a1 G c1 (B :: Np) eq_refl) as (t & Et & St & It).
  { cbn [List.length]. unfold len in HNp. lia. }
  rewrite Et. cbn [bind]. rewrite St.
  change (c1 :: G :: B :: Np) with ([c1; G; B] ++ Np).
  replace (- convdim self) with (- Z.of_nat (List.length Np))
    by (unfold len in HNp; lia).
  rewrite py_slice_from_suffix by (unfold len in HNp; lia).
  rewrite np_reshape_ok;
    [| repeat constructor; try assumption; nia
     | rewrite St; cbn [size_of fold_right app]; ring].
  eexists. split; [reflexivity |]. split; [reflexivity |].
  intros c g b p Hc Hg Hb Hp. cbn [item]. rewrite St.
  rewrite (unravel_ravel_eq (c1 :: G :: B :: Np) _ (c :: g :: b :: p)).
  - rewrite It by (cbn [List.length]; f_equal; now apply in_box_length).
    unfold a1. cbn [item]. rewrite Hm.
    rewrite (unravel_ravel_eq (G * c1 :: B :: Np) _
               ((g * c1 + c) :: b :: p)).
    + reflexivity.
    + repeat (apply in_box_intro; [nia |]). exact Hp.
    + cbn [ravel size_of fold_right]. unfold size_of. ring.
  - repeat (apply in_box_intro; [lia |]). exact Hp.
  - cbn [ravel size_of fold_right]. unfold size_of. ring.
Qed.
End Groups.

(** ** The gradient with respect to the weights *)

Lemma dil_shape_ok (cd : Z) (K dil : list Z) :
  len K = cd -> len dil = cd ->
  mapM (fun i =>
      k <- py_nth K i ;;
      d <- py_nth dil i ;;
      Ok ((k - 1) * d + 1)) (range cd)
  = Ok (dilated K dil).
Proof.
  intros HK Hd. unfold len in *. rewrite <- HK.
  rewrite (mapM_range_ok _
             (fun i => dilated_size (nth i K 0) (nth i dil 0))).
  - unfold dilated. now rewrite (map_seq_zip_with dilated_size K dil 0 0) by lia.
  - intros i Hi. rewrite (py_nth_ok _ _ 0) by exact Hi. cbn [bind].
    rewrite (py_nth_ok _ _ 0) by lia. reflexivity.
Qed.

Lemma new_spatial_ok (cd B C : Z) (Np D : list Z) :
  len Np = cd -> len D = cd ->
  mapM (fun i =>
      n <- py_nth (B :: C :: Np) (i + 2) ;;
      d <- py_nth D i ;;
      Ok (n - d + 1)) (range cd)
  = Ok (valid_sizes Np D).
Proof.
  intros HN HD. unfold len in *. rewrite <- HN.
  rewrite (mapM_range_ok _
             (fun i => (fun n d => n - d + 1) (nth i Np 0) (nth i D 0))).
  - unfold valid_sizes.
    now rewrite (map_seq_zip_with (fun n d => n - d + 1) Np D 0 0) by lia.
  - intros i Hi. rewrite py_nth_skip2, (py_nth_ok _ _ 0) by exact Hi.
    cbn [bind]. rewrite (py_nth_ok _ _ 0) by lia. reflexivity.
Qed.

(** The sizes of the correlation of the padded image with the output
    gradient are the sizes of the dilated kernel. *)
Lemma correlation_sizes (Np D : list Z) (n : nat) :
  List.length Np = List.length D -> n = List.length D ->
  valid_sizes Np (dilated (valid_sizes Np D) (repeat 1 n)) = D.
Proof.
  revert D n. induction Np as [| a Np IH]; intros D n Hlen Hn.
  - destruct D; [reflexivity | discriminate].
  - destruct D as [| d D]; [discriminate |]. subst n.
    cbn [List.length repeat].
    unfold valid_sizes, dilated, zip_with in *.
    cbn [combine map fst snd]. f_equal.
    + unfold dilated_size. lia.
    + apply IH; [simpl in Hlen; lia | reflexivity].
Qed.

Lemma strided_sizes_dilated (K dil : list Z) :
  Forall (fun k => 1 <= k) K -> Forall (fun d => 1 <= d) dil ->
  List.length K = List.length dil ->
  strided_sizes (dilated K dil) dil = K.
Proof.
  intros HK. revert dil. induction HK as [| k K Hk _ IH]; intros dil Hd Hlen.
  - reflexivity.
  - destruct Hd as [| d dil Hd1 Hd]; [discriminate |].
    unfold strided_sizes, dilated, zip_with in *.
    cbn [combine map fst snd]. f_equal.
    + pose proof (dilated_size_quotient k d Hk Hd1) as E.
      pose proof (dilated_size_pos k d Hk Hd1).
      destruct (Z.ltb_spec 0 (dilated_size k d)); [exact E | lia].
    + apply IH; [exact Hd | simpl in Hlen; lia].
Qed.

Lemma all_ones (l : list Z) :
  Forall (fun s => 1 <= s) l -> Forall (fun s => s <= 1) l ->
  l = repeat 1 (List.length l).
Proof.
  induction 1 as [| s l Hs _ IH]; intros Hle; [reflexivity |].
  inversion Hle; subst. cbn [List.length repeat]. f_equal; [lia | auto].
Qed.

Lemma strided_sizes_ones (X : list Z) (n : nat) :
  n = List.length X -> strided_sizes X (repeat 1 n) = X.
Proof.
  revert n. induction X as [| x X IH]; intros n Hn; subst n.
  - reflexivity.
  - cbn [List.length repeat]. unfold strided_sizes, zip_with in *.
    cbn [combine map fst snd]. f_equal.
    + rewrite Z.div_1_r. lia.
    + now apply IH.
Qed.

Lemma dilated_ones (K : list Z) (n : nat) :
  n = List.length K -> dilated K (repeat 1 n) = K.
Proof.
  revert n. induction K as [| k K IH]; intros n Hn; subst n.
  - reflexivity.
  - cbn [List.length repeat]. unfold dilated, zip_with in *.
    cbn [combine map fst snd]. f_equal.
    + unfold dilated_size. lia.
    + now apply IH.
Qed.

Lemma unit_steps_full (X : list Z) (n : nat) :
  n = List.length X ->
  zip_with (fun s o => Strided 0 s o) (repeat 1 n) X = full_views X.
Proof.
  revert n. induction X as [| x X IH]; intros n Hn; subst n.
  - reflexivity.
  - cbn [List.length repeat]. unfold zip_with in *.
    cbn [combine map fst snd full_views]. f_equal. now apply IH.
Qed.

Lemma step_views_swap (K dil : list Z) :
  zip_with (fun s o => Strided 0 s o) dil K = step_views K dil.
Proof.
  unfold step_views, zip_with. revert dil.
  induction K as [| k K IH]; intros [| d dil]; try reflexivity.
  cbn [combine map fst snd]. f_equal. apply IH.
Qed.

Section GradWeights.
Context {R : Type} `{Scalar R}.

Add Ring scalar_ring_gw : scalar_ring.

(** The block [new_topgrad = np.zeros(...); new_topgrad[...] = topgrad]. *)
Lemma expand_topgrad_ok (self : ConvOp) (topgrad : ndarray R) (B F : Z)
    (X : list Z) :
  shape topgrad = B :: F :: strided_sizes X (subsample self) ->
  len (subsample self) = convdim self ->
  List.length (subsample self) = List.length X ->
  0 <= B -> 0 <= F ->
  Forall (fun s => 1 <= s) (subsample self) -> Forall (fun x => 1 <= x) X ->
  expand_topgrad self topgrad X
  = Ok (scatter (B :: F :: X)
          (sub_views [B; F] (subsample self)
             (strided_sizes X (subsample self))) topgrad).
Proof.
  intros Ht Hss Hlen HB HF Hs1 HX1. unfold expand_topgrad.
  rewrite Ht. cbn [py_nth nth_error bind].
  rewrite np_zeros_ok
    by (repeat constructor; try assumption; now apply Forall_pos_nonneg).
  cbn [bind]. rewrite subsample_slices_ok by exact Hss. cbn [bind].
  pose proof (setitem_strides topgrad [B; F] X (subsample self)) as Es.
  cbn [List.length repeat app] in Es. apply Es; try assumption.
  repeat constructor; assumption.
Qed.

(** The output gradient on the positions of the output before it was
    subsampled, whether the operator subsamples or not. *)
Lemma expand_block_ok (self : ConvOp) (sub : bool) (topgrad : ndarray R)
    (B F : Z) (X : list Z) :
  shape topgrad = B :: F :: strided_sizes X (subsample self) ->
  len (subsample self) = convdim self ->
  List.length (subsample self) = List.length X ->
  0 <= B -> 0 <= F ->
  Forall (fun s => 1 <= s) (subsample self) -> Forall (fun x => 1 <= x) X ->
  (sub = false -> Forall (fun s => s <= 1) (subsample self)) ->
  exists E,
    (if sub then expand_topgrad self topgrad X else Ok topgrad) = Ok E
    /\ shape E = B :: F :: X
    /\ forall i, in_box (B :: F :: X) i = true ->
         item E i
         = item (scatter (B :: F :: X)
                   (sub_views [B; F] (subsample self)
                      (strided_sizes X (subsample self))) topgrad) i.
Proof.
  intros Ht Hss Hlen HB HF Hs1 HX1 Hsub. destruct sub.
  - rewrite (expand_topgrad_ok self topgrad B F X) by assumption.
    eexists. repeat split; reflexivity.
  - specialize (Hsub eq_refl).
    pose proof (all_ones _ Hs1 Hsub) as Eones.
    exists topgrad. split; [reflexivity |].
    rewrite Eones in Ht |- *. rewrite Hlen in Ht |- *.
    rewrite strided_sizes_ones in Ht |- * by reflexivity.
    split; [exact Ht |].
    intros i Hi. rewrite item_scatter. unfold sub_views.
    rewrite unit_steps_full by reflexivity.
    change (full_views [B; F] ++ full_views X) with (full_views (B :: F :: X)).
    rewrite in_view_full, view_inverse_full
      by (try assumption; now apply in_box_length).
    reflexivity.
Qed.

(** The block that regroups the channels of the image. *)
Lemma groups_block_ok (self : ConvOp) (Pt : ndarray R) (c1 B : Z)
    (Np : list Z) :
  convdim self = 2 \/ convdim self = 3 ->
  len Np = convdim self ->
  shape Pt = num_groups self * c1 :: B :: Np ->
  1 <= num_groups self -> 0 <= c1 -> 0 <= B ->
  Forall (fun n => 0 <= n) Np ->
  exists Pg,
    (if num_groups self >? 1
     then gradWeights_correct_for_groups self Pt else Ok Pt) = Ok Pg
    /\ shape Pg = c1 :: num_groups self * B :: Np
    /\ forall c g b p,
         0 <= c < c1 -> 0 <= g < num_groups self -> 0 <= b < B ->
         in_box Np p = true ->
         item Pg (c :: (g * B + b) :: p) = item Pt ((g * c1 + c) :: b :: p).
Proof.
  intros Hcd HNp Hm HG Hc1 HB HNp0.
  destruct (Z.gtb_spec (num_groups self) 1) as [Hgt | Hle].
  - destruct (gradWeights_correct_for_groups_ok self Pt c1 B Np)
      as (r & Er & Sr & Ir); try assumption.
    exists r. split; [exact Er |]. split; [| exact Ir].
    rewrite Sr. f_equal. f_equal. ring.
  - assert (E1 : num_groups self = 1) by lia.
    exists Pt. split; [reflexivity |]. rewrite E1 in *. split.
    + rewrite Hm. f_equal; [lia | f_equal; lia].
    + intros c g b p Hc Hg Hb Hp.
      replace g with 0 by lia.
      replace (0 * B + b) with b by lia.
      replace (0 * c1 + c) with c by lia. reflexivity.
Qed.

(** The block that takes the elements of the kernel out of the dilated
    kernel. *)
Lemma undilate_block_ok (self : ConvOp) (dil : bool) (kT : ndarray R)
    (F c1 : Z) (K : list Z) :
  shape kT = F :: c1 :: dilated K (filter_dilation self) ->
  len K = convdim self -> len (filter_dilation self) = convdim self ->
  0 <= F -> 0 <= c1 ->
  Forall (fun k => 1 <= k) K ->
  Forall (fun d => 1 <= d) (filter_dilation self) ->
  (dil = false -> Forall (fun d => d <= 1) (filter_dilation self)) ->
  exists kU,
    (if dil then
       steps <- mapM (fun i => d <- py_nth (filter_dilation self) i ;;
                               Ok (slice_step d)) (range (convdim self)) ;;
       getitem kT
         (repeat slice_all (Z.to_nat (ndim kT - convdim self)) ++ steps)
     else Ok kT) = Ok kU
    /\ shape kU = F :: c1 :: K
    /\ forall f c k, List.length k = List.length K ->
         item kU (f :: c :: k)
         = item kT (f :: c :: view_index (step_views K (filter_dilation self)) k).
Proof.
  intros Hk HK Hfd HF Hc1 HK1 Hd1 Hdil. unfold len in *.
  assert (Hlen : List.length K = List.length (filter_dilation self)) by lia.
  destruct dil.
  - rewrite <- Hfd.
    rewrite (mapM_range_ok _
               (fun i => slice_step (nth i (filter_dilation self) 0)))
      by (intros i Hi; now rewrite (py_nth_ok _ _ 0) by exact Hi).
    rewrite map_seq_nth. cbn [bind].
    unfold ndim, len. rewrite Hk. cbn [List.length].
    rewrite dilated_length by exact Hlen.
    replace (Z.to_nat _) with 2%nat by lia.
    pose proof (getitem_strides kT [F; c1]
                  (dilated K (filter_dilation self))
                  (filter_dilation self) Hk) as Eg.
    cbn [List.length repeat] in Eg. cbn [repeat].
    rewrite Eg; try assumption.
    + rewrite strided_sizes_dilated by assumption.
      eexists. split; [reflexivity |]. split.
      * cbn [gather shape]. rewrite view_shape_sub by lia. reflexivity.
      * intros f c k Hk'. cbn [gather item]. unfold sub_views.
        cbn [full_views map app]. rewrite !view_index_unit_cons.
        now rewrite step_views_swap.
    + repeat constructor; assumption.
    + now apply dilated_pos.
    + rewrite dilated_length; lia.
  - specialize (Hdil eq_refl).
    pose proof (all_ones _ Hd1 Hdil) as Eones.
    exists kT. split; [reflexivity |].
    rewrite Eones in Hk |- *. rewrite <- Hlen in Hk |- *.
    rewrite dilated_ones in Hk by reflexivity.
    split; [exact Hk |].
    intros f c k Hk'.
    rewrite <- step_views_swap, unit_steps_full by reflexivity.
    now rewrite view_index_full.
Qed.

(** [AbstractConv_gradWeights.perform] with one kernel for all positions. *)
Lemma gradWeights_shared_ok (self : ConvOp) (img dO : ndarray R)
    (B c1 oco : Z) (N K : list Z) :
  op_ok self -> unshared self = false -> sizes_ok self N K ->
  0 <= B -> 0 <= c1 -> 0 <= oco ->
  shape img = B :: num_groups self * c1 :: N ->
  shape dO = B :: num_groups self * oco :: op_out_sizes self N K ->
  exists gw,
    AbstractConv_gradWeights_perform self img dO K = Ok gw
    /\ shape gw = num_groups self * oco :: c1 :: K
    /\ forall g n c k,
         0 <= g < num_groups self -> 0 <= n < oco -> 0 <= c < c1 ->
         in_box K k = true ->
         item gw ((g * oco + n) :: c :: k)
         = weights_item self B c1 oco N K
             (item (zero_padded B (num_groups self * c1) N (op_pads self K)
                      img))
             (item dO) g n c k.
Proof.
  intros (Hcd & Hbm & Hss & Hfd & HG & _ & Hss1 & Hfd1) Hus
    (HN & HK & HN1 & HK1 & Hfit) HB Hc1 Hoco Hi Ht.
  set (G := num_groups self) in *.
  set (D := op_dilated self K) in *.
  set (pads := op_pads self K) in *.
  set (Np := op_padded self N K) in *.
  set (X := op_full_res self N K) in *.
  assert (LK : List.length K = Z.to_nat (convdim self)) by (unfold len in HK; lia).
  assert (LN : List.length N = List.length K) by (unfold len in *; lia).
  assert (Lss : List.length (subsample self) = List.length K)
    by (unfold len in *; lia).
  assert (Lfd : List.length (filter_dilation self) = List.length K)
    by (unfold len in *; lia).
  assert (LD : List.length D = List.length K)
    by (apply dilated_length; lia).
  assert (HD1 : Forall (fun d => 1 <= d) D) by (now apply dilated_pos).
  assert (Lp : List.length pads = List.length K)
    by (unfold pads, op_pads; rewrite pads_of_length; exact LD).
  assert (Hp0 : Forall (fun p => 0 <= fst p /\ 0 <= snd p) pads).
  { apply (pads_of_nonneg (convdim self)); try assumption.
    unfold len in *. change (op_dilated self K) with D. lia. }
  assert (LNp : List.length Np = List.length K)
    by (unfold Np, op_padded; rewrite padded_length; fold pads; lia).
  assert (LX : List.length X = List.length K)
    by (unfold X, op_full_res, valid_sizes; rewrite zip_with_length;
        fold Np D; lia).
  assert (HNp1 : Forall (fun n => 0 <= n) Np).
  { apply padded_nonneg; [now apply Forall_pos_nonneg | exact Hp0]. }
  assert (HNpos : Forall (fun n => 1 <= n) Np) by (now apply padded_pos).
  assert (HlenD : len (dilated K (filter_dilation self)) = convdim self).
  { unfold len in *. rewrite dilated_length; lia. }
  assert (Hcd' : List.length K = 2%nat \/ List.length K = 3%nat)
    by (destruct Hcd as [E | E]; rewrite E in LK; [left | right]; exact LK).
  unfold AbstractConv_gradWeights_perform.
  rewrite Hus. cbn [andb]. cbv zeta.
  rewrite (dil_shape_ok (convdim self) K (filter_dilation self))
    by assumption.
  cbn [bind].
  rewrite (border_mode_to_pad_ok (convdim self)) by assumption.
  cbn [bind].
  change (dilated K (filter_dilation self)) with D.
  change (pads_of (border_mode self) D) with pads.
  destruct (pad_block_ok self img (border_mode self) B (G * c1) N pads)
    as (P & mode' & _ & E1 & SP & IP & _);
    try assumption; try (unfold len in *; lia); try nia;
    try (now apply Forall_pos_nonneg).
  rewrite E1. cbn [bind].
  change (padded N pads) with Np in SP, IP.
  destruct (any_subsample_ok self Hss) as (sub & Esub & Hsub).
  rewrite Esub. cbn [bind].
  assert (Hrange : range_from 2 (convdim self + 2) = seq 2 (List.length K))
    by (apply range_from_seq; lia).
  rewrite Hrange.
  (* the output gradient at full resolution *)
  assert (Eexp : (if sub
                  then new_spatial <-
                         mapM (fun i =>
                                 n <- py_nth (shape P) (i + 2) ;;
                                 d <- py_nth D i ;;
                                 Ok (n - d + 1)) (range (convdim self)) ;;
                       expand_topgrad self dO new_spatial
                  else Ok dO)
                 = (if sub then expand_topgrad self dO X else Ok dO)).
  { destruct sub; [| reflexivity]. rewrite SP.
    rewrite (new_spatial_ok (convdim self) B (G * c1) Np D)
      by (unfold len in *; lia).
    reflexivity. }
  rewrite Eexp. clear Eexp.
  destruct (expand_block_ok self sub dO B (G * oco) X)
    as (E & EE & SE & IE); try assumption; try lia; try nia.
  rewrite EE. cbn [bind].
  rewrite <- LX.
  destruct (transpose_swap_ok E B (G * oco) X SE) as (Et & EEt & SEt & IEt);
    [lia |].
  rewrite EEt. cbn [bind].
  rewrite LX, <- LNp.
  destruct (transpose_swap_ok P B (G * c1) Np SP) as (Pt & EPt & SPt & IPt);
    [lia |].
  rewrite EPt. cbn [bind].
  destruct (groups_block_ok self Pt c1 B Np)
    as (Pg & EPg & SPg & IPg); try assumption; try (unfold len in *; lia).
  rewrite EPg. cbn [bind].
  (* the correlation of the image with the output gradient *)
  pose proof (getitem_flip Et [G * oco; B] X SEt) as Eflip.
  cbn [List.length repeat app] in Eflip.
  replace (Z.to_nat (convdim self)) with (List.length X) by lia.
  rewrite Eflip;
    [| repeat constructor; try assumption; nia | now apply Forall_pos_nonneg].
  cbn [bind].
  set (Etf := gather (flip_views [G * oco; B] X) Et).
  change (conv self Pg Etf "valid" (DilInt 1) (num_groups self) false "forward")
    with (conv self Pg Etf "valid"
            (DilTuple (repeat 1 (Z.to_nat (convdim self)))) G false "forward").
  assert (Hones : Forall (fun d => 1 <= d) (repeat 1 (Z.to_nat (convdim self)))).
  { apply Forall_forall. intros d Hd. apply repeat_spec in Hd. lia. }
  assert (Hcorr : valid_sizes Np (dilated X (repeat 1 (Z.to_nat (convdim self))))
                  = D).
  { apply (correlation_sizes Np D); lia. }
  destruct (conv_shared_spec self Pg Etf "valid"
              (repeat 1 (Z.to_nat (convdim self))) "forward"
              c1 B G oco Np X)
    as (Yw & EYw & SYw & IYw); try assumption; try reflexivity;
    try (unfold len in *; rewrite ?repeat_length; lia); auto.
  { unfold Etf. cbn [gather shape]. now rewrite view_shape_flip. }
  { intros _. now rewrite Hcorr. }
  rewrite EYw. cbn [bind].
  change (conv_sizes "valid" Np
            (dilated X (repeat 1 (Z.to_nat (convdim self)))))
    with (valid_sizes Np (dilated X (repeat 1 (Z.to_nat (convdim self)))))
    in *.
  rewrite Hcorr in SYw.
  rewrite LNp, <- LD.
  destruct (transpose_swap_ok Yw c1 (G * oco) D SYw) as (kT & EkT & SkT & IkT);
    [lia |].
  rewrite EkT. cbn [bind].
  destruct (any_dilation_ok self Hfd) as (dil & Edil & Hdil).
  rewrite Edil. cbn [bind].
  destruct (undilate_block_ok self dil kT (G * oco) c1 K)
    as (kU & EkU & SkU & IkU); try assumption; try nia.
  rewrite EkU. cbn [bind].
  pose proof (getitem_flip kU [G * oco; c1] K SkU) as Eflip2.
  cbn [List.length repeat app] in Eflip2.
  rewrite ?LD, ?LX.
  assert (Efin : (if filter_flip self
                  then getitem kU
                         (slice_all :: slice_all
                            :: repeat (slice_step (-1)) (List.length K))
                  else Ok kU)
                 = Ok (flipped_if (filter_flip self) [G * oco; c1] K kU)).
  { unfold flipped_if. destruct (filter_flip self); [| reflexivity].
    apply Eflip2; [repeat constructor; try assumption; nia
                  | now apply Forall_pos_nonneg]. }
  rewrite Efin.
  eexists. split; [reflexivity |]. split.
  { now apply shape_flipped_if. }
  intros g n c k Hg Hn Hc Hk.
  assert (Hf : 0 <= g * oco + n < G * oco) by nia.
  assert (HvfK : Forall2 valid_view
                   (map (fun n => Strided (n - 1) (-1) n) K) K).
  { apply (axis_views_valid (repeat (slice_step (-1)) (List.length K))).
    - now apply Forall_pos_nonneg.
    - apply axis_views_flips. now apply Forall_pos_nonneg. }
  assert (HvfX : Forall2 valid_view
                   (map (fun n => Strided (n - 1) (-1) n) X) X).
  { apply (axis_views_valid (repeat (slice_step (-1)) (List.length X))).
    - now apply Forall_pos_nonneg.
    - apply axis_views_flips. now apply Forall_pos_nonneg. }
  assert (Hvs : Forall2 valid_view
                  (zip_with (fun s o => Strided 0 s o) (subsample self)
                     (strided_sizes X (subsample self))) X).
  { apply (axis_views_valid (map slice_step (subsample self))).
    - now apply Forall_pos_nonneg.
    - apply axis_views_strides; try assumption. lia. }
  assert (Hvd : Forall2 valid_view (step_views K (filter_dilation self)) D).
  { apply step_views_valid; try assumption. lia. }
  set (k1 := if filter_flip self
             then view_index (map (fun n => Strided (n - 1) (-1) n) K) k
             else k).
  assert (Hk1 : in_box K k1 = true).
  { unfold k1. destruct (filter_flip self); [| exact Hk].
    apply (view_index_in_box _ _ _ HvfK). now rewrite view_shape_flips. }
  assert (Egw : item (flipped_if (filter_flip self) [G * oco; c1] K kU)
                  ((g * oco + n) :: c :: k)
                = item kU ((g * oco + n) :: c :: k1)).
  { unfold flipped_if, k1. destruct (filter_flip self); [| reflexivity].
    cbn [gather item]. unfold flip_views. cbn [full_views map app].
    now rewrite !view_index_unit_cons. }
  rewrite Egw, IkU by (now apply in_box_length).
  set (y := view_index (step_views K (filter_dilation self)) k1).
  assert (Hy : in_box D y = true).
  { apply (view_index_in_box _ _ _ Hvd).
    unfold step_views. rewrite (view_shape_zip_strided K) by lia. exact Hk1. }
  rewrite IkT by (now apply in_box_length).
  rewrite IYw; try assumption; [| now rewrite Hcorr].
  unfold weights_item. apply sum_range_ext. intros b Hb.
  change (op_out_sizes self N K) with (strided_sizes X (subsample self)).
  set (sv := zip_with (fun s o => Strided 0 s o) (subsample self)
               (strided_sizes X (subsample self))) in *.
  set (fvX := map (fun n => Strided (n - 1) (-1) n) X) in *.
  set (ones := repeat 1 (Z.to_nat (convdim self))) in *.
  pose (rd := fun j : list Z =>
          conv_read "valid" Np (dilated X ones)
            (fun p => item Pg (c :: (g * B + b) :: p)) y
            (view_index (step_views X ones) j)).
  (* the flipped output gradient *)
  pose (hA := fun i j : list Z =>
          rmul (rd j) (item E (b :: (g * oco + n) :: i))).
  pose proof (sum_box_view fvX X hA HvfX) as EA.
  unfold fvX in EA at 3. rewrite view_shape_flips in EA. fold fvX in EA.
  rewrite (sum_box_ext X _ (fun m => hA (view_index fvX m) m)).
  2:{ intros m Hm. unfold hA, rd, Etf. cbn [gather item].
      unfold flip_views. cbn [full_views map app].
      rewrite !view_index_unit_cons. fold fvX.
      rewrite IEt; [reflexivity |].
      destruct (view_index_in_box fvX X m HvfX) as (Hin & _ & _).
      { unfold fvX. now rewrite view_shape_flips. }
      now apply in_box_length. }
  rewrite <- EA. clear EA.
  (* the output gradient at full resolution *)
  pose (hB := fun i j : list Z =>
          rmul (rd (view_inverse fvX i)) (item dO (b :: (g * oco + n) :: j))).
  pose proof (sum_box_view sv X hB Hvs) as EB.
  unfold sv in EB at 3.
  rewrite view_shape_zip_strides in EB
    by (rewrite strided_sizes_length; lia).
  fold sv in EB.
  rewrite (sum_box_ext X _
             (fun x => if in_view sv x then hB x (view_inverse sv x)
                       else rzero)).
  2:{ intros x Hx. unfold fvX. rewrite in_view_flips by exact Hx. fold fvX.
      unfold hA, hB. rewrite IE
        by (repeat (apply in_box_intro; [lia |]); exact Hx).
      rewrite item_scatter. unfold sub_views. cbn [full_views map app].
      fold sv.
      rewrite !in_view_unit_cons, !view_inverse_unit_cons by lia.
      destruct (in_view sv x); ring. }
  rewrite EB. clear EB.
  apply sum_box_ext. intros o Ho. unfold hB. f_equal.
  unfold rd, conv_read. cbn [String.eqb Ascii.eqb Bool.eqb].
  destruct (read_tap (filter_flip self) (subsample self)
              (filter_dilation self) K Np o k)
    as [_ Hin]; try assumption.
  pose proof (weights_tap (filter_flip self) (subsample self)
                (filter_dilation self) K Np o k (Z.to_nat (convdim self))
                Hcd' Lss Lfd LNp (eq_sym LK) Ho Hk) as Et'.
  unfold y, k1, fvX, sv, ones.
  change X with (valid_sizes Np (dilated K (filter_dilation self))).
  rewrite Et'.
  rewrite IPg, IPt, IP; try assumption; try reflexivity.
  - repeat (apply in_box_intro; [nia |]). exact Hin.
  - now apply in_box_length in Hin.
Qed.
End GradWeights.

(** ** Sums over channels and flipped sums *)

Lemma view_index_length (vs : list axis_view) (j : list Z) :
  List.length (view_index vs j) = List.length vs.
Proof.
  revert j. induction vs as [| v vs IH]; intros j; [reflexivity |].
  destruct v; [| destruct j]; cbn [view_index List.length]; now rewrite IH.
Qed.

Lemma step_views_length (K dil : list Z) :
  List.length K = List.length dil ->
  List.length (step_views K dil) = List.length K.
Proof. apply zip_with_length. Qed.

Lemma view_shape_shift (m X : list Z) :
  List.length m = List.length X -> view_shape (shift_views m X) = X.
Proof.
  revert m. induction X as [| x X IH]; intros m Hm.
  - destruct m; [reflexivity | discriminate].
  - destruct m as [| mi m]; [discriminate |].
    unfold shift_views, zip_with in *. cbn [combine map fst snd view_shape].
    f_equal. apply IH. simpl in Hm. lia.
Qed.

Lemma view_shape_pad (B C : Z) (N : list Z) (pads : list (Z * Z)) :
  List.length N = List.length pads ->
  view_shape (pad_views B C N pads) = B :: C :: N.
Proof.
  intros Hlen. unfold pad_views. cbn [view_shape]. do 2 f_equal.
  now apply (view_shape_zip_count N pads fst (fun _ => 1)).
Qed.

Lemma pad_views_valid (B C : Z) (N : list Z) (pads : list (Z * Z)) :
  0 <= B -> 0 <= C -> Forall (fun n => 0 <= n) N ->
  Forall (fun p => 0 <= fst p /\ 0 <= snd p) pads ->
  List.length N = List.length pads ->
  Forall2 valid_view (pad_views B C N pads) (B :: C :: padded N pads).
Proof.
  intros HB HC HN Hp Hlen.
  apply (axis_views_valid
           (slice_all :: slice_all
              :: zip_with (fun n p => slice_range (fst p) (n + fst p)) N pads)).
  - repeat constructor; try assumption. now apply padded_nonneg.
  - cbn [axis_views].
    change (index_view slice_all B) with (slice_view None None None B).
    change (index_view slice_all C) with (slice_view None None None C).
    rewrite !slice_view_all by assumption. cbn [bind].
    rewrite axis_views_regions by assumption. reflexivity.
Qed.

Section MoreSums.
Context {R : Type} `{Scalar R}.

Add Ring scalar_ring_more : scalar_ring.

Lemma sum_range_app (a b : Z) (f : Z -> R) :
  0 <= a -> 0 <= b ->
  sum_range (a + b) f
  = radd (sum_range a f) (sum_range b (fun i => f (a + i))).
Proof.
  intros Ha Hb. unfold sum_range.
  replace (Z.to_nat (a + b)) with (Z.to_nat a + Z.to_nat b)%nat by lia.
  induction (Z.to_nat b) as [| n IH].
  - rewrite Nat.add_0_r. simpl. ring.
  - rewrite Nat.add_succ_r. simpl. rewrite IH.
    replace (Z.of_nat (Z.to_nat a + n)) with (a + Z.of_nat n) by lia.
    ring.
Qed.

(** The channels of all groups, group by group. *)
Lemma sum_range_mul (G c1 : Z) (f : Z -> R) :
  0 <= G -> 0 <= c1 ->
  sum_range (G * c1) f
  = sum_range G (fun g => sum_range c1 (fun c => f (g * c1 + c))).
Proof.
  intros HG Hc. rewrite <- (Z2Nat.id G HG). clear HG.
  induction (Z.to_nat G) as [| n IH].
  - reflexivity.
  - replace (Z.of_nat (S n) * c1) with (Z.of_nat n * c1 + c1) by lia.
    rewrite sum_range_app by nia. rewrite IH.
    replace (Z.of_nat (S n)) with (Z.of_nat n + 1) by lia.
    rewrite sum_range_succ by lia. reflexivity.
Qed.

(** Summing over a flipped array. *)
Lemma sum_box_flip_if (ff : bool) (X : list Z) (a b : list Z -> R) :
  Forall (fun x => 0 <= x) X ->
  sum_box X (fun x =>
    rmul (a (if ff then view_index (map (fun n => Strided (n - 1) (-1) n) X) x
             else x)) (b x))
  = sum_box X (fun x =>
      rmul (a x)
           (b (if ff
               then view_inverse (map (fun n => Strided (n - 1) (-1) n) X) x
               else x))).
Proof.
  intros HX. destruct ff; [| reflexivity].
  assert (Hv : Forall2 valid_view (map (fun n => Strided (n - 1) (-1) n) X) X).
  { apply (axis_views_valid (repeat (slice_step (-1)) (List.length X)));
      [exact HX | now apply axis_views_flips]. }
  pose proof (sum_box_view _ _ (fun i j => rmul (a i) (b j)) Hv) as E.
  rewrite view_shape_flips in E. cbv beta in E. rewrite <- E.
  apply sum_box_ext. intros x Hx. now rewrite in_view_flips.
Qed.

Lemma item_flipped_if (ff : bool) (n0 n1 i0 i1 : Z) (K x : list Z)
    (a : ndarray R) :
  item (flipped_if ff [n0; n1] K a) (i0 :: i1 :: x)
  = item a (i0 :: i1
              :: (if ff
                  then view_index (map (fun n => Strided (n - 1) (-1) n) K) x
                  else x)).
Proof.
  unfold flipped_if. destruct ff; [| reflexivity].
  cbn [gather item]. unfold flip_views. cbn [full_views map app].
  now rewrite !view_index_unit_cons.
Qed.
End MoreSums.

(** ** The gradient with respect to the inputs *)

Lemma imshp_block_ok (im : list (option dim)) (cd B C kc : Z) (N : list Z) :
  cd = 2 \/ cd = 3 -> len N = cd ->
  imshp_matches im (B :: C :: N) ->
  exists c',
    mapM (fun i =>
        e <- py_nth im i ;;
        match e with
        | None => f <- py_nth (B :: kc :: N) i ;; Ok (Some f)
        | Some d => v <- dim_value d ;; Ok (Some v)
        end) (range (2 + cd))
    = Ok (map Some (B :: c' :: N)).
Proof.
  intros Hcd HN Him. unfold len in HN. unfold imshp_matches in Him.
  destruct Hcd as [-> | ->].
  - assert (L : List.length N = 2%nat) by lia. list_lengths.
    repeat match goal with
           | H : Forall2 _ _ (_ :: _) |- _ => inversion H; clear H; subst
           | H : Forall2 _ _ [] |- _ => inversion H; clear H; subst
           end.
    change (range (2 + 2)) with [0; 1; 2; 3]%nat.
    repeat match goal with
           | H : _ = None \/ _ = Some _ |- _ => destruct H as [-> | ->]
           end;
      (eexists; cbn [mapM py_nth nth_error bind dim_value map]; reflexivity).
  - assert (L : List.length N = 3%nat) by lia. list_lengths.
    repeat match goal with
           | H : Forall2 _ _ (_ :: _) |- _ => inversion H; clear H; subst
           | H : Forall2 _ _ [] |- _ => inversion H; clear H; subst
           end.
    change (range (2 + 3)) with [0; 1; 2; 3; 4]%nat.
    repeat match goal with
           | H : _ = None \/ _ = Some _ |- _ => destruct H as [-> | ->]
           end;
      (eexists; cbn [mapM py_nth nth_error bind dim_value map]; reflexivity).
Qed.

Lemma mapM_py_nth_all {A : Type} (l : list A) (n : Z) :
  len l = n -> mapM (fun i => py_nth l i) (range n) = Ok l.
Proof.
  intros <-. unfold len. destruct l as [| d l]; [reflexivity |].
  rewrite (mapM_range_ok _ (fun i => nth i (d :: l) d)).
  - rewrite (map_seq_nth (fun x => x)). now rewrite map_id.
  - intros i Hi. now apply py_nth_ok.
Qed.

Lemma new_spatial_pads_ok (cd : Z) (N D : list Z) (pads : list (Z * Z)) :
  len N = cd -> len D = cd -> len pads = cd ->
  mapM (fun i =>
      n <- py_nth N i ;;
      p <- py_nth pads i ;;
      d <- py_nth D i ;;
      Ok (n + fst p + snd p - d + 1)) (range cd)
  = Ok (valid_sizes (padded N pads) D).
Proof.
  intros HN HD Hp. unfold len in *. rewrite <- HN.
  rewrite (mapM_range_ok _
             (fun i => nth i N 0 + fst (nth i pads (0, 0))
                       + snd (nth i pads (0, 0)) - nth i D 0 + 1)).
  - f_equal. unfold valid_sizes.
    rewrite <- (map_seq_zip_with (fun n d => n - d + 1) (padded N pads) D 0 0)
      by (rewrite padded_length; lia).
    rewrite padded_length by lia.
    apply map_ext_in. intros i Hi. apply in_seq in Hi.
    unfold padded. rewrite (zip_with_nth _ _ _ _ 0 (0, 0)) by lia.
    reflexivity.
  - intros i Hi. rewrite (py_nth_ok _ _ 0) by exact Hi. cbn [bind].
    rewrite (py_nth_ok _ _ (0, 0)) by lia. cbn [bind].
    rewrite (py_nth_ok _ _ 0) by lia. reflexivity.
Qed.

(** The views of [img[:, :, pl0:n0 - pr0, ...]] on the padded axes. *)
Lemma axis_views_crop (N : list Z) (pads : list (Z * Z)) :
  Forall (fun n => 0 <= n) N ->
  Forall (fun p => 0 <= fst p /\ 0 <= snd p) pads ->
  List.length N = List.length pads ->
  axis_views (zip_with (fun n p => slice_range (fst p) (n - snd p))
                (padded N pads) pads)
    (padded N pads)
  = Ok (zip_with (fun n p => Strided (fst p) 1 n) N pads).
Proof.
  intros HN. revert pads. induction HN as [| n N Hn _ IH]; intros pads Hp Hlen.
  - destruct pads; [reflexivity | discriminate].
  - destruct Hp as [| p pads [Hp1 Hp2] Hp]; [discriminate |].
    unfold padded, zip_with. cbn [combine map fst snd axis_views].
    change (index_view (slice_range (fst p) (n + fst p + snd p - snd p))
              (n + fst p + snd p))
      with (slice_view (Some (fst p)) (Some (n + fst p + snd p - snd p)) None
              (n + fst p + snd p)).
    rewrite slice_view_range by lia.
    replace (n + fst p + snd p - snd p - fst p) with n by lia. cbn [bind].
    fold (zip_with (fun n p => n + fst p + snd p) N pads).
    fold (padded N pads).
    fold (zip_with (fun n p => slice_range (fst p) (n - snd p))
            (padded N pads) pads).
    rewrite IH by (simpl in Hlen; auto; lia). reflexivity.
Qed.

Section GradInputs.
Context {R : Type} `{Scalar R}.

Add Ring scalar_ring_gi : scalar_ring.

(** The expected shape of the output gradient is the shape of the output of
    the forward operator. *)
Lemma expected_topgrad_shape_ok (self : ConvOp) (kern topgrad : ndarray R)
    (B C F kc : Z) (N krest K trest : list Z) :
  op_ok self -> len N = convdim self -> len K = convdim self ->
  imshp_matches (imshp self) (B :: C :: N) ->
  shape topgrad = B :: trest ->
  shape kern = F :: krest ++ K ->
  py_index (shape kern) (- convdim self - 1) = Ok kc ->
  gradInputs_expected_topgrad_shape self kern topgrad N
  = Ok (map Some (B :: F :: op_out_sizes self N K)).
Proof.
  intros (Hcd & Hbm & Hss & Hfd & HG & _ & Hss1 & Hfd1) HN HK Him Ht Hk Hkc.
  unfold gradInputs_expected_topgrad_shape. cbv zeta.
  rewrite Ht. cbn [py_nth nth_error bind]. rewrite Hkc. cbn [bind].
  rewrite mapM_py_nth_all by exact HN. cbn [bind].
  destruct (imshp_block_ok (imshp self) (convdim self) B C kc N Hcd HN Him)
    as (c' & ->).
  cbn [bind]. rewrite Hk.
  unfold len in *.
  rewrite get_conv_output_shape_ok; try lia; try assumption.
  - rewrite conv_out_sizes_pads by (rewrite ?dilated_length; lia).
    reflexivity.
  - unfold len. replace (Z.of_nat (List.length N)) with (convdim self) by lia.
    exact Hbm.
  - eapply Forall_impl; [| exact Hss1]. intros s Hs. cbv beta in Hs. lia.
Qed.

(** With one kernel for all positions the two gradients regroup the
    channels in the same way. *)
Lemma gradInputs_correct_for_groups_shared (self : ConvOp) (mat : ndarray R) :
  unshared self = false -> ndim mat = 2 + convdim self ->
  0 <= convdim self ->
  gradInputs_correct_for_groups self mat
  = gradWeights_correct_for_groups self mat.
Proof.
  intros Hus Hnd Hcd.
  unfold gradInputs_correct_for_groups, gradWeights_correct_for_groups.
  rewrite Hus.
  assert (E : py_index (shape mat) (- convdim self - 1) = py_nth (shape mat) 1).
  { unfold py_index, ndim in *.
    destruct (Z.ltb_spec (- convdim self - 1) 0); [| lia].
    rewrite Hnd.
    destruct (Z.ltb_spec (- convdim self - 1 + (2 + convdim self)) 0); [lia |].
    f_equal. lia. }
  rewrite E. reflexivity.
Qed.

(** The block that takes the image out of the padded image. *)
Lemma crop_block_ok (self : ConvOp) (Z' : ndarray R) (B C : Z) (N : list Z)
    (pads : list (Z * Z)) :
  shape Z' = B :: C :: padded N pads ->
  len N = convdim self -> len pads = convdim self ->
  0 <= B -> 0 <= C -> Forall (fun n => 0 <= n) N ->
  Forall (fun p => 0 <= fst p /\ 0 <= snd p) pads ->
  exists gi,
    (if existsb (fun p => negb (pad_is_zero p)) pads then
       region <- mapM (fun i =>
           n <- py_nth (shape Z') (i + 2) ;;
           p <- py_nth pads i ;;
           Ok (slice_range (fst p) (n - snd p))) (range (convdim self)) ;;
       getitem Z' (slice_all :: slice_all :: region)
     else Ok Z') = Ok gi
    /\ shape gi = B :: C :: N
    /\ forall j, in_box (B :: C :: N) j = true ->
         item gi j = item Z' (view_index (pad_views B C N pads) j).
Proof.
  intros HZ HN Hp HB HC HN0 Hp0. unfold len in *.
  assert (Hlen : List.length N = List.length pads) by lia.
  destruct (existsb (fun p => negb (pad_is_zero p)) pads) eqn:E.
  - rewrite HZ. rewrite <- HN.
    rewrite <- (padded_length N pads Hlen).
    rewrite (mapM_range_ok _
               (fun i => (fun n p => slice_range (fst p) (n - snd p))
                           (nth i (padded N pads) 0) (nth i pads (0, 0)))).
    2:{ intros i Hi'. rewrite py_nth_skip2, (py_nth_ok _ _ 0) by exact Hi'.
        cbn [bind]. rewrite (py_nth_ok _ _ (0, 0))
          by (rewrite padded_length in Hi' by exact Hlen; lia).
        reflexivity. }
    rewrite (map_seq_zip_with (fun n p => slice_range (fst p) (n - snd p))
               (padded N pads) pads 0 (0, 0))
      by (rewrite padded_length; lia).
    cbn [bind]. unfold getitem. rewrite HZ.
    rewrite index_views_full.
    2:{ cbn [forallb is_ellipsis slice_all negb andb].
        apply forallb_no_ellipsis_map. intros [x p]. reflexivity. }
    2:{ cbn [List.length]. rewrite zip_with_length; [reflexivity |].
        rewrite padded_length; lia. }
    cbn [axis_views].
    change (index_view slice_all B) with (slice_view None None None B).
    change (index_view slice_all C) with (slice_view None None None C).
    rewrite !slice_view_all by assumption. cbn [bind].
    rewrite axis_views_crop by assumption. cbn [bind].
    fold (pad_views B C N pads).
    eexists. split; [reflexivity |]. split.
    + cbn [gather shape]. unfold pad_views. cbn [view_shape]. do 2 f_equal.
      now apply (view_shape_zip_count N pads fst (fun _ => 1)).
    + intros j _. reflexivity.
  - exists Z'. split; [reflexivity |].
    destruct (padded_no_pads N pads E Hlen) as [E1 E2].
    rewrite E1 in HZ. split; [exact HZ |].
    intros j Hj. unfold pad_views. rewrite E2.
    change (Strided 0 1 B :: Strided 0 1 C :: full_views N)
      with (full_views (B :: C :: N)).
    rewrite view_index_full by (now apply in_box_length). reflexivity.
Qed.

(** [AbstractConv_gradInputs.perform] with one kernel for all positions. *)
Lemma gradInputs_shared_ok (self : ConvOp) (kern dO : ndarray R)
    (B c1 oco : Z) (N K : list Z) :
  op_ok self -> unshared self = false -> sizes_ok self N K ->
  0 <= B -> 0 <= c1 -> 0 <= oco ->
  imshp_matches (imshp self) (B :: num_groups self * c1 :: N) ->
  shape kern = num_groups self * oco :: c1 :: K ->
  shape dO = B :: num_groups self * oco :: op_out_sizes self N K ->
  exists gi,
    AbstractConv_gradInputs_perform self kern dO N = Ok gi
    /\ shape gi = B :: num_groups self * c1 :: N
    /\ forall dI : ndarray R,
         sum_box (B :: num_groups self * c1 :: N)
           (fun j => rmul (item gi j) (item dI j))
         = conv_form self B c1 oco N K (item dO)
             (item (zero_padded B (num_groups self * c1) N (op_pads self K)
                      dI))
             (item kern).
Proof.
  intros Hop Hus (HN & HK & HN1 & HK1 & Hfit) HB Hc1 Hoco Him Hk Ht.
  pose proof Hop as (Hcd & Hbm & Hss & Hfd & HG & _ & Hss1 & Hfd1).
  set (G := num_groups self) in *.
  set (D := op_dilated self K) in *.
  set (pads := op_pads self K) in *.
  set (Np := op_padded self N K) in *.
  set (X := op_full_res self N K) in *.
  assert (LK : List.length K = Z.to_nat (convdim self)) by (unfold len in HK; lia).
  assert (LN : List.length N = List.length K) by (unfold len in *; lia).
  assert (Lss : List.length (subsample self) = List.length K)
    by (unfold len in *; lia).
  assert (Lfd : List.length (filter_dilation self) = List.length K)
    by (unfold len in *; lia).
  assert (LD : List.length D = List.length K)
    by (apply dilated_length; lia).
  assert (HD1 : Forall (fun d => 1 <= d) D) by (now apply dilated_pos).
  assert (Lp : List.length pads = List.length K)
    by (unfold pads, op_pads; rewrite pads_of_length; exact LD).
  assert (Hp0 : Forall (fun p => 0 <= fst p /\ 0 <= snd p) pads).
  { apply (pads_of_nonneg (convdim self)); try assumption.
    unfold len in *. change (op_dilated self K) with D. lia. }
  assert (LNp : List.length Np = List.length K)
    by (unfold Np, op_padded; rewrite padded_length; fold pads; lia).
  assert (LX : List.length X = List.length K)
    by (unfold X, op_full_res, valid_sizes; rewrite zip_with_length;
        fold Np D; lia).
  assert (HNp1 : Forall (fun n => 0 <= n) Np).
  { apply padded_nonneg; [now apply Forall_pos_nonneg | exact Hp0]. }
  assert (HNpos : Forall (fun n => 1 <= n) Np) by (now apply padded_pos).
  assert (HlenD : len (dilated K (filter_dilation self)) = convdim self).
  { unfold len in *. rewrite dilated_length; lia. }
  assert (Hcd' : List.length K = 2%nat \/ List.length K = 3%nat)
    by (destruct Hcd as [E | E]; rewrite E in LK; [left | right]; exact LK).
  unfold AbstractConv_gradInputs_perform.
  rewrite Hus. cbn [andb].
  assert (Hkc : py_index (shape kern) (- convdim self - 1) = Ok c1).
  { rewrite Hk. unfold py_index, len. cbn [List.length].
    destruct (Z.ltb_spec (- convdim self - 1) 0); [| lia].
    destruct (Z.ltb_spec (- convdim self - 1
                          + Z.of_nat (S (S (List.length K)))) 0); [lia |].
    replace (Z.to_nat _) with 1%nat by lia. reflexivity. }
  rewrite (expected_topgrad_shape_ok self kern dO B (G * c1) (G * oco) c1
             N [c1] K (G * oco :: op_out_sizes self N K));
    try assumption.
  rewrite Hk. change (G * oco :: c1 :: K) with ([G * oco; c1] ++ K).
  rewrite dilated_shape_ok by (unfold len in *; lia).
  cbn [bind].
  rewrite (border_mode_to_pad_ok (convdim self)) by assumption.
  cbn [bind].
  change (dilated K (filter_dilation self)) with D.
  change (pads_of (border_mode self) D) with pads.
  rewrite Ht. rewrite list_eqb_opt_some. cbn [negb].
  destruct (any_subsample_ok self Hss) as (sub & Esub & Hsub).
  rewrite Esub. cbn [bind].
  (* the output gradient at full resolution *)
  destruct (expand_block_ok self sub dO B (G * oco) X)
    as (E & EE & SE & IE); try assumption; try lia; try nia.
  assert (Eexp : (if sub
                  then new_spatial <-
                         mapM (fun i =>
                                 n <- py_nth N i ;;
                                 p <- py_nth pads i ;;
                                 d <- py_nth D i ;;
                                 Ok (n + fst p + snd p - d + 1))
                           (range (convdim self)) ;;
                       topgrad <- expand_topgrad self dO new_spatial ;;
                       Ok (topgrad, kern)
                  else Ok (dO, kern))
                 = Ok (E, kern)).
  { destruct sub.
    - rewrite (new_spatial_pads_ok (convdim self) N D pads)
        by (unfold len in *; lia).
      cbn [bind]. change (valid_sizes (padded N pads) D) with X.
      rewrite EE. reflexivity.
    - now injection EE as ->. }
  rewrite Eexp. clear Eexp. cbn [bind].
  (* the kernel with its channels regrouped *)
  rewrite gradInputs_correct_for_groups_shared;
    [| exact Hus | unfold ndim, len in *; rewrite Hk; cbn [List.length]; lia
     | lia].
  destruct (gradWeights_correct_for_groups_ok self kern oco c1 K)
    as (r & Er & Sr & Ir); try assumption; try (now apply Forall_pos_nonneg).
  rewrite Er. cbn [bind].
  assert (Hrange : range_from 2 (2 + convdim self) = seq 2 (List.length K))
    by (apply range_from_seq; lia).
  rewrite Hrange.
  destruct (transpose_swap_ok r oco (c1 * G) K Sr) as (k3 & Ek3 & Sk3 & Ik3);
    [lia |].
  rewrite Ek3. cbn [bind].
  pose proof (getitem_flip E [B; G * oco] X SE) as Eflip.
  cbn [List.length repeat app] in Eflip.
  replace (Z.to_nat (convdim self)) with (List.length X) by lia.
  assert (EEf : (if filter_flip self
                 then getitem E
                        (slice_all :: slice_all
                           :: repeat (slice_step (-1)) (List.length X))
                 else Ok E)
                = Ok (flipped_if (filter_flip self) [B; G * oco] X E)).
  { unfold flipped_if. destruct (filter_flip self); [| reflexivity].
    apply Eflip; [repeat constructor; try assumption; nia
                 | now apply Forall_pos_nonneg]. }
  rewrite EEf. cbn [bind].
  set (Ef := flipped_if (filter_flip self) [B; G * oco] X E).
  assert (SEf : shape Ef = B :: G * oco :: X)
    by (unfold Ef; now apply (shape_flipped_if _ [B; G * oco] X)).
  assert (Sk3' : shape k3 = G * c1 :: oco :: K)
    by (rewrite Sk3; f_equal; ring).
  fold G.
  destruct (conv_shared_spec self Ef k3 "full" (filter_dilation self)
              "forward" B oco G c1 X K)
    as (W & EW & SW & IW); try assumption; try reflexivity;
    try (unfold len in *; lia); auto; try discriminate.
  rewrite EW. cbn [bind].
  change (conv_sizes "full" X (dilated K (filter_dilation self)))
    with (full_sizes X D) in *.
  assert (Efull : full_sizes X D = Np)
    by (apply (full_of_valid_sizes Np D); lia).
  rewrite Efull in *.
  pose proof (getitem_flip W [B; G * c1] Np SW) as Eflip2.
  cbn [List.length repeat app] in Eflip2.
  rewrite LX, <- LNp.
  assert (EZ : (if filter_flip self
                then getitem W
                       (slice_all :: slice_all
                          :: repeat (slice_step (-1)) (List.length Np))
                else Ok W)
               = Ok (flipped_if (filter_flip self) [B; G * c1] Np W)).
  { unfold flipped_if. destruct (filter_flip self); [| reflexivity].
    apply Eflip2; [repeat constructor; try assumption; nia | assumption]. }
  rewrite EZ. cbn [bind].
  set (Z' := flipped_if (filter_flip self) [B; G * c1] Np W).
  assert (SZ : shape Z' = B :: G * c1 :: padded N pads)
    by (unfold Z'; now apply (shape_flipped_if _ [B; G * c1] Np)).
  destruct (crop_block_ok self Z' B (G * c1) N pads)
    as (gi & Egi & Sgi & Igi); try assumption; try (unfold len in *; lia);
    try nia; try (now apply Forall_pos_nonneg).
  rewrite Egi.
  exists gi. split; [reflexivity |]. split; [exact Sgi |].
  intros dI.
  change (padded N pads) with Np in SZ.
  set (padv := pad_views B (G * c1) N pads) in *.
  set (Pz := item (zero_padded B (G * c1) N pads dI)).
  assert (Hvpad : Forall2 valid_view padv (B :: G * c1 :: Np)).
  { apply pad_views_valid; try assumption; try nia; try lia.
    now apply Forall_pos_nonneg. }
  pose proof (sum_box_view padv (B :: G * c1 :: Np)
                (fun i j => rmul (item Z' i) (item dI j)) Hvpad) as Epad.
  unfold padv in Epad at 3. rewrite view_shape_pad in Epad by lia.
  fold padv in Epad. cbv beta in Epad.
  rewrite (sum_box_ext _ _
             (fun j => rmul (item Z' (view_index padv j)) (item dI j)))
    by (intros j Hj; now rewrite Igi).
  rewrite <- Epad. clear Epad.
  rewrite (sum_box_ext _ _ (fun i => rmul (item Z' i) (Pz i))).
  2:{ intros i _. unfold Pz, zero_padded. rewrite item_scatter. fold padv.
      destruct (in_view padv i); ring. }
  cbn [sum_box]. unfold conv_form. fold G.
  apply sum_range_ext. intros b Hb.
  rewrite sum_range_mul by lia.
  apply sum_range_ext. intros g Hg.
  etransitivity; [| symmetry; apply sum_range_swap].
  apply sum_range_ext. intros c Hc.
  (* the flip of the result *)
  set (fvNp := map (fun n => Strided (n - 1) (-1) n) Np).
  set (fvX := map (fun n => Strided (n - 1) (-1) n) X).
  set (sv := zip_with (fun s o => Strided 0 s o) (subsample self)
               (strided_sizes X (subsample self))).
  rewrite (sum_box_ext Np _
             (fun p => rmul ((fun y => item W (b :: (g * c1 + c) :: y))
                               (if filter_flip self
                                then view_index fvNp p else p))
                            ((fun q => Pz (b :: (g * c1 + c) :: q)) p)))
    by (intros p _; unfold Z'; now rewrite item_flipped_if).
  etransitivity;
    [exact (sum_box_flip_if (filter_flip self) Np
              (fun y => item W (b :: (g * c1 + c) :: y))
              (fun q => Pz (b :: (g * c1 + c) :: q)) HNp1) |].
  fold fvNp. cbv beta.
  (* the full convolution *)
  pose (m := fun k : list Z =>
               view_index (step_views K (filter_dilation self)) k).
  pose (fl := fun y : list Z =>
                if filter_flip self then view_inverse fvNp y else y).
  pose (t := fun (n : Z) (k y : list Z) =>
          rmul (rmul (if in_box X (vsub y (m k))
                      then item Ef (b :: (g * oco + n) :: vsub y (m k))
                      else rzero)
                     (item kern ((g * oco + n) :: c :: k)))
               (Pz (b :: (g * c1 + c) :: fl y))).
  rewrite (sum_box_ext Np _
             (fun y => sum_range oco (fun n => sum_box K (fun k => t n k y)))).
  2:{ intros y Hy. rewrite IW by assumption.
      rewrite <- sum_range_scale_r. apply sum_range_ext. intros n Hn.
      rewrite <- sum_box_scale_r. apply sum_box_ext. intros k Hk'.
      unfold t, m, fl, conv_read. cbn [String.eqb Ascii.eqb Bool.eqb].
      rewrite Ik3 by (now apply in_box_length).
      rewrite Ir by assumption. reflexivity. }
  rewrite sum_box_range_swap. apply sum_range_ext. intros n Hn.
  rewrite sum_box_swap.
  change (op_out_sizes self N K) with (strided_sizes X (subsample self)).
  etransitivity;
    [| apply (sum_box_swap K (strided_sizes X (subsample self))
                (fun k o =>
                   rmul (item dO (b :: (g * oco + n) :: o))
                     (rmul (Pz (b :: (g * c1 + c)
                                  :: tap (filter_flip self) (subsample self)
                                       (filter_dilation self) K o k))
                           (item kern ((g * oco + n) :: c :: k)))))].
  apply sum_box_ext. intros k Hk'.
  (* the window of the kernel element *)
  set (sh := shift_views (m k) X).
  assert (Lm : List.length (m k) = List.length X).
  { unfold m. rewrite view_index_length, step_views_length; lia. }
  assert (Hsh : Forall2 valid_view sh Np).
  { unfold sh, m.
    apply (shift_views_valid (subsample self) (filter_dilation self) K Np k);
      assumption. }
  pose (h := fun y x : list Z =>
          rmul (rmul (item Ef (b :: (g * oco + n) :: x))
                     (item kern ((g * oco + n) :: c :: k)))
               (Pz (b :: (g * c1 + c) :: fl y))).
  rewrite (sum_box_ext Np _
             (fun y => if in_view sh y then h y (view_inverse sh y)
                       else rzero)).
  2:{ intros y Hy.
      destruct (in_view_shift (m k) X y Lm) as [I1 I2].
      { apply in_box_length in Hy. lia. }
      unfold sh. rewrite I1, I2. unfold t, h.
      destruct (in_box X (vsub y (m k))); ring. }
  rewrite (sum_box_view sh Np h Hsh).
  unfold sh at 1. rewrite view_shape_shift by exact Lm.
  (* the flip of the output gradient *)
  unfold h.
  rewrite (sum_box_ext X _
             (fun x => rmul ((fun x' => item E (b :: (g * oco + n) :: x'))
                               (if filter_flip self
                                then view_index fvX x else x))
                            ((fun x' =>
                                rmul (item kern ((g * oco + n) :: c :: k))
                                     (Pz (b :: (g * c1 + c)
                                            :: fl (view_index sh x')))) x))).
  2:{ intros x _. unfold Ef. rewrite item_flipped_if. fold fvX. ring. }
  etransitivity;
    [exact (sum_box_flip_if (filter_flip self) X
              (fun x' => item E (b :: (g * oco + n) :: x'))
              (fun x' => rmul (item kern ((g * oco + n) :: c :: k))
                              (Pz (b :: (g * c1 + c) :: fl (view_index sh x'))))
              (Forall_pos_nonneg X Hfit)) |].
  fold fvX. cbv beta.
  (* the output gradient at full resolution *)
  assert (Hvs : Forall2 valid_view sv X).
  { apply (axis_views_valid (map slice_step (subsample self))).
    - now apply Forall_pos_nonneg.
    - apply axis_views_strides; try assumption. lia. }
  pose (hB := fun x o : list Z =>
          rmul (item dO (b :: (g * oco + n) :: o))
               (rmul (item kern ((g * oco + n) :: c :: k))
                     (Pz (b :: (g * c1 + c)
                            :: fl (view_index sh
                                     (if filter_flip self
                                      then view_inverse fvX x else x)))))).
  rewrite (sum_box_ext X _
             (fun x => if in_view sv x then hB x (view_inverse sv x)
                       else rzero)).
  2:{ intros x Hx. rewrite IE
        by (repeat (apply in_box_intro; [nia |]); exact Hx).
      rewrite item_scatter. unfold sub_views. cbn [full_views map app].
      fold sv.
      rewrite !in_view_unit_cons, !view_inverse_unit_cons by nia.
      unfold hB. destruct (in_view sv x); ring. }
  rewrite (sum_box_view sv X hB Hvs).
  unfold sv at 1.
  rewrite view_shape_zip_strides by (rewrite strided_sizes_length; lia).
  apply sum_box_ext. intros o Ho. unfold hB, fl, sh, m.
  pose proof (inputs_tap (filter_flip self) (subsample self)
                (filter_dilation self) K Np o k Hcd' Lss Lfd LNp Ho Hk')
    as Etap.
  cbv beta in Etap.
  change (valid_sizes Np (dilated K (filter_dilation self))) with X in Etap.
  fold fvNp fvX sv in Etap. rewrite Etap. ring.
Qed.
End GradInputs.

(** ** Convolutions with a kernel for each position *)

Lemma any_upto_true (n a : Z) (q : Z -> bool) :
  0 <= a < n -> q a = true -> any_upto n q = true.
Proof.
  intros Ha Hq. unfold any_upto. apply existsb_exists.
  exists (Z.to_nat a). split.
  - apply in_seq. lia.
  - now rewrite Z2Nat.id by lia.
Qed.

Section Overwrites.
Context {R : Type} `{Scalar R}.

Add Ring scalar_ring_sets : scalar_ring.

Lemma sets_for_range (shp : list Z) (n : Z)
    (body : Z -> ndarray R -> result (ndarray R))
    (p : Z -> list Z -> bool) (v : list Z -> R) :
  (forall k, 0 <= k < n -> sets shp (body k) (p k) v) ->
  sets shp (for_range n body) (fun i => any_upto n (fun k => p k i)) v.
Proof.
  intros Hbody s Hs. unfold for_range, any_upto.
  assert (G : forall m : nat, Z.of_nat m <= Z.max 0 n ->
    exists s', for_upto m body s = Ok s' /\ shape s' = shp
               /\ forall i, in_box shp i = true ->
                   item s' i
                   = if existsb (fun k => p (Z.of_nat k) i) (seq 0 m)
                     then v i else item s i).
  { induction m as [| m IH]; intros Hm.
    - exists s. repeat split; auto.
    - destruct IH as (s1 & E1 & S1 & I1); [lia |].
      destruct (Hbody (Z.of_nat m) ltac:(lia) s1 S1) as (s2 & E2 & S2 & I2).
      exists s2. simpl for_upto. rewrite E1. cbn [bind].
      repeat split; auto.
      intros i Hi. rewrite I2, I1 by exact Hi.
      rewrite seq_S, existsb_app. cbn [existsb Nat.add].
      rewrite orb_false_r.
      destruct (p (Z.of_nat m) i); [now rewrite orb_true_r |].
      now rewrite orb_false_r. }
  apply G. lia.
Qed.

Lemma sets_ext (shp : list Z) (body : ndarray R -> result (ndarray R))
    (p : list Z -> bool) (v v' : list Z -> R) :
  (forall i, in_box shp i = true -> p i = true -> v i = v' i) ->
  sets shp body p v -> sets shp body p v'.
Proof.
  intros E Hb s Hs. destruct (Hb s Hs) as (s' & E1 & S1 & I1).
  exists s'. repeat split; auto. intros i Hi. rewrite I1 by exact Hi.
  destruct (p i) eqn:Ep; [now apply E | reflexivity].
Qed.

(** [out[ixs] = v] *)
Lemma sets_setitem (shp : list Z) (ixs : list index) (vs : list axis_view)
    (v : ndarray R) :
  index_views shp ixs = Ok vs ->
  shape v = view_shape vs ->
  sets shp (fun s => setitem s ixs v) (in_view vs)
    (fun i => item v (view_inverse vs i)).
Proof.
  intros Hvs Hv s Hs. unfold setitem. rewrite Hs, Hvs. cbn [bind].
  rewrite Hv, shape_eqb_refl.
  eexists. split; [reflexivity |]. split; [exact Hs |].
  intros i _. reflexivity.
Qed.

(** [out[i0, i1] = c] *)
Lemma sets_setscalar (n0 n1 i0 i1 : Z) (c : R) :
  0 <= i0 < n0 -> 0 <= i1 < n1 ->
  sets [n0; n1] (fun s => setscalar s [i0; i1] c)
    (in_view [Fixed i0; Fixed i1]) (fun _ => c).
Proof.
  intros H0 H1 s Hs. unfold setscalar. rewrite Hs.
  unfold index_views.
  cbn [map filter is_ellipsis negb List.length Nat.ltb Nat.leb Nat.sub
       expand_ellipsis repeat axis_views].
  rewrite !index_view_idx by assumption. cbn [bind view_shape].
  eexists. split; [reflexivity |]. split; [reflexivity |].
  intros i _. reflexivity.
Qed.
End Overwrites.

(** ** The three operators and the sum they share *)

Section AdjointShared.
Context {R : Type} `{Scalar R}.

Add Ring scalar_ring_adjoint : scalar_ring.

(** The inner product of an output gradient with the output of the forward
    operator. *)
Lemma forward_dot_form (self : ConvOp) (B c1 oco : Z) (N K : list Z)
    (dO out : ndarray R) (P kern : list Z -> R) :
  0 <= num_groups self -> 0 <= oco ->
  shape dO = B :: num_groups self * oco :: op_out_sizes self N K ->
  (forall b g n o, 0 <= b < B -> 0 <= g < num_groups self -> 0 <= n < oco ->
     in_box (op_out_sizes self N K) o = true ->
     item out (b :: (g * oco + n) :: o)
     = forward_item self c1 oco K P kern b g n o) ->
  dot dO out = conv_form self B c1 oco N K (item dO) P kern.
Proof.
  intros HG Ho Hs Hout. unfold dot, conv_form. rewrite Hs.
  cbn [sum_box]. apply sum_range_ext. intros b Hb.
  rewrite sum_range_mul by assumption.
  apply sum_range_ext. intros g Hg. apply sum_range_ext. intros n Hn.
  transitivity (sum_box (op_out_sizes self N K) (fun o =>
    sum_range c1 (fun c =>
      sum_box K (fun k =>
        rmul (item dO (b :: (g * oco + n) :: o))
          (rmul (P (b :: (g * c1 + c)
                      :: tap (filter_flip self) (subsample self)
                           (filter_dilation self) K o k))
                (kern ((g * oco + n) :: c :: k))))))).
  - apply sum_box_ext. intros o Hbox.
    rewrite (Hout b g n o Hb Hg Hn Hbox). unfold forward_item.
    rewrite <- sum_range_scale. apply sum_range_ext. intros c Hc.
    rewrite <- sum_box_scale. reflexivity.
  - exact (sum_box_range_swap (op_out_sizes self N K) c1 (fun o c =>
      sum_box K (fun k =>
        rmul (item dO (b :: (g * oco + n) :: o))
          (rmul (P (b :: (g * c1 + c)
                      :: tap (filter_flip self) (subsample self)
                           (filter_dilation self) K o k))
                (kern ((g * oco + n) :: c :: k)))))).
Qed.

(** The inner product of the gradient with respect to the weights with a
    kernel. *)
Lemma weights_dot_form (self : ConvOp) (B c1 oco : Z) (N K : list Z)
    (gw dK : ndarray R) (P dO : list Z -> R) :
  0 <= num_groups self -> 0 <= oco ->
  shape gw = num_groups self * oco :: c1 :: K ->
  (forall g n c k, 0 <= g < num_groups self -> 0 <= n < oco -> 0 <= c < c1 ->
     in_box K k = true ->
     item gw ((g * oco + n) :: c :: k)
     = weights_item self B c1 oco N K P dO g n c k) ->
  dot gw dK = conv_form self B c1 oco N K dO P (item dK).
Proof.
  intros HG Ho Hs Hgw. unfold dot, conv_form. rewrite Hs.
  cbn [sum_box]. rewrite sum_range_mul by assumption.
  set (O := op_out_sizes self N K).
  set (t := fun b g n c o k =>
    rmul (dO (b :: (g * oco + n) :: o))
      (rmul (P (b :: (g * c1 + c)
                  :: tap (filter_flip self) (subsample self)
                       (filter_dilation self) K o k))
            (item dK ((g * oco + n) :: c :: k)))).
  change (sum_range (num_groups self) (fun g =>
            sum_range oco (fun n =>
              sum_range c1 (fun c =>
                sum_box K (fun k =>
                  rmul (item gw ((g * oco + n) :: c :: k))
                       (item dK ((g * oco + n) :: c :: k))))))
          = sum_range B (fun b =>
              sum_range (num_groups self) (fun g =>
                sum_range oco (fun n =>
                  sum_range c1 (fun c =>
                    sum_box O (fun o => sum_box K (fun k => t b g n c o k))))))).
  transitivity (sum_range (num_groups self) (fun g =>
    sum_range oco (fun n =>
      sum_range c1 (fun c =>
        sum_range B (fun b =>
          sum_box O (fun o => sum_box K (fun k => t b g n c o k))))))).
  - apply sum_range_ext. intros g Hg. apply sum_range_ext. intros n Hn.
    apply sum_range_ext. intros c Hc.
    transitivity (sum_box K (fun k =>
      sum_range B (fun b => sum_box O (fun o => t b g n c o k)))).
    + apply sum_box_ext. intros k Hk.
      rewrite (Hgw g n c k Hg Hn Hc Hk). unfold weights_item. fold O.
      rewrite <- sum_range_scale_r. apply sum_range_ext. intros b Hb.
      rewrite <- sum_box_scale_r. apply sum_box_ext. intros o Hbox.
      unfold t. ring.
    + rewrite (sum_box_range_swap K B (fun k b =>
        sum_box O (fun o => t b g n c o k))).
      apply sum_range_ext. intros b Hb.
      exact (sum_box_swap K O (fun k o => t b g n c o k)).
  - rewrite (sum_range_swap B (num_groups self) (fun b g =>
      sum_range oco (fun n =>
        sum_range c1 (fun c =>
          sum_box O (fun o => sum_box K (fun k => t b g n c o k)))))).
    apply sum_range_ext. intros g Hg.
    rewrite (sum_range_swap B oco (fun b n =>
      sum_range c1 (fun c =>
        sum_box O (fun o => sum_box K (fun k => t b g n c o k))))).
    apply sum_range_ext. intros n Hn.
    rewrite (sum_range_swap B c1 (fun b c =>
      sum_box O (fun o => sum_box K (fun k => t b g n c o k)))).
    reflexivity.
Qed.
End AdjointShared.

(** * Further properties of the operators *)

Section SharedOperators.
Context {R : Type} `{Scalar R}.

(** X1 ([AbstractConv.perform], shared kernels): for an operator with
    steps and dilations of at least 1, an image of shape
    [(B, G * c1, N...)] and a kernel of shape [(G * oco, c1, K...)] whose
    dilation fits into the padded image, [perform] returns an array of
    shape [(B, G * oco, O...)], [O] the subsampled sizes; its element at
    batch [b], filter [n] of group [g] and position [o] is the sum, over the
    [c1] input channels of the group and the elements [k] of the kernel, of
    the zero-padded image at the tap [subsample * o + dilation * k']
    ([k'] is [K - 1 - k] if [filter_flip], [k] if not) times the kernel
    element. *)
Theorem forward_perform_elements (self : ConvOp) (img kern : ndarray R)
    (B c1 oco : Z) (N K : list Z) :
  op_ok self -> unshared self = false -> sizes_ok self N K ->
  0 <= B -> 0 <= c1 -> 0 <= oco ->
  shape img = B :: num_groups self * c1 :: N ->
  shape kern = num_groups self * oco :: c1 :: K ->
  exists out, AbstractConv_perform self img kern = Ok out
    /\ shape out = B :: num_groups self * oco :: op_out_sizes self N K
    /\ forall b g n o, 0 <= b < B -> 0 <= g < num_groups self ->
         0 <= n < oco -> in_box (op_out_sizes self N K) o = true ->
         item out (b :: (g * oco + n) :: o)
         = sum_range c1 (fun c =>
             sum_box K (fun k =>
               rmul (item (zero_padded B (num_groups self * c1) N
                             (op_pads self K) img)
                       (b :: (g * c1 + c)
                          :: tap (filter_flip self) (subsample self)
                               (filter_dilation self) K o k))
                    (item kern ((g * oco + n) :: c :: k)))).
Proof.
  intros Hop Hus Hsz HB Hc Ho Hi Hk.
  exact (perform_shared_ok self img kern B c1 oco N K Hop Hus Hsz HB Hc Ho Hi Hk).
Qed.

(** X2 ([AbstractConv_gradWeights.perform], shared kernels): for an image
    of shape [(B, G * c1, N...)] and an output gradient of shape
    [(B, G * oco, O...)], the gradient with respect to the weights has the
    shape [(G * oco, c1, K...)] of the kernel; its element at filter [n] of
    group [g], channel [c] and kernel position [k] is the sum, over the
    batch and the output positions [o], of the zero-padded image at the tap
    of [o] and [k] times the output gradient at [o]. *)
Theorem gradWeights_perform_elements (self : ConvOp) (img dO : ndarray R)
    (B c1 oco : Z) (N K : list Z) :
  op_ok self -> unshared self = false -> sizes_ok self N K ->
  0 <= B -> 0 <= c1 -> 0 <= oco ->
  shape img = B :: num_groups self * c1 :: N ->
  shape dO = B :: num_groups self * oco :: op_out_sizes self N K ->
  exists gw, AbstractConv_gradWeights_perform self img dO K = Ok gw
    /\ shape gw = num_groups self * oco :: c1 :: K
    /\ forall g n c k, 0 <= g < num_groups self -> 0 <= n < oco ->
         0 <= c < c1 -> in_box K k = true ->
         item gw ((g * oco + n) :: c :: k)
         = sum_range B (fun b =>
             sum_box (op_out_sizes self N K) (fun o =>
               rmul (item (zero_padded B (num_groups self * c1) N
                             (op_pads self K) img)
                       (b :: (g * c1 + c)
                          :: tap (filter_flip self) (subsample self)
                               (filter_dilation self) K o k))
                    (item dO (b :: (g * oco + n) :: o)))).
Proof.
  intros Hop Hus Hsz HB Hc Ho Hi Hd.
  exact (gradWeights_shared_ok self img dO B c1 oco N K
           Hop Hus Hsz HB Hc Ho Hi Hd).
Qed.

(** X3 ([AbstractConv_gradInputs.perform] against [AbstractConv.perform],
    shared kernels): the gradient with respect to the inputs is the adjoint
    of the forward operator in its image.  For a kernel, an output gradient
    [dO] and an image [dI] of matching shapes both operators return, the
    gradient has the shape of the image, and the inner product of [dO] with
    the output for [dI] is the inner product of the gradient with [dI]. *)
Theorem gradInputs_adjoint_of_forward (self : ConvOp) (kern dO dI : ndarray R)
    (B c1 oco : Z) (N K : list Z) :
  op_ok self -> unshared self = false -> sizes_ok self N K ->
  0 <= B -> 0 <= c1 -> 0 <= oco ->
  imshp_matches (imshp self) (B :: num_groups self * c1 :: N) ->
  shape dI = B :: num_groups self * c1 :: N ->
  shape kern = num_groups self * oco :: c1 :: K ->
  shape dO = B :: num_groups self * oco :: op_out_sizes self N K ->
  exists out gi,
    AbstractConv_perform self dI kern = Ok out
    /\ AbstractConv_gradInputs_perform self kern dO N = Ok gi
    /\ shape out = shape dO /\ shape gi = shape dI
    /\ dot dO out = dot gi dI.
Proof.
  intros Hop Hus Hsz HB Hc Ho Him Hi Hk Hd.
  destruct (perform_shared_ok self dI kern B c1 oco N K
              Hop Hus Hsz HB Hc Ho Hi Hk) as (out & Eo & So & Io).
  destruct (gradInputs_shared_ok self kern dO B c1 oco N K
              Hop Hus Hsz HB Hc Ho Him Hk Hd) as (gi & Eg & Sg & Ig).
  exists out, gi. repeat split; try assumption; try congruence.
  assert (HG : 0 <= num_groups self) by (unfold op_ok in Hop; lia).
  rewrite (forward_dot_form self B c1 oco N K dO out _ (item kern) HG Ho Hd Io).
  unfold dot. rewrite Sg. symmetry. apply Ig.
Qed.

(** X4 ([AbstractConv_gradWeights.perform] against [AbstractConv.perform],
    shared kernels): the gradient with respect to the weights is the
    adjoint of the forward operator in its kernel.  For an image, an output
    gradient [dO] and a kernel [dK] of matching shapes both operators
    return, the gradient has the shape of the kernel, and the inner product
    of [dO] with the output for [dK] is the inner product of the gradient
    with [dK]. *)
Theorem gradWeights_adjoint_of_forward (self : ConvOp) (img dO dK : ndarray R)
    (B c1 oco : Z) (N K : list Z) :
  op_ok self -> unshared self = false -> sizes_ok self N K ->
  0 <= B -> 0 <= c1 -> 0 <= oco ->
  shape img = B :: num_groups self * c1 :: N ->
  shape dK = num_groups self * oco :: c1 :: K ->
  shape dO = B :: num_groups self * oco :: op_out_sizes self N K ->
  exists out gw,
    AbstractConv_perform self img dK = Ok out
    /\ AbstractConv_gradWeights_perform self img dO K = Ok gw
    /\ shape out = shape dO /\ shape gw = shape dK
    /\ dot dO out = dot gw dK.
Proof.
  intros Hop Hus Hsz HB Hc Ho Hi Hk Hd.
  destruct (perform_shared_ok self img dK B c1 oco N K
              Hop Hus Hsz HB Hc Ho Hi Hk) as (out & Eo & So & Io).
  destruct (gradWeights_shared_ok self img dO B c1 oco N K
              Hop Hus Hsz HB Hc Ho Hi Hd) as (gw & Eg & Sg & Ig).
  exists out, gw. repeat split; try assumption; try congruence.
  assert (HG : 0 <= num_groups self) by (unfold op_ok in Hop; lia).
  rewrite (forward_dot_form self B c1 oco N K dO out _ (item dK) HG Ho Hd Io).
  symmetry.
  exact (weights_dot_form self B c1 oco N K gw dK _ (item dO) HG Ho Sg Ig).
Qed.
End SharedOperators.

(** The facts about a concrete operator and concrete sizes. *)
Ltac concrete_facts :=
  repeat match goal with
  | |- op_ok _ => unfold op_ok
  | |- sizes_ok _ _ _ => unfold sizes_ok
  | |- stored_border_mode _ _ => cbn
  | |- imshp_matches _ _ => unfold imshp_matches
  | |- _ /\ _ => split
  | |- Forall _ _ => vm_compute; repeat constructor
  | |- Forall2 _ _ _ => repeat constructor
  | |- _ = _ => reflexivity
  | |- _ <= _ => vm_compute; discriminate
  | |- _ <= _ < _ => lia
  | |- _ \/ _ => first [left; reflexivity | right; left; reflexivity
                       | right; right; reflexivity | left; lia | right; lia]
  | |- _ -> _ => intro
  | H : false = true |- _ => discriminate H
  | H : _ = Gt |- _ => discriminate H
  end.

Lemma forward_perform_elements_witness :
  exists out,
    AbstractConv_perform example_conv_op (counting_array [1; 2; 4; 5])
      (countdown_array [4; 1; 3; 2]) = Ok out
    /\ shape out = [1; 4; 2; 5]
    /\ item out [0; 3; 1; 2] = 736.
Proof.
  destruct (forward_perform_elements example_conv_op
              (counting_array [1; 2; 4; 5]) (countdown_array [4; 1; 3; 2])
              1 1 2 [4; 5] [3; 2])
    as (out & E & S & I); [concrete_facts .. |].
  exists out. split; [exact E |]. split; [exact S |].
  etransitivity;
    [exact (I 0 1 1 [1; 2] ltac:(lia) ltac:(cbn; lia) ltac:(lia) eq_refl) |].
  vm_compute. reflexivity.
Defined.

Lemma gradWeights_perform_elements_witness :
  exists gw,
    AbstractConv_gradWeights_perform example_conv_op
      (counting_array [1; 2; 4; 5]) (countdown_array [1; 4; 2; 5]) [3; 2]
    = Ok gw
    /\ shape gw = [4; 1; 3; 2]
    /\ item gw [3; 0; 1; 1]
       = sum_box [2; 5] (fun o =>
           item (zero_padded 1 2 [4; 5] [(1, 1); (1, 1)]
                   (counting_array [1; 2; 4; 5]))
                (0 :: 1 :: tap true [2; 1] [1; 2] [3; 2] o [1; 1])
           * item (countdown_array [1; 4; 2; 5]) (0 :: 3 :: o)).
Proof.
  destruct (gradWeights_perform_elements example_conv_op
              (counting_array [1; 2; 4; 5]) (countdown_array [1; 4; 2; 5])
              1 1 2 [4; 5] [3; 2])
    as (gw & E & S & I); [concrete_facts .. |].
  exists gw. split; [exact E |]. split; [exact S |].
  etransitivity;
    [exact (I 1 1 0 [1; 1] ltac:(cbn; lia) ltac:(lia) ltac:(lia) eq_refl) |].
  vm_compute. reflexivity.
Defined.

Lemma gradInputs_adjoint_of_forward_witness :
  exists out gi,
    AbstractConv_perform example_conv_op (counting_array [1; 2; 4; 5])
      (countdown_array [4; 1; 3; 2]) = Ok out
    /\ AbstractConv_gradInputs_perform example_conv_op
         (countdown_array [4; 1; 3; 2]) (countdown_array [1; 4; 2; 5]) [4; 5]
       = Ok gi
    /\ shape out = shape (countdown_array [1; 4; 2; 5])
    /\ shape gi = shape (counting_array [1; 2; 4; 5])
    /\ dot (countdown_array [1; 4; 2; 5]) out
       = dot gi (counting_array [1; 2; 4; 5]).
Proof.
  apply (gradInputs_adjoint_of_forward example_conv_op
           (countdown_array [4; 1; 3; 2]) (countdown_array [1; 4; 2; 5])
           (counting_array [1; 2; 4; 5]) 1 1 2 [4; 5] [3; 2]);
    concrete_facts.
Defined.

Lemma gradWeights_adjoint_of_forward_witness :
  exists out gw,
    AbstractConv_perform example_conv_op (counting_array [1; 2; 4; 5])
      (countdown_array [4; 1; 3; 2]) = Ok out
    /\ AbstractConv_gradWeights_perform example_conv_op
         (counting_array [1; 2; 4; 5]) (counting_array [1; 4; 2; 5]) [3; 2]
       = Ok gw
    /\ shape out = shape (counting_array [1; 4; 2; 5])
    /\ shape gw = shape (countdown_array [4; 1; 3; 2])
    /\ dot (counting_array [1; 4; 2; 5]) out
       = dot gw (countdown_array [4; 1; 3; 2]).
Proof.
  apply (gradWeights_adjoint_of_forward example_conv_op
           (counting_array [1; 2; 4; 5]) (counting_array [1; 4; 2; 5])
           (countdown_array [4; 1; 3; 2]) 1 1 2 [4; 5] [3; 2]);
    concrete_facts.
Defined.

(** * The shapes of the gradients *)

(** The image size of one axis, for a border mode of the data model with
    pads that are not negative. *)
Lemma get_conv_gradinputs_shape_1axis_resolved (k t d : Z) (m : axis_mode) :
  resolved_axis_mode m = true ->
  0 <= fst (axis_pads m (dilated_size k d)) ->
  0 <= snd (axis_pads m (dilated_size k d)) ->
  get_conv_gradinputs_shape_1axis (Some k) (Some t) (Some m) (Some 1) (Some d)
  = Ok (Some (t + dilated_size k d - 1
              - fst (axis_pads m (dilated_size k d))
              - snd (axis_pads m (dilated_size k d)))).
Proof.
  unfold get_conv_gradinputs_shape_1axis, axis_pads, dilated_size.
  intros Hm.
  assert (Hpad : forall x p, 0 <= p -> (if p >? 0 then x - p else x) = x - p).
  { intros x p Hp. destruct (Z.gtb_spec p 0); lia. }
  change (negb (1 =? 1)) with false. cbv iota.
  destruct m as [str | v | [| l [| r [| y t']]]]; simpl in Hm;
    try discriminate; cbn [spec_pads].
  - destruct (String.eqb str "half").
    { cbn [bind fst snd]. intros Hl Hr. now rewrite !Hpad by assumption. }
    destruct (String.eqb str "full").
    { cbn [bind fst snd]. intros Hl Hr. now rewrite !Hpad by assumption. }
    destruct (String.eqb str "valid"); [| discriminate].
    cbn [bind fst snd]. intros _ _. do 2 f_equal. cbn. lia.
  - cbn [fst snd]. intros Hl _.
    destruct (Z.ltb_spec v 0); [lia |]. cbn [orb bind].
    now rewrite !Hpad by assumption.
  - cbn [fst snd]. intros Hl Hr.
    destruct (Z.ltb_spec l 0); [lia |]. destruct (Z.ltb_spec r 0); [lia |].
    cbn [orb bind]. now rewrite !Hpad by assumption.
Qed.

(** X5 ([get_conv_gradinputs_shape_1axis] against [get_conv_shape_1axis]):
    with a subsample of 1, a kernel size and a dilation of at least 1 and a
    border mode that is valid, full, half, a non-negative integer or a
    non-negative pair, the two single-axis functions are inverse to each
    other: the forward function maps the image size [image] to the output
    size [top] exactly when the gradient function maps [top] back to
    [image]. *)
Theorem gradinputs_shape_1axis_inverts_forward (image top k d : Z)
    (m : axis_mode) :
  resolved_axis_mode m = true -> 1 <= k -> 1 <= d ->
  get_conv_shape_1axis (Some image) (Some k) (Some m) (Some 1) (Some d)
    = Ok (Some top)
  <-> get_conv_gradinputs_shape_1axis (Some k) (Some top) (Some m) (Some 1)
        (Some d) = Ok (Some image).
Proof.
  intros Hm Hk Hd.
  assert (Hdk : 1 <= dilated_size k d) by (unfold dilated_size; nia).
  destruct (axis_pads_nonneg m _ Hm Hdk) as [Hl Hr].
  rewrite (get_conv_shape_1axis_resolved image k 1 d m Hm) by lia.
  rewrite (get_conv_gradinputs_shape_1axis_resolved k top d m Hm Hl Hr).
  unfold conv_out_size. rewrite Z.div_1_r.
  split; intros E; injection E as E; do 2 f_equal; lia.
Qed.

Lemma gradinputs_shape_1axis_inverts_forward_witness :
  get_conv_shape_1axis (Some 10) (Some 3) (Some (AStr "half")) (Some 1) (Some 2)
    = Ok (Some 10)
  <-> get_conv_gradinputs_shape_1axis (Some 3) (Some 10) (Some (AStr "half"))
        (Some 1) (Some 2) = Ok (Some 10).
Proof.
  apply (gradinputs_shape_1axis_inverts_forward 10 10 3 2 (AStr "half"));
    [reflexivity | lia | lia].
Defined.

(** The image shape that [get_conv_gradinputs_shape] computes from a known
    kernel shape and a known top shape, with a subsample of ones. *)
Lemma get_conv_gradinputs_shape_ok (b f c G : Z) (T K fd : list Z)
    (bm : border_mode_t) :
  (0 < List.length T)%nat ->
  List.length K = List.length T -> List.length fd = List.length T ->
  stored_border_mode (len T) bm ->
  Forall (fun k => 1 <= k) K -> Forall (fun d => 1 <= d) fd ->
  1 <= G ->
  get_conv_gradinputs_shape (map Some (f :: c :: K)) (map Some (b :: f :: T))
    bm (repeat 1 (List.length T)) (Some fd) G
  = Ok (map Some
          (b :: c * G
             :: map (fun i =>
                       nth i T 0 + dilated_size (nth i K 0) (nth i fd 0) - 1
                       - fst (axis_pads (axis_mode_of bm i)
                                (dilated_size (nth i K 0) (nth i fd 0)))
                       - snd (axis_pads (axis_mode_of bm i)
                                (dilated_size (nth i K 0) (nth i fd 0))))
                  (seq 0 (List.length T)))).
Proof.
  intros Hpos HK Hfd Hbm HKpos Hdpos HG. unfold get_conv_gradinputs_shape.
  cbn [map py_nth nth_error bind]. rewrite py_slice_from_2.
  assert (Ecd : len (Some b :: Some f :: map Some T) - 2
                = Z.of_nat (List.length (map Some K))).
  { unfold len. cbn [List.length]. rewrite !length_map. lia. }
  rewrite Ecd.
  change (Some f :: Some c :: map Some K)
    with ([Some f; Some c] ++ map Some K).
  rewrite py_slice_from_suffix by (rewrite length_map; lia).
  assert (EG : (if G >? 1 then Ok (Some (c * G)) else Ok (Some c))
               = Ok (A := option Z) (Some (c * G))).
  { destruct (Z.gtb_spec G 1); [reflexivity |].
    replace G with 1 by lia. now rewrite Z.mul_1_r. }
  rewrite EG. cbn [bind].
  unfold len at 1. rewrite repeat_length.
  rewrite (mapM_range_ok _
             (fun i => Some
                (nth i T 0 + dilated_size (nth i K 0) (nth i fd 0) - 1
                 - fst (axis_pads (axis_mode_of bm i)
                          (dilated_size (nth i K 0) (nth i fd 0)))
                 - snd (axis_pads (axis_mode_of bm i)
                          (dilated_size (nth i K 0) (nth i fd 0)))))).
  - cbn [bind map]. now rewrite map_map.
  - intros i Hi.
    rewrite (py_nth_ok (map Some K) _ None) by (rewrite length_map; lia).
    cbn [bind].
    rewrite (py_nth_ok (map Some T) _ None) by (rewrite length_map; lia).
    cbn [bind].
    destruct (stored_border_mode_resolved (len T) bm i Hbm
                ltac:(unfold len; lia)) as [Hres ->].
    cbn [bind].
    rewrite (py_nth_ok _ _ 1) by (rewrite repeat_length; lia). cbn [bind].
    rewrite (py_nth_ok _ _ 0) by lia. cbn [bind].
    rewrite (nth_indep (map Some T) None (Some 0))
      by (rewrite length_map; lia).
    rewrite (nth_indep (map Some K) None (Some 0))
      by (rewrite length_map; lia).
    rewrite !(map_nth Some).
    rewrite nth_repeat_same.
    assert (Hk : 1 <= nth i K 0).
    { rewrite Forall_forall in HKpos. apply HKpos, nth_In. lia. }
    assert (Hd : 1 <= nth i fd 0).
    { rewrite Forall_forall in Hdpos. apply Hdpos, nth_In. lia. }
    assert (Hdk : 1 <= dilated_size (nth i K 0) (nth i fd 0))
      by (unfold dilated_size; nia).
    destruct (axis_pads_nonneg _ _ Hres Hdk) as [Hl Hr].
    now apply get_conv_gradinputs_shape_1axis_resolved.
Qed.

(** X6 ([get_conv_gradinputs_shape] against [get_conv_output_shape]): with
    subsamples of 1, kernel sizes and dilations of at least 1, a border mode
    as the operators store it and [num_groups >= 1], the image shape
    function inverts the output shape function: from the kernel shape
    [(f, c, K...)] and the output shape computed for the image shape
    [(b, c * num_groups, N...)] it returns that image shape. *)
Theorem gradinputs_shape_inverts_output_shape (b f c G : Z)
    (N K fd : list Z) (bm : border_mode_t) (top : list (option Z)) :
  (0 < List.length N)%nat ->
  List.length K = List.length N -> List.length fd = List.length N ->
  stored_border_mode (len N) bm ->
  Forall (fun k => 1 <= k) K -> Forall (fun d => 1 <= d) fd ->
  1 <= G ->
  get_conv_output_shape (map Some (b :: c * G :: N)) (map Some (f :: c :: K))
    bm (repeat 1 (List.length N)) (Some fd) = Ok top ->
  get_conv_gradinputs_shape (map Some (f :: c :: K)) top bm
    (repeat 1 (List.length N)) (Some fd) G
  = Ok (map Some (b :: c * G :: N)).
Proof.
  intros Hpos HK Hfd Hbm HKpos Hdpos HG Htop.
  assert (Hss : Forall (fun s => s <> 0) (repeat 1 (List.length N))).
  { apply Forall_forall. intros s Hs. apply repeat_spec in Hs. lia. }
  pose proof (get_conv_output_shape_ok b (c * G) f N [c] K
                (repeat 1 (List.length N)) fd bm Hpos HK
                (repeat_length 1 (List.length N)) Hfd Hbm Hss) as E.
  cbn [app] in E. rewrite E in Htop. clear E.
  injection Htop as <-.
  set (T := conv_out_sizes N (dilated K fd) bm (repeat 1 (List.length N))).
  assert (LT : List.length T = List.length N)
    by apply conv_out_sizes_length.
  rewrite <- LT.
  change (Some b :: Some f :: map Some T) with (map Some (b :: f :: T)).
  rewrite (get_conv_gradinputs_shape_ok b f c G T K fd bm);
    try assumption; try lia.
  2:{ unfold len in *. now rewrite LT. }
  do 4 f_equal. rewrite LT.
  rewrite <- (map_nth_seq_id N 0) at 2.
  apply map_ext_in. intros i Hi. apply in_seq in Hi.
  unfold T, conv_out_sizes.
  rewrite (nth_map_seq _ _ _ 0) by lia.
  rewrite dilated_nth by lia.
  rewrite nth_repeat_same.
  unfold conv_out_size. rewrite Z.div_1_r. lia.
Qed.

Lemma gradinputs_shape_inverts_output_shape_witness :
  get_conv_gradinputs_shape (map Some [6; 3; 3; 2])
    [Some 2; Some 6; Some 7; Some 8] (BStr "half") (repeat 1 2)
    (Some [1; 2]) 2
  = Ok (map Some [2; 3 * 2; 7; 8]).
Proof.
  apply (gradinputs_shape_inverts_output_shape 2 6 3 2 [7; 8] [3; 2] [1; 2]
           (BStr "half") [Some 2; Some 6; Some 7; Some 8]);
    try reflexivity; try lia.
  - cbn. lia.
  - right; right; reflexivity.
  - repeat constructor; lia.
  - repeat constructor; lia.
Defined.

(** No known entry of the given shape differs from a known entry of the
    computed one. *)
Lemma all_check_dim_spec (output computed : list (option Z)) :
  List.length output = List.length computed ->
  exists ok, all_check_dim output computed = Ok ok
    /\ (ok = true
        <-> Forall2 (fun g c => forall x y, g = Some x -> c = Some y -> x = y)
              output computed).
Proof.
  revert computed. induction output as [| g gs IH]; intros [| c cs] Hl;
    simpl in Hl; try discriminate.
  - exists true. split; [reflexivity |]. split; [constructor | reflexivity].
  - injection Hl as Hl. destruct (IH cs Hl) as (ok & E & Hok).
    cbn [all_check_dim]. destruct (check_dim g c) eqn:Ec.
    + exists ok. split; [exact E |]. rewrite Hok. split.
      * intros F. constructor; [| exact F].
        intros x y -> ->. cbn in Ec. now apply Z.eqb_eq.
      * intros F. now inversion F.
    + exists false. split; [reflexivity |]. split; [discriminate |].
      intros F. inversion F as [| ? ? ? ? Hgc _]; subst.
      destruct g as [x |], c as [y |]; cbn in Ec; try discriminate.
      specialize (Hgc x y eq_refl eq_refl). subst.
      now rewrite Z.eqb_refl in Ec.
Qed.

(** The rank of the shape that [get_conv_output_shape] returns. *)
Lemma get_conv_output_shape_length (image kernel : list (option Z))
    (bm : border_mode_t) (ss : list Z) (fd : option (list Z))
    (computed : list (option Z)) :
  get_conv_output_shape image kernel bm ss fd = Ok computed ->
  len computed = 2 + len ss.
Proof.
  unfold get_conv_output_shape. intros E.
  destruct (py_nth image 0); [| discriminate]. cbn [bind] in E.
  destruct (py_nth kernel 0); [| discriminate]. cbn [bind] in E.
  destruct (mapM _ (range (len ss))) as [out |] eqn:Em; [| discriminate].
  cbn [bind] in E. injection E as <-.
  apply mapM_inv, Forall2_length in Em.
  unfold range in Em. rewrite length_seq in Em.
  unfold len in *. cbn [List.length]. lia.
Qed.

(** X7 ([check_conv_gradinputs_shape]): for shapes of one rank, with one
    subsample and one dilation per spatial axis, for which
    [get_conv_output_shape] returns, the check returns a boolean, and it
    accepts the given output shape exactly when no known entry of it
    differs from the known entry of the computed shape at its place; an
    entry that is [None] on either side is never a reason to reject. *)
Theorem check_conv_gradinputs_shape_accepts_iff
    (image kernel output computed : list (option Z)) (bm : border_mode_t)
    (ss : list Z) (fd : option (list Z)) :
  len image = len kernel -> len image = len output ->
  len image - 2 = len ss ->
  (forall l, fd = Some l -> len image - 2 = len l) ->
  get_conv_output_shape image kernel bm ss fd = Ok computed ->
  exists ok,
    check_conv_gradinputs_shape image kernel output bm ss fd = Ok ok
    /\ (ok = true
        <-> Forall2 (fun g c => forall x y, g = Some x -> c = Some y -> x = y)
              output computed).
Proof.
  intros Hk Ho Hs Hfd Hc. unfold check_conv_gradinputs_shape.
  rewrite (proj2 (Z.eqb_eq _ _) Hk), (proj2 (Z.eqb_eq _ _) Ho),
    (proj2 (Z.eqb_eq _ _) Hs). cbn [negb orb].
  assert (Ef : match fd with
               | Some l => negb (len image - 2 =? len l)
               | None => false
               end = false).
  { destruct fd as [l |]; [| reflexivity].
    rewrite (proj2 (Z.eqb_eq _ _) (Hfd l eq_refl)). reflexivity. }
  rewrite Ef, Hc. cbn [bind].
  apply all_check_dim_spec.
  apply get_conv_output_shape_length in Hc. unfold len in *. lia.
Qed.

Lemma check_conv_gradinputs_shape_accepts_iff_witness :
  exists ok,
    check_conv_gradinputs_shape (map Some [2; 6; 7; 8]) (map Some [6; 3; 3; 2])
      [Some 2; None; Some 7; Some 9] (BStr "half") [1; 1] (Some [1; 2])
    = Ok ok
    /\ (ok = true
        <-> Forall2 (fun g c => forall x y, g = Some x -> c = Some y -> x = y)
              [Some 2; None; Some 7; Some 9]
              [Some 2; Some 6; Some 7; Some 8]).
Proof.
  apply (check_conv_gradinputs_shape_accepts_iff (map Some [2; 6; 7; 8])
           (map Some [6; 3; 3; 2]) [Some 2; None; Some 7; Some 9]
           [Some 2; Some 6; Some 7; Some 8] (BStr "half") [1; 1]
           (Some [1; 2])); try reflexivity.
  intros l E. injection E as <-. reflexivity.
Defined.

(** The kernel size of one axis, with a subsample and a dilation of 1. *)
Lemma gradweights_shape_1axis_unit (i t : Z) (m : axis_mode) :
  resolved_axis_mode m = true -> m <> AStr "half" ->
  get_conv_gradweights_shape_1axis (Some i) (Some t) (Some m) (Some 1) (Some 1)
  = Ok (Some (PyInt (if axis_mode_eqb m (AStr "full") then t - i + 1
                     else i + fst (axis_pads m 0) + snd (axis_pads m 0)
                          - t + 1))).
Proof.
  intros Hm Hhalf. unfold get_conv_gradweights_shape_1axis.
  change (negb (1 =? 1)) with false. change (1 >? 1) with false.
  destruct (axis_mode_eqb m (AStr "half")) eqn:Eh.
  { apply axis_mode_eqb_str in Eh; contradiction. }
  cbn [orb].
  destruct (axis_mode_eqb m (AStr "full")) eqn:Ef; [reflexivity |].
  destruct (axis_mode_eqb m (AStr "valid")) eqn:Ev.
  { apply axis_mode_eqb_str in Ev. subst m. cbn. do 3 f_equal. lia. }
  unfold axis_pads.
  destruct m as [s | v | [| l [| r [| y ys]]]]; simpl in Hm; try discriminate.
  - simpl in Eh, Ef, Ev. rewrite Eh, Ef, Ev in Hm. discriminate.
  - apply Z.leb_le in Hm. destruct (Z.ltb_spec v 0); [lia |]. reflexivity.
  - apply andb_true_iff in Hm as [Hl Hr]. apply Z.leb_le in Hl, Hr.
    destruct (Z.ltb_spec l 0); [lia |].
    destruct (Z.ltb_spec r 0); [lia |]. reflexivity.
Qed.

(** X8 ([get_conv_gradweights_shape] against [get_conv_output_shape]):
    with subsamples and dilations of 1 (the default dilation), one group
    and a stored border mode that is not half, the kernel shape function
    inverts the output shape function.  From the image shape [(b, c, N...)]
    and the output shape [(b, f, T...)] computed for the kernel shape
    [(f, c, K...)] it returns [(f, c, K...)], and for an unshared
    convolution [(f, T..., c, K...)]. *)
Theorem gradweights_shape_inverts_output_shape (b f c : Z) (N K : list Z)
    (bm : border_mode_t) (top : list (option Z)) (us : bool) :
  (0 < List.length N)%nat -> List.length K = List.length N ->
  stored_border_mode (len N) bm -> bm <> BStr "half" ->
  get_conv_output_shape (map Some (b :: c :: N)) (map Some (f :: c :: K))
    bm (repeat 1 (List.length N)) None = Ok top ->
  exists T,
    top = map Some (b :: f :: T)
    /\ get_conv_gradweights_shape (map Some (b :: c :: N)) top bm
         (repeat 1 (List.length N)) None 1 us
       = Ok (map (fun k => Some (PyInt k))
               (if us then f :: T ++ c :: K else f :: c :: K)).
Proof.
  intros Hpos HK Hbm Hhalf Htop.
  set (n := List.length N) in *.
  assert (Hss : Forall (fun s => s <> 0) (repeat 1 n)).
  { apply Forall_forall. intros s Hs. apply repeat_spec in Hs. lia. }
  assert (Lfd : List.length (map (fun _ : Z => 1) (repeat 1 n)) = n)
    by now rewrite length_map, repeat_length.
  pose proof (get_conv_output_shape_ok b c f N [c] K (repeat 1 n)
                (map (fun _ => 1) (repeat 1 n)) bm Hpos HK
                (repeat_length 1 n) Lfd Hbm Hss) as E.
  cbn [app] in E.
  change (get_conv_output_shape (map Some (b :: c :: N))
            (map Some (f :: c :: K)) bm (repeat 1 n) None = Ok top) in Htop.
  change (get_conv_output_shape (map Some (b :: c :: N))
            (map Some (f :: c :: K)) bm (repeat 1 n)
            (Some (map (fun _ => 1) (repeat 1 n))))
    with (get_conv_output_shape (map Some (b :: c :: N))
            (map Some (f :: c :: K)) bm (repeat 1 n) None) in E.
  rewrite E in Htop. clear E. injection Htop as <-.
  set (fd := map (fun _ : Z => 1) (repeat 1 n)) in *.
  set (T := conv_out_sizes N (dilated K fd) bm (repeat 1 n)).
  assert (LT : List.length T = n) by apply conv_out_sizes_length.
  exists T. split; [reflexivity |].
  unfold get_conv_gradweights_shape.
  cbn [map py_nth nth_error bind]. rewrite !py_slice_from_2.
  change (1 >? 1) with false. cbv iota. cbn [bind].
  unfold len at 1. rewrite repeat_length.
  assert (Hfd1 : forall i, nth i fd 1 = 1).
  { intros i. unfold fd. generalize (repeat 1 n). intros l. revert i.
    induction l as [| x l IH]; intros [| i]; cbn; auto. }
  rewrite (mapM_range_ok _ (fun i => Some (PyInt (nth i K 0)))).
  - cbn [bind]. rewrite <- HK.
    rewrite (map_seq_nth (fun k => Some (PyInt k)) K 0).
    destruct us; cbn [option_map map]; [| reflexivity].
    now rewrite map_app, map_map.
  - intros i Hi.
    rewrite (py_nth_ok (map Some N) _ None) by (rewrite length_map; lia).
    cbn [bind].
    rewrite (py_nth_ok (map Some T) _ None) by (rewrite length_map; lia).
    cbn [bind].
    destruct (stored_border_mode_resolved (len N) bm i Hbm
                ltac:(unfold len; lia)) as [Hres ->].
    cbn [bind].
    rewrite (py_nth_ok _ _ 1) by (rewrite repeat_length; lia). cbn [bind].
    rewrite (py_nth_ok _ _ 1) by (rewrite length_map, repeat_length; lia).
    cbn [bind].
    rewrite (nth_indep (map Some N) None (Some 0))
      by (rewrite length_map; lia).
    rewrite (nth_indep (map Some T) None (Some 0))
      by (rewrite length_map; lia).
    rewrite !(map_nth Some). rewrite nth_repeat_same.
    fold fd. rewrite Hfd1.
    assert (Hm : axis_mode_of bm i <> AStr "half").
    { destruct bm as [s | v | l]; cbn in *.
      - intros E. injection E as ->. now apply Hhalf.
      - contradiction.
      - destruct Hbm as [Hl Hall]. rewrite Forall_forall in Hall.
        apply (Hall (nth i l (AInt 0))). apply nth_In. unfold len in Hl. lia. }
    rewrite (gradweights_shape_1axis_unit _ _ _ Hres Hm).
    do 3 f_equal. unfold T, conv_out_sizes.
    rewrite (nth_map_seq _ _ _ 0) by exact Hi.
    rewrite dilated_nth by (unfold fd; rewrite ?length_map, ?repeat_length; lia).
    rewrite nth_repeat_same.
    rewrite (nth_indep fd 0 1)
      by (unfold fd; rewrite length_map, repeat_length; lia).
    rewrite Hfd1.
    unfold conv_out_size, dilated_size. rewrite Z.div_1_r, Z.mul_1_r.
    destruct (axis_mode_eqb (axis_mode_of bm i) (AStr "full")) eqn:Ef.
    + apply axis_mode_eqb_str in Ef. rewrite Ef. cbn. lia.
    + unfold axis_pads.
      destruct (axis_mode_of bm i) as [s | v | [| l [| r [| y ys]]]];
        cbn in Hres |- *; try discriminate; try lia.
      cbn in Ef. destruct (String.eqb s "half") eqn:Eh.
      { apply String.eqb_eq in Eh. subst. now elim Hm. }
      rewrite Ef. destruct (String.eqb s "valid"); cbn [fst snd]; lia.
Qed.

Lemma gradweights_shape_inverts_output_shape_witness :
  exists T,
    [Some 2; Some 4; Some 9; Some 9] = map Some (2 :: 4 :: T)
    /\ get_conv_gradweights_shape (map Some [2; 3; 7; 8])
         [Some 2; Some 4; Some 9; Some 9] (BStr "full") (repeat 1 2) None 1
         true
       = Ok (map (fun k => Some (PyInt k)) (4 :: T ++ [3; 3; 2])).
Proof.
  apply (gradweights_shape_inverts_output_shape 2 4 3 [7; 8] [3; 2]
           (BStr "full") [Some 2; Some 4; Some 9; Some 9] true);
    try reflexivity.
  - cbn. lia.
  - right; left; reflexivity.
  - discriminate.
Defined.

(** * Other operators of the Numba dispatch *)

(** X9 ([numba_funcify_CheckAndRaise]): [check_and_raise] returns its
    first argument unchanged when every condition is true; when one is
    false it raises the exception of the operator with the message of the
    operator, whichever condition it is and whatever follows it. *)
Theorem check_and_raise_all_or_error {A : Type} (error : string -> exn)
    (msg : string) (x : A) (conditions : list bool) :
  check_and_raise error msg x conditions
  = if forallb (fun cond => cond) conditions then Ok x
    else Raise (error msg).
Proof.
  induction conditions as [| cond rest IH]; [reflexivity |].
  cbn [check_and_raise forallb]. destruct cond; [exact IH | reflexivity].
Qed.

Section CumOpAxis.
Context {R : Type} `{Scalar R}.

(** X10 ([numba_funcify_CumOp], the axis): an axis is accepted exactly
    when [-ndim <= axis < ndim]; outside of this range the dispatch itself
    raises the [ValueError], before any array is seen, in both modes.  A
    negative axis in the range counts from the end: the function returned
    for [axis] behaves on every array as the one for [axis + ndim]. *)
Theorem numba_funcify_CumOp_axis (axis ndim : Z) (mode : cum_mode) :
  (is_value_error (numba_funcify_CumOp (R := R) (Some axis) mode ndim) = true
   <-> axis < - ndim \/ ndim <= axis)
  /\ (is_ok (numba_funcify_CumOp (R := R) (Some axis) mode ndim) = true
      <-> - ndim <= axis < ndim)
  /\ (- ndim <= axis < 0 ->
      forall x : ndarray R,
        bind (numba_funcify_CumOp (Some axis) mode ndim) (fun f => f x)
        = bind (numba_funcify_CumOp (Some (axis + ndim)) mode ndim)
            (fun f => f x)).
Proof.
  unfold numba_funcify_CumOp.
  set (ax := if axis <? 0 then ndim + axis else axis).
  assert (Hbad : (ax <? 0) || (ndim <=? ax) = true
                 <-> axis < - ndim \/ ndim <= axis).
  { unfold ax. rewrite orb_true_iff, Z.ltb_lt, Z.leb_le.
    destruct (Z.ltb_spec axis 0); lia. }
  destruct ((ax <? 0) || (ndim <=? ax)) eqn:Eb.
  - cbn [bind is_value_error is_ok].
    split; [| split].
    + split; [intros _; now apply Hbad | reflexivity].
    + split; [discriminate |]. intros Hr.
      assert (axis < - ndim \/ ndim <= axis) by now apply Hbad. lia.
    + intros Hr.
      assert (axis < - ndim \/ ndim <= axis) by now apply Hbad. lia.
  - assert (Hin : - ndim <= axis < ndim).
    { destruct (Z.lt_ge_cases axis (- ndim)) as [Hl | Hl].
      { assert (false = true) by (apply Hbad; lia). discriminate. }
      destruct (Z.lt_ge_cases axis ndim) as [Hu | Hu]; [lia |].
      assert (false = true) by (apply Hbad; lia). discriminate. }
    cbn [bind].
    split; [| split].
    + split; [| lia]. destruct mode; destruct (ndim =? 1); discriminate.
    + split; [intros _; exact Hin |].
      intros _. destruct mode; destruct (ndim =? 1); reflexivity.
    + intros Hneg x.
      assert (E1 : ax = axis + ndim).
      { unfold ax. destruct (Z.ltb_spec axis 0); lia. }
      assert (E2 : (if axis + ndim <? 0 then ndim + (axis + ndim)
                   else axis + ndim) = axis + ndim).
      { destruct (Z.ltb_spec (axis + ndim) 0); lia. }
      rewrite E2. rewrite E1 in Eb. rewrite Eb. cbn [bind].
      rewrite E1. reflexivity.
Qed.
End CumOpAxis.

Lemma numba_funcify_CumOp_axis_witness :
  bind (numba_funcify_CumOp (Some (-1)) CumAdd 3) (fun f => f arange_2_3_2)
  = bind (numba_funcify_CumOp (Some (-1 + 3)) CumAdd 3)
      (fun f => f arange_2_3_2).
Proof.
  exact (proj2 (proj2 (numba_funcify_CumOp_axis (-1) 3 CumAdd))
           ltac:(lia) arange_2_3_2).
Defined.

(** ** UnravelIndex *)

Lemma wrap64_small (z : Z) : - 2 ^ 63 <= z < 2 ^ 63 -> wrap64 z = z.
Proof.
  unfold wrap64. change (2 ^ 64) with (2 * 2 ^ 63).
  intros Hz. rewrite Z.mod_small by lia. lia.
Qed.

(** [l[::-1]] *)
Lemma py_slice_step_reverse {A : Type} (l : list A) (d : A) :
  py_slice_step l None None (Some (-1)) d = Ok (rev l).
Proof.
  unfold py_slice_step, slice_view, slice_bound, slice_count, len.
  change (-1 =? 0) with false. change (-1 <? 0) with true. cbv iota.
  cbn [bind]. f_equal.
  set (n := List.length l).
  assert (Ec : Z.to_nat (if -1 <? Z.of_nat n - 1
                         then (Z.of_nat n - 1 - -1 - 1) / - -1 + 1 else 0) = n).
  { destruct (Z.ltb_spec (-1) (Z.of_nat n - 1)); [| lia].
    change (- -1) with 1. rewrite Z.div_1_r. lia. }
  rewrite Ec.
  apply (nth_ext _ _ d d).
  - now rewrite length_map, length_seq, length_rev.
  - rewrite length_map, length_seq. intros i Hi.
    rewrite (nth_map_seq _ _ _ d) by exact Hi.
    rewrite rev_nth by exact Hi. f_equal. fold n. lia.
Qed.

(** [l[:0:-1]] *)
Lemma py_slice_step_reverse_tail {A : Type} (x : A) (l : list A) (d : A) :
  py_slice_step (x :: l) None (Some 0) (Some (-1)) d = Ok (rev l).
Proof.
  unfold py_slice_step, slice_view, slice_bound, slice_count, len.
  change (-1 =? 0) with false. change (-1 <? 0) with true.
  change (0 <? 0) with false. cbv iota.
  cbn [bind List.length]. f_equal.
  set (n := List.length l).
  replace (Z.min 0 (Z.of_nat (S n) - 1)) with 0 by lia.
  assert (Ec : Z.to_nat (if 0 <? Z.of_nat (S n) - 1
                         then (Z.of_nat (S n) - 1 - 0 - 1) / - -1 + 1 else 0)
               = n).
  { destruct (Z.ltb_spec 0 (Z.of_nat (S n) - 1)); [| lia].
    change (- -1) with 1. rewrite Z.div_1_r. lia. }
  rewrite Ec.
  apply (nth_ext _ _ d d).
  - now rewrite length_map, length_seq, length_rev.
  - rewrite length_map, length_seq. intros i Hi.
    rewrite (nth_map_seq _ _ _ d) by exact Hi.
    rewrite rev_nth by exact Hi. fold n.
    replace (Z.to_nat (Z.of_nat (S n) - 1 + -1 * Z.of_nat i))
      with (S (n - S i)) by lia.
    reflexivity.
Qed.

Lemma np_cumprod_from_snoc (acc x : Z) (l : list Z) :
  np_cumprod_from acc (l ++ [x])
  = np_cumprod_from acc l
    ++ [wrap64 (fold_left (fun a y => wrap64 (a * y)) l acc * x)].
Proof.
  revert acc. induction l as [| y l IH]; intros acc; [reflexivity |].
  cbn [app np_cumprod_from fold_left]. now rewrite IH.
Qed.

Lemma size_of_cons (n : Z) (shp : list Z) : size_of (n :: shp) = n * size_of shp.
Proof. reflexivity. Qed.

Lemma size_of_ge_1 (shp : list Z) :
  Forall (fun n => 1 <= n) shp -> 1 <= size_of shp.
Proof.
  induction 1 as [| n shp Hn _ IH]; [cbn; lia |].
  rewrite size_of_cons. nia.
Qed.

(** The product of all entries, as [np.cumprod] accumulates it. *)
Lemma wrapped_product (shp : list Z) :
  Forall (fun n => 1 <= n) shp -> size_of shp < 2 ^ 63 ->
  fold_left (fun a y => wrap64 (a * y)) (rev shp) 1 = size_of shp.
Proof.
  intros Hpos. rewrite <- fold_left_rev_right, rev_involutive.
  induction Hpos as [| n shp Hn Hshp IH]; intros Hs; [reflexivity |].
  cbn [fold_right]. rewrite size_of_cons in *.
  pose proof (size_of_ge_1 shp Hshp).
  rewrite IH by nia. rewrite wrap64_small by nia. lia.
Qed.

(** [np.cumprod(a)[::-1]] for [a = (1, shape[-1], ..., shape[1])]: the
    strides. *)
Lemma reversed_cumprod_strides (rest : list Z) :
  Forall (fun n => 1 <= n) rest -> size_of rest < 2 ^ 63 ->
  rev (np_cumprod (1 :: rev rest)) = size_of rest :: c_strides rest.
Proof.
  unfold np_cumprod. cbn [np_cumprod_from].
  change (wrap64 (1 * 1)) with 1.
  induction 1 as [| x r Hx Hr IH]; intros Hs; [reflexivity |].
  pose proof (size_of_ge_1 r Hr).
  rewrite size_of_cons in Hs.
  cbn [rev]. rewrite np_cumprod_from_snoc.
  rewrite wrapped_product by (assumption || nia).
  rewrite wrap64_small by nia.
  change (1 :: np_cumprod_from 1 (rev r) ++ [size_of r * x])
    with ((1 :: np_cumprod_from 1 (rev r)) ++ [size_of r * x]).
  rewrite rev_app_distr. cbn [rev app].
  cbn [rev] in IH. rewrite IH by nia.
  rewrite size_of_cons. cbn [c_strides]. f_equal. lia.
Qed.

Lemma broadcast_vectors_scalar (op : Z -> Z -> Z) (x : list Z) (b : Z) :
  broadcast_vectors op x [b] = Ok (map (fun a => op a b) x).
Proof. destruct x as [| a [| a' x]]; reflexivity. Qed.

Lemma nth_map_default (f : Z -> Z) (l : list Z) (j : nat) :
  (j < List.length l)%nat -> nth j (map f l) 0 = f (nth j l 0).
Proof.
  intros Hj. rewrite (nth_indep _ 0 (f 0)) by now rewrite length_map.
  apply map_nth.
Qed.

(** The coordinates that [unravelindex] computes for one index. *)
Lemma unravel_coordinates (shape : list Z) (v : Z) :
  Forall (fun n => 1 <= n) shape -> - 2 ^ 63 <= v < 2 ^ 63 ->
  let c := map (fun p => np_remainder (np_floor_divide v (fst p)) (snd p))
             (combine (c_strides shape) shape) in
  in_box shape c = true /\ ravel shape c = v mod size_of shape.
Proof.
  intros Hpos Hv. induction Hpos as [| n rest Hn Hrest IH].
  - cbn. split; [reflexivity |]. now rewrite Z.mod_1_r.
  - cbn [c_strides combine map fst snd]. cbv zeta in IH |- *.
    destruct IH as [Hbox Hrav].
    pose proof (size_of_ge_1 rest Hrest) as HS.
    set (S := size_of rest) in *.
    assert (Eq : np_floor_divide v S = v / S).
    { unfold np_floor_divide. destruct (Z.eqb_spec S 0); [lia |].
      apply wrap64_small.
      destruct (Z.le_gt_cases 0 v).
      - assert (0 <= v / S) by (apply Z.div_pos; lia).
        assert (v / S <= v) by (apply Z.div_le_upper_bound; nia).
        lia.
      - assert (v <= v / S) by (apply Z.div_le_lower_bound; nia).
        assert (v / S < 0) by (apply Z.div_lt_upper_bound; lia).
        lia. }
    rewrite Eq.
    assert (Er : np_remainder (v / S) n = (v / S) mod n).
    { unfold np_remainder. destruct (Z.eqb_spec n 0); [lia | reflexivity]. }
    rewrite Er. split.
    + rewrite in_box_cons, Hbox.
      pose proof (Z.mod_pos_bound (v / S) n ltac:(lia)).
      destruct (Z.leb_spec 0 ((v / S) mod n)); [| lia].
      destruct (Z.ltb_spec ((v / S) mod n) n); [reflexivity | lia].
    + cbn [ravel]. fold S. rewrite Hrav, size_of_cons. fold S.
      rewrite (Z.mul_comm n S), Z.rem_mul_r by lia. lia.
Qed.

(** X11 ([numba_funcify_UnravelIndex]): for a shape of positive sizes
    whose product is an [int64], and [int64] indices, [unravelindex]
    returns, and the coordinates of every index [v] are inside of the
    shape and are those of [v mod prod(shape)] in row-major order.  So the
    coordinates of an index [0 <= v < prod(shape)] ravel back to [v]; an
    index outside of this range is wrapped around and no exception is
    raised for it. *)
Theorem unravelindex_coordinates (arr shape : list Z) :
  Forall (fun n => 1 <= n) shape -> size_of shape < 2 ^ 63 ->
  Forall (fun v => - 2 ^ 63 <= v < 2 ^ 63) arr ->
  exists f out,
    numba_funcify_UnravelIndex "C" (len shape) = Ok f
    /\ f arr shape = Ok out
    /\ forall j, (j < List.length arr)%nat ->
         in_box shape (coordinates_at out j) = true
         /\ ravel shape (coordinates_at out j) = nth j arr 0 mod size_of shape
         /\ (0 <= nth j arr 0 < size_of shape ->
             ravel shape (coordinates_at out j) = nth j arr 0).
Proof.
  intros Hpos Hsize Harr. unfold numba_funcify_UnravelIndex.
  change (negb (String.eqb "C" "C")) with false. cbv iota.
  assert (Hv : forall j, (j < List.length arr)%nat ->
                 - 2 ^ 63 <= nth j arr 0 < 2 ^ 63).
  { intros j Hj. rewrite Forall_forall in Harr. apply Harr, nth_In, Hj. }
  assert (Hfin : forall out,
    (forall j, (j < List.length arr)%nat ->
       coordinates_at out j
       = map (fun p => np_remainder (np_floor_divide (nth j arr 0) (fst p))
                         (snd p))
           (combine (c_strides shape) shape)) ->
    forall j, (j < List.length arr)%nat ->
      in_box shape (coordinates_at out j) = true
      /\ ravel shape (coordinates_at out j) = nth j arr 0 mod size_of shape
      /\ (0 <= nth j arr 0 < size_of shape ->
          ravel shape (coordinates_at out j) = nth j arr 0)).
  { intros out Hout j Hj. rewrite (Hout j Hj).
    destruct (unravel_coordinates shape (nth j arr 0) Hpos (Hv j Hj))
      as [Hb Hr].
    split; [exact Hb |]. split; [exact Hr |].
    intros Hin. rewrite Hr. now apply Z.mod_small. }
  match goal with
  | |- exists f out, Ok ?F = Ok f /\ _ => exists F
  end.
  cbv beta.
  destruct shape as [| n rest].
  - (* no axis: no coordinate *)
    eexists. split; [reflexivity |]. split; [reflexivity |].
    apply Hfin. intros j Hj. reflexivity.
  - inversion Hpos as [| ? ? Hn Hrest]; subst.
    pose proof (size_of_ge_1 rest Hrest) as HS.
    rewrite size_of_cons in Hsize.
    assert (El : List.length (c_strides (n :: rest))
                 = List.length (n :: rest)).
    { generalize (n :: rest). intros l.
      induction l as [| y l IH]; cbn; congruence. }
    destruct (Z.eqb_spec (len (n :: rest)) 1) as [E1 | E1].
    + (* one axis: the output is a vector *)
      destruct rest as [| m rest']; [| unfold len in E1; cbn [List.length] in E1; lia].
      eexists. split; [reflexivity |]. split.
      { rewrite py_slice_step_reverse_tail. cbn [bind].
        cbn [repeat List.length]. rewrite py_slice_from_1, py_slice_to_1.
        cbn [rev List.length Nat.eqb bind app].
        rewrite py_slice_step_reverse. cbn [bind].
        change (rev (np_cumprod [1])) with [1].
        rewrite !broadcast_vectors_scalar. cbn [bind].
        rewrite broadcast_vectors_scalar. reflexivity. }
      apply Hfin. intros j Hj.
      cbn [coordinates_at c_strides combine map fst snd]. f_equal.
      rewrite map_map. change (size_of []) with 1.
      exact (nth_map_default _ _ _ Hj).
    + (* several axes: a row for each of them *)
      eexists. split; [reflexivity |]. split.
      { rewrite py_slice_step_reverse_tail. cbn [bind].
        cbn [repeat List.length]. rewrite py_slice_from_1, py_slice_to_1.
        rewrite repeat_length, length_rev, Nat.eqb_refl. cbn [bind app].
        rewrite py_slice_step_reverse. cbn [bind].
        rewrite reversed_cumprod_strides by (assumption || nia).
        change (size_of rest :: c_strides rest) with (c_strides (n :: rest)).
        rewrite El, Nat.eqb_refl. cbn [negb]. reflexivity. }
      apply Hfin. intros j Hj.
      cbn [coordinates_at]. rewrite map_map. apply map_ext. intros p.
      exact (nth_map_default _ _ _ Hj).
Qed.

Lemma unravelindex_coordinates_witness :
  exists f out,
    numba_funcify_UnravelIndex "C" (len [2; 3; 4]) = Ok f
    /\ f [0; 7; 23; 31] [2; 3; 4] = Ok out
    /\ forall j, (j < List.length [0; 7; 23; 31])%nat ->
         in_box [2; 3; 4] (coordinates_at out j) = true
         /\ ravel [2; 3; 4] (coordinates_at out j)
            = nth j [0; 7; 23; 31] 0 mod size_of [2; 3; 4]
         /\ (0 <= nth j [0; 7; 23; 31] 0 < size_of [2; 3; 4] ->
             ravel [2; 3; 4] (coordinates_at out j) = nth j [0; 7; 23; 31] 0).
Proof.
  apply (unravelindex_coordinates [0; 7; 23; 31] [2; 3; 4]).
  - repeat constructor; lia.
  - reflexivity.
  - repeat constructor; cbn; lia.
Defined.

(** ** FillDiagonalOffset *)

(** The elements of [range(s, e, step)]. *)
Lemma slice_count_lt (s e step t : Z) :
  0 < step -> 0 <= t ->
  t < slice_count s e step <-> s + step * t < e.
Proof.
  intros Hstep Ht. unfold slice_count.
  destruct (Z.ltb_spec step 0); [lia |].
  destruct (Z.ltb_spec s e) as [Hse | Hse]; [| nia].
  split; intros Hlt.
  - assert (Hq : t <= (e - s - 1) / step) by lia.
    assert (step * t <= e - s - 1); [| lia].
    transitivity (step * ((e - s - 1) / step)); [nia |].
    apply Z.mul_div_le. lia.
  - assert (t <= (e - s - 1) / step); [| lia].
    apply Z.div_le_lower_bound; lia.
Qed.

(** The positions of the raveled array that the slice
    [start:end:step] of [filldiagonaloffset] selects are those of the
    diagonal. *)
Lemma diagonal_positions (h w offset i j start num : Z) :
  0 <= i < h -> 0 <= j < w -> - h <= offset <= w ->
  (start, num)
  = (if 0 <=? offset then (offset, Z.min (Z.min w h) (w - offset))
     else (- offset * w, Z.min (Z.min w h) (h + offset))) ->
  (exists t,
     0 <= t < slice_count (Z.min start (h * w))
                (Z.min (start + (w + 1) * num) (h * w)) (w + 1)
     /\ i * w + j = Z.min start (h * w) + (w + 1) * t)
  <-> j - i = offset.
Proof.
  intros Hi Hj Ho E.
  assert (Hk : i * w + j < h * w) by nia.
  assert (Hs : Z.min start (h * w) = start).
  { destruct (Z.leb_spec 0 offset); injection E as -> _; nia. }
  rewrite Hs.
  assert (Hmem : forall t, 0 <= t -> i * w + j = start + (w + 1) * t ->
            (t < slice_count start (Z.min (start + (w + 1) * num) (h * w))
                   (w + 1)
             <-> t < num)).
  { intros t Ht Et. rewrite slice_count_lt by lia. split; intros Hlt; nia. }
  split.
  - intros (t & [Ht0 Ht] & Et). apply (Hmem t Ht0 Et) in Ht.
    destruct (Z.leb_spec 0 offset); injection E as -> ->.
    + assert (Hd : (i - t) * w = offset + t - j) by lia.
      assert (i - t = 0)
        by (destruct (Z.lt_trichotomy (i - t) 0) as [| [|]]; nia).
      lia.
    + assert (Hd : (i + offset - t) * w = t - j) by lia.
      assert (i + offset - t = 0)
        by (destruct (Z.lt_trichotomy (i + offset - t) 0) as [| [|]]; nia).
      lia.
  - intros Hd.
    destruct (Z.leb_spec 0 offset); injection E as -> ->.
    + exists i. assert (Et : i * w + j = offset + (w + 1) * i) by nia.
      split; [| exact Et]. split; [lia |]. apply (Hmem i); lia.
    + exists j. assert (Et : i * w + j = - offset * w + (w + 1) * j) by nia.
      split; [| exact Et]. split; [lia |]. apply (Hmem j); lia.
Qed.

Section FillDiagonal.
Context {R : Type} `{Scalar R}.

(** X12 ([numba_funcify_FillDiagonalOffset]): for a matrix of [height]
    rows and [width] columns, of a size far from the limit of [int64], and
    an offset with [-height <= offset <= width], [filldiagonaloffset]
    returns a matrix of the same shape whose element in row [i] and column
    [j] is [val] where [j - i = offset] and the element of the input
    everywhere else. *)
Theorem filldiagonaloffset_fills_diagonal (a : ndarray R) (val : R)
    (offset height width : Z) :
  shape a = [height; width] -> 0 <= height -> 0 <= width ->
  (height + width + 1) * (width + 1) < 2 ^ 62 ->
  - height <= offset <= width ->
  exists r, filldiagonaloffset a val offset = Ok r
    /\ shape r = [height; width]
    /\ forall i j, 0 <= i < height -> 0 <= j < width ->
         item r [i; j] = if j - i =? offset then val else item a [i; j].
Proof.
  intros Hs Hh Hw Hsmall Ho. unfold filldiagonaloffset. rewrite Hs.
  set (h := height) in *. set (w := width) in *.
  assert (E62 : 2 ^ 63 = 2 * 2 ^ 62) by reflexivity.
  assert (Hwrap : forall z, - (2 * ((h + w + 1) * (w + 1))) <= z
                            <= 2 * ((h + w + 1) * (w + 1)) -> wrap64 z = z).
  { intros z Hz. apply wrap64_small. lia. }
  set (sn := if 0 <=? offset then (offset, Z.min (Z.min w h) (w - offset))
             else (- offset * w, Z.min (Z.min w h) (h + offset))).
  assert (Esn : (if 0 <=? offset
                 then (offset, Z.min (Z.min w h) (wrap64 (w - offset)))
                 else (wrap64 (wrap64 (- offset) * w),
                       Z.min (Z.min w h) (wrap64 (h + offset)))) = sn).
  { unfold sn. destruct (Z.leb_spec 0 offset).
    - rewrite Hwrap by nia. reflexivity.
    - rewrite (Hwrap (- offset)) by nia.
      rewrite (Hwrap (- offset * w)) by nia.
      rewrite Hwrap by nia. reflexivity. }
  rewrite Esn. destruct sn as [start num] eqn:Esn'.
  assert (Hstart : 0 <= start <= (h + w + 1) * (w + 1)).
  { unfold sn in Esn'. destruct (Z.leb_spec 0 offset);
      injection Esn' as <- _; nia. }
  assert (Hnum : 0 <= num <= h + w).
  { unfold sn in Esn'. destruct (Z.leb_spec 0 offset);
      injection Esn' as _ <-; lia. }
  rewrite (Hwrap (w + 1)) by nia.
  rewrite (Hwrap ((w + 1) * num)) by nia.
  rewrite (Hwrap (start + (w + 1) * num)) by nia.
  assert (Ez : size_of [h; w] = h * w) by (cbn; lia).
  rewrite np_reshape_ok; [| repeat constructor; rewrite Ez; nia
                          | cbn [size_of fold_right]; rewrite Hs; cbn; lia].
  cbn [bind]. unfold fill_item. cbn [shape].
  unfold index_views.
  cbn [filter is_ellipsis negb List.length Nat.ltb Nat.leb Nat.sub
       expand_ellipsis repeat axis_views index_view].
  unfold slice_view.
  destruct (Z.eqb_spec (w + 1) 0) as [| Hstep]; [lia |].
  destruct (Z.ltb_spec (w + 1) 0); [lia |].
  unfold slice_bound.
  destruct (Z.ltb_spec start 0); [lia |].
  destruct (Z.ltb_spec (start + (w + 1) * num) 0); [nia |].
  cbn [bind]. rewrite Ez.
  rewrite np_reshape_ok; [| repeat constructor; assumption | cbn; lia].
  eexists. split; [reflexivity |]. split; [reflexivity |].
  intros i j Hi Hj. cbn [item shape].
  rewrite Hs. cbn [ravel unravel size_of fold_right].
  rewrite !Z.mul_1_r, !Z.add_0_r, !Z.div_1_r.
  assert (Eu : i * w + j = ravel [h; w] [i; j]) by (cbn; lia).
  assert (Hbox : in_box [h; w] [i; j] = true).
  { rewrite !in_box_cons, in_box_nil.
    destruct (Z.leb_spec 0 i), (Z.ltb_spec i h), (Z.leb_spec 0 j),
      (Z.ltb_spec j w); try lia; reflexivity. }
  assert (Ea : [(i * w + j) / w; (i * w + j) mod w] = [i; j]).
  { pose proof (unravel_ravel [h; w] [i; j] Hbox) as U.
    cbn [ravel unravel size_of fold_right] in U.
    rewrite !Z.mul_1_r, !Z.add_0_r, !Z.div_1_r in U. exact U. }
  rewrite Ea. cbn [in_view]. rewrite andb_true_r.
  pose proof (diagonal_positions h w offset i j start num Hi Hj Ho
                ltac:(symmetry; exact Esn')) as Hd.
  destruct (Z.eqb_spec (j - i) offset) as [Ed | Ed].
  - rewrite (proj2 (strided_member _ (w + 1) _ _ Hstep));
      [reflexivity |].
    destruct (proj2 Hd Ed) as (t & Ht & Et). exists t. split; assumption.
  - destruct (_ && _ && _) eqn:Ev; [| reflexivity].
    apply strided_member in Ev; [| exact Hstep].
    destruct Ev as (t & Ht & Et). elim Ed. apply Hd. exists t.
    split; assumption.
Qed.
End FillDiagonal.

Lemma filldiagonaloffset_fills_diagonal_witness :
  exists r, filldiagonaloffset (counting_array [3; 4]) 99 (-1) = Ok r
    /\ shape r = [3; 4]
    /\ forall i j, 0 <= i < 3 -> 0 <= j < 4 ->
         item r [i; j]
         = if j - i =? -1 then 99 else item (counting_array [3; 4]) [i; j].
Proof.
  apply (filldiagonaloffset_fills_diagonal (counting_array [3; 4]) 99 (-1) 3 4);
    [reflexivity | lia | lia | reflexivity | lia].
Defined.

(** * Bilinear kernels *)

(** [l[-2::-1]] *)
Lemma py_slice_step_back {A : Type} (l : list A) (d : A) :
  py_slice_step l (Some (-2)) None (Some (-1)) d = Ok (tl (rev l)).
Proof.
  unfold py_slice_step, slice_view, slice_bound, slice_count, len.
  change (-1 =? 0) with false. change (-1 <? 0) with true.
  change (-2 <? 0) with true. cbv iota. cbn [bind]. f_equal.
  set (n := List.length l).
  assert (Ec : Z.to_nat
                 (if -1 <? Z.max (-2 + Z.of_nat n) (-1)
                  then (Z.max (-2 + Z.of_nat n) (-1) - -1 - 1) / - -1 + 1
                  else 0) = pred n).
  { destruct (Z.ltb_spec (-1) (Z.max (-2 + Z.of_nat n) (-1))); [| lia].
    change (- -1) with 1. rewrite Z.div_1_r. lia. }
  rewrite Ec.
  assert (Lt : List.length (tl (rev l)) = pred n).
  { destruct (rev l) eqn:Er; cbn [tl List.length].
    - apply (f_equal (@List.length A)) in Er. rewrite length_rev in Er.
      fold n in Er. cbn in Er. now rewrite Er.
    - apply (f_equal (@List.length A)) in Er. rewrite length_rev in Er.
      fold n in Er. cbn in Er. now rewrite Er. }
  apply (nth_ext _ _ d d).
  - now rewrite length_map, length_seq, Lt.
  - rewrite length_map, length_seq. intros i Hi.
    rewrite (nth_map_seq _ _ _ d) by exact Hi.
    assert (Et : nth i (tl (rev l)) d = nth (S i) (rev l) d).
    { destruct (rev l); [now destruct i | reflexivity]. }
    rewrite Et, rev_nth by (fold n; lia). fold n. f_equal. lia.
Qed.

Lemma nth_map_within {A B : Type} (f : A -> B) (l : list A) (j : nat)
    (da : A) (db : B) :
  (j < List.length l)%nat -> nth j (map f l) db = f (nth j l da).
Proof.
  intros Hj. rewrite (nth_indep _ db (f da)) by now rewrite length_map.
  apply map_nth.
Qed.

(** The kernel before it is normalised. *)
Lemma bilinear_kernel_1D_parts (ratio : Z) (normalize : bool) :
  let half := map (fun i => inject_Z (1 + Z.of_nat i)) (seq 0 (Z.to_nat ratio)) in
  bilinear_kernel_1D ratio normalize
  = Ok (if normalize
        then map (fun x => (x / inject_Z ratio)%Q) (half ++ tl (rev half))
        else half ++ tl (rev half)).
Proof.
  cbv zeta. unfold bilinear_kernel_1D. now rewrite py_slice_step_back.
Qed.

(** The elements of the kernel. *)
Lemma bilinear_kernel_1D_elements (ratio : Z) (normalize : bool) :
  1 <= ratio ->
  exists kern,
    bilinear_kernel_1D ratio normalize = Ok kern
    /\ len kern = 2 * ratio - 1
    /\ forall i, 0 <= i < 2 * ratio - 1 ->
         nth (Z.to_nat i) kern 0%Q
         = if normalize
           then (inject_Z (ratio - Z.abs (i + 1 - ratio)) / inject_Z ratio)%Q
           else inject_Z (ratio - Z.abs (i + 1 - ratio)).
Proof.
  intros Hr. rewrite bilinear_kernel_1D_parts. cbv zeta.
  set (n := Z.to_nat ratio).
  set (half := map (fun i => inject_Z (1 + Z.of_nat i)) (seq 0 n)).
  assert (Lh : List.length half = n)
    by (unfold half; now rewrite length_map, length_seq).
  assert (Lt : List.length (tl (rev half)) = pred n).
  { destruct (rev half) eqn:Er; cbn [tl List.length];
      apply (f_equal (@List.length Q)) in Er; rewrite length_rev, Lh in Er;
      cbn in Er; now rewrite Er. }
  assert (Ei : forall i, 0 <= i < 2 * ratio - 1 ->
             nth (Z.to_nat i) (half ++ tl (rev half)) 0%Q
             = inject_Z (ratio - Z.abs (i + 1 - ratio))).
  { intros i Hi. destruct (Z.lt_ge_cases i ratio) as [Hlo | Hhi].
    - rewrite app_nth1 by (rewrite Lh; lia). unfold half.
      rewrite (nth_map_seq _ _ _ 0%Q) by lia. f_equal. lia.
    - rewrite app_nth2 by (rewrite Lh; lia). rewrite Lh.
      assert (Et : forall k, nth k (tl (rev half)) 0%Q
                             = nth (S k) (rev half) 0%Q).
      { intros k. destruct (rev half); [now destruct k | reflexivity]. }
      rewrite Et, rev_nth by (rewrite Lh; lia). rewrite Lh. unfold half.
      rewrite (nth_map_seq _ _ _ 0%Q) by lia. f_equal. lia. }
  eexists. split; [reflexivity |]. split.
  - unfold len. destruct normalize; rewrite ?length_map, length_app, Lh, Lt;
      lia.
  - intros i Hi. destruct normalize; [| now apply Ei].
    rewrite (nth_map_within _ _ _ 0%Q)
      by (rewrite length_app, Lh, Lt; lia).
    now rewrite Ei.
Qed.

(** X13 ([bilinear_kernel_1D]): for a ratio of at least 1 the kernel has
    [2 * ratio - 1] elements and is the triangle that rises from 1 to
    [ratio] in the middle and falls back to 1: its element [i] is
    [ratio - |i + 1 - ratio|], divided by [ratio] if the kernel is
    normalised.  It is symmetric, and the middle of the normalised kernel
    is 1. *)
Theorem bilinear_kernel_1D_triangle (ratio : Z) (normalize : bool) :
  1 <= ratio ->
  exists kern,
    bilinear_kernel_1D ratio normalize = Ok kern
    /\ len kern = 2 * ratio - 1
    /\ forall i, 0 <= i < 2 * ratio - 1 ->
         nth (Z.to_nat i) kern 0%Q
         = if normalize
           then (inject_Z (ratio - Z.abs (i + 1 - ratio)) / inject_Z ratio)%Q
           else inject_Z (ratio - Z.abs (i + 1 - ratio)).
Proof. exact (bilinear_kernel_1D_elements ratio normalize). Qed.

Lemma bilinear_kernel_1D_triangle_witness :
  exists kern,
    bilinear_kernel_1D 3 true = Ok kern
    /\ len kern = 2 * 3 - 1
    /\ forall i, 0 <= i < 2 * 3 - 1 ->
         nth (Z.to_nat i) kern 0%Q
         = (inject_Z (3 - Z.abs (i + 1 - 3)) / inject_Z 3)%Q.
Proof.
  apply (bilinear_kernel_1D_triangle 3 true). lia.
Defined.

(** *** Sums of the kernels *)

Lemma qsum_cons (x : Q) (l : list Q) : qsum (x :: l) = (x + qsum l)%Q.
Proof. reflexivity. Qed.

Lemma qsum_app (l1 l2 : list Q) : (qsum (l1 ++ l2) == qsum l1 + qsum l2)%Q.
Proof.
  induction l1 as [| x l1 IH]; cbn [app].
  - change (qsum []) with 0%Q. ring.
  - rewrite !qsum_cons, IH. ring.
Qed.

Lemma qsum_rev (l : list Q) : (qsum (rev l) == qsum l)%Q.
Proof.
  induction l as [| x l IH]; [reflexivity |].
  cbn [rev]. rewrite qsum_app, IH, !qsum_cons.
  change (qsum []) with 0%Q. ring.
Qed.

Lemma qsum_scale (k : Q) (l : list Q) :
  (qsum (map (fun x => x * k) l) == qsum l * k)%Q.
Proof.
  induction l as [| x l IH]; cbn [map].
  - change (qsum []) with 0%Q. ring.
  - rewrite !qsum_cons, IH. ring.
Qed.

Lemma qsum_inject (zs : list Z) :
  (qsum (map inject_Z zs) == inject_Z (fold_right Z.add 0%Z zs))%Q.
Proof.
  induction zs as [| z zs IH]; [reflexivity |].
  cbn [map fold_right]. rewrite qsum_cons, IH, inject_Z_plus. reflexivity.
Qed.

(** [1 + 2 + ... + n] *)
Lemma sum_first_integers (n : nat) :
  2 * fold_right Z.add 0 (map (fun i => 1 + Z.of_nat i) (seq 0 n))
  = Z.of_nat n * (Z.of_nat n + 1).
Proof.
  induction n as [| n IH]; [reflexivity |].
  rewrite seq_S, map_app, fold_right_app. cbn [map fold_right Nat.add].
  assert (E : forall (l : list Z) (a : Z),
            fold_right Z.add a l = fold_right Z.add 0 l + a).
  { induction l as [| x l IHl]; intros a; cbn [fold_right]; [lia |].
    rewrite IHl. lia. }
  rewrite E. lia.
Qed.

(** The sum of the kernel before it is normalised. *)
Lemma triangle_sum (n : nat) :
  let half := map (fun i => inject_Z (1 + Z.of_nat i)) (seq 0 n) in
  (qsum (half ++ tl (rev half)) == inject_Z (Z.of_nat n * Z.of_nat n))%Q.
Proof.
  cbv zeta. destruct n as [| m]; [reflexivity |].
  rewrite seq_S, map_app. cbn [map Nat.add].
  rewrite rev_app_distr. cbn [rev app tl].
  rewrite !qsum_app, qsum_rev, qsum_cons.
  change (qsum []) with 0%Q.
  rewrite <- (map_map (fun i => 1 + Z.of_nat i) inject_Z), qsum_inject.
  pose proof (sum_first_integers m) as E.
  set (s := fold_right Z.add 0 (map (fun i => 1 + Z.of_nat i) (seq 0 m))) in *.
  rewrite Qplus_0_r, <- !inject_Z_plus.
  assert (Es : s + (1 + Z.of_nat m) + s
               = Z.of_nat (S m) * Z.of_nat (S m)) by lia.
  now rewrite Es.
Qed.

(** The sum of a kernel. *)
Lemma bilinear_kernel_1D_total (ratio : Z) (normalize : bool) :
  1 <= ratio ->
  exists kern,
    bilinear_kernel_1D ratio normalize = Ok kern
    /\ (qsum kern == if normalize then inject_Z ratio
                     else inject_Z (ratio * ratio))%Q.
Proof.
  intros Hr. rewrite bilinear_kernel_1D_parts. cbv zeta.
  eexists. split; [reflexivity |].
  pose proof (triangle_sum (Z.to_nat ratio)) as E. cbv zeta in E.
  rewrite Z2Nat.id in E by lia.
  destruct normalize; [| exact E].
  unfold Qdiv. rewrite qsum_scale, E, inject_Z_mult.
  field. intros Hz. apply (inject_Z_injective ratio 0) in Hz. lia.
Qed.

(** X14 ([bilinear_kernel_1D], the sum): in exact arithmetic the elements
    of the normalised kernel for a ratio of at least 1 sum to [ratio], and
    those of the kernel that is not normalised to [ratio * ratio]. *)
Theorem bilinear_kernel_1D_sum (ratio : Z) (normalize : bool) :
  1 <= ratio ->
  exists kern,
    bilinear_kernel_1D ratio normalize = Ok kern
    /\ (qsum kern == if normalize then inject_Z ratio
                     else inject_Z (ratio * ratio))%Q.
Proof. exact (bilinear_kernel_1D_total ratio normalize). Qed.

Lemma bilinear_kernel_1D_sum_witness :
  exists kern,
    bilinear_kernel_1D 4 true = Ok kern /\ (qsum kern == inject_Z 4)%Q.
Proof.
  apply (bilinear_kernel_1D_sum 4 true). lia.
Defined.

Lemma qsum_rows (hkern vkern : list Q) :
  (qsum (map qsum (map (fun v => map (fun h => h * v) hkern) vkern))
   == qsum hkern * qsum vkern)%Q.
Proof.
  induction vkern as [| v vkern IH]; cbn [map].
  - change (qsum []) with 0%Q. ring.
  - rewrite !qsum_cons, IH, qsum_scale. ring.
Qed.

(** X15 ([bilinear_kernel_2D]): for a pair of ratios of at least 1 the
    kernel is the outer product of the vertical and the horizontal
    one-dimensional kernels: it has [2 * ratio[0] - 1] rows of
    [2 * ratio[1] - 1] elements, its element in row [i] and column [j] is
    the product of element [j] of the horizontal kernel, that of
    [ratio[1]], and element [i] of the vertical kernel, that of
    [ratio[0]], and in exact arithmetic all of its elements sum to
    [ratio[0] * ratio[1]] when it is normalised, and to the square of that
    when it is not.  An integer ratio stands for the pair of it with
    itself. *)
Theorem bilinear_kernel_2D_sum (ratio0 ratio1 : Z) (normalize : bool) :
  1 <= ratio0 -> 1 <= ratio1 ->
  exists kern vkern hkern,
    bilinear_kernel_2D (RatioPair ratio0 ratio1) normalize = Ok kern
    /\ bilinear_kernel_1D ratio0 normalize = Ok vkern
    /\ bilinear_kernel_1D ratio1 normalize = Ok hkern
    /\ len kern = 2 * ratio0 - 1
    /\ Forall (fun row => len row = 2 * ratio1 - 1) kern
    /\ (forall i j, 0 <= i < 2 * ratio0 - 1 -> 0 <= j < 2 * ratio1 - 1 ->
          nth (Z.to_nat j) (nth (Z.to_nat i) kern []) 0%Q
          = (nth (Z.to_nat j) hkern 0 * nth (Z.to_nat i) vkern 0)%Q)
    /\ (qsum (map qsum kern)
        == if normalize then inject_Z (ratio0 * ratio1)
           else inject_Z (ratio0 * ratio1 * (ratio0 * ratio1)))%Q
    /\ (ratio0 = ratio1 ->
        bilinear_kernel_2D (RatioInt ratio0) normalize = Ok kern).
Proof.
  intros H0 H1. unfold bilinear_kernel_2D.
  destruct (bilinear_kernel_1D_elements ratio1 normalize H1)
    as (hkern & Eh & Lh & _).
  destruct (bilinear_kernel_1D_elements ratio0 normalize H0)
    as (vkern & Ev & Lv & _).
  destruct (bilinear_kernel_1D_total ratio1 normalize H1) as (hk & Eh' & Sh).
  destruct (bilinear_kernel_1D_total ratio0 normalize H0) as (vk & Ev' & Sv).
  rewrite Eh in Eh'. injection Eh' as <-.
  rewrite Ev in Ev'. injection Ev' as <-.
  cbv beta iota.
  exists (map (fun v => map (fun h => (h * v)%Q) hkern) vkern), vkern, hkern.
  split; [now rewrite Eh, Ev |]. split; [exact Ev |]. split; [exact Eh |].
  split; [| split; [| split; [| split]]].
  - unfold len in *. now rewrite length_map.
  - apply Forall_forall. intros row Hrow. apply in_map_iff in Hrow.
    destruct Hrow as (v & <- & _). unfold len in *. now rewrite length_map.
  - intros i j Hi Hj. unfold len in *.
    rewrite (nth_map_within (fun v => map (fun h => (h * v)%Q) hkern) vkern
               (Z.to_nat i) 0%Q []) by lia.
    rewrite (nth_map_within (fun h => (h * nth (Z.to_nat i) vkern 0)%Q) hkern
               (Z.to_nat j) 0%Q 0%Q) by lia.
    reflexivity.
  - rewrite qsum_rows, Sh, Sv.
    destruct normalize; rewrite <- inject_Z_mult;
      match goal with
      | |- (inject_Z ?a == inject_Z ?b)%Q => replace a with b by lia
      end; reflexivity.
  - intros E. subst ratio1. rewrite Eh in Ev. injection Ev as ->.
    now rewrite Eh.
Qed.

Lemma bilinear_kernel_2D_sum_witness :
  exists kern vkern hkern,
    bilinear_kernel_2D (RatioPair 2 3) true = Ok kern
    /\ bilinear_kernel_1D 2 true = Ok vkern
    /\ bilinear_kernel_1D 3 true = Ok hkern
    /\ len kern = 2 * 2 - 1
    /\ Forall (fun row => len row = 2 * 3 - 1) kern
    /\ (forall i j, 0 <= i < 2 * 2 - 1 -> 0 <= j < 2 * 3 - 1 ->
          nth (Z.to_nat j) (nth (Z.to_nat i) kern []) 0%Q
          = (nth (Z.to_nat j) hkern 0 * nth (Z.to_nat i) vkern 0)%Q)
    /\ (qsum (map qsum kern) == inject_Z (2 * 3))%Q
    /\ (2 = 3 -> bilinear_kernel_2D (RatioInt 2) true = Ok kern).
Proof.
  apply (bilinear_kernel_2D_sum 2 3 true); lia.
Defined.

(** * Shape inference against execution *)

Lemma Forall2_nth_matches (im : list (option dim)) (shp : list Z) (i : nat) :
  imshp_matches im shp -> (i < List.length shp)%nat ->
  nth i im None = None \/ nth i im None = Some (DimInt (nth i shp 0)).
Proof.
  unfold imshp_matches. intros F. revert i.
  induction F as [| e n im shp Hen _ IH]; intros i Hi; [cbn in Hi; lia |].
  destruct i as [| i]; [exact Hen |]. cbn [nth]. apply IH. cbn in Hi. lia.
Qed.

(** A static shape that agrees with the shape at hand changes nothing. *)
Lemma override_shape_matches (static : list (option dim)) (shp : list Z) :
  imshp_matches static shp ->
  override_shape static shp (len shp) = Ok (map Some shp).
Proof.
  intros Hm. unfold override_shape, len.
  assert (L : List.length static = List.length shp)
    by (eapply Forall2_length; exact Hm).
  rewrite (mapM_range_ok _ (fun i => Some (nth i shp 0))).
  - now rewrite (map_seq_nth Some shp 0).
  - intros i Hi. rewrite (py_nth_ok _ _ None) by lia. cbn [bind].
    destruct (Forall2_nth_matches static shp i Hm Hi) as [-> | ->].
    + now rewrite (py_nth_ok _ _ 0) by exact Hi.
    + reflexivity.
Qed.

Section InferShape.
Context {R : Type} `{Scalar R}.

(** X16 ([AbstractConv.infer_shape] against [AbstractConv.perform], shared
    kernels): for an operator whose static [imshp] and [kshp] agree with
    the arrays where they are known, the shape that [infer_shape] computes
    from the shapes of the image and of the kernel is the shape of the
    array that [perform] returns for them. *)
Theorem forward_infer_shape_sound (self : ConvOp) (img kern : ndarray R)
    (B c1 oco : Z) (N K : list Z) :
  op_ok self -> unshared self = false -> sizes_ok self N K ->
  0 <= B -> 0 <= c1 -> 0 <= oco ->
  shape img = B :: num_groups self * c1 :: N ->
  shape kern = num_groups self * oco :: c1 :: K ->
  imshp_matches (imshp self) (shape img) ->
  imshp_matches (kshp self) (shape kern) ->
  exists out,
    AbstractConv_perform self img kern = Ok out
    /\ AbstractConv_infer_shape self (shape img) (shape kern)
       = Ok (map Some (shape out)).
Proof.
  intros Hop Hus Hsz HB Hc Ho Hi Hk Him Hkm.
  destruct (perform_shared_ok self img kern B c1 oco N K
              Hop Hus Hsz HB Hc Ho Hi Hk) as (out & Eo & So & _).
  exists out. split; [exact Eo |].
  destruct Hop as (Hcd & Hbm & Hss & Hfd & HG & _ & Hss1 & Hfd1).
  destruct Hsz as (HN & HK & _).
  unfold AbstractConv_infer_shape. rewrite Hus.
  assert (Li : 2 + convdim self = len (shape img))
    by (rewrite Hi; unfold len in *; cbn [List.length]; lia).
  assert (Lk : 2 + convdim self = len (shape kern))
    by (rewrite Hk; unfold len in *; cbn [List.length]; lia).
  rewrite Li at 1. rewrite override_shape_matches by exact Him. cbn [bind].
  rewrite Lk. rewrite override_shape_matches by exact Hkm. cbn [bind].
  rewrite Hi, Hk, So. unfold len in *.
  rewrite (get_conv_output_shape_ok B (num_groups self * c1)
             (num_groups self * oco) N [c1] K);
    try lia; try assumption.
  - rewrite conv_out_sizes_pads by (rewrite ?dilated_length; lia).
    reflexivity.
  - unfold len. replace (Z.of_nat (List.length N)) with (convdim self) by lia.
    exact Hbm.
  - eapply Forall_impl; [| exact Hss1]. cbv beta. intros; lia.
Qed.
End InferShape.

Lemma forward_infer_shape_sound_witness :
  exists out,
    AbstractConv_perform example_conv_op (counting_array [1; 2; 4; 5])
      (countdown_array [4; 1; 3; 2]) = Ok out
    /\ AbstractConv_infer_shape example_conv_op
         (shape (counting_array [1; 2; 4; 5]))
         (shape (countdown_array [4; 1; 3; 2]))
       = Ok (map Some (shape out)).
Proof.
  apply (forward_infer_shape_sound example_conv_op
           (counting_array [1; 2; 4; 5]) (countdown_array [4; 1; 3; 2])
           1 1 2 [4; 5] [3; 2]);
    concrete_facts.
Defined.

Section InferGradients.
Context {R : Type} `{Scalar R}.

(** X17 ([AbstractConv_gradWeights.infer_shape] against
    [AbstractConv_gradWeights.perform], shared kernels): for an operator
    whose static [kshp] agrees with the kernel shape where it is known, the
    shape that [infer_shape] computes from the shapes of the image and of
    the output gradient and from the [shape] input is the shape of the
    gradient that [perform] returns. *)
Theorem gradWeights_infer_shape_sound (self : ConvOp) (img dO : ndarray R)
    (B c1 oco : Z) (N K : list Z) :
  op_ok self -> unshared self = false -> sizes_ok self N K ->
  0 <= B -> 0 <= c1 -> 0 <= oco ->
  shape img = B :: num_groups self * c1 :: N ->
  shape dO = B :: num_groups self * oco :: op_out_sizes self N K ->
  imshp_matches (kshp self) (num_groups self * oco :: c1 :: K) ->
  exists gw,
    AbstractConv_gradWeights_perform self img dO K = Ok gw
    /\ AbstractConv_gradWeights_infer_shape self (shape img) (shape dO) K
       = Ok (map Some (shape gw)).
Proof.
  intros Hop Hus Hsz HB Hc Ho Hi Hd Hkm.
  destruct (gradWeights_shared_ok self img dO B c1 oco N K
              Hop Hus Hsz HB Hc Ho Hi Hd) as (gw & Eg & Sg & _).
  exists gw. split; [exact Eg |].
  destruct Hop as (Hcd & Hbm & Hss & Hfd & HG & _).
  destruct Hsz as (HN & HK & _).
  unfold AbstractConv_gradWeights_infer_shape. rewrite Hus.
  destruct (kshp self) as [| e static] eqn:Ek; [inversion Hkm |].
  rewrite Hi, Hd. cbn [py_nth nth_error bind].
  unfold py_floordiv. destruct (Z.eqb_spec (num_groups self) 0); [lia |].
  cbn [bind]. rewrite mapM_py_nth_all by exact HK. cbn [bind].
  rewrite (Z.mul_comm (num_groups self) c1), Z.div_mul by lia.
  replace (2 + convdim self)
    with (len (num_groups self * oco :: c1 :: K))
    by (unfold len in *; cbn [List.length]; lia).
  rewrite override_shape_matches by exact Hkm.
  now rewrite Sg.
Qed.

(** X18 ([AbstractConv_gradInputs.infer_shape] against
    [AbstractConv_gradInputs.perform], shared kernels): for an operator
    whose static [imshp] agrees with the image shape where it is known, the
    shape that [infer_shape] computes from the shapes of the kernel and of
    the output gradient and from the [shape] input is the shape of the
    gradient that [perform] returns. *)
Theorem gradInputs_infer_shape_sound (self : ConvOp) (kern dO : ndarray R)
    (B c1 oco : Z) (N K : list Z) :
  op_ok self -> unshared self = false -> sizes_ok self N K ->
  0 <= B -> 0 <= c1 -> 0 <= oco ->
  imshp_matches (imshp self) (B :: num_groups self * c1 :: N) ->
  shape kern = num_groups self * oco :: c1 :: K ->
  shape dO = B :: num_groups self * oco :: op_out_sizes self N K ->
  exists gi,
    AbstractConv_gradInputs_perform self kern dO N = Ok gi
    /\ AbstractConv_gradInputs_infer_shape self (shape kern) (shape dO) N
       = Ok (map Some (shape gi)).
Proof.
  intros Hop Hus Hsz HB Hc Ho Him Hk Hd.
  destruct (gradInputs_shared_ok self kern dO B c1 oco N K
              Hop Hus Hsz HB Hc Ho Him Hk Hd) as (gi & Eg & Sg & _).
  exists gi. split; [exact Eg |].
  destruct Hop as (Hcd & Hbm & Hss & Hfd & HG & _).
  destruct Hsz as (HN & HK & _).
  unfold AbstractConv_gradInputs_infer_shape.
  rewrite Hd. cbn [py_nth nth_error bind].
  assert (Hkc : py_index (shape kern) (- convdim self - 1) = Ok c1).
  { rewrite Hk. unfold py_index, len in *. cbn [List.length].
    destruct (Z.ltb_spec (- convdim self - 1) 0); [| lia].
    destruct (Z.ltb_spec (- convdim self - 1
                          + Z.of_nat (S (S (List.length K)))) 0); [lia |].
    replace (Z.to_nat _) with 1%nat by lia. reflexivity. }
  rewrite Hkc. cbn [bind].
  rewrite mapM_py_nth_all by exact HN. cbn [bind].
  assert (Ech : (if num_groups self >? 1 then c1 * num_groups self else c1)
                = num_groups self * c1).
  { destruct (Z.gtb_spec (num_groups self) 1); [lia |].
    replace (num_groups self) with 1 by lia. lia. }
  rewrite Ech.
  replace (2 + convdim self)
    with (len (B :: num_groups self * c1 :: N))
    by (unfold len in *; cbn [List.length]; lia).
  rewrite override_shape_matches by exact Him.
  now rewrite Sg.
Qed.
End InferGradients.

Lemma gradWeights_infer_shape_sound_witness :
  exists gw,
    AbstractConv_gradWeights_perform example_conv_op
      (counting_array [1; 2; 4; 5]) (countdown_array [1; 4; 2; 5]) [3; 2]
    = Ok gw
    /\ AbstractConv_gradWeights_infer_shape example_conv_op
         (shape (counting_array [1; 2; 4; 5]))
         (shape (countdown_array [1; 4; 2; 5])) [3; 2]
       = Ok (map Some (shape gw)).
Proof.
  apply (gradWeights_infer_shape_sound example_conv_op
           (counting_array [1; 2; 4; 5]) (countdown_array [1; 4; 2; 5])
           1 1 2 [4; 5] [3; 2]);
    concrete_facts.
Defined.

Lemma gradInputs_infer_shape_sound_witness :
  exists gi,
    AbstractConv_gradInputs_perform example_conv_op
      (countdown_array [4; 1; 3; 2]) (countdown_array [1; 4; 2; 5]) [4; 5]
    = Ok gi
    /\ AbstractConv_gradInputs_infer_shape example_conv_op
         (shape (countdown_array [4; 1; 3; 2]))
         (shape (countdown_array [1; 4; 2; 5])) [4; 5]
       = Ok (map Some (shape gi)).
Proof.
  apply (gradInputs_infer_shape_sound example_conv_op
           (countdown_array [4; 1; 3; 2]) (countdown_array [1; 4; 2; 5])
           1 1 2 [4; 5] [3; 2]);
    concrete_facts.
Defined.

(** * Operation counts *)

(** X19 ([BaseAbstractConv.flops]): for a two-dimensional operator whose
    image has [filters[1] * num_groups] channels, [flops] returns a float
    that is, in exact arithmetic, two operations for every kernel element,
    output position, input channel of a group, filter and batch entry:
    [2 * (k2 * k3) * (o2 * o3) * (c1 * F * B)].  With another number of
    image channels the [assert] fails, and for another [convdim] the
    method raises [NotImplementedError]. *)
Theorem flops_counts_multiply_adds (self : ConvOp)
    (B C n2 n3 F c1 k2 k3 ob oc o2 o3 : Z) :
  (convdim self <> 2 ->
   flops self [B; C; n2; n3] [F; c1; k2; k3] [ob; oc; o2; o3]
   = Raise (NotImplementedError "flops not implemented for convdim={}"))
  /\ (convdim self = 2 -> C <> c1 * num_groups self ->
      flops self [B; C; n2; n3] [F; c1; k2; k3] [ob; oc; o2; o3]
      = Raise AssertionError)
  /\ (convdim self = 2 -> C = c1 * num_groups self -> num_groups self <> 0 ->
      exists q,
        flops self [B; C; n2; n3] [F; c1; k2; k3] [ob; oc; o2; o3]
        = Ok (PyFloat q)
        /\ (q == inject_Z (2 * (k2 * k3) * (o2 * o3) * (c1 * F * B)))%Q).
Proof.
  unfold flops. repeat split.
  - intros Hcd. destruct (Z.eqb_spec (convdim self) 2); [contradiction |].
    reflexivity.
  - intros Hcd HC. rewrite Hcd. cbn [Z.eqb Pos.eqb py_nth nth_error bind].
    destruct (Z.eqb_spec C (c1 * num_groups self)); [contradiction |].
    reflexivity.
  - intros Hcd HC HG. rewrite Hcd. cbn [Z.eqb Pos.eqb py_nth nth_error bind].
    destruct (Z.eqb_spec C (c1 * num_groups self)); [| contradiction].
    cbn [negb bind]. unfold py_truediv.
    destruct (Z.eqb_spec (num_groups self) 0); [contradiction |].
    cbn [bind]. eexists. split; [reflexivity |].
    rewrite !Qred_correct. subst C.
    replace (c1 * num_groups self * F * B)
      with (c1 * F * B * num_groups self) by ring.
    rewrite !inject_Z_mult. field.
    intros Hz. apply (inject_Z_injective (num_groups self) 0) in Hz.
    contradiction.
Qed.

Lemma flops_counts_multiply_adds_witness :
  exists q,
    flops example_conv_op [1; 1 * 2; 4; 5] [4; 1; 3; 2] [1; 4; 2; 5]
    = Ok (PyFloat q)
    /\ (q == inject_Z (2 * (3 * 2) * (2 * 5) * (1 * 4 * 1)))%Q.
Proof.
  apply (proj2 (proj2 (flops_counts_multiply_adds example_conv_op
                         1 (1 * 2) 4 5 4 1 3 2 1 4 2 5)));
    [reflexivity | reflexivity | discriminate].
Defined.

(** * The padding normaliser *)

(** X20 ([border_mode_to_pad]): for a border mode as the operators store
    it (a named mode, or a tuple with one non-negative integer or
    non-negative pair per axis) and dilated kernel sizes of at least 1,
    [border_mode_to_pad] returns one pair of pads per axis; no pad is
    negative, and the pair of an axis is the one that the single-axis
    shape function resolves the border mode to: half gives [k // 2] on both
    sides, full [k - 1], valid 0, an integer [v] the pair [(v, v)] and a
    pair itself.  An integer border mode, which [__init__] never stores,
    is refused with a [ValueError]. *)
Theorem border_mode_to_pad_resolves (cd : Z) (bm : border_mode_t)
    (kshp : list Z) :
  stored_border_mode cd bm -> len kshp = cd ->
  Forall (fun k => 1 <= k) kshp ->
  exists pads,
    border_mode_to_pad bm cd kshp = Ok pads
    /\ len pads = cd
    /\ Forall (fun p => 0 <= fst p /\ 0 <= snd p) pads
    /\ (forall i, (i < List.length kshp)%nat ->
          spec_pads (axis_mode_of bm i) (nth i kshp 0)
          = Some (nth i pads (0, 0)))
    /\ forall v, is_value_error (border_mode_to_pad (BInt v) cd kshp) = true.
Proof.
  intros Hbm Hk Hpos. exists (pads_of bm kshp).
  split; [now apply border_mode_to_pad_ok |].
  split; [unfold len in *; now rewrite pads_of_length |].
  split; [now apply (pads_of_nonneg cd) |].
  split; [| reflexivity].
  intros i Hi. unfold pads_of.
  rewrite (nth_map_seq _ _ _ (0, 0)) by exact Hi.
  unfold axis_pads.
  assert (Hres : resolved_axis_mode (axis_mode_of bm i) = true).
  { apply (stored_border_mode_resolved cd bm i Hbm). unfold len in Hk. lia. }
  destruct (resolved_axis_mode_pads (axis_mode_of bm i) (nth i kshp 0) Hres)
    as (p & ->).
  reflexivity.
Qed.

Lemma border_mode_to_pad_resolves_witness :
  exists pads,
    border_mode_to_pad (BTuple [AInt 1; ATuple [0; 2]]) 2 [3; 5] = Ok pads
    /\ len pads = 2
    /\ Forall (fun p => 0 <= fst p /\ 0 <= snd p) pads
    /\ (forall i, (i < List.length [3; 5])%nat ->
          spec_pads (axis_mode_of (BTuple [AInt 1; ATuple [0; 2]]) i)
            (nth i [3; 5] 0)
          = Some (nth i pads (0, 0)))
    /\ forall v, is_value_error (border_mode_to_pad (BInt v) 2 [3; 5]) = true.
Proof.
  apply (border_mode_to_pad_resolves 2 (BTuple [AInt 1; ATuple [0; 2]]) [3; 5]).
  - split; [reflexivity |].
    repeat constructor; discriminate.
  - reflexivity.
  - repeat constructor; lia.
Defined.

(** * The unshared convolution of one channel *)

(** [a[row:row + d1, col:col + d2]] *)
Lemma window_views (n1 n2 d1 d2 row col : Z) :
  0 <= row -> 0 <= col -> 0 <= d1 -> 0 <= d2 ->
  row + d1 <= n1 -> col + d2 <= n2 ->
  index_views [n1; n2]
    [slice_range row (row + d1); slice_range col (col + d2)]
  = Ok [Strided row 1 d1; Strided col 1 d2].
Proof.
  intros Hr Hc Hd1 Hd2 H1 H2. unfold index_views, slice_range.
  cbn [filter is_ellipsis negb List.length Nat.ltb Nat.leb Nat.sub
       expand_ellipsis repeat axis_views index_view].
  rewrite !slice_view_range by lia. cbn [bind].
  replace (row + d1 - row) with d1 by lia.
  replace (col + d2 - col) with d2 by lia. reflexivity.
Qed.

(** [kern[row, col, ::-1, ::-1]] *)
Lemma flipped_kernel_views (x1 x2 d1 d2 row col : Z) :
  0 <= row < x1 -> 0 <= col < x2 -> 0 <= d1 -> 0 <= d2 ->
  index_views [x1; x2; d1; d2]
    [Idx row; Idx col; slice_step (-1); slice_step (-1)]
  = Ok [Fixed row; Fixed col;
        Strided (d1 - 1) (-1) d1; Strided (d2 - 1) (-1) d2].
Proof.
  intros Hr Hc Hd1 Hd2. unfold index_views, slice_step.
  cbn [filter is_ellipsis negb List.length Nat.ltb Nat.leb Nat.sub
       expand_ellipsis repeat axis_views].
  rewrite !index_view_idx by assumption. cbn [bind index_view].
  rewrite !slice_view_flip by assumption. reflexivity.
Qed.

Section Unshared2d.
Context {R : Type} `{Scalar R}.

Add Ring scalar_ring_unshared : scalar_ring.

(** The loops of the direction "forward". *)
Lemma unshared2d_forward_ok (self : ConvOp) (inp kern : ndarray R)
    (n1 n2 x1 x2 d1 d2 : Z) :
  convdim self = 2 ->
  shape inp = [n1; n2] -> shape kern = [x1; x2; d1; d2] ->
  0 <= x1 -> 0 <= x2 -> 0 <= d1 -> 0 <= d2 ->
  x1 + d1 - 1 <= n1 -> x2 + d2 - 1 <= n2 ->
  exists out,
    unshared2d self inp kern [x1; x2] "forward" = Ok out
    /\ shape out = [x1; x2]
    /\ forall row col, 0 <= row < x1 -> 0 <= col < x2 ->
         item out [row; col]
         = sum_range d1 (fun m1 =>
             sum_range d2 (fun m2 =>
               rmul (item inp [row + m1; col + m2])
                    (item kern [row; col; d1 - 1 - m1; d2 - 1 - m2]))).
Proof.
  intros Hcd Hi Hk Hx1 Hx2 Hd1 Hd2 Hn1 Hn2.
  unfold unshared2d. rewrite Hcd. change (negb (2 =? 2)) with false.
  cbv iota. rewrite np_zeros_ok by (repeat constructor; assumption).
  cbn [bind]. change (String.eqb "forward" "forward") with true. cbv iota.
  rewrite Hk. cbn [py_nth nth_error bind].
  set (v := fun i : list Z =>
    sum_range d1 (fun m1 =>
      sum_range d2 (fun m2 =>
        rmul (item inp [nth 0 i 0 + m1; nth 1 i 0 + m2])
             (item kern [nth 0 i 0; nth 1 i 0; d1 - 1 - m1; d2 - 1 - m2])))).
  assert (Hstep : forall row col, 0 <= row < x1 -> 0 <= col < x2 ->
    sets [x1; x2]
      (fun out =>
         patch <- getitem inp [slice_range row (row + d1);
                               slice_range col (col + d2)] ;;
         k <- getitem kern [Idx row; Idx col; slice_step (-1);
                            slice_step (-1)] ;;
         prod <- np_multiply patch k ;;
         setscalar out [row; col] (np_sum prod))
      (in_view [Fixed row; Fixed col]) v).
  { intros row col Hr Hc s Hs.
    unfold getitem. rewrite Hi, Hk.
    rewrite window_views by lia. cbn [bind].
    rewrite flipped_kernel_views by lia. cbn [bind].
    unfold np_multiply. cbn [gather shape view_shape].
    rewrite shape_eqb_refl. cbn [bind].
    destruct (sets_setscalar x1 x2 row col
                (np_sum (mk_ndarray [d1; d2]
                   (fun i => rmul
                      (item (gather [Strided row 1 d1; Strided col 1 d2] inp) i)
                      (item (gather [Fixed row; Fixed col;
                                     Strided (d1 - 1) (-1) d1;
                                     Strided (d2 - 1) (-1) d2] kern) i))))
                Hr Hc s Hs) as (s' & E & S' & I').
    exists s'. split; [exact E |]. split; [exact S' |].
    intros i Hbox. rewrite (I' i Hbox).
    destruct (in_view [Fixed row; Fixed col] i) eqn:Ev; [| reflexivity].
    destruct i as [| i0 [| i1 [| i2 i]]]; try discriminate.
    cbn [in_view] in Ev.
    apply andb_true_iff in Ev as [E0 Ev].
    apply andb_true_iff in Ev as [E1 _].
    apply Z.eqb_eq in E0, E1. subst i0 i1.
    unfold v, np_sum. cbn [shape sum_box item gather view_index nth].
    apply sum_range_ext. intros m1 Hm1.
    apply sum_range_ext. intros m2 Hm2.
    replace (row + 1 * m1) with (row + m1) by lia.
    replace (col + 1 * m2) with (col + m2) by lia.
    replace (d1 - 1 + -1 * m1) with (d1 - 1 - m1) by lia.
    replace (d2 - 1 + -1 * m2) with (d2 - 1 - m2) by lia.
    reflexivity. }
  pose proof (sets_for_range [x1; x2] x1
    (fun row out =>
       for_range x2 (fun col out =>
         patch <- getitem inp [slice_range row (row + d1);
                               slice_range col (col + d2)] ;;
         k <- getitem kern [Idx row; Idx col; slice_step (-1);
                            slice_step (-1)] ;;
         prod <- np_multiply patch k ;;
         setscalar out [row; col] (np_sum prod)) out)
    (fun row i => any_upto x2 (fun col => in_view [Fixed row; Fixed col] i))
    v) as Hloops.
  destruct (Hloops
              ltac:(intros row Hr;
                    exact (sets_for_range [x1; x2] x2 _
                             (fun col => in_view [Fixed row; Fixed col]) v
                             (fun col Hc => Hstep row col Hr Hc)))
              (zeros_array [x1; x2]) eq_refl)
    as (out & E & Sh & It).
  exists out. split; [exact E |]. split; [exact Sh |].
  intros row col Hr Hc.
  assert (Hbox : in_box [x1; x2] [row; col] = true).
  { rewrite !in_box_cons, in_box_nil.
    destruct (Z.leb_spec 0 row), (Z.ltb_spec row x1), (Z.leb_spec 0 col),
      (Z.ltb_spec col x2); try lia; reflexivity. }
  rewrite (It _ Hbox).
  rewrite (any_upto_true x1 row) by
    (try lia; apply (any_upto_true x2 col); try lia;
     cbn [in_view]; now rewrite !Z.eqb_refl).
  reflexivity.
Qed.

(** X21 ([BaseAbstractConv.unshared2d], forward): for a two-dimensional
    operator, an input of shape [(n1, n2)] and kernels of shape
    [(x1, x2, d1, d2)], one for each of the [x1 * x2] output positions,
    whose windows fit into the input, [unshared2d] returns an array of
    shape [(x1, x2)]; its element at [(row, col)] is the sum over the
    window of the input at [(row + m1, col + m2)] times the flipped kernel
    of that position, [kern[row, col, d1 - 1 - m1, d2 - 1 - m2]]. *)
Theorem unshared2d_forward_elements (self : ConvOp) (inp kern : ndarray R)
    (n1 n2 x1 x2 d1 d2 : Z) :
  convdim self = 2 ->
  shape inp = [n1; n2] -> shape kern = [x1; x2; d1; d2] ->
  0 <= x1 -> 0 <= x2 -> 0 <= d1 -> 0 <= d2 ->
  x1 + d1 - 1 <= n1 -> x2 + d2 - 1 <= n2 ->
  exists out,
    unshared2d self inp kern [x1; x2] "forward" = Ok out
    /\ shape out = [x1; x2]
    /\ forall row col, 0 <= row < x1 -> 0 <= col < x2 ->
         item out [row; col]
         = sum_range d1 (fun m1 =>
             sum_range d2 (fun m2 =>
               rmul (item inp [row + m1; col + m2])
                    (item kern [row; col; d1 - 1 - m1; d2 - 1 - m2]))).
Proof.
  intros Hcd Hi Hk Hx1 Hx2 Hd1 Hd2 Hn1 Hn2.
  exact (unshared2d_forward_ok self inp kern n1 n2 x1 x2 d1 d2
           Hcd Hi Hk Hx1 Hx2 Hd1 Hd2 Hn1 Hn2).
Qed.
End Unshared2d.

Lemma unshared2d_forward_elements_witness :
  exists out,
    unshared2d example_conv_op (counting_array [4; 5])
      (countdown_array [3; 3; 2; 3]) [3; 3] "forward" = Ok out
    /\ shape out = [3; 3]
    /\ forall row col, 0 <= row < 3 -> 0 <= col < 3 ->
         item out [row; col]
         = sum_range 2 (fun m1 =>
             sum_range 3 (fun m2 =>
               rmul (item (counting_array [4; 5]) [row + m1; col + m2])
                    (item (countdown_array [3; 3; 2; 3])
                       [row; col; 2 - 1 - m1; 3 - 1 - m2]))).
Proof.
  apply (unshared2d_forward_elements example_conv_op (counting_array [4; 5])
           (countdown_array [3; 3; 2; 3]) 4 5 3 3 2 3);
    try reflexivity; lia.
Defined.

(** ** The unshared convolution and its gradient with respect to the input *)

Section Unshared2dAdjoint.
Context {R : Type} `{Scalar R}.

Add Ring scalar_ring_unshared_adjoint : scalar_ring.

(** [inp[row, col]] *)
Lemma getscalar_matrix (a : ndarray R) (x1 x2 row col : Z) :
  shape a = [x1; x2] -> 0 <= row < x1 -> 0 <= col < x2 ->
  getscalar a [row; col] = Ok (item a [row; col]).
Proof.
  intros Ha Hr Hc. unfold getscalar. rewrite Ha. unfold index_views.
  cbn [map filter is_ellipsis negb List.length Nat.ltb Nat.leb Nat.sub
       expand_ellipsis repeat axis_views].
  rewrite !index_view_idx by assumption. reflexivity.
Qed.

(** The loops of the direction "backprop inputs". *)
Lemma unshared2d_backprop_inputs_elements (self : ConvOp) (g kern : ndarray R)
    (n1 n2 x1 x2 d1 d2 : Z) :
  convdim self = 2 ->
  shape g = [x1; x2] -> shape kern = [x1; x2; d1; d2] ->
  0 <= n1 -> 0 <= n2 -> 0 <= x1 -> 0 <= x2 -> 0 <= d1 -> 0 <= d2 ->
  x1 + d1 - 1 <= n1 -> x2 + d2 - 1 <= n2 ->
  exists gi,
    unshared2d self g kern [n1; n2] "backprop inputs" = Ok gi
    /\ shape gi = [n1; n2]
    /\ forall p, in_box [n1; n2] p = true ->
         item gi p
         = sum_range x1 (fun row =>
             sum_range x2 (fun col =>
               if in_view [Strided row 1 d1; Strided col 1 d2] p
               then rmul (item g [row; col])
                      (item kern
                         (view_index [Fixed row; Fixed col;
                                      Strided (d1 - 1) (-1) d1;
                                      Strided (d2 - 1) (-1) d2]
                            (view_inverse
                               [Strided row 1 d1; Strided col 1 d2] p)))
               else rzero)).
Proof.
  intros Hcd Hg Hk Hn1 Hn2 Hx1 Hx2 Hd1 Hd2 Hf1 Hf2.
  unfold unshared2d. rewrite Hcd. change (negb (2 =? 2)) with false.
  cbv iota. rewrite np_zeros_ok by (repeat constructor; assumption).
  cbn [bind].
  change (String.eqb "backprop inputs" "forward") with false.
  change (String.eqb "backprop inputs" "backprop weights") with false.
  change (String.eqb "backprop inputs" "backprop inputs") with true.
  cbv iota. rewrite Hk. cbn [py_nth nth_error bind].
  set (delta := fun (row col : Z) (p : list Z) =>
    if in_view [Strided row 1 d1; Strided col 1 d2] p
    then rmul (item g [row; col])
           (item kern
              (view_index [Fixed row; Fixed col;
                           Strided (d1 - 1) (-1) d1; Strided (d2 - 1) (-1) d2]
                 (view_inverse [Strided row 1 d1; Strided col 1 d2] p)))
    else rzero).
  assert (Hstep : forall row col, 0 <= row < x1 -> 0 <= col < x2 ->
    adds [n1; n2]
      (fun out =>
         c <- getscalar g [row; col] ;;
         k <- getitem kern [Idx row; Idx col; slice_step (-1);
                            slice_step (-1)] ;;
         iadd_item out [slice_range row (row + d1);
                        slice_range col (col + d2)] (np_scale c k))
      (delta row col)).
  { intros row col Hr Hc s Hs.
    rewrite (getscalar_matrix g x1 x2 row col Hg Hr Hc). cbn [bind].
    unfold getitem. rewrite Hk.
    rewrite flipped_kernel_views by lia. cbn [bind].
    exact (adds_iadd_item [n1; n2] _ [Strided row 1 d1; Strided col 1 d2]
             (np_scale (item g [row; col])
                (gather [Fixed row; Fixed col;
                         Strided (d1 - 1) (-1) d1; Strided (d2 - 1) (-1) d2]
                   kern))
             ltac:(repeat constructor; assumption)
             (window_views n1 n2 d1 d2 row col ltac:(lia) ltac:(lia)
                Hd1 Hd2 ltac:(lia) ltac:(lia))
             eq_refl s Hs). }
  pose proof (adds_for_range [n1; n2] x1
    (fun row out =>
       for_range x2 (fun col out =>
         c <- getscalar g [row; col] ;;
         k <- getitem kern [Idx row; Idx col; slice_step (-1);
                            slice_step (-1)] ;;
         iadd_item out [slice_range row (row + d1);
                        slice_range col (col + d2)] (np_scale c k)) out)
    (fun row p => sum_range x2 (fun col => delta row col p))) as Hloops.
  destruct (Hloops
              ltac:(intros row Hr;
                    exact (adds_for_range [n1; n2] x2 _ (delta row)
                             (fun col Hc => Hstep row col Hr Hc)))
              (zeros_array [n1; n2]) eq_refl)
    as (gi & E & Sh & It).
  exists gi. split; [exact E |]. split; [exact Sh |].
  intros p Hp. rewrite (It p Hp). cbn [zeros_array item].
  fold (delta). unfold delta. ring.
Qed.

(** X22 ([BaseAbstractConv.unshared2d], "backprop inputs" against
    "forward"): for kernels of shape [(x1, x2, d1, d2)] whose windows fit
    into an input of shape [(n1, n2)], the direction "backprop inputs" is
    the adjoint of the direction "forward" in the input: the inner product
    of an output gradient [g] with the forward result for [inp] is the
    inner product of the backpropagated [g] with [inp]. *)
Theorem unshared2d_backprop_inputs_adjoint (self : ConvOp)
    (inp kern g : ndarray R) (n1 n2 x1 x2 d1 d2 : Z) :
  convdim self = 2 ->
  shape inp = [n1; n2] -> shape kern = [x1; x2; d1; d2] ->
  shape g = [x1; x2] ->
  0 <= n1 -> 0 <= n2 -> 0 <= x1 -> 0 <= x2 -> 0 <= d1 -> 0 <= d2 ->
  x1 + d1 - 1 <= n1 -> x2 + d2 - 1 <= n2 ->
  exists out gi,
    unshared2d self inp kern [x1; x2] "forward" = Ok out
    /\ unshared2d self g kern [n1; n2] "backprop inputs" = Ok gi
    /\ shape out = shape g /\ shape gi = shape inp
    /\ dot g out = dot gi inp.
Proof.
  intros Hcd Hi Hk Hg Hn1 Hn2 Hx1 Hx2 Hd1 Hd2 Hf1 Hf2.
  destruct (unshared2d_forward_ok self inp kern n1 n2 x1 x2 d1 d2
              Hcd Hi Hk Hx1 Hx2 Hd1 Hd2 Hf1 Hf2) as (out & Eo & So & Io).
  destruct (unshared2d_backprop_inputs_elements self g kern n1 n2 x1 x2 d1 d2
              Hcd Hg Hk Hn1 Hn2 Hx1 Hx2 Hd1 Hd2 Hf1 Hf2)
    as (gi & Eg & Sg & Ig).
  exists out, gi. repeat split; try assumption; try congruence.
  unfold dot. rewrite Hg, Sg.
  set (t := fun (row col : Z) (p j : list Z) =>
    rmul (rmul (item g [row; col])
            (item kern
               (view_index [Fixed row; Fixed col;
                            Strided (d1 - 1) (-1) d1; Strided (d2 - 1) (-1) d2]
                  j)))
         (item inp p)).
  transitivity (sum_range x1 (fun row =>
    sum_range x2 (fun col =>
      sum_box [n1; n2] (fun p =>
        if in_view [Strided row 1 d1; Strided col 1 d2] p
        then t row col p (view_inverse [Strided row 1 d1; Strided col 1 d2] p)
        else rzero)))).
  - cbn [sum_box]. apply sum_range_ext. intros row Hr.
    apply sum_range_ext. intros col Hc.
    rewrite (Io row col Hr Hc).
    assert (Hv : Forall2 valid_view [Strided row 1 d1; Strided col 1 d2]
                   [n1; n2]).
    { apply (index_views_valid [n1; n2]
               [slice_range row (row + d1); slice_range col (col + d2)]).
      - repeat constructor; assumption.
      - apply window_views; lia. }
    pose proof (sum_box_view [Strided row 1 d1; Strided col 1 d2] [n1; n2]
                  (t row col) Hv) as E.
    cbn [sum_box] in E. rewrite E. cbn [view_shape sum_box].
    rewrite <- sum_range_scale. apply sum_range_ext. intros m1 Hm1.
    rewrite <- sum_range_scale. apply sum_range_ext. intros m2 Hm2.
    unfold t. cbn [view_index].
    replace (row + 1 * m1) with (row + m1) by lia.
    replace (col + 1 * m2) with (col + m2) by lia.
    replace (d1 - 1 + -1 * m1) with (d1 - 1 - m1) by lia.
    replace (d2 - 1 + -1 * m2) with (d2 - 1 - m2) by lia.
    ring.
  - transitivity (sum_box [n1; n2] (fun p =>
      sum_range x1 (fun row =>
        sum_range x2 (fun col =>
          if in_view [Strided row 1 d1; Strided col 1 d2] p
          then t row col p
                 (view_inverse [Strided row 1 d1; Strided col 1 d2] p)
          else rzero)))).
    + rewrite (sum_box_range_swap [n1; n2] x1 (fun p row =>
        sum_range x2 (fun col =>
          if in_view [Strided row 1 d1; Strided col 1 d2] p
          then t row col p
                 (view_inverse [Strided row 1 d1; Strided col 1 d2] p)
          else rzero))).
      apply sum_range_ext. intros row Hr.
      rewrite (sum_box_range_swap [n1; n2] x2 (fun p col =>
        if in_view [Strided row 1 d1; Strided col 1 d2] p
        then t row col p
               (view_inverse [Strided row 1 d1; Strided col 1 d2] p)
        else rzero)).
      reflexivity.
    + apply sum_box_ext. intros p Hp. rewrite (Ig p Hp).
      rewrite <- sum_range_scale_r. apply sum_range_ext. intros row Hr.
      rewrite <- sum_range_scale_r. apply sum_range_ext. intros col Hc.
      unfold t.
      destruct (in_view [Strided row 1 d1; Strided col 1 d2] p); ring.
Qed.
End Unshared2dAdjoint.

Lemma unshared2d_backprop_inputs_adjoint_witness :
  exists out gi,
    unshared2d example_conv_op (counting_array [4; 5])
      (countdown_array [3; 3; 2; 3]) [3; 3] "forward" = Ok out
    /\ unshared2d example_conv_op (countdown_array [3; 3])
         (countdown_array [3; 3; 2; 3]) [4; 5] "backprop inputs" = Ok gi
    /\ shape out = shape (countdown_array [3; 3])
    /\ shape gi = shape (counting_array [4; 5])
    /\ dot (countdown_array [3; 3]) out = dot gi (counting_array [4; 5]).
Proof.
  apply (unshared2d_backprop_inputs_adjoint example_conv_op
           (counting_array [4; 5]) (countdown_array [3; 3; 2; 3])
           (countdown_array [3; 3]) 4 5 3 3 2 3);
    try reflexivity; lia.
Defined.

(** ** The unshared convolution and its gradient with respect to the kernels *)

Section Unshared2dWeights.
Context {R : Type} `{Scalar R}.

Add Ring scalar_ring_unshared_weights : scalar_ring.

(** The loops of the direction "backprop weights". *)
Lemma unshared2d_backprop_weights_ok (self : ConvOp) (inp g : ndarray R)
    (n1 n2 x1 x2 d1 d2 : Z) :
  convdim self = 2 ->
  shape inp = [n1; n2] -> shape g = [x1; x2] ->
  0 <= x1 -> 0 <= x2 -> 0 <= d1 -> 0 <= d2 ->
  x1 + d1 - 1 <= n1 -> x2 + d2 - 1 <= n2 ->
  exists gk,
    unshared2d self inp g [x1; x2; d1; d2] "backprop weights" = Ok gk
    /\ shape gk = [x1; x2; d1; d2]
    /\ forall row col m1 m2,
         0 <= row < x1 -> 0 <= col < x2 -> 0 <= m1 < d1 -> 0 <= m2 < d2 ->
         item gk [row; col; m1; m2]
         = rmul (item g [row; col]) (item inp [row + m1; col + m2]).
Proof.
  intros Hcd Hi Hg Hx1 Hx2 Hd1 Hd2 Hn1 Hn2.
  unfold unshared2d. rewrite Hcd. change (negb (2 =? 2)) with false.
  cbv iota. rewrite np_zeros_ok by (repeat constructor; assumption).
  cbn [bind].
  change (String.eqb "backprop weights" "forward") with false.
  change (String.eqb "backprop weights" "backprop weights") with true.
  cbv iota. cbn [py_nth nth_error bind].
  set (v := fun i : list Z =>
    rmul (item g [nth 0 i 0; nth 1 i 0])
         (item inp [nth 0 i 0 + nth 2 i 0; nth 1 i 0 + nth 3 i 0])).
  assert (Hstep : forall row col, 0 <= row < x1 -> 0 <= col < x2 ->
    sets [x1; x2; d1; d2]
      (fun out =>
         c <- getscalar g [row; col] ;;
         patch <- getitem inp [slice_range row (row + d1);
                               slice_range col (col + d2)] ;;
         setitem out [Idx row; Idx col; Ellipsis] (np_scale c patch))
      (in_view (Fixed row :: Fixed col
                  :: map (fun n => Strided 0 1 n) [d1; d2])) v).
  { intros row col Hr Hc.
    apply (sets_ext [x1; x2; d1; d2] _ _
             (fun i => item (np_scale (item g [row; col])
                               (gather [Strided row 1 d1; Strided col 1 d2]
                                  inp))
                         (view_inverse
                            (Fixed row :: Fixed col
                               :: map (fun n => Strided 0 1 n) [d1; d2]) i))).
    - intros i Hbox Hv.
      destruct i as [| i0 [| i1 [| i2 [| i3 [| i4 i]]]]]; try discriminate.
      cbn [map in_view] in Hv.
      apply andb_true_iff in Hv as [E0 Hv].
      apply andb_true_iff in Hv as [E1 _].
      apply Z.eqb_eq in E0, E1. subst i0 i1.
      unfold v. cbn [map view_inverse np_scale item gather view_index nth].
      rewrite !Z.sub_0_r, !Z.div_1_r.
      replace (row + 1 * i2) with (row + i2) by lia.
      replace (col + 1 * i3) with (col + i3) by lia.
      reflexivity.
    - intros s Hs.
      rewrite (getscalar_matrix g x1 x2 row col Hg Hr Hc). cbn [bind].
      unfold getitem. rewrite Hi.
      rewrite window_views by lia. cbn [bind].
      exact (sets_setitem [x1; x2; d1; d2] [Idx row; Idx col; Ellipsis]
               (Fixed row :: Fixed col :: map (fun n => Strided 0 1 n) [d1; d2])
               (np_scale (item g [row; col])
                  (gather [Strided row 1 d1; Strided col 1 d2] inp))
               (index_views_channel x1 x2 row col [d1; d2] Hr Hc
                  ltac:(repeat constructor; assumption))
               eq_refl s Hs). }
  pose proof (sets_for_range [x1; x2; d1; d2] x1
    (fun row out =>
       for_range x2 (fun col out =>
         c <- getscalar g [row; col] ;;
         patch <- getitem inp [slice_range row (row + d1);
                               slice_range col (col + d2)] ;;
         setitem out [Idx row; Idx col; Ellipsis] (np_scale c patch)) out)
    (fun row i =>
       any_upto x2 (fun col =>
         in_view (Fixed row :: Fixed col
                    :: map (fun n => Strided 0 1 n) [d1; d2]) i))
    v) as Hloops.
  destruct (Hloops
              ltac:(intros row Hr;
                    exact (sets_for_range [x1; x2; d1; d2] x2 _
                             (fun col =>
                                in_view (Fixed row :: Fixed col
                                           :: map (fun n => Strided 0 1 n)
                                                [d1; d2])) v
                             (fun col Hc => Hstep row col Hr Hc)))
              (zeros_array [x1; x2; d1; d2]) eq_refl)
    as (gk & E & Sh & It).
  exists gk. split; [exact E |]. split; [exact Sh |].
  intros row col m1 m2 Hr Hc Hm1 Hm2.
  assert (Hbox : in_box [x1; x2; d1; d2] [row; col; m1; m2] = true).
  { rewrite !in_box_cons, in_box_nil.
    destruct (Z.leb_spec 0 row), (Z.ltb_spec row x1), (Z.leb_spec 0 col),
      (Z.ltb_spec col x2), (Z.leb_spec 0 m1), (Z.ltb_spec m1 d1),
      (Z.leb_spec 0 m2), (Z.ltb_spec m2 d2); try lia; reflexivity. }
  rewrite (It _ Hbox).
  rewrite (any_upto_true x1 row); [reflexivity | lia |].
  apply (any_upto_true x2 col); [lia |].
  cbn [map in_view]. rewrite !Z.eqb_refl, !Z.sub_0_r, !Z.div_1_r, !Z.mod_1_r.
  destruct (Z.leb_spec 0 m1), (Z.ltb_spec m1 d1), (Z.leb_spec 0 m2),
    (Z.ltb_spec m2 d2); try lia; reflexivity.
Qed.

(** X23 ([BaseAbstractConv.unshared2d], "backprop weights" against
    "forward"): for an input of shape [(n1, n2)] and an output gradient
    [g] of shape [(x1, x2)], the direction "backprop weights" returns the
    array of shape [(x1, x2, d1, d2)] with the elements
    [g[row, col] * inp[row + m1, col + m2]], and this array, flipped on its
    last two axes, is the gradient of the direction "forward" with respect
    to the kernels: the inner product of [g] with the forward result for
    kernels [dK] is the inner product of the array with the flipped
    [dK]. *)
Theorem unshared2d_backprop_weights_adjoint (self : ConvOp)
    (inp g dK : ndarray R) (n1 n2 x1 x2 d1 d2 : Z) :
  convdim self = 2 ->
  shape inp = [n1; n2] -> shape g = [x1; x2] ->
  shape dK = [x1; x2; d1; d2] ->
  0 <= x1 -> 0 <= x2 -> 0 <= d1 -> 0 <= d2 ->
  x1 + d1 - 1 <= n1 -> x2 + d2 - 1 <= n2 ->
  exists out gk,
    unshared2d self inp dK [x1; x2] "forward" = Ok out
    /\ unshared2d self inp g [x1; x2; d1; d2] "backprop weights" = Ok gk
    /\ shape gk = shape dK
    /\ (forall row col m1 m2,
          0 <= row < x1 -> 0 <= col < x2 -> 0 <= m1 < d1 -> 0 <= m2 < d2 ->
          item gk [row; col; m1; m2]
          = rmul (item g [row; col]) (item inp [row + m1; col + m2]))
    /\ dot g out
       = dot gk (gather [Strided 0 1 x1; Strided 0 1 x2;
                         Strided (d1 - 1) (-1) d1; Strided (d2 - 1) (-1) d2]
                   dK).
Proof.
  intros Hcd Hi Hg Hk Hx1 Hx2 Hd1 Hd2 Hf1 Hf2.
  destruct (unshared2d_forward_ok self inp dK n1 n2 x1 x2 d1 d2
              Hcd Hi Hk Hx1 Hx2 Hd1 Hd2 Hf1 Hf2) as (out & Eo & So & Io).
  destruct (unshared2d_backprop_weights_ok self inp g n1 n2 x1 x2 d1 d2
              Hcd Hi Hg Hx1 Hx2 Hd1 Hd2 Hf1 Hf2) as (gk & Eg & Sg & Ig).
  exists out, gk. repeat split; try assumption; try congruence.
  unfold dot. rewrite Hg, Sg. cbn [sum_box].
  apply sum_range_ext. intros row Hr. apply sum_range_ext. intros col Hc.
  rewrite (Io row col Hr Hc). rewrite <- sum_range_scale.
  apply sum_range_ext. intros m1 Hm1. rewrite <- sum_range_scale.
  apply sum_range_ext. intros m2 Hm2.
  rewrite (Ig row col m1 m2 Hr Hc Hm1 Hm2).
  cbn [gather item view_index].
  replace (0 + 1 * row) with row by lia.
  replace (0 + 1 * col) with col by lia.
  replace (d1 - 1 + -1 * m1) with (d1 - 1 - m1) by lia.
  replace (d2 - 1 + -1 * m2) with (d2 - 1 - m2) by lia.
  ring.
Qed.
End Unshared2dWeights.

Lemma unshared2d_backprop_weights_adjoint_witness :
  exists out gk,
    unshared2d example_conv_op (counting_array [4; 5])
      (countdown_array [3; 3; 2; 3]) [3; 3] "forward" = Ok out
    /\ unshared2d example_conv_op (counting_array [4; 5])
         (countdown_array [3; 3]) [3; 3; 2; 3] "backprop weights" = Ok gk
    /\ shape gk = shape (countdown_array [3; 3; 2; 3])
    /\ (forall row col m1 m2,
          0 <= row < 3 -> 0 <= col < 3 -> 0 <= m1 < 2 -> 0 <= m2 < 3 ->
          item gk [row; col; m1; m2]
          = rmul (item (countdown_array [3; 3]) [row; col])
                 (item (counting_array [4; 5]) [row + m1; col + m2]))
    /\ dot (countdown_array [3; 3]) out
       = dot gk (gather [Strided 0 1 3; Strided 0 1 3;
                         Strided (2 - 1) (-1) 2; Strided (3 - 1) (-1) 3]
                   (countdown_array [3; 3; 2; 3])).
Proof.
  apply (unshared2d_backprop_weights_adjoint example_conv_op
           (counting_array [4; 5]) (countdown_array [3; 3])
           (countdown_array [3; 3; 2; 3]) 4 5 3 3 2 3);
    try reflexivity; lia.
Defined.

(** * CumOp: the loop over the leading axis *)

(** ** Lists of axes *)

Lemma position_of_nth_map {A : Type} (g : nat -> A) (l : list nat) (p : nat)
    (d : A) :
  In p l -> nth (position_of p l) (map g l) d = g p.
Proof.
  induction l as [| a l IH]; [intros [] |].
  intros Hin. cbn [position_of map].
  destruct (Nat.eqb_spec a p) as [-> | Hne]; [reflexivity |].
  cbn [nth]. apply IH. destruct Hin as [E | Hin]; [contradiction | exact Hin].
Qed.

Lemma position_of_inv (l : list nat) (p : nat) :
  In p l -> nth (position_of p l) l 0%nat = p.
Proof.
  intros Hin. pose proof (position_of_nth_map (fun q => q) l p 0%nat Hin) as E.
  now rewrite map_id in E.
Qed.

Lemma position_of_nth (l : list nat) (q : nat) :
  NoDup l -> (q < List.length l)%nat -> position_of (nth q l 0%nat) l = q.
Proof.
  revert q. induction l as [| a l IH]; intros q Hnd Hq; [simpl in Hq; lia |].
  inversion Hnd as [| ? ? Hnotin Hnd']; subst.
  destruct q as [| q]; cbn [nth position_of].
  - now rewrite Nat.eqb_refl.
  - destruct (Nat.eqb_spec a (nth q l 0%nat)) as [E | Hne].
    + exfalso. apply Hnotin. rewrite E. apply nth_In. simpl in Hq. lia.
    + f_equal. apply IH; [exact Hnd' | simpl in Hq; lia].
Qed.

Lemma position_of_map_seq (f : nat -> nat) (s n p : nat) :
  (s <= p < s + n)%nat ->
  (forall p', (s <= p' < p)%nat -> f p' <> f p) ->
  position_of (f p) (map f (seq s n)) = (p - s)%nat.
Proof.
  revert s. induction n as [| n IH]; intros s Hp Hinj; [lia |].
  cbn [seq map position_of].
  destruct (Nat.eqb_spec (f s) (f p)) as [E | Hne].
  - destruct (Nat.eq_dec s p) as [-> | Hsp]; [lia |].
    exfalso. apply (Hinj s); [lia | exact E].
  - destruct (Nat.eq_dec s p) as [-> | Hsp]; [contradiction |].
    rewrite IH; [lia | lia |]. intros p' Hp'. apply Hinj. lia.
Qed.

Lemma filter_all {A : Type} (f : A -> bool) (l : list A) :
  (forall x, In x l -> f x = true) -> filter f l = l.
Proof.
  induction l as [| a l IH]; intros Hall; [reflexivity |].
  cbn [filter]. rewrite (Hall a (or_introl eq_refl)). f_equal.
  apply IH. intros x Hx. apply Hall. now right.
Qed.

Lemma fold_left_ext {A B : Type} (f g : A -> B -> A) (l : list B) (a : A) :
  (forall acc b, f acc b = g acc b) -> fold_left f l a = fold_left g l a.
Proof.
  intros E. revert a. induction l as [| b l IH]; intros a; [reflexivity |].
  cbn [fold_left]. now rewrite E, IH.
Qed.

Lemma set_nth_length (j : list Z) (a : nat) (k : Z) :
  (a < List.length j)%nat -> List.length (set_nth j a k) = List.length j.
Proof.
  intros Ha. unfold set_nth.
  rewrite length_app, firstn_length_le by lia.
  cbn [List.length]. rewrite length_skipn. lia.
Qed.

Lemma set_nth_nth (j : list Z) (a p : nat) (k : Z) :
  (a < List.length j)%nat ->
  nth p (set_nth j a k) 0 = if (p =? a)%nat then k else nth p j 0.
Proof.
  intros Ha. unfold set_nth.
  assert (Hl : List.length (firstn a j) = a) by (apply firstn_length_le; lia).
  destruct (Nat.eqb_spec p a) as [-> | Hne].
  - rewrite app_nth2 by lia. rewrite Hl, Nat.sub_diag. reflexivity.
  - destruct (Nat.lt_ge_cases p a) as [Hlt | Hge].
    + rewrite app_nth1 by lia. rewrite nth_firstn.
      destruct (Nat.ltb_spec p a); [reflexivity | lia].
    + rewrite app_nth2 by lia. rewrite Hl.
      replace (p - a)%nat with (S (p - a - 1)) by lia. cbn [nth].
      rewrite nth_skipn. f_equal. lia.
Qed.

Lemma set_nth_same (j : list Z) (a : nat) :
  (a < List.length j)%nat -> set_nth j a (nth a j 0) = j.
Proof.
  intros Ha. apply (nth_ext _ _ 0 0).
  - now apply set_nth_length.
  - intros p _. rewrite set_nth_nth by exact Ha.
    destruct (Nat.eqb_spec p a) as [-> | _]; reflexivity.
Qed.

Lemma in_box_nth (shp j : list Z) (p : nat) :
  in_box shp j = true -> (p < List.length shp)%nat ->
  0 <= nth p j 0 < nth p shp 0.
Proof.
  revert j p. induction shp as [| n shp IH]; intros j p Hj Hp;
    [simpl in Hp; lia |].
  destruct j as [| jk j]; [discriminate |].
  rewrite in_box_cons in Hj. apply andb_true_iff in Hj as [Hk Hj].
  apply andb_true_iff in Hk as [H1 H2].
  apply Z.leb_le in H1. apply Z.ltb_lt in H2.
  destruct p as [| p]; cbn [nth]; [lia |].
  apply IH; [exact Hj | simpl in Hp; lia].
Qed.

Lemma in_box_map_nth (shp j : list Z) (l : list nat) :
  in_box shp j = true -> Forall (fun p => (p < List.length shp)%nat) l ->
  in_box (map (fun p => nth p shp 0) l) (map (fun p => nth p j 0) l) = true.
Proof.
  intros Hj. induction 1 as [| p l Hp _ IH]; [reflexivity |].
  cbn [map]. apply in_box_intro; [| exact IH].
  now apply in_box_nth.
Qed.

(** ** [reaxis_first] and [reaxis_first_inv] *)

Section Reaxis.
Variables axis ndim : nat.
Hypothesis Haxis : (axis < ndim)%nat.

Lemma reaxis_first_In (p : nat) :
  In p (reaxis_first axis ndim) <-> (p < ndim)%nat.
Proof.
  unfold reaxis_first. cbn [In]. rewrite filter_In, in_seq.
  destruct (Nat.eqb_spec p axis) as [-> | Hne]; cbn [negb].
  - split; [intros _; exact Haxis | intros _; now left].
  - split.
    + intros [E | [Hp _]]; [congruence | lia].
    + intros Hp. right. split; [lia | reflexivity].
Qed.

Lemma reaxis_first_tail_In (p : nat) :
  In p (filter (fun i => negb (i =? axis)%nat) (seq 0 ndim))
  <-> (p < ndim)%nat /\ p <> axis.
Proof.
  rewrite filter_In, in_seq.
  destruct (Nat.eqb_spec p axis) as [-> | Hne]; cbn [negb].
  - split; [intros [_ E]; discriminate | intros [_ E]; contradiction].
  - split; [intros [Hp _]; split; [lia | exact Hne]
           | intros [Hp _]; split; [lia | reflexivity]].
Qed.

Lemma reaxis_first_NoDup : NoDup (reaxis_first axis ndim).
Proof.
  unfold reaxis_first. constructor.
  - intros Hin. apply reaxis_first_tail_In in Hin. now destruct Hin.
  - apply NoDup_filter, seq_NoDup.
Qed.

Lemma reaxis_first_length : List.length (reaxis_first axis ndim) = ndim.
Proof.
  apply Nat.le_antisymm.
  - replace ndim with (List.length (seq 0 ndim)) at 2 by apply length_seq.
    apply NoDup_incl_length; [exact reaxis_first_NoDup |].
    intros p Hp. apply in_seq. apply reaxis_first_In in Hp. lia.
  - replace ndim with (List.length (seq 0 ndim)) at 1 by apply length_seq.
    apply NoDup_incl_length; [apply seq_NoDup |].
    intros p Hp. apply in_seq in Hp. apply reaxis_first_In. lia.
Qed.

Lemma reaxis_first_nth_lt (q : nat) :
  (q < ndim)%nat -> (nth q (reaxis_first axis ndim) 0 < ndim)%nat.
Proof.
  intros Hq. apply reaxis_first_In. apply nth_In.
  now rewrite reaxis_first_length.
Qed.

Lemma reaxis_first_is_permutation :
  is_permutation (reaxis_first axis ndim) ndim = true.
Proof.
  unfold is_permutation. rewrite reaxis_first_length, Nat.eqb_refl.
  cbn [andb]. apply forallb_forall. intros p Hp. apply in_seq in Hp.
  apply existsb_exists. exists p. split; [| apply Nat.eqb_refl].
  apply reaxis_first_In. lia.
Qed.

Lemma reaxis_first_inv_length :
  List.length (reaxis_first_inv axis ndim) = ndim.
Proof. unfold reaxis_first_inv. now rewrite length_map, length_seq. Qed.

Lemma reaxis_first_inv_is_permutation :
  is_permutation (reaxis_first_inv axis ndim) ndim = true.
Proof.
  unfold is_permutation. rewrite reaxis_first_inv_length, Nat.eqb_refl.
  cbn [andb]. apply forallb_forall. intros q Hq. apply in_seq in Hq.
  apply existsb_exists. exists q. split; [| apply Nat.eqb_refl].
  unfold reaxis_first_inv. apply in_map_iff.
  exists (nth q (reaxis_first axis ndim) 0%nat). split.
  - apply position_of_nth; [exact reaxis_first_NoDup |].
    rewrite reaxis_first_length. lia.
  - apply in_seq. pose proof (reaxis_first_nth_lt q ltac:(lia)). lia.
Qed.

(** [np.argsort] of the permutation is its inverse. *)
Lemma position_of_reaxis_first_inv (q : nat) :
  (q < ndim)%nat ->
  position_of q (reaxis_first_inv axis ndim)
  = nth q (reaxis_first axis ndim) 0%nat.
Proof.
  intros Hq.
  pose proof (reaxis_first_nth_lt q Hq) as Hp.
  pose proof (position_of_nth (reaxis_first axis ndim) q reaxis_first_NoDup
                ltac:(rewrite reaxis_first_length; exact Hq)) as E.
  unfold reaxis_first_inv.
  rewrite <- E at 1.
  rewrite (position_of_map_seq
             (fun p => position_of p (reaxis_first axis ndim)) 0 ndim
             (nth q (reaxis_first axis ndim) 0%nat)); [lia | lia |].
  intros p' Hp' Eq.
  assert (In p' (reaxis_first axis ndim)) by (apply reaxis_first_In; lia).
  assert (In (nth q (reaxis_first axis ndim) 0%nat) (reaxis_first axis ndim))
    by (apply reaxis_first_In; lia).
  pose proof (position_of_inv _ _ H) as E1.
  pose proof (position_of_inv _ _ H0) as E2.
  rewrite Eq in E1. rewrite E1 in E2. lia.
Qed.

(** The position in the array of the element [k :: rest] of the array with
    the axis in front. *)
Lemma reaxis_first_source (j : list Z) (k : Z) :
  List.length j = ndim ->
  map (fun p =>
         nth (position_of p (reaxis_first axis ndim))
           (k :: map (fun ax => nth ax j 0)
                   (filter (fun i => negb (i =? axis)%nat) (seq 0 ndim))) 0)
      (seq 0 ndim)
  = set_nth j axis k.
Proof.
  intros Hj. apply (nth_ext _ _ 0 0).
  - rewrite length_map, length_seq, set_nth_length; lia.
  - intros p Hp. rewrite length_map, length_seq in Hp.
    rewrite nth_map_seq by exact Hp.
    rewrite set_nth_nth by lia.
    unfold reaxis_first. cbn [position_of].
    destruct (Nat.eqb_spec axis p) as [<- | Hne].
    + now rewrite Nat.eqb_refl.
    + destruct (Nat.eqb_spec p axis) as [E | _]; [congruence |].
      cbn [nth].
      apply (position_of_nth_map (fun ax => nth ax j 0)).
      apply reaxis_first_tail_In. split; [exact Hp | congruence].
Qed.
End Reaxis.

(** For the first two axes the permutation is its own inverse. *)
Lemma reaxis_first_involution (axis ndim : nat) :
  (axis < ndim)%nat -> (axis <= 1)%nat ->
  reaxis_first axis ndim = reaxis_first_inv axis ndim.
Proof.
  intros Ha H1.
  assert (Hinv : forall q, (q < ndim)%nat ->
            nth (nth q (reaxis_first axis ndim) 0%nat)
                (reaxis_first axis ndim) 0%nat = q).
  { intros q Hq. unfold reaxis_first.
    destruct axis as [| [| axis]]; [| | lia].
    - destruct ndim as [| n]; [lia |]. cbn [seq filter Nat.eqb negb].
      rewrite filter_all.
      + change (0%nat :: seq 1 n) with (seq 0 (S n)).
        rewrite !seq_nth; try lia. rewrite seq_nth; lia.
      + intros x Hx. apply in_seq in Hx.
        destruct (Nat.eqb_spec x 0); [lia | reflexivity].
    - destruct ndim as [| [| n]]; [lia | lia |].
      cbn [seq filter Nat.eqb negb].
      rewrite filter_all.
      + destruct q as [| [| q]]; [reflexivity | reflexivity |].
        cbn [nth]. rewrite seq_nth by lia. cbn [Nat.add nth].
        rewrite seq_nth by lia. reflexivity.
      + intros x Hx. apply in_seq in Hx.
        destruct (Nat.eqb_spec x 1); [lia | reflexivity]. }
  apply (nth_ext _ _ 0%nat 0%nat).
  - now rewrite reaxis_first_length, reaxis_first_inv_length.
  - intros q Hq. rewrite reaxis_first_length in Hq by exact Ha.
    unfold reaxis_first_inv. rewrite nth_map_seq by exact Hq.
    rewrite <- (Hinv q Hq) at 2.
    symmetry. apply position_of_nth; [now apply reaxis_first_NoDup |].
    rewrite reaxis_first_length by exact Ha.
    now apply reaxis_first_nth_lt.
Qed.

(** ** The loop *)

(** [a[m]] on an array with at least one axis. *)
Lemma index_views_row (n m : Z) (T : list Z) :
  0 <= m < n -> Forall (fun k => 0 <= k) T ->
  index_views (n :: T) [Idx m] = Ok (Fixed m :: full_views T).
Proof.
  intros Hm HT. unfold index_views.
  cbn [filter is_ellipsis negb List.length Nat.ltb Nat.leb Nat.sub
       expand_ellipsis axis_views].
  rewrite index_view_idx by assumption. cbn [bind].
  rewrite Nat.sub_0_r, axis_views_all by exact HT. reflexivity.
Qed.

Section CumLoop.
Context {R : Type} `{Scalar R}.

Lemma getitem_row (a : ndarray R) (n m : Z) (T : list Z) :
  shape a = n :: T -> 0 <= m < n -> Forall (fun k => 0 <= k) T ->
  getitem a [Idx m] = Ok (gather (Fixed m :: full_views T) a).
Proof.
  intros Ha Hm HT. unfold getitem.
  now rewrite Ha, index_views_row by assumption.
Qed.

Lemma setitem_row (a v : ndarray R) (n m : Z) (T : list Z) :
  shape a = n :: T -> shape v = T -> 0 <= m < n ->
  Forall (fun k => 0 <= k) T ->
  setitem a [Idx m] v = Ok (overwrite a (Fixed m :: full_views T) v).
Proof.
  intros Ha Hv Hm HT. unfold setitem.
  rewrite Ha, index_views_row by assumption. cbn [bind view_shape].
  now rewrite view_shape_full, Hv, shape_eqb_refl.
Qed.

(** After the loop, row [m] of [res] holds the accumulated rows [0], ...,
    [m] of [x_axis_first]. *)
Lemma cum_loop_ok (op : R -> R -> R) (xaf : ndarray R) (n : Z) (T : list Z) :
  shape xaf = n :: T -> 1 <= n -> Forall (fun k => 0 <= k) T ->
  exists res,
    cum_loop op xaf n = Ok res
    /\ shape res = n :: T
    /\ forall m rest, 0 <= m < n -> in_box T rest = true ->
         item res (m :: rest)
         = fold_left (fun acc k => op acc (item xaf (Z.of_nat k :: rest)))
             (seq 1 (Z.to_nat m)) (item xaf (0 :: rest)).
Proof.
  intros Hs Hn HT. unfold cum_loop. cbv zeta.
  rewrite (getitem_row xaf n 0 T Hs ltac:(lia) HT). cbn [bind].
  rewrite (setitem_row (mk_ndarray (shape xaf) (fun _ => rzero))
             (gather (Fixed 0 :: full_views T) xaf) n 0 T
             Hs (view_shape_full T) ltac:(lia) HT).
  cbn [bind].
  match goal with
  | |- exists res, for_range_from 1 n ?b ?s = Ok res /\ _ =>
      set (body := b); set (res0 := s)
  end.
  set (Inv := fun (k : Z) (res : ndarray R) =>
    shape res = n :: T
    /\ forall m rest, 0 <= m <= k -> in_box T rest = true ->
         item res (m :: rest)
         = fold_left (fun acc k => op acc (item xaf (Z.of_nat k :: rest)))
             (seq 1 (Z.to_nat m)) (item xaf (0 :: rest))).
  assert (Hstep : forall m res, 1 <= m < n -> Inv (m - 1) res ->
            exists res', body m res = Ok res' /\ Inv m res').
  { intros m res Hm [Sr Ir]. unfold body.
    rewrite (getitem_row res n (m - 1) T Sr ltac:(lia) HT). cbn [bind].
    rewrite (getitem_row xaf n m T Hs ltac:(lia) HT). cbn [bind].
    cbn [gather shape]. rewrite shape_eqb_refl. cbn [bind].
    match goal with
    | |- exists res', setitem res [Idx m] ?v = Ok res' /\ _ =>
        rewrite (setitem_row res v n m T Sr (view_shape_full T)
                   ltac:(lia) HT);
        exists (overwrite res (Fixed m :: full_views T) v)
    end.
    split; [reflexivity |]. split; [exact Sr |].
    intros m' rest Hm' Hrest.
    pose proof (in_box_length _ _ Hrest) as Hlen.
    cbn [overwrite item in_view].
    destruct (Z.eqb_spec m' m) as [-> | Hne]; cbn [andb].
    - rewrite in_view_full by exact Hrest.
      cbn [view_inverse]. rewrite view_inverse_full by exact Hlen.
      cbn [item gather view_index]. rewrite !view_index_full by exact Hlen.
      rewrite (Ir (m - 1) rest ltac:(lia) Hrest).
      replace (Z.to_nat m) with (S (Z.to_nat (m - 1))) by lia.
      rewrite seq_S, fold_left_app. cbn [fold_left].
      replace (Z.of_nat (1 + Z.to_nat (m - 1))) with m by lia.
      reflexivity.
    - apply Ir; [lia | exact Hrest]. }
  assert (Hloop : forall k : nat, Z.of_nat k <= n - 1 ->
            exists r, for_upto k (fun i => body (1 + i)) res0 = Ok r
                      /\ Inv (Z.of_nat k) r).
  { induction k as [| k IH]; intros Hk.
    - exists res0. split; [reflexivity |]. split; [exact Hs |].
      intros m rest Hm Hrest.
      pose proof (in_box_length _ _ Hrest) as Hlen.
      assert (m = 0) by lia. subst m.
      unfold res0. cbn [overwrite item in_view]. rewrite Z.eqb_refl.
      rewrite in_view_full by exact Hrest. cbn [andb view_inverse].
      rewrite view_inverse_full by exact Hlen.
      cbn [gather item view_index]. rewrite view_index_full by exact Hlen.
      reflexivity.
    - destruct (IH ltac:(lia)) as (r & Er & Ir).
      cbn [for_upto]. rewrite Er. cbn [bind].
      destruct (Hstep (1 + Z.of_nat k) r ltac:(lia)
                  ltac:(replace (1 + Z.of_nat k - 1) with (Z.of_nat k) by lia;
                        exact Ir)) as (r' & Er' & Ir').
      exists r'. split; [exact Er' |].
      replace (Z.of_nat (S k)) with (1 + Z.of_nat k) by lia. exact Ir'. }
  destruct (Hloop (Z.to_nat (n - 1)) ltac:(lia)) as (r & Er & Sr & Ir).
  exists r. split; [exact Er |]. split; [exact Sr |].
  intros m rest Hm Hrest. apply Ir; [lia | exact Hrest].
Qed.
End CumLoop.

(** ** The operator along an axis *)

Section CumOpLoop.
Context {R : Type} `{Scalar R}.

Lemma np_transpose_ok (a : ndarray R) (axes : list nat) :
  is_permutation axes (List.length (shape a)) = true ->
  np_transpose a axes
  = Ok (mk_ndarray
          (map (fun ax => nth ax (shape a) 0) axes)
          (fun j => item a (map (fun p => nth (position_of p axes) j 0)
                                (seq 0 (List.length (shape a)))))).
Proof. intros E. unfold np_transpose. now rewrite E. Qed.

(** The function that [numba_funcify_CumOp] returns for an axis in range on
    a node of more than one dimension. *)
Lemma numba_funcify_CumOp_loop (axis ndim : Z) (mode : cum_mode) :
  0 <= axis < ndim -> ndim <> 1 ->
  numba_funcify_CumOp (R := R) (Some axis) mode ndim
  = Ok (fun x =>
          n <- py_index (shape x) axis ;;
          if n <? 2 then Ok x
          else
            x_axis_first <-
              np_transpose x (reaxis_first (Z.to_nat axis) (Z.to_nat ndim)) ;;
            res <- cum_loop (match mode with
                             | CumAdd => radd
                             | CumMul => rmul
                             end) x_axis_first n ;;
            np_transpose res
              (match mode with
               | CumAdd => reaxis_first_inv (Z.to_nat axis) (Z.to_nat ndim)
               | CumMul => reaxis_first (Z.to_nat axis) (Z.to_nat ndim)
               end)).
Proof.
  intros Ha Hn. unfold numba_funcify_CumOp.
  assert (E1 : (axis <? 0) = false) by (apply Z.ltb_ge; lia).
  assert (E2 : (ndim <=? axis) = false) by (apply Z.leb_gt; lia).
  assert (E3 : (ndim =? 1) = false) by (apply Z.eqb_neq; exact Hn).
  rewrite E1. cbv zeta. rewrite E1, E2. cbn [orb bind]. rewrite E3.
  destruct mode; reflexivity.
Qed.

(** A negative axis counts from the end. *)
Lemma numba_funcify_CumOp_negative (axis ndim : Z) (mode : cum_mode) :
  axis < 0 -> 0 <= ndim + axis ->
  numba_funcify_CumOp (R := R) (Some axis) mode ndim
  = numba_funcify_CumOp (Some (ndim + axis)) mode ndim.
Proof.
  intros Ha Hn. unfold numba_funcify_CumOp.
  assert (E1 : (axis <? 0) = true) by (apply Z.ltb_lt; lia).
  assert (E2 : (ndim + axis <? 0) = false) by (apply Z.ltb_ge; lia).
  rewrite E1. cbv zeta. rewrite !E2. reflexivity.
Qed.

(** Axis to the front, the loop, and the axis back. *)
Lemma cum_axis_loop (op : R -> R -> R) (x : ndarray R) (a : nat)
    (Q : list nat) :
  (a < List.length (shape x))%nat ->
  Forall (fun n => 0 <= n) (shape x) ->
  1 <= nth a (shape x) 0 ->
  Q = reaxis_first_inv a (List.length (shape x)) ->
  exists r,
    (x_axis_first <-
       np_transpose x (reaxis_first a (List.length (shape x))) ;;
     res <- cum_loop op x_axis_first (nth a (shape x) 0) ;;
     np_transpose res Q) = Ok r
    /\ shape r = shape x
    /\ forall j, in_box (shape x) j = true ->
         item r j = item (np_cum_axis op x a) j.
Proof.
  intros Ha Hshp Hn ->.
  set (nd := List.length (shape x)) in *.
  rewrite (np_transpose_ok x (reaxis_first a nd)
             (reaxis_first_is_permutation a nd Ha)).
  cbn [bind]. fold nd.
  set (F := filter (fun i => negb (i =? a)%nat) (seq 0 nd)).
  set (g := fun p : nat => nth p (shape x) 0).
  match goal with
  | |- exists r, (res <- cum_loop op ?v _ ;; _) = Ok r /\ _ =>
      set (xaf := v)
  end.
  assert (HF : Forall (fun p => (p < nd)%nat) F).
  { apply Forall_forall. intros p Hp.
    now apply (reaxis_first_tail_In a nd) in Hp. }
  assert (HT : Forall (fun k => 0 <= k) (map g F)).
  { apply Forall_forall. intros k Hk. apply in_map_iff in Hk as (p & <- & Hp).
    rewrite Forall_forall in HF, Hshp. apply Hshp. apply nth_In.
    exact (HF p Hp). }
  destruct (cum_loop_ok op xaf (nth a (shape x) 0) (map g F) eq_refl Hn HT)
    as (res & Er & Sr & Ir).
  rewrite Er. cbn [bind].
  assert (HlenS : List.length (shape res) = nd).
  { rewrite Sr. change (nth a (shape x) 0 :: map g F)
      with (map g (reaxis_first a nd)).
    now rewrite length_map, reaxis_first_length. }
  rewrite (np_transpose_ok res (reaxis_first_inv a nd)
             ltac:(rewrite HlenS; exact (reaxis_first_inv_is_permutation a nd Ha))).
  eexists. split; [reflexivity |]. split.
  - cbn [shape]. rewrite Sr. unfold reaxis_first_inv. rewrite map_map.
    transitivity (map g (seq 0 nd)); [| apply map_nth_seq_id].
    apply map_ext_in. intros p Hp. apply in_seq in Hp.
    change (nth a (shape x) 0 :: map g F) with (map g (reaxis_first a nd)).
    apply position_of_nth_map. apply reaxis_first_In; lia.
  - intros j Hj. pose proof (in_box_length _ _ Hj) as Hlen. fold nd in Hlen.
    cbn [item]. rewrite HlenS.
    rewrite (map_ext_in _
               (fun q => nth (nth q (reaxis_first a nd) 0%nat) j 0))
      by (intros q Hq; apply in_seq in Hq;
          now rewrite position_of_reaxis_first_inv by lia).
    pose proof (map_seq_nth (fun ax => nth ax j 0) (reaxis_first a nd) 0%nat)
      as E.
    rewrite reaxis_first_length in E by exact Ha. rewrite E.
    unfold reaxis_first. cbn [map]. fold F.
    rewrite (Ir (nth a j 0) (map (fun ax => nth ax j 0) F)
               (in_box_nth (shape x) j a Hj Ha)
               (in_box_map_nth (shape x) j F Hj HF)).
    assert (Hx : forall k,
              item xaf (k :: map (fun ax => nth ax j 0) F)
              = item x (set_nth j a k)).
    { intros k. unfold xaf. cbn [item]. f_equal.
      exact (reaxis_first_source a nd Ha j k Hlen). }
    unfold np_cum_axis. cbn [item]. rewrite Hx.
    apply fold_left_ext. intros acc k. now rewrite Hx.
Qed.

(** The operator on an array of more than one dimension: the sum along
    every axis, the product along the first two. *)
Lemma cumop_axis_ok (mode : cum_mode) (x : ndarray R) (axis : Z) :
  2 <= ndim x -> - ndim x <= axis < ndim x ->
  Forall (fun n => 0 <= n) (shape x) ->
  mode = CumAdd \/ axis mod ndim x <= 1 ->
  exists r,
    cumop (Some axis) mode x = Ok r
    /\ shape r = shape x
    /\ forall j, in_box (shape x) j = true ->
         item r j
         = item (np_cum_axis (match mode with
                              | CumAdd => radd
                              | CumMul => rmul
                              end) x (Z.to_nat (axis mod ndim x))) j.
Proof.
  intros Hnd Haxis Hshp Hmode. unfold cumop.
  assert (Hax : 0 <= axis mod ndim x < ndim x)
    by (apply Z.mod_pos_bound; lia).
  assert (E : numba_funcify_CumOp (R := R) (Some axis) mode (ndim x)
              = numba_funcify_CumOp (Some (axis mod ndim x)) mode (ndim x)).
  { destruct (Z.ltb_spec axis 0) as [Hneg | Hpos].
    - replace (axis mod ndim x) with (ndim x + axis).
      + now rewrite numba_funcify_CumOp_negative by lia.
      + rewrite <- (Z_mod_plus_full axis 1 (ndim x)).
        rewrite Z.mod_small by lia. lia.
    - now rewrite Z.mod_small by lia. }
  rewrite E. clear E.
  set (ax := axis mod ndim x) in *.
  rewrite (numba_funcify_CumOp_loop ax (ndim x) mode Hax ltac:(lia)).
  cbn [bind].
  set (a := Z.to_nat ax).
  assert (End : Z.to_nat (ndim x) = List.length (shape x))
    by (unfold ndim, len; apply Nat2Z.id).
  assert (Ha : (a < List.length (shape x))%nat) by (unfold a; lia).
  rewrite End.
  assert (En : py_index (shape x) ax = Ok (nth a (shape x) 0)).
  { unfold py_index.
    assert (E1 : (ax <? 0) = false) by (apply Z.ltb_ge; lia).
    rewrite E1. cbv zeta. rewrite E1. now apply py_nth_ok. }
  rewrite En. cbn [bind].
  destruct (Z.ltb_spec (nth a (shape x) 0) 2) as [Hsmall | Hbig].
  - exists x. split; [reflexivity |]. split; [reflexivity |].
    intros j Hj. pose proof (in_box_length _ _ Hj) as Hlen.
    pose proof (in_box_nth (shape x) j a Hj Ha) as Hb.
    assert (Hz : nth a j 0 = 0) by lia.
    pose proof (set_nth_same j a ltac:(lia)) as Es. rewrite Hz in Es.
    unfold np_cum_axis. cbn [item]. rewrite Hz, Es. reflexivity.
  - destruct mode.
    + exact (cum_axis_loop radd x a _ Ha Hshp ltac:(lia) eq_refl).
    + destruct Hmode as [Hm | Hm]; [discriminate |].
      exact (cum_axis_loop rmul x a _ Ha Hshp ltac:(lia)
               (reaxis_first_involution a _ Ha ltac:(unfold a; lia))).
Qed.

(** X24 ([numba_funcify_CumOp], mode "add", the loop over the axis): on an
    array of at least two dimensions and for every axis in range, negative
    axes counting from the end, the compiled function returns an array of
    the shape of its input whose element at [j] is the sum of the elements
    of the input at the positions that differ from [j] only by a coordinate
    of the axis between [0] and that of [j]: the cumulative sum along the
    axis. *)
Theorem cumop_add_is_cumsum (x : ndarray R) (axis : Z) :
  2 <= ndim x -> - ndim x <= axis < ndim x ->
  Forall (fun n => 0 <= n) (shape x) ->
  exists r,
    cumop (Some axis) CumAdd x = Ok r
    /\ shape r = shape x
    /\ forall j, in_box (shape x) j = true ->
         item r j
         = fold_left
             (fun acc m =>
                radd acc
                  (item x (set_nth j (Z.to_nat (axis mod ndim x))
                             (Z.of_nat m))))
             (seq 1 (Z.to_nat (nth (Z.to_nat (axis mod ndim x)) j 0)))
             (item x (set_nth j (Z.to_nat (axis mod ndim x)) 0)).
Proof.
  intros Hnd Haxis Hshp.
  exact (cumop_axis_ok CumAdd x axis Hnd Haxis Hshp (or_introl eq_refl)).
Qed.

(** X25 ([numba_funcify_CumOp], mode "mul", the loop over the axis): on an
    array of at least two dimensions, along the first or the second axis
    the compiled function returns the cumulative product: an array of the
    shape of its input whose element at [j] is the product of the elements
    of the input at the positions that differ from [j] only by a coordinate
    of the axis between [0] and that of [j]. For these two axes the
    permutation that moves the axis to the front is its own inverse. *)
Theorem cumop_prod_first_axes (x : ndarray R) (axis : Z) :
  2 <= ndim x -> - ndim x <= axis < ndim x ->
  Forall (fun n => 0 <= n) (shape x) ->
  axis mod ndim x <= 1 ->
  exists r,
    cumop (Some axis) CumMul x = Ok r
    /\ shape r = shape x
    /\ forall j, in_box (shape x) j = true ->
         item r j
         = fold_left
             (fun acc m =>
                rmul acc
                  (item x (set_nth j (Z.to_nat (axis mod ndim x))
                             (Z.of_nat m))))
             (seq 1 (Z.to_nat (nth (Z.to_nat (axis mod ndim x)) j 0)))
             (item x (set_nth j (Z.to_nat (axis mod ndim x)) 0)).
Proof.
  intros Hnd Haxis Hshp Hfirst.
  exact (cumop_axis_ok CumMul x axis Hnd Haxis Hshp (or_intror Hfirst)).
Qed.
End CumOpLoop.

Lemma cumop_add_is_cumsum_witness :
  exists r,
    cumop (Some (-1)) CumAdd arange_2_3_2 = Ok r
    /\ shape r = shape arange_2_3_2
    /\ forall j, in_box (shape arange_2_3_2) j = true ->
         item r j
         = fold_left
             (fun acc m =>
                radd acc
                  (item arange_2_3_2
                     (set_nth j (Z.to_nat (-1 mod ndim arange_2_3_2))
                        (Z.of_nat m))))
             (seq 1 (Z.to_nat
                       (nth (Z.to_nat (-1 mod ndim arange_2_3_2)) j 0)))
             (item arange_2_3_2
                (set_nth j (Z.to_nat (-1 mod ndim arange_2_3_2)) 0)).
Proof.
  apply (cumop_add_is_cumsum arange_2_3_2 (-1)).
  - vm_compute. discriminate.
  - vm_compute. split; [discriminate | reflexivity].
  - repeat constructor; vm_compute; discriminate.
Defined.

Lemma cumop_prod_first_axes_witness :
  exists r,
    cumop (Some 1) CumMul arange_2_3_2 = Ok r
    /\ shape r = shape arange_2_3_2
    /\ forall j, in_box (shape arange_2_3_2) j = true ->
         item r j
         = fold_left
             (fun acc m =>
                rmul acc
                  (item arange_2_3_2
                     (set_nth j (Z.to_nat (1 mod ndim arange_2_3_2))
                        (Z.of_nat m))))
             (seq 1 (Z.to_nat
                       (nth (Z.to_nat (1 mod ndim arange_2_3_2)) j 0)))
             (item arange_2_3_2
                (set_nth j (Z.to_nat (1 mod ndim arange_2_3_2)) 0)).
Proof.
  apply (cumop_prod_first_axes arange_2_3_2 1).
  - vm_compute. discriminate.
  - vm_compute. split; [discriminate | reflexivity].
  - repeat constructor; vm_compute; discriminate.
  - vm_compute. discriminate.
Defined.

(** * The forward operator with one kernel for each output position *)

Section UnsharedForward.
Context {R : Type} `{Scalar R}.

Add Ring scalar_ring_unshared_forward : scalar_ring.

(** An element of the dilated kernels. *)
Lemma item_dilate_kernel_unshared (F c1 x1 x2 f c r cc : Z) (K dil m : list Z)
    (kern : ndarray R) :
  0 <= f < F -> 0 <= c < c1 -> 0 <= r < x1 -> 0 <= cc < x2 ->
  item (dilate_kernel [F; c1; x1; x2] K dil kern) (f :: c :: r :: cc :: m)
  = if in_view (step_views K dil) m
    then item kern (f :: c :: r :: cc :: view_inverse (step_views K dil) m)
    else rzero.
Proof.
  intros Hf Hc Hr Hcc. unfold dilate_kernel, dilation_views.
  cbn [overwrite item full_views map app zeros_array].
  fold (step_views K dil).
  rewrite !in_view_unit_cons, !view_inverse_unit_cons by assumption.
  reflexivity.
Qed.

(** [conv] with one kernel for each output position. *)
Lemma conv_unshared_forward (self : ConvOp) (img kern : ndarray R)
    (B c1 G oco n1 n2 k1 k2 d1 d2 x1 x2 : Z) :
  convdim self = 2 -> num_groups self = G -> 1 <= G ->
  0 <= B -> 0 <= c1 -> 0 <= oco ->
  1 <= k1 -> 1 <= k2 -> 1 <= d1 -> 1 <= d2 ->
  x1 = n1 - dilated_size k1 d1 + 1 -> x2 = n2 - dilated_size k2 d2 + 1 ->
  1 <= x1 -> 1 <= x2 ->
  shape img = [B; G * c1; n1; n2] ->
  shape kern = [G * oco; c1; x1; x2; k1; k2] ->
  exists Y,
    conv self img kern "valid" (DilTuple [d1; d2]) G true "forward" = Ok Y
    /\ shape Y = [B; G * oco; x1; x2]
    /\ forall b g n r cc,
         0 <= b < B -> 0 <= g < G -> 0 <= n < oco ->
         0 <= r < x1 -> 0 <= cc < x2 ->
         item Y [b; g * oco + n; r; cc]
         = sum_range c1 (fun c =>
             sum_range k1 (fun ka =>
               sum_range k2 (fun kb =>
                 rmul (item img [b; g * c1 + c;
                                 r + d1 * (k1 - 1 - ka);
                                 cc + d2 * (k2 - 1 - kb)])
                      (item kern [g * oco + n; c; r; cc; ka; kb])))).
Proof.
  intros Hcd HG HG1 HB Hc1 Hoco Hk1 Hk2 Hd1 Hd2 Ex1 Ex2 Hx1 Hx2 Hi Hk.
  pose proof (dilated_size_pos k1 d1 Hk1 Hd1) as Hdk1.
  pose proof (dilated_size_pos k2 d2 Hk2 Hd2) as Hdk2.
  set (dk1 := dilated_size k1 d1) in *.
  set (dk2 := dilated_size k2 d2) in *.
  set (DK := dilate_kernel [G * oco; c1; x1; x2] [k1; k2] [d1; d2] kern).
  assert (SDK : shape DK = [G * oco; c1; x1; x2; dk1; dk2]) by reflexivity.
  destruct (conv_spec self img kern "valid" [d1; d2] true "forward"
              B (G * c1) (G * oco) c1 G oco [n1; n2] [x1; x2] [k1; k2]
              [x1; x2]
              (fun b g n c x =>
                 sum_range dk1 (fun m1 =>
                   sum_range dk2 (fun m2 =>
                     rmul (item (channel img b (g * c1 + c))
                             [nth 0 x 0 + m1; nth 1 x 0 + m2])
                          (item (channel DK (g * oco + n) c)
                             [nth 0 x 0; nth 1 x 0;
                              dk1 - 1 - m1; dk2 - 1 - m2])))))
    as (Y & EY & SY & IY); try assumption; try reflexivity;
    try (rewrite ?Hcd; unfold len; cbn [List.length]; lia);
    try (repeat constructor; lia); auto.
  - cbn [andb String.eqb Ascii.eqb Bool.eqb]. rewrite Hi, Hk, Hcd.
    change (G * oco :: c1 :: [x1; x2; k1; k2])
      with (G * oco :: [c1; x1; x2] ++ [k1; k2]).
    rewrite get_conv_output_shape_ok;
      try reflexivity; try (cbn; lia);
      [| cbn; auto | repeat constructor; lia].
    cbn [bind]. rewrite known_shape_some.
    rewrite (conv_out_sizes_valid [n1; n2] (dilated [k1; k2] [d1; d2])
               (Z.to_nat 2))
      by reflexivity.
    unfold valid_sizes, dilated, zip_with. cbn [combine map fst snd].
    fold dk1 dk2. now rewrite <- Ex1, <- Ex2.
  - intros b g n c Hb Hg Hn Hc.
    rewrite Hcd. cbn [Z.eqb Pos.eqb].
    fold DK.
    assert (S1 : shape (channel img b (g * c1 + c)) = [n1; n2])
      by (eapply shape_channel; eauto).
    assert (S2 : shape (channel DK (g * oco + n) c) = [x1; x2; dk1; dk2])
      by (eapply shape_channel; eauto).
    destruct (unshared2d_forward_ok self (channel img b (g * c1 + c))
                (channel DK (g * oco + n) c) n1 n2 x1 x2 dk1 dk2
                Hcd S1 S2) as (r & Er & Sr & Ir); try lia.
    exists r. split; [exact Er |]. split; [exact Sr |].
    intros x Hx.
    destruct x as [| row [| col [| ? ?]]]; try discriminate.
    rewrite !in_box_cons, in_box_nil in Hx.
    apply andb_true_iff in Hx as [Hrow Hx].
    apply andb_true_iff in Hx as [Hcol _].
    apply andb_true_iff in Hrow as [Hr1 Hr2].
    apply andb_true_iff in Hcol as [Hc1' Hc2].
    apply Z.leb_le in Hr1, Hc1'. apply Z.ltb_lt in Hr2, Hc2.
    rewrite Ir by lia. reflexivity.
  - exists Y. split; [exact EY |]. split; [exact SY |].
    intros b g n r cc Hb Hg Hn Hr Hcc.
    rewrite (IY b g n [r; cc]) by
        (try assumption; rewrite !in_box_cons, in_box_nil;
         destruct (Z.leb_spec 0 r), (Z.ltb_spec r x1), (Z.leb_spec 0 cc),
           (Z.ltb_spec cc x2); try lia; reflexivity).
    apply sum_range_ext. intros c Hc. cbn [nth].
    set (a' := fun x : list Z =>
      item DK ((g * oco + n) :: c :: r :: cc :: x)).
    set (b' := fun x : list Z =>
      item img [b; g * c1 + c; r + nth 0 x 0; cc + nth 1 x 0]).
    set (h := fun x k : list Z =>
      rmul (item kern ((g * oco + n) :: c :: r :: cc :: k))
           (b' (view_inverse
                  (map (fun n => Strided (n - 1) (-1) n) [dk1; dk2]) x))).
    assert (Hvalid : Forall2 valid_view (step_views [k1; k2] [d1; d2])
                       [dk1; dk2]).
    { apply (step_views_valid [k1; k2] [d1; d2]);
        [repeat constructor; lia | repeat constructor; lia | reflexivity]. }
    transitivity (sum_box [dk1; dk2] (fun x =>
      rmul (a' (view_index
                  (map (fun n => Strided (n - 1) (-1) n) [dk1; dk2]) x))
           (b' x))).
    { cbn [sum_box]. apply sum_range_ext. intros m1 Hm1.
      apply sum_range_ext. intros m2 Hm2.
      assert (S1 : shape img = B :: G * c1 :: [n1; n2]) by exact Hi.
      assert (S2 : shape DK = G * oco :: c1 :: [x1; x2; dk1; dk2])
        by exact SDK.
      rewrite (item_channel img _ _ _ _ _ [r + m1; cc + m2] S1 eq_refl).
      rewrite (item_channel DK _ _ _ _ _
                 [r; cc; dk1 - 1 - m1; dk2 - 1 - m2] S2 eq_refl).
      unfold a', b'. cbn [map view_index nth].
      replace (dk1 - 1 + -1 * m1) with (dk1 - 1 - m1) by lia.
      replace (dk2 - 1 + -1 * m2) with (dk2 - 1 - m2) by lia.
      ring. }
    etransitivity;
      [exact (sum_box_flip_if true [dk1; dk2] a' b'
                ltac:(repeat constructor; lia)) |].
    transitivity (sum_box [dk1; dk2] (fun x =>
      if in_view (step_views [k1; k2] [d1; d2]) x
      then h x (view_inverse (step_views [k1; k2] [d1; d2]) x)
      else rzero)).
    { apply sum_box_ext. intros x Hx. unfold a', DK.
      rewrite item_dilate_kernel_unshared by (try lia; nia).
      destruct (in_view (step_views [k1; k2] [d1; d2]) x);
        unfold h; [reflexivity | ring]. }
    etransitivity;
      [exact (sum_box_view (step_views [k1; k2] [d1; d2]) [dk1; dk2] h
                Hvalid) |].
    unfold step_views, zip_with. cbn [combine map fst snd view_shape sum_box].
    apply sum_range_ext. intros ka Hka. apply sum_range_ext. intros kb Hkb.
    unfold h, b'. cbn [view_index view_inverse map nth].
    rewrite !div_minus_one.
    replace (r + - (0 + d1 * ka - (dk1 - 1))) with (r + d1 * (k1 - 1 - ka))
      by (unfold dk1, dilated_size; lia).
    replace (cc + - (0 + d2 * kb - (dk2 - 1))) with (cc + d2 * (k2 - 1 - kb))
      by (unfold dk2, dilated_size; lia).
    ring.
Qed.
(** X26 ([BaseAbstractConv.conv] with [unshared=True], forward, on top of
    [BaseAbstractConv.unshared2d]): for a two-dimensional operator, an image
    of shape [(B, G * c1, n1, n2)] and kernels of shape
    [(G * oco, c1, x1, x2, k1, k2)], one for each of the [x1 * x2] output
    positions, where [x1] and [x2] are the sizes of a valid convolution with
    the dilated kernel, [conv] returns an array of shape
    [(B, G * oco, x1, x2)]; its element at [(b, g * oco + n, r, cc)] is the
    sum over the input channels [c] of group [g] and the kernel elements
    [(ka, kb)] of the image at
    [(b, g * c1 + c, r + d1 * (k1 - 1 - ka), cc + d2 * (k2 - 1 - kb))] times
    the kernel of that position, [kern[g * oco + n, c, r, cc, ka, kb]]. *)
Theorem conv_unshared_forward_elements (self : ConvOp) (img kern : ndarray R)
    (B c1 G oco n1 n2 k1 k2 d1 d2 x1 x2 : Z) :
  convdim self = 2 -> num_groups self = G -> 1 <= G ->
  0 <= B -> 0 <= c1 -> 0 <= oco ->
  1 <= k1 -> 1 <= k2 -> 1 <= d1 -> 1 <= d2 ->
  x1 = n1 - dilated_size k1 d1 + 1 -> x2 = n2 - dilated_size k2 d2 + 1 ->
  1 <= x1 -> 1 <= x2 ->
  shape img = [B; G * c1; n1; n2] ->
  shape kern = [G * oco; c1; x1; x2; k1; k2] ->
  exists Y,
    conv self img kern "valid" (DilTuple [d1; d2]) G true "forward" = Ok Y
    /\ shape Y = [B; G * oco; x1; x2]
    /\ forall b g n r cc,
         0 <= b < B -> 0 <= g < G -> 0 <= n < oco ->
         0 <= r < x1 -> 0 <= cc < x2 ->
         item Y [b; g * oco + n; r; cc]
         = sum_range c1 (fun c =>
             sum_range k1 (fun ka =>
               sum_range k2 (fun kb =>
                 rmul (item img [b; g * c1 + c;
                                 r + d1 * (k1 - 1 - ka);
                                 cc + d2 * (k2 - 1 - kb)])
                      (item kern [g * oco + n; c; r; cc; ka; kb])))).
Proof.
  intros Hcd HG HG1 HB Hc1 Hoco Hk1 Hk2 Hd1 Hd2 Ex1 Ex2 Hx1 Hx2 Hi Hk.
  exact (conv_unshared_forward self img kern B c1 G oco n1 n2 k1 k2 d1 d2
           x1 x2 Hcd HG HG1 HB Hc1 Hoco Hk1 Hk2 Hd1 Hd2 Ex1 Ex2 Hx1 Hx2
           Hi Hk).
Qed.
End UnsharedForward.

Lemma conv_unshared_forward_elements_witness :
  exists Y,
    conv example_conv_op (counting_array [1; 2; 4; 5])
      (countdown_array [2; 1; 3; 3; 2; 2]) "valid" (DilTuple [1; 2]) 2 true
      "forward" = Ok Y
    /\ shape Y = [1; 2 * 1; 3; 3]
    /\ forall b g n r cc,
         0 <= b < 1 -> 0 <= g < 2 -> 0 <= n < 1 ->
         0 <= r < 3 -> 0 <= cc < 3 ->
         item Y [b; g * 1 + n; r; cc]
         = sum_range 1 (fun c =>
             sum_range 2 (fun ka =>
               sum_range 2 (fun kb =>
                 rmul (item (counting_array [1; 2; 4; 5])
                         [b; g * 1 + c;
                          r + 1 * (2 - 1 - ka); cc + 2 * (2 - 1 - kb)])
                      (item (countdown_array [2; 1; 3; 3; 2; 2])
                         [g * 1 + n; c; r; cc; ka; kb])))).
Proof.
  apply (conv_unshared_forward_elements example_conv_op
           (counting_array [1; 2; 4; 5])
           (countdown_array [2; 1; 3; 3; 2; 2])
           1 1 2 1 4 5 2 2 1 2 3 3);
    try reflexivity; lia.
Defined.
